(** * reactLive2dLoad: the asset loading pipeline and its runtime helpers

    A shallow embedding of the TypeScript integration layer
    (LAppWavFileHandler, LAppTextureManager, LAppModel, LAppLive2DManager)
    and the properties of it that the specification states.

    Conventions.
    - JavaScript's 32-bit integer operators ([<<], [|]) are modelled on [Z]
      with the wrap-around written out ([toInt32]).
    - JavaScript numbers that are not 32-bit words are binary64 floats.  The
      finite ones are rationals ([Q]); the places where IEEE arithmetic
      leaves the finite range (a division by zero, a result too large) are
      explicit in [jsnum].  The arithmetic of [update] is rounded to
      binary64 and what a Float32Array holds to binary32 ([Num.fl64],
      [Num.toFloat32]); the quotient [getPcmSample] returns and the frame
      count of [loadWavFile] are kept as the quotients they round.
    - A thrown exception is [None] in the reader monad; code that loops is
      given fuel, and running out of fuel is a result of its own.
    - Asynchronous completions (fetch, image decode) are events delivered to
      an explicit list of pending operations, in any order; an async
      function is cut at its awaits into the pieces that run in one go. *)

From Stdlib Require Import ZArith QArith Qround Qabs Qpower List String Bool Lia Lqa
  Permutation.
From Stdlib Require Import Strings.Byte DecimalString.
Import ListNotations.

Local Open Scope Z_scope.

(** ** JavaScript 32-bit integer operators *)

Module JS.

(** ToInt32: reduction modulo 2^32 into [-2^31, 2^31). *)
Definition toInt32 (z : Z) : Z := (z + 2147483648) mod 4294967296 - 2147483648.

(** [x << n]: both operands are converted, the count is taken modulo 32. *)
Definition shl (x n : Z) : Z := toInt32 (Z.shiftl (toInt32 x) (n mod 32)).

(** [x | y]. *)
Definition bor (x y : Z) : Z := toInt32 (Z.lor (toInt32 x) (toInt32 y)).

End JS.

(** ** JavaScript numbers outside the 32-bit words *)

Module Num.

Local Open Scope Q_scope.

(** A binary64 value: not-a-number, an infinity, or a finite value, a
    rational. *)
Inductive jsnum :=
| JNaN
| JInf (negative : bool)
| JFin (q : Q).

Definition Qlt_bool (a b : Q) : bool := negb (Qle_bool b a).

(** [n / d] on finite operands, the quotient in lowest terms; the divisors
    of this program are never negative zeros with a non-zero dividend. *)
Definition jsdiv (n d : Q) : jsnum :=
  if Qeq_bool d 0 then
    if Qeq_bool n 0 then JNaN else JInf (Qlt_bool n 0)
  else JFin (Qred (n / d)).

(** [x / d] where the dividend may already be not-a-number. *)
Definition jsdivn (x : jsnum) (d : Q) : jsnum :=
  match x with
  | JFin n => jsdiv n d
  | JNaN => JNaN
  | JInf s => if Qeq_bool d 0 then JInf s else JInf (xorb s (Qlt_bool d 0))
  end.

(** *** Rounding to a binary format

    The sums, products and quotients of [update] are binary64 operations,
    and a Float32Array holds binary32 values: each is the exact result
    rounded to the nearest value of the format, to the one with the even
    significand when two are equally near.  A format has [p] significant
    bits and a smallest positive value [2^emin]; its finite values are the
    whole multiples [m * 2^u] with [|m| < 2^p] and [emin <= u].  binary64
    is [p] = 53 and [emin] = -1074, binary32 is [p] = 24 and
    [emin] = -149. *)

Definition pow2 (z : Z) : Q := 2 ^ z.

(** The exponent of the power of two at or below a positive [q]. *)
Definition ilog2 (q : Q) : Z :=
  let e := (Z.log2 (Qnum q) - Z.log2 (Zpos (Qden q)))%Z in
  if Qle_bool (pow2 e) q then e else (e - 1)%Z.

(** The whole number nearest to [x], the even one of two equally near. *)
Definition nearestEven (x : Q) : Z :=
  let f := Qfloor x in
  match Qcompare (x - inject_Z f) (1 # 2) with
  | Lt => f
  | Gt => (f + 1)%Z
  | Eq => if Z.even f then f else (f + 1)%Z
  end.

(** [q] rounded to the format, in lowest terms, as if no value were too
    large for the format. *)
Definition roundTo (p emin : Z) (q : Q) : Q :=
  if Qeq_bool q 0 then 0
  else
    let a := Qabs q in
    let u := Z.max (ilog2 a - (p - 1)) emin in
    let r := Qred (inject_Z (nearestEven (a / pow2 u)) * pow2 u) in
    if Qlt_bool q 0 then - r else r.

Definition fl64 : Q -> Q := roundTo 53 (-1074).
Definition fl32 : Q -> Q := roundTo 24 (-149).

(** The exponent of the last place of a positive [a] in the format, and [a]
    rounded at that place: what [roundTo] makes of a positive [a], before
    it is put in lowest terms. *)
Definition ulpExponent (p emin : Z) (a : Q) : Z := Z.max (ilog2 a - (p - 1)) emin.

Definition roundPos (p emin : Z) (a : Q) : Q :=
  inject_Z (nearestEven (a / pow2 (ulpExponent p emin a)))
  * pow2 (ulpExponent p emin a).

(** The values of the format that are not negative. *)
Definition representable (p emin : Z) (r : Q) : Prop :=
  exists m u, r == inject_Z m * pow2 u /\ (0 <= m < 2 ^ p)%Z /\ (emin <= u)%Z.

(** The double an exact result comes to: an infinity from 2^1024 on. *)
Definition toDouble (q : Q) : jsnum :=
  let r := fl64 q in
  if Qle_bool (pow2 1024) (Qabs r) then JInf (Qlt_bool r 0) else JFin r.

Definition round64 (x : jsnum) : jsnum :=
  match x with
  | JFin q => toDouble q
  | other => other
  end.

(** What a Float32Array holds after a store of the double nearest to [q].
    The values stored by this program are quotients of magnitude 1 or so,
    far below the largest binary32. *)
Definition toFloat32 (q : Q) : Q := fl32 (fl64 q).

(** [acc += v * v] in binary64: the product is rounded, then the sum; [v] is
    [undefined] (so the product is NaN) when the read fell outside the
    array. *)
Definition addSquare (acc : jsnum) (v : option Q) : jsnum :=
  match acc, v with
  | JFin a, Some x =>
      match toDouble (x * x) with
      | JFin s => toDouble (a + s)
      | other => other
      end
  | JInf s, Some _ => JInf s
  | _, _ => JNaN
  end.

(** The result of Math.sqrt, kept symbolic: [Sqrt q] is what Math.sqrt
    returns on the double [q], which is not negative. *)
Inductive root :=
| RootNaN
| RootInf
| Sqrt (q : Q).

Definition mathSqrt (x : jsnum) : root :=
  match x with
  | JNaN => RootNaN
  | JInf true => RootNaN
  | JInf false => RootInf
  | JFin q => if Qlt_bool q 0 then RootNaN else Sqrt q
  end.

(** Whether a root is a number at all, and a non-negative finite one. *)
Definition isNaN (r : root) : bool :=
  match r with RootNaN => true | _ => false end.

(** [a >= x] and [a > x] for a finite [a]; every comparison with NaN is false. *)
Definition geNum (a : Q) (x : jsnum) : bool :=
  match x with
  | JNaN => false
  | JInf negative => negative
  | JFin q => Qle_bool q a
  end.

Definition gtNum (a : Q) (x : jsnum) : bool :=
  match x with
  | JNaN => false
  | JInf negative => negative
  | JFin q => Qlt_bool q a
  end.

(** ToIndex, as the typed-array constructor applies it to a length: NaN is 0,
    a fraction is cut towards zero, and a negative or infinite length is a
    RangeError ([None]). *)
Definition toIndex (x : jsnum) : option Z :=
  match x with
  | JNaN => Some 0%Z
  | JInf _ => None
  | JFin q =>
      let n := if Qlt_bool q 0 then Qceiling q else Qfloor q in
      if (n <? 0)%Z then None else Some n
  end.

(** Whether [q] is a whole number. *)
Definition isInteger (q : Q) : bool := Qeq_bool (inject_Z (Qfloor q)) q.

(** [arr[i]] on a typed array: [undefined] unless [i] is an index in range. *)
Definition element (arr : list Q) (i : Q) : option Q :=
  if isInteger i && (0 <=? Qfloor i)%Z then nth_error arr (Z.to_nat (Qfloor i))
  else None.

End Num.

(** ** LAppWavFileHandler *)

Module Wav.

Import JS Num.

(** How a piece of code ends: with a value, by throwing, or still inside a
    loop when the fuel given to it ran out. *)
Inductive outcome (A : Type) :=
| Val (a : A)
| Thrown
| Spinning.
Arguments Val {A} a.
Arguments Thrown {A}.
Arguments Spinning {A}.

(** Code over a mutable state [S]: the state reached is kept in every case,
    since what was written before a throw stays written. *)
Definition St (S A : Type) : Type := S -> outcome A * S.

Definition ret {S A} (a : A) : St S A := fun s => (Val a, s).
Definition throw {S A} : St S A := fun s => (Thrown, s).
Definition bind {S A B} (c : St S A) (k : A -> St S B) : St S B :=
  fun s => match c s with
           | (Val a, s') => k a s'
           | (Thrown, s') => (Thrown, s')
           | (Spinning, s') => (Spinning, s')
           end.
Definition gets {S A} (f : S -> A) : St S A := fun s => (Val (f s), s).
Definition modify {S} (f : S -> S) : St S unit := fun s => (Val tt, f s).

Notation "x <- c ;; k" := (bind c (fun x => k))
  (at level 61, c at next level, right associativity).
Notation "c ;;; k" := (bind c (fun _ => k))
  (at level 61, right associativity).

(** [for (i = start; ...; i++) body(i)], [n] times. *)
Fixpoint for_ {S} (n : nat) (i : Z) (body : Z -> St S unit) : St S unit :=
  match n with
  | O => ret tt
  | S n' => body i ;;; for_ n' (i + 1) body
  end.

(** *** ByteReader *)

(** [_fileDataView] is a view of [_fileByte], so one field holds both. *)
Record ByteReader := mkReader {
  _fileByte : list byte;
  _fileSize : Z;
  _readOffset : Z
}.

Definition setOffset (off : Z) (r : ByteReader) : ByteReader :=
  mkReader (_fileByte r) (_fileSize r) off.

(** DataView.getUint8: a RangeError outside the buffer. *)
Definition getUint8 (view : list byte) (off : Z) : option Z :=
  if off <? 0 then None
  else option_map (fun b => Z.of_N (Byte.to_N b)) (nth_error view (Z.to_nat off)).

Definition R := St ByteReader.

Definition peek (delta : Z) : R Z :=
  fun r => match getUint8 (_fileByte r) (_readOffset r + delta) with
           | Some v => (Val v, r)
           | None => (Thrown, r)
           end.
Definition advance (n : Z) : R unit :=
  modify (fun r => setOffset (_readOffset r + n) r).

Definition get8 : R Z :=
  ret_ <- peek 0 ;;
  advance 1 ;;;
  ret ret_.

(** The operands of [|] are read left to right, highest byte first. *)
Definition get16LittleEndian : R Z :=
  b1 <- peek 1 ;;
  b0 <- peek 0 ;;
  advance 2 ;;;
  ret (bor (shl b1 8) b0).

Definition get24LittleEndian : R Z :=
  b2 <- peek 2 ;;
  b1 <- peek 1 ;;
  b0 <- peek 0 ;;
  advance 3 ;;;
  ret (bor (bor (shl b2 16) (shl b1 8)) b0).

Definition get32LittleEndian : R Z :=
  b3 <- peek 3 ;;
  b2 <- peek 2 ;;
  b1 <- peek 1 ;;
  b0 <- peek 0 ;;
  advance 4 ;;;
  ret (bor (bor (bor (shl b3 24) (shl b2 16)) (shl b1 8)) b0).

(** TextEncoder on an ASCII reference: one byte per character, the code of
    the character.  The four signatures the program passes are ASCII; for a
    reference with other characters [reference.length] counts UTF-16 units
    and TextEncoder gives the UTF-8 bytes, which this is not. *)
Definition encode (reference : string) : list Z :=
  map (fun b => Z.of_N (Byte.to_N b)) (list_byte_of_string reference).

(** Whether every character of [reference] is an ASCII character. *)
Definition isAscii (reference : string) : bool :=
  forallb (fun code => code <? 128) (encode reference).

Definition getCheckSignature (reference : string) : R bool :=
  if negb (Nat.eqb (String.length reference) 4) then ret false
  else
    s0 <- get8 ;; s1 <- get8 ;; s2 <- get8 ;; s3 <- get8 ;;
    ret (match encode reference with
         | [r0; r1; r2; r3] =>
             (s0 =? r0) && (s1 =? r1) && (s2 =? r2) && (s3 =? r3)
         | _ => false
         end).

(** *** The handler *)

Record WavFileInfo := mkInfo {
  _fileName : string;
  _numberOfChannels : Z;
  _bitsPerSample : Z;
  _samplingRate : Z;
  _samplesPerChannel : jsnum
}.

(** [_pcmData]: one Float32Array per channel, or null. *)
Record LAppWavFileHandler := mkHandler {
  _pcmData : option (list (list Q));
  _userTimeSeconds : Q;
  _lastRms : root;
  _sampleOffset : Q;
  _wavFileInfo : WavFileInfo;
  _byteReader : ByteReader
}.

Definition H := St LAppWavFileHandler.

Definition setPcmData v (h : LAppWavFileHandler) :=
  mkHandler v (_userTimeSeconds h) (_lastRms h) (_sampleOffset h)
            (_wavFileInfo h) (_byteReader h).
Definition setUserTimeSeconds v (h : LAppWavFileHandler) :=
  mkHandler (_pcmData h) v (_lastRms h) (_sampleOffset h)
            (_wavFileInfo h) (_byteReader h).
Definition setLastRms v (h : LAppWavFileHandler) :=
  mkHandler (_pcmData h) (_userTimeSeconds h) v (_sampleOffset h)
            (_wavFileInfo h) (_byteReader h).
Definition setSampleOffset v (h : LAppWavFileHandler) :=
  mkHandler (_pcmData h) (_userTimeSeconds h) (_lastRms h) v
            (_wavFileInfo h) (_byteReader h).
Definition setInfo (f : WavFileInfo -> WavFileInfo) (h : LAppWavFileHandler) :=
  mkHandler (_pcmData h) (_userTimeSeconds h) (_lastRms h) (_sampleOffset h)
            (f (_wavFileInfo h)) (_byteReader h).
Definition setReader (r : ByteReader) (h : LAppWavFileHandler) :=
  mkHandler (_pcmData h) (_userTimeSeconds h) (_lastRms h) (_sampleOffset h)
            (_wavFileInfo h) r.

(** A call of a reader method on [this._byteReader]. *)
Definition reader {A} (c : R A) : H A :=
  fun h => let (o, r') := c (_byteReader h) in (o, setReader r' h).

(** The handler as its constructor leaves it. *)
Definition newHandler : LAppWavFileHandler :=
  mkHandler None 0%Q (Sqrt 0) 0%Q
            (mkInfo "" 0 0 0 (JFin 0))
            (mkReader [] 0 0).

(** getPcmSample: the 32-bit word [pcm32] of the switch ... *)
Definition pcm32 (bitsPerSample : Z) : R Z :=
  if bitsPerSample =? 8 then
    v <- get8 ;; ret (shl (v - 128) 24)
  else if bitsPerSample =? 16 then
    v <- get16LittleEndian ;; ret (shl v 16)
  else if bitsPerSample =? 24 then
    v <- get24LittleEndian ;; ret (shl v 8)
  else ret 0.

(** ... and the returned quotient [pcm32 / 2147483647], in lowest terms. *)
Definition getPcmSample : H Q :=
  bits <- gets (fun h => _bitsPerSample (_wavFileInfo h)) ;;
  w <- reader (pcm32 bits) ;;
  ret (Qred (w # 2147483647)).

Definition releasePcmData : H unit := modify (setPcmData None).


(** *** loadWavFile *)

Definition tryCatch {S A} (c : St S A) (handler : St S A) : St S A :=
  fun s => match c s with
           | (Thrown, s') => handler s'
           | other => other
           end.

(** The scan for the [data] chunk:
    [while (!getCheckSignature('data') && _readOffset < _fileSize)
       _readOffset += get32LittleEndian() + 4;]
    A compound assignment reads its left operand before it evaluates the
    right one, so the 4 that [get32LittleEndian] adds to the offset meanwhile
    is overwritten: the new offset is the old one plus the declared size
    plus 4. *)
Fixpoint scanForData (fuel : nat) : R unit :=
  match fuel with
  | O => fun r => (Spinning, r)
  | S fuel' =>
      isData <- getCheckSignature "data" ;;
      off <- gets _readOffset ;;
      fileSize <- gets _fileSize ;;
      if negb isData && (off <? fileSize) then
        lval <- gets _readOffset ;;
        size <- get32LittleEndian ;;
        modify (setOffset (lval + (size + 4))) ;;;
        scanForData fuel'
      else ret tt
  end.

(** How often [for (i = 0; i < bound; i++)] runs; [None]: it never ends. *)
Definition loopCount (bound : jsnum) : option nat :=
  match bound with
  | JNaN => Some O
  | JInf true => Some O
  | JInf false => None
  | JFin q => Some (Z.to_nat (Qceiling q))
  end.

(** [l[n] = f(l[n])] where an index outside [l] is left alone. *)
Fixpoint setAt {A} (n : nat) (f : A -> A) (l : list A) : list A :=
  match l, n with
  | [], _ => []
  | x :: t, O => f x :: t
  | x :: t, S n' => x :: setAt n' f t
  end.

(** [_pcmData[channelCount][sampleCount] = v]: the array holds [v] rounded to
    binary32; a store outside a typed array is ignored. *)
Definition storeSample (channelCount sampleCount : Z) (v : Q) : H unit :=
  fun h => match _pcmData h with
           | Some arrs =>
               if (channelCount <? 0) || (Z.of_nat (List.length arrs) <=? channelCount)
               then (Thrown, h)
               else
                 let put (arr : list Q) :=
                   if sampleCount <? 0 then arr
                   else setAt (Z.to_nat sampleCount) (fun _ => toFloat32 v) arr in
                 (Val tt, setPcmData (Some (setAt (Z.to_nat channelCount) put arrs)) h)
           | None => (Thrown, h)
           end.

Section Host.

(** The host decides whether a typed array of a given length can be made; it
    throws a RangeError when it cannot. *)
Variable canAllocate : Z -> bool.

Definition newFloat32Array (len : jsnum) : H (list Q) :=
  match toIndex len with
  | Some n => if canAllocate n then ret (repeat 0%Q (Z.to_nat n)) else throw
  | None => throw
  end.

(** [_pcmData = new Array(channels)] filled with one array per channel. *)
Fixpoint allocateChannels (channels : nat) (len : jsnum) : H (list (list Q)) :=
  match channels with
  | O => ret []
  | S c =>
      arr <- newFloat32Array len ;;
      rest <- allocateChannels c len ;;
      ret (arr :: rest)
  end.

(** The part of [loadWavFile] after the [data] signature was found. *)
Definition readData : H bool :=
  dataChunkSize <- reader get32LittleEndian ;;
  bits <- gets (fun h => _bitsPerSample (_wavFileInfo h)) ;;
  channels <- gets (fun h => _numberOfChannels (_wavFileInfo h)) ;;
  let samplesPerChannel :=
    jsdiv (inject_Z (dataChunkSize * 8)) (inject_Z (bits * channels)) in
  modify (setInfo (fun i => mkInfo (_fileName i) (_numberOfChannels i)
                                  (_bitsPerSample i) (_samplingRate i)
                                  samplesPerChannel)) ;;;
  (* the outer array exists, with empty slots, before the Float32Arrays are
     made; reading through an empty slot throws like reading a missing one *)
  modify (setPcmData (Some [])) ;;;
  arrs <- allocateChannels (Z.to_nat channels) samplesPerChannel ;;
  modify (setPcmData (Some arrs)) ;;;
  match loopCount samplesPerChannel with
  | None => fun h => (Spinning, h)
  | Some n =>
      for_ n 0 (fun sampleCount =>
        for_ (Z.to_nat channels) 0 (fun channelCount =>
          v <- getPcmSample ;;
          storeSample channelCount sampleCount v)) ;;;
      ret true
  end.

(** [loadWavFile] is an async function.  A call runs it up to its first
    [await]: the clip held, if there is one, is released, the fetch is
    started, and the caller has its promise. *)
Definition loadWavFileCalled : H unit :=
  pcm <- gets _pcmData ;;
  match pcm with Some _ => releasePcmData | None => ret tt end.

(** The rest of [loadWavFile] runs once the fetch and the read of the body
    have settled, in one piece (there is no [await] after these two);
    [fetched] is the body, [None] when either was rejected.  The scan runs on
    [fuel].  The fetch in flight is not a field of the handler: the path and
    the body are handed to this part when it runs. *)
Definition loadWavFileSettled (fuel : nat) (filePath : string)
    (fetched : option (list byte)) : H bool :=
  tryCatch
    (match fetched with
     | None => throw
     | Some body =>
         modify (setReader (mkReader body (Z.of_nat (List.length body)) 0)) ;;;
         fileSize <- gets (fun h => _fileSize (_byteReader h)) ;;
         if fileSize <? 4 then ret false else
         modify (setInfo (fun i => mkInfo filePath (_numberOfChannels i)
                                         (_bitsPerSample i) (_samplingRate i)
                                         (_samplesPerChannel i))) ;;;
         riff <- reader (getCheckSignature "RIFF") ;;
         if negb riff then ret false else
         reader get32LittleEndian ;;;
         wave <- reader (getCheckSignature "WAVE") ;;
         if negb wave then ret false else
         fmt <- reader (getCheckSignature "fmt ") ;;
         if negb fmt then ret false else
         fmtChunkSize <- reader get32LittleEndian ;;
         format <- reader get16LittleEndian ;;
         if negb (format =? 1) then ret false else
         channels <- reader get16LittleEndian ;;
         modify (setInfo (fun i => mkInfo (_fileName i) channels
                                         (_bitsPerSample i) (_samplingRate i)
                                         (_samplesPerChannel i))) ;;;
         rate <- reader get32LittleEndian ;;
         modify (setInfo (fun i => mkInfo (_fileName i) (_numberOfChannels i)
                                         (_bitsPerSample i) rate
                                         (_samplesPerChannel i))) ;;;
         reader get32LittleEndian ;;;
         reader get16LittleEndian ;;;
         bits <- reader get16LittleEndian ;;
         modify (setInfo (fun i => mkInfo (_fileName i) (_numberOfChannels i)
                                         bits (_samplingRate i)
                                         (_samplesPerChannel i))) ;;;
         (if 16 <? fmtChunkSize
          then reader (advance (fmtChunkSize - 16)) else ret tt) ;;;
         reader (scanForData fuel) ;;;
         off <- gets (fun h => _readOffset (_byteReader h)) ;;
         size <- gets (fun h => _fileSize (_byteReader h)) ;;
         if size <=? off then ret false else
         readData
     end)
    (ret false).

(** [await loadWavFile(filePath)] when nothing else touches the handler
    between the call and the settlement. *)
Definition loadWavFile (fuel : nat) (filePath : string)
    (fetched : option (list byte)) : H bool :=
  pcm <- gets _pcmData ;;
  (match pcm with Some _ => releasePcmData | None => ret tt end) ;;;
  loadWavFileSettled fuel filePath fetched.

End Host.

(** [start]: the offsets are reset and [loadWavFile] is called, not awaited:
    [start] returns when that call reaches its first [await], with the load
    still to come. *)
Definition start (filePath : string) : H unit :=
  modify (setSampleOffset 0%Q) ;;;
  modify (setUserTimeSeconds 0%Q) ;;;
  modify (setLastRms (Sqrt 0)) ;;;
  loadWavFileCalled.

(** *** update and getRms *)

(** The squares of [arr[start]], [arr[start + 1]], ... ([n] of them) added
    to [acc]. *)
Definition channelSquares (arr : list Q) (n : nat) (start : Q) (acc : jsnum)
  : jsnum :=
  fold_left
    (fun a k => addSquare a (element arr (start + inject_Z (Z.of_nat k))%Q))
    (seq 0 n) acc.

(** The two nested loops of [update] over [chs] channels from channel [ch]
    on; [None] is the TypeError of [_pcmData[ch][...]] on a missing channel,
    which only a loop that runs can raise. *)
Fixpoint sumSquares (chs ch : nat) (pcmData : list (list Q)) (n : nat)
    (start : Q) (acc : jsnum) : option jsnum :=
  match chs with
  | O => Some acc
  | S c =>
      match n with
      | O => sumSquares c (S ch) pcmData n start acc
      | S _ =>
          match nth_error pcmData ch with
          | None => None
          | Some arr =>
              sumSquares c (S ch) pcmData n start (channelSquares arr n start acc)
          end
      end
  end.

(** The number of runs of [for (s = from; s < to; s++)]. *)
Definition windowLength (from to : Q) : nat := Z.to_nat (Qceiling (to - from)).

Definition finish : H bool :=
  modify (setLastRms (Sqrt 0)) ;;; ret false.

(** The body of [update] once the early return has not been taken, with
    [goalOffset] already clamped. *)
Definition measure (pcmData : list (list Q)) (goalOffset : Q) : H bool :=
  fun h =>
    let info := _wavFileInfo h in
    let channels := _numberOfChannels info in
    match sumSquares (Z.to_nat channels) 0 pcmData
            (windowLength (_sampleOffset h) goalOffset) (_sampleOffset h)
            (JFin 0) with
    | None => (Thrown, h)
    | Some rms =>
        let rms' :=
          mathSqrt
            (round64
               (jsdivn rms
                  (fl64 (inject_Z channels * fl64 (goalOffset - _sampleOffset h))%Q))) in
        (Val true, setSampleOffset goalOffset (setLastRms rms' h))
    end.

(** [update]; the tick stands for the double nearest to it, and the clock
    and its product with the rate are doubles.  (A clock of 2^1024 seconds
    or more, where the double is an infinity, is outside the model.) *)
Definition update (deltaTimeSeconds : Q) : H bool :=
  fun h =>
    let info := _wavFileInfo h in
    match _pcmData h with
    | None => finish h
    | Some pcmData =>
        if geNum (_sampleOffset h) (_samplesPerChannel info) then finish h
        else
          let h1 :=
            setUserTimeSeconds
              (fl64 (_userTimeSeconds h + fl64 deltaTimeSeconds)%Q) h in
          let floor_ :=
            inject_Z
              (Qfloor (fl64 (_userTimeSeconds h1 * inject_Z (_samplingRate info)))) in
          let goalOffset :=
            match _samplesPerChannel info with
            | JFin s => if Qlt_bool s floor_ then s else floor_
            | _ => floor_ (* no clamp against NaN or +Infinity; -Infinity has returned above *)
            end in
          measure pcmData goalOffset h1
    end.

Definition getRms (h : LAppWavFileHandler) : root := _lastRms h.

End Wav.

(** ** The sample format in the specification's words

    These definitions follow the specification, not the code: a sample is
    8-bit unsigned offset by 128, or 16-bit or 24-bit signed little-endian,
    and is moved into the high bits of a 32-bit word; any other depth is
    silence.  They are compared with [Wav.getPcmSample] below. *)

Module WavSpec.

(** The value of a 16-bit (24-bit) pattern read as a signed number. *)
Definition signed16 (v : Z) : Z := if v <? 32768 then v else v - 65536.
Definition signed24 (v : Z) : Z := if v <? 8388608 then v else v - 16777216.

Fixpoint littleEndian (bs : list Z) : Z :=
  match bs with
  | [] => 0
  | b :: t => b + 256 * littleEndian t
  end.

(** The bytes one sample takes. *)
Definition sampleBytes (bits : Z) : nat :=
  if bits =? 8 then 1 else if bits =? 16 then 2 else if bits =? 24 then 3 else 0.

Definition specWord (bits : Z) (bs : list Z) : Z :=
  if bits =? 8 then (littleEndian bs - 128) * 2 ^ 24
  else if bits =? 16 then signed16 (littleEndian bs) * 2 ^ 16
  else if bits =? 24 then signed24 (littleEndian bs) * 2 ^ 8
  else 0.

(** The [n] bytes at [off], when all of them are inside the buffer. *)
Fixpoint readBytes (view : list byte) (off : Z) (n : nat) : option (list Z) :=
  match n with
  | O => Some []
  | S n' =>
      match Wav.getUint8 view off, readBytes view (off + 1) n' with
      | Some b, Some t => Some (b :: t)
      | _, _ => None
      end
  end.

End WavSpec.

(** ** ModelLoader: logical paths to served locations *)

Module Loader.

(** [modelFiles], the table Vite fills in at build time; [modelFiles path]
    is the served location of [path] when the table has one. *)
Definition AssetTable := string -> option string.

(** getAssetUrl: a location that is missing, or empty, falls back to the
    path itself (after a console warning). *)
Definition getAssetUrl (modelFiles : AssetTable) (path : string) : string :=
  match modelFiles (String.append "/src/assets" path) with
  | Some url => if String.eqb url "" then path else url
  | None => path
  end.

End Loader.

(** ** LAppTextureManager *)

Module Texture.

Record TextureInfo := mkTexture {
  img : nat;            (* the HTMLImageElement, by identity *)
  id : nat;             (* the WebGLTexture handle *)
  width : Z;
  height : Z;
  usePremultply : bool;
  fileName : string
}.

Definition setImg (i : nat) (t : TextureInfo) : TextureInfo :=
  mkTexture i (id t) (width t) (height t) (usePremultply t) (fileName t).

(** The load listener of an image whose decode is in flight.  The listener
    of a cache hit keeps the iterator, that is the position in [_textures];
    the listener of a miss keeps the key and the image. *)
Inductive Listener (C : Type) :=
| OnHit (position : nat) (callback : C)
| OnMiss (fileName : string) (usePremultiply : bool) (image : nat) (callback : C).
Arguments OnHit {C} position callback.
Arguments OnMiss {C} fileName usePremultiply image callback.

Section Cache.

(** The callbacks acquirers pass in. *)
Variable C : Type.
Variable modelFiles : Loader.AssetTable.

Record LAppTextureManager := mkManager {
  _textures : list TextureInfo;
  decoding : list (string * Listener C);         (* image src, listener *)
  images : nat;                                  (* images made so far *)
  handles : nat;                                 (* gl.createTexture calls so far *)
  called : list (C * option TextureInfo);        (* callbacks made, oldest first *)
  deleted : list nat                             (* gl.deleteTexture calls *)
}.

Definition newManager : LAppTextureManager := mkManager [] [] 0 0 [] [].

Definition sameKey (fileName : string) (usePremultiply : bool) (t : TextureInfo)
  : bool :=
  String.eqb (Texture.fileName t) fileName
  && Bool.eqb (usePremultply t) usePremultiply.

(** The position of the first record with the key, as the iterator loop
    finds it. *)
Fixpoint find (fileName : string) (usePremultiply : bool)
    (l : list TextureInfo) : option nat :=
  match l with
  | [] => None
  | t :: rest =>
      if sameKey fileName usePremultiply t then Some O
      else option_map S (find fileName usePremultiply rest)
  end.

Fixpoint setNth (n : nat) (f : TextureInfo -> TextureInfo)
    (l : list TextureInfo) : list TextureInfo :=
  match l, n with
  | [], _ => []
  | t :: rest, O => f t :: rest
  | t :: rest, S n' => t :: setNth n' f rest
  end.

Definition createTextureFromPngFile (fileName : string) (usePremultiply : bool)
    (callback : C) (m : LAppTextureManager) : LAppTextureManager :=
  let imageUrl := Loader.getAssetUrl modelFiles fileName in
  let image := images m in
  match find fileName usePremultiply (_textures m) with
  | Some position =>
      mkManager (setNth position (setImg image) (_textures m))
                (decoding m ++ [(imageUrl, OnHit position callback)])
                (S image) (handles m) (called m) (deleted m)
  | None =>
      mkManager (_textures m)
                (decoding m ++ [(imageUrl, OnMiss fileName usePremultiply image callback)])
                (S image) (handles m) (called m) (deleted m)
  end.

Fixpoint removeNth {A} (n : nat) (l : list A) : list A :=
  match l, n with
  | [], _ => []
  | _ :: rest, O => rest
  | x :: rest, S n' => x :: removeNth n' rest
  end.

(** The [load] event of the [k]-th image in flight, decoded to
    [imgWidth] x [imgHeight], with the graphics context there for the
    listener of a miss to make the texture in ([TextureGl.loaded] has the
    listener without it). *)
Definition loaded (k : nat) (imgWidth imgHeight : Z) (m : LAppTextureManager)
  : LAppTextureManager :=
  match nth_error (decoding m) k with
  | None => m
  | Some (_, OnHit position callback) =>
      (* callback(ite.ptr()): what the position holds now *)
      mkManager (_textures m) (removeNth k (decoding m)) (images m) (handles m)
                (called m ++ [(callback, nth_error (_textures m) position)])
                (deleted m)
  | Some (_, OnMiss fileName usePremultiply image callback) =>
      let tex := handles m in
      let textureInfo := mkTexture image tex imgWidth imgHeight usePremultiply fileName in
      mkManager (_textures m ++ [textureInfo]) (removeNth k (decoding m))
                (images m) (S tex)
                (called m ++ [(callback, Some textureInfo)])
                (deleted m)
  end.

(** An image that fails to decode has no listener to run. *)
Definition failed (k : nat) (m : LAppTextureManager) : LAppTextureManager :=
  mkManager (_textures m) (removeNth k (decoding m)) (images m) (handles m)
            (called m) (deleted m).

(** [release] and [releaseTextures] with the graphics context there: every
    handle deleted, the list cleared; decodes in flight stay in flight. *)
Definition release (m : LAppTextureManager) : LAppTextureManager :=
  mkManager [] (decoding m) (images m) (handles m) (called m)
            (deleted m ++ map id (_textures m)).

Definition releaseTextures := release.

(** What the cache is used through. *)
Inductive Op :=
| Acquire (fileName : string) (usePremultiply : bool) (callback : C)
| Loaded (k : nat) (imgWidth imgHeight : Z)
| Failed (k : nat)
| Release.

Definition step (m : LAppTextureManager) (o : Op) : LAppTextureManager :=
  match o with
  | Acquire f p c => createTextureFromPngFile f p c m
  | Loaded k w h => loaded k w h m
  | Failed k => failed k m
  | Release => release m
  end.

Definition run (ops : list Op) (m : LAppTextureManager) : LAppTextureManager :=
  fold_left step ops m.

(** The keys of the records held, and how many records hold a key. *)
Definition key (t : TextureInfo) : string * bool := (fileName t, usePremultply t).

Definition countKey (fileName : string) (usePremultiply : bool)
    (m : LAppTextureManager) : nat :=
  List.length (filter (sameKey fileName usePremultiply) (_textures m)).

End Cache.

Arguments Acquire {C} fileName usePremultiply callback.
Arguments Loaded {C} k imgWidth imgHeight.
Arguments Failed {C} k.
Arguments Release {C}.
Arguments newManager {C}.
Arguments _textures {C} _.
Arguments decoding {C} _.
Arguments images {C} _.
Arguments handles {C} _.
Arguments called {C} _.
Arguments deleted {C} _.
Arguments createTextureFromPngFile {C} modelFiles fileName usePremultiply callback m.
Arguments loaded {C} k imgWidth imgHeight m.
Arguments failed {C} k m.
Arguments release {C} m.
Arguments step {C} modelFiles m o.
Arguments run {C} modelFiles ops m.
Arguments countKey {C} fileName usePremultiply m.

End Texture.

(** ** LAppDefine *)

Module Define.

Definition ResourcesPath : string := "/".
Definition ModelDir : list string := ["Haru"; "Mao"; "Hiyori"]%string.
Definition ModelDirSize : nat := List.length ModelDir.

Definition MotionGroupIdle : string := "Idle".
Definition MotionGroupTapBody : string := "TapBody".

Definition HitAreaNameHead : string := "Head".
Definition HitAreaNameBody : string := "Body".

Definition PriorityNone : Z := 0.
Definition PriorityIdle : Z := 1.
Definition PriorityNormal : Z := 2.
Definition PriorityForce : Z := 3.

Definition DebugLogEnable : bool := true.
Definition DebugTouchLogEnable : bool := false.

End Define.

(** ** LAppModel *)

Module Model.

Inductive LoadStep :=
| LoadAssets
| LoadModel
| WaitLoadModel
| LoadExpression
| WaitLoadExpression
| LoadPhysics
| WaitLoadPhysics
| LoadPose
| WaitLoadPose
| SetupEyeBlink
| SetupBreath
| LoadUserData
| WaitLoadUserData
| SetupEyeBlinkIds
| SetupLipSyncIds
| SetupLayout
| LoadMotion
| WaitLoadMotion
| CompleteInitialize
| CompleteSetupModel
| LoadTexture
| WaitLoadTexture
| CompleteSetup.

Definition LoadStep_eqb (a b : LoadStep) : bool :=
  match a, b with
  | LoadAssets, LoadAssets | LoadModel, LoadModel
  | WaitLoadModel, WaitLoadModel | LoadExpression, LoadExpression
  | WaitLoadExpression, WaitLoadExpression | LoadPhysics, LoadPhysics
  | WaitLoadPhysics, WaitLoadPhysics | LoadPose, LoadPose
  | WaitLoadPose, WaitLoadPose | SetupEyeBlink, SetupEyeBlink
  | SetupBreath, SetupBreath | LoadUserData, LoadUserData
  | WaitLoadUserData, WaitLoadUserData | SetupEyeBlinkIds, SetupEyeBlinkIds
  | SetupLipSyncIds, SetupLipSyncIds | SetupLayout, SetupLayout
  | LoadMotion, LoadMotion | WaitLoadMotion, WaitLoadMotion
  | CompleteInitialize, CompleteInitialize
  | CompleteSetupModel, CompleteSetupModel | LoadTexture, LoadTexture
  | WaitLoadTexture, WaitLoadTexture | CompleteSetup, CompleteSetup => true
  | _, _ => false
  end.

(** The number the enum gives a step. *)
Definition rank (s : LoadStep) : nat :=
  match s with
  | LoadAssets => 0
  | LoadModel => 1
  | WaitLoadModel => 2
  | LoadExpression => 3
  | WaitLoadExpression => 4
  | LoadPhysics => 5
  | WaitLoadPhysics => 6
  | LoadPose => 7
  | WaitLoadPose => 8
  | SetupEyeBlink => 9
  | SetupBreath => 10
  | LoadUserData => 11
  | WaitLoadUserData => 12
  | SetupEyeBlinkIds => 13
  | SetupLipSyncIds => 14
  | SetupLayout => 15
  | LoadMotion => 16
  | WaitLoadMotion => 17
  | CompleteInitialize => 18
  | CompleteSetupModel => 19
  | LoadTexture => 20
  | WaitLoadTexture => 21
  | CompleteSetup => 22
  end.

(** *** The manifest, as ICubismModelSetting answers about it *)

Record MotionEntry := mkMotion {
  motionFile : string;
  motionSound : string
}.

Record ModelSetting := mkSetting {
  modelFileName : string;
  textureFileNames : list string;
  physicsFileName : string;
  poseFileName : string;
  userDataFile : string;
  expressions : list (string * string);              (* name, file *)
  motionGroups : list (string * list MotionEntry);   (* group name, motions *)
  eyeBlinkParameterIds : list string;
  lipSyncParameterIds : list string;
  hitAreas : list (string * string)                  (* name, drawable id *)
}.

Definition getExpressionCount (s : ModelSetting) : Z :=
  Z.of_nat (List.length (expressions s)).
Definition getTextureCount (s : ModelSetting) : Z :=
  Z.of_nat (List.length (textureFileNames s)).
Definition getMotionGroupCount (s : ModelSetting) : Z :=
  Z.of_nat (List.length (motionGroups s)).
Definition getEyeBlinkParameterCount (s : ModelSetting) : Z :=
  Z.of_nat (List.length (eyeBlinkParameterIds s)).

(** The motions of the group of that name; none when there is no such group. *)
Fixpoint motionsOf (groups : list (string * list MotionEntry)) (group : string)
  : list MotionEntry :=
  match groups with
  | [] => []
  | (name, entries) :: rest =>
      if String.eqb name group then entries else motionsOf rest group
  end.

Definition getMotionCount (s : ModelSetting) (group : string) : Z :=
  Z.of_nat (List.length (motionsOf (motionGroups s) group)).

(** *** The rigging engine, as far as loading looks at it *)

Record Engine := mkEngine {
  (** [new CubismModelSettingJson(buffer, size)] *)
  parseSetting : list byte -> ModelSetting;
  (** whether [loadModel] leaves [_model] and [_modelMatrix] set *)
  buildsModel : list byte -> bool;
  (** whether [loadMotion] returns a motion rather than null *)
  buildsMotion : list byte -> bool;
  (** whether [loadPhysics] and [loadPose] leave [_physics] and [_pose] set *)
  buildsPhysics : list byte -> bool;
  buildsPose : list byte -> bool;
  (** [isHit(drawableId, x, y)] *)
  isHit : string -> Q -> Q -> bool
}.

(** A value handed to [addParameterValueById]. *)
Inductive ParamValue :=
| Number (q : Q)
| Envelope (rms : Num.root).

(** What the model asks of the engine (and of its own methods that are not
    followed further here), in the order asked. *)
Inductive Call :=
| CallLoadModel (buffer : list byte)
| CallLoadExpression (buffer : list byte) (name : string)
| CallLoadPhysics (buffer : list byte)
| CallLoadPose (buffer : list byte)
| CallLoadUserData (buffer : list byte)
| CallLoadMotion (buffer : list byte) (name group : string) (index : nat)
| CallSetEffectIds (name : string)
| CallCreateEyeBlink
| CallCreateBreath
| CallSetupFromLayout
| CallSaveParameters
| CallLoadParameters
| CallStopAllMotions
| CallCreateRenderer
| CallStartUpRenderer
| CallSetIsPremultipliedAlpha (usePremultiply : bool)
| CallBindTexture (modelTextureNumber : nat) (texture : nat)
| CallDragUpdate (deltaTimeSeconds : Q)
| CallStartRandomMotion (group : string) (priority : Z)
| CallUpdateMotion (deltaTimeSeconds : Q)
| CallEyeBlinkUpdate (deltaTimeSeconds : Q)
| CallExpressionUpdate (deltaTimeSeconds : Q)
| CallAddParameterValue (parameter : string) (value : ParamValue) (weight : Q)
| CallBreathUpdate (deltaTimeSeconds : Q)
| CallPhysicsEvaluate (deltaTimeSeconds : Q)
| CallWavUpdate (deltaTimeSeconds : Q)
| CallPoseUpdate (deltaTimeSeconds : Q)
| CallModelUpdate
| CallMultiplyByModelMatrix
| CallSetMvpMatrix
| CallSetRenderState
| CallDrawModel
| CallSetModelMatrixWidth (w : Q)
| CallSetDragging (x y : Q)
| CallHitTest (hitArenaName : string) (x y : Q)
| CallIsHit (drawId : string) (x y : Q)
| CallSetRandomExpression.

Inductive LogEntry :=
| LogError (message : string)      (* CubismLogError *)
| Message (message : string).      (* LAppPal.printMessage *)

(** *** What is in flight *)

(** A fetch, or a texture request, whose completion handler has not run;
    each keeps what its handler closes over. *)
Inductive Pending :=
| PManifest (fileName : string)
| PModel (modelFileName : string)
| PExpression (count : Z) (expressionName expressionFileName : string)
| PPhysics (physicsFileName : string)
| PPose (poseFileName : string)
| PUserData (userDataFile : string)
| PMotion (group : string) (i : nat) (motionFileName : string)
| PTexture (modelTextureNumber : nat) (textureCount : Z) (fullPath : string).

(** How a fetch ends: a response that is ok, a response that is not, or a
    rejection (the network failed, or the body could not be read). *)
Inductive Response :=
| Ok (body : list byte)
| NotOk (body : list byte)
| Rejected.

(** [response.ok ? response.arrayBuffer() : new ArrayBuffer(0)]; after a
    rejection no handler of the chain runs. *)
Definition arrayBufferOf (r : Response) : option (list byte) :=
  match r with
  | Ok body => Some body
  | NotOk _ => Some []
  | Rejected => None
  end.

(** *** The model *)

(** The part inherited from CubismUserModel that the code here reads or
    writes. *)
Record CubismUserModel := mkBase {
  _model : bool;          (* [_model] and [_modelMatrix] are not null *)
  _eyeBlink : bool;       (* not null, and so for the next three *)
  _breath : bool;
  _physics : bool;
  _pose : bool;
  _lipsync : bool;
  _opacity : Q;
  _dragX : Q;
  _dragY : Q;
  _updating : bool;
  _initialized : bool
}.

Record LAppModel := mkModel {
  base : CubismUserModel;
  _modelSetting : option ModelSetting;
  _modelHomeDir : string;
  _userTimeSeconds : Q;
  _eyeBlinkIds : list string;
  _lipSyncIds : list string;
  _motions : list (string * list byte);
  _expressions : list (string * list byte);
  _state : LoadStep;
  _expressionCount : Z;
  _textureCount : Z;
  _motionCount : Z;
  _allMotionCount : Z;
  pending : list Pending;
  log : list LogEntry;
  calls : list Call
}.

Definition set_model v (b : CubismUserModel) : CubismUserModel :=
  mkBase v (_eyeBlink b) (_breath b) (_physics b) (_pose b) (_lipsync b)
    (_opacity b) (_dragX b) (_dragY b) (_updating b) (_initialized b).
Definition set_eyeBlink v (b : CubismUserModel) : CubismUserModel :=
  mkBase (_model b) v (_breath b) (_physics b) (_pose b) (_lipsync b)
    (_opacity b) (_dragX b) (_dragY b) (_updating b) (_initialized b).
Definition set_breath v (b : CubismUserModel) : CubismUserModel :=
  mkBase (_model b) (_eyeBlink b) v (_physics b) (_pose b) (_lipsync b)
    (_opacity b) (_dragX b) (_dragY b) (_updating b) (_initialized b).
Definition set_physics v (b : CubismUserModel) : CubismUserModel :=
  mkBase (_model b) (_eyeBlink b) (_breath b) v (_pose b) (_lipsync b)
    (_opacity b) (_dragX b) (_dragY b) (_updating b) (_initialized b).
Definition set_pose v (b : CubismUserModel) : CubismUserModel :=
  mkBase (_model b) (_eyeBlink b) (_breath b) (_physics b) v (_lipsync b)
    (_opacity b) (_dragX b) (_dragY b) (_updating b) (_initialized b).
Definition set_lipsync v (b : CubismUserModel) : CubismUserModel :=
  mkBase (_model b) (_eyeBlink b) (_breath b) (_physics b) (_pose b) v
    (_opacity b) (_dragX b) (_dragY b) (_updating b) (_initialized b).
Definition set_opacity v (b : CubismUserModel) : CubismUserModel :=
  mkBase (_model b) (_eyeBlink b) (_breath b) (_physics b) (_pose b)
    (_lipsync b) v (_dragX b) (_dragY b) (_updating b) (_initialized b).
Definition set_dragX v (b : CubismUserModel) : CubismUserModel :=
  mkBase (_model b) (_eyeBlink b) (_breath b) (_physics b) (_pose b)
    (_lipsync b) (_opacity b) v (_dragY b) (_updating b) (_initialized b).
Definition set_dragY v (b : CubismUserModel) : CubismUserModel :=
  mkBase (_model b) (_eyeBlink b) (_breath b) (_physics b) (_pose b)
    (_lipsync b) (_opacity b) (_dragX b) v (_updating b) (_initialized b).
Definition set_updating v (b : CubismUserModel) : CubismUserModel :=
  mkBase (_model b) (_eyeBlink b) (_breath b) (_physics b) (_pose b)
    (_lipsync b) (_opacity b) (_dragX b) (_dragY b) v (_initialized b).
Definition set_initialized v (b : CubismUserModel) : CubismUserModel :=
  mkBase (_model b) (_eyeBlink b) (_breath b) (_physics b) (_pose b)
    (_lipsync b) (_opacity b) (_dragX b) (_dragY b) (_updating b) v.
Definition set_base v (m : LAppModel) : LAppModel :=
  mkModel v (_modelSetting m) (_modelHomeDir m) (_userTimeSeconds m)
    (_eyeBlinkIds m) (_lipSyncIds m) (_motions m) (_expressions m) (_state m)
    (_expressionCount m) (_textureCount m) (_motionCount m)
    (_allMotionCount m) (pending m) (log m) (calls m).
Definition set_modelSetting v (m : LAppModel) : LAppModel :=
  mkModel (base m) v (_modelHomeDir m) (_userTimeSeconds m) (_eyeBlinkIds m)
    (_lipSyncIds m) (_motions m) (_expressions m) (_state m)
    (_expressionCount m) (_textureCount m) (_motionCount m)
    (_allMotionCount m) (pending m) (log m) (calls m).
Definition set_modelHomeDir v (m : LAppModel) : LAppModel :=
  mkModel (base m) (_modelSetting m) v (_userTimeSeconds m) (_eyeBlinkIds m)
    (_lipSyncIds m) (_motions m) (_expressions m) (_state m)
    (_expressionCount m) (_textureCount m) (_motionCount m)
    (_allMotionCount m) (pending m) (log m) (calls m).
Definition set_userTimeSeconds v (m : LAppModel) : LAppModel :=
  mkModel (base m) (_modelSetting m) (_modelHomeDir m) v (_eyeBlinkIds m)
    (_lipSyncIds m) (_motions m) (_expressions m) (_state m)
    (_expressionCount m) (_textureCount m) (_motionCount m)
    (_allMotionCount m) (pending m) (log m) (calls m).
Definition set_eyeBlinkIds v (m : LAppModel) : LAppModel :=
  mkModel (base m) (_modelSetting m) (_modelHomeDir m) (_userTimeSeconds m) v
    (_lipSyncIds m) (_motions m) (_expressions m) (_state m)
    (_expressionCount m) (_textureCount m) (_motionCount m)
    (_allMotionCount m) (pending m) (log m) (calls m).
Definition set_lipSyncIds v (m : LAppModel) : LAppModel :=
  mkModel (base m) (_modelSetting m) (_modelHomeDir m) (_userTimeSeconds m)
    (_eyeBlinkIds m) v (_motions m) (_expressions m) (_state m)
    (_expressionCount m) (_textureCount m) (_motionCount m)
    (_allMotionCount m) (pending m) (log m) (calls m).
Definition set_motions v (m : LAppModel) : LAppModel :=
  mkModel (base m) (_modelSetting m) (_modelHomeDir m) (_userTimeSeconds m)
    (_eyeBlinkIds m) (_lipSyncIds m) v (_expressions m) (_state m)
    (_expressionCount m) (_textureCount m) (_motionCount m)
    (_allMotionCount m) (pending m) (log m) (calls m).
Definition set_expressions v (m : LAppModel) : LAppModel :=
  mkModel (base m) (_modelSetting m) (_modelHomeDir m) (_userTimeSeconds m)
    (_eyeBlinkIds m) (_lipSyncIds m) (_motions m) v (_state m)
    (_expressionCount m) (_textureCount m) (_motionCount m)
    (_allMotionCount m) (pending m) (log m) (calls m).
Definition set_state v (m : LAppModel) : LAppModel :=
  mkModel (base m) (_modelSetting m) (_modelHomeDir m) (_userTimeSeconds m)
    (_eyeBlinkIds m) (_lipSyncIds m) (_motions m) (_expressions m) v
    (_expressionCount m) (_textureCount m) (_motionCount m)
    (_allMotionCount m) (pending m) (log m) (calls m).
Definition set_expressionCount v (m : LAppModel) : LAppModel :=
  mkModel (base m) (_modelSetting m) (_modelHomeDir m) (_userTimeSeconds m)
    (_eyeBlinkIds m) (_lipSyncIds m) (_motions m) (_expressions m) (_state m)
    v (_textureCount m) (_motionCount m) (_allMotionCount m) (pending m)
    (log m) (calls m).
Definition set_textureCount v (m : LAppModel) : LAppModel :=
  mkModel (base m) (_modelSetting m) (_modelHomeDir m) (_userTimeSeconds m)
    (_eyeBlinkIds m) (_lipSyncIds m) (_motions m) (_expressions m) (_state m)
    (_expressionCount m) v (_motionCount m) (_allMotionCount m) (pending m)
    (log m) (calls m).
Definition set_motionCount v (m : LAppModel) : LAppModel :=
  mkModel (base m) (_modelSetting m) (_modelHomeDir m) (_userTimeSeconds m)
    (_eyeBlinkIds m) (_lipSyncIds m) (_motions m) (_expressions m) (_state m)
    (_expressionCount m) (_textureCount m) v (_allMotionCount m) (pending m)
    (log m) (calls m).
Definition set_allMotionCount v (m : LAppModel) : LAppModel :=
  mkModel (base m) (_modelSetting m) (_modelHomeDir m) (_userTimeSeconds m)
    (_eyeBlinkIds m) (_lipSyncIds m) (_motions m) (_expressions m) (_state m)
    (_expressionCount m) (_textureCount m) (_motionCount m) v (pending m)
    (log m) (calls m).
Definition set_pending v (m : LAppModel) : LAppModel :=
  mkModel (base m) (_modelSetting m) (_modelHomeDir m) (_userTimeSeconds m)
    (_eyeBlinkIds m) (_lipSyncIds m) (_motions m) (_expressions m) (_state m)
    (_expressionCount m) (_textureCount m) (_motionCount m)
    (_allMotionCount m) v (log m) (calls m).
Definition set_log v (m : LAppModel) : LAppModel :=
  mkModel (base m) (_modelSetting m) (_modelHomeDir m) (_userTimeSeconds m)
    (_eyeBlinkIds m) (_lipSyncIds m) (_motions m) (_expressions m) (_state m)
    (_expressionCount m) (_textureCount m) (_motionCount m)
    (_allMotionCount m) (pending m) v (calls m).
Definition set_calls v (m : LAppModel) : LAppModel :=
  mkModel (base m) (_modelSetting m) (_modelHomeDir m) (_userTimeSeconds m)
    (_eyeBlinkIds m) (_lipSyncIds m) (_motions m) (_expressions m) (_state m)
    (_expressionCount m) (_textureCount m) (_motionCount m)
    (_allMotionCount m) (pending m) (log m) v.

(** [new LAppModel()]. *)
Definition newModel : LAppModel :=
  mkModel (mkBase false false false false false true 1 0 0 false false)
          None "" 0 [] [] [] [] LoadAssets 0 0 0 0 [] [] [].

Definition onBase (f : CubismUserModel -> CubismUserModel) (m : LAppModel)
  : LAppModel := set_base (f (base m)) m.
Definition call (c : Call) (m : LAppModel) : LAppModel :=
  set_calls (calls m ++ [c]) m.
Definition CubismLogError (message : string) (m : LAppModel) : LAppModel :=
  set_log (log m ++ [LogError message]) m.
Definition printMessage (message : string) (m : LAppModel) : LAppModel :=
  set_log (log m ++ [Message message]) m.

(** [fetchAsset(relativePath).then(...)]: one more operation in flight. *)
Definition fetchAsset (p : Pending) (m : LAppModel) : LAppModel :=
  set_pending (pending m ++ [p]) m.

(** csmMap.setValue: the entry of that key replaced, or a new one added. *)
Fixpoint setValue {V} (key : string) (v : V) (l : list (string * V))
  : list (string * V) :=
  match l with
  | [] => [(key, v)]
  | (k, old) :: rest =>
      if String.eqb k key then (k, v) :: rest else (k, old) :: setValue key v rest
  end.

(** The list with its positions, as [for (let i = 0; i < count; i++)]
    walks it. *)
Definition indexed {A} (l : list A) : list (nat * A) :=
  combine (seq 0 (List.length l)) l.

Definition decimal (n : nat) : string := NilZero.string_of_uint (Nat.to_uint n).

(** [`${group}_${i}`] *)
Definition motionKey (group : string) (i : nat) : string :=
  (group ++ "_" ++ decimal i)%string.

Section Loading.

Variable engine : Engine.

(** **** Textures *)

(** The callback [onLoad] of [setupTextures]. *)
Definition onLoad (modelTextureNumber : nat) (textureCount : Z) (texture : nat)
    (m : LAppModel) : LAppModel :=
  let m := call (CallBindTexture modelTextureNumber texture) m in
  let m := set_textureCount (_textureCount m + 1) m in
  if textureCount <=? _textureCount m then set_state CompleteSetup m else m.

Definition setupTextures (m : LAppModel) : LAppModel :=
  let usePremultiply := true in
  if LoadStep_eqb (_state m) LoadTexture then
    match _modelSetting m with
    | None => m (* a TypeError; the setting is there whenever this runs *)
    | Some setting =>
        let textureCount := getTextureCount setting in
        let m :=
          fold_left
            (fun (m : LAppModel) (entry : nat * string) =>
               let (modelTextureNumber, texturePath) := entry in
               if String.eqb texturePath "" then m
               else
                 let fullPath := (_modelHomeDir m ++ texturePath)%string in
                 let m := fetchAsset (PTexture modelTextureNumber textureCount fullPath) m in
                 call (CallSetIsPremultipliedAlpha usePremultiply) m)
            (indexed (textureFileNames setting)) m in
        set_state WaitLoadTexture m
    end
  else m.

(** **** Motions *)

(** The end of the motion stage, written twice in the source: in
    [loadCubismMotion] for a model without motion groups and in the
    completion handler of a motion. *)
Definition startTextures (m : LAppModel) : LAppModel :=
  let m := set_state LoadTexture m in
  let m := call CallStopAllMotions m in
  let m := onBase (set_updating false) m in
  let m := onBase (set_initialized true) m in
  let m := call CallCreateRenderer m in
  let m := setupTextures m in
  call CallStartUpRenderer m.

Definition preLoadMotionGroup (setting : ModelSetting) (group : string)
    (m : LAppModel) : LAppModel :=
  fold_left
    (fun (m : LAppModel) (entry : nat * MotionEntry) =>
       let (i, motion) := entry in
       let m :=
         if Define.DebugLogEnable then
           printMessage ("[APP]load motion: " ++ motionFile motion
                         ++ " => [" ++ motionKey group i ++ "]")%string m
         else m in
       fetchAsset (PMotion group i (motionFile motion)) m)
    (indexed (motionsOf (motionGroups setting) group)) m.

(** The second [then] of a motion fetch. *)
Definition onMotion (group : string) (i : nat) (arrayBuffer : list byte)
    (m : LAppModel) : LAppModel :=
  let name := motionKey group i in
  let m := call (CallLoadMotion arrayBuffer name group i) m in
  let m :=
    if buildsMotion engine arrayBuffer then
      let m := call (CallSetEffectIds name) m in
      let m := set_motions (setValue name arrayBuffer (_motions m)) m in
      set_motionCount (_motionCount m + 1) m
    else set_allMotionCount (_allMotionCount m - 1) m in
  if _allMotionCount m <=? _motionCount m then startTextures m else m.

Definition loadCubismMotion (m : LAppModel) : LAppModel :=
  let m := set_state WaitLoadMotion m in
  if negb (_model (base m)) then m (* a TypeError on [_model] *)
  else
    let m := call CallSaveParameters m in
    let m := set_allMotionCount 0 m in
    let m := set_motionCount 0 m in
    match _modelSetting m with
    | None => m
    | Some setting =>
        let group : list string := map fst (motionGroups setting) in
        let m :=
          fold_left
            (fun (m : LAppModel) (g : string) =>
               set_allMotionCount (_allMotionCount m + getMotionCount setting g) m)
            group m in
        let m := fold_left (fun m g => preLoadMotionGroup setting g m) group m in
        if getMotionGroupCount setting =? 0 then startTextures m else m
    end.

(** **** The stages before *)

Definition setupLayout (m : LAppModel) : LAppModel :=
  match _modelSetting m with
  | Some _ =>
      if _model (base m) then
        let m := call CallSetupFromLayout m in
        let m := set_state LoadMotion m in
        loadCubismMotion m
      else CubismLogError "Failed to setupLayout()." m
  | None => CubismLogError "Failed to setupLayout()." m
  end.

Definition setupLipSyncIds (m : LAppModel) : LAppModel :=
  match _modelSetting m with
  | None => m
  | Some setting =>
      let m := set_lipSyncIds (_lipSyncIds m ++ lipSyncParameterIds setting) m in
      let m := set_state SetupLayout m in
      setupLayout m
  end.

Definition setupEyeBlinkIds (m : LAppModel) : LAppModel :=
  match _modelSetting m with
  | None => m
  | Some setting =>
      let m := set_eyeBlinkIds (_eyeBlinkIds m ++ eyeBlinkParameterIds setting) m in
      let m := set_state SetupLipSyncIds m in
      setupLipSyncIds m
  end.

Definition onUserData (arrayBuffer : list byte) (m : LAppModel) : LAppModel :=
  let m := call (CallLoadUserData arrayBuffer) m in
  let m := set_state SetupEyeBlinkIds m in
  setupEyeBlinkIds m.

Definition loadUserDataFile (m : LAppModel) : LAppModel :=
  match _modelSetting m with
  | None => m
  | Some setting =>
      if negb (String.eqb (userDataFile setting) "") then
        let m := fetchAsset (PUserData (userDataFile setting)) m in
        set_state WaitLoadUserData m
      else
        let m := set_state SetupEyeBlinkIds m in
        setupEyeBlinkIds m
  end.

Definition setupBreath (m : LAppModel) : LAppModel :=
  let m := call CallCreateBreath m in
  let m := onBase (set_breath true) m in
  let m := set_state LoadUserData m in
  loadUserDataFile m.

Definition setupEyeBlink (m : LAppModel) : LAppModel :=
  match _modelSetting m with
  | None => m
  | Some setting =>
      let m :=
        if 0 <? getEyeBlinkParameterCount setting then
          onBase (set_eyeBlink true) (call CallCreateEyeBlink m)
        else m in
      setupBreath m
  end.

Definition onPose (arrayBuffer : list byte) (m : LAppModel) : LAppModel :=
  let m := call (CallLoadPose arrayBuffer) m in
  let m := onBase (set_pose (buildsPose engine arrayBuffer)) m in
  let m := set_state SetupEyeBlink m in
  setupEyeBlink m.

Definition loadCubismPose (m : LAppModel) : LAppModel :=
  match _modelSetting m with
  | None => m
  | Some setting =>
      if negb (String.eqb (poseFileName setting) "") then
        let m := fetchAsset (PPose (poseFileName setting)) m in
        set_state WaitLoadPose m
      else
        let m := set_state SetupEyeBlink m in
        setupEyeBlink m
  end.

Definition onPhysics (arrayBuffer : list byte) (m : LAppModel) : LAppModel :=
  let m := call (CallLoadPhysics arrayBuffer) m in
  let m := onBase (set_physics (buildsPhysics engine arrayBuffer)) m in
  let m := set_state LoadPose m in
  loadCubismPose m.

Definition loadCubismPhysics (m : LAppModel) : LAppModel :=
  match _modelSetting m with
  | None => m
  | Some setting =>
      if negb (String.eqb (physicsFileName setting) "") then
        let m := fetchAsset (PPhysics (physicsFileName setting)) m in
        set_state WaitLoadPhysics m
      else
        let m := set_state LoadPose m in
        loadCubismPose m
  end.

(** The second [then] of an expression fetch; [count] is the constant its
    closure captured. *)
Definition onExpression (count : Z) (expressionName : string)
    (arrayBuffer : list byte) (m : LAppModel) : LAppModel :=
  let m := call (CallLoadExpression arrayBuffer expressionName) m in
  let m := set_expressions (setValue expressionName arrayBuffer (_expressions m)) m in
  let m := set_expressionCount (_expressionCount m + 1) m in
  if count <=? _expressionCount m then
    let m := set_state LoadPhysics m in
    loadCubismPhysics m
  else m.

Definition loadCubismExpression (m : LAppModel) : LAppModel :=
  match _modelSetting m with
  | None => m
  | Some setting =>
      if 0 <? getExpressionCount setting then
        let count := getExpressionCount setting in
        let m :=
          fold_left
            (fun (m : LAppModel) (e : string * string) =>
               let (expressionName, expressionFileName) := e in
               fetchAsset (PExpression count expressionName expressionFileName) m)
            (expressions setting) m in
        set_state WaitLoadExpression m
      else
        let m := set_state LoadPhysics m in
        loadCubismPhysics m
  end.

(** The two [then]s of the fetch of the rig binary.  A response that is not
    ok is logged and replaced by an empty buffer; the chain has no [catch]. *)
Definition onModel (modelFileName : string) (r : Response) (m : LAppModel)
  : LAppModel :=
  let m :=
    match r with
    | NotOk _ =>
        CubismLogError ("Failed to load file " ++ _modelHomeDir m ++ modelFileName)%string m
    | _ => m
    end in
  match arrayBufferOf r with
  | None => m
  | Some arrayBuffer =>
      let m := call (CallLoadModel arrayBuffer) m in
      let m := onBase (set_model (buildsModel engine arrayBuffer)) m in
      let m := set_state LoadExpression m in
      loadCubismExpression m
  end.

Definition setupModel (setting : ModelSetting) (m : LAppModel) : LAppModel :=
  let m := onBase (set_updating true) m in
  let m := onBase (set_initialized false) m in
  let m := set_modelSetting (Some setting) m in
  if negb (String.eqb (modelFileName setting) "") then
    let m := fetchAsset (PModel (modelFileName setting)) m in
    set_state WaitLoadModel m
  else printMessage "Model data does not exist." m.

(** The handlers of the manifest fetch: the body is parsed whatever the
    status of the response; a rejection is caught and logged. *)
Definition onManifest (fileName : string) (r : Response) (m : LAppModel)
  : LAppModel :=
  match r with
  | Ok arrayBuffer | NotOk arrayBuffer =>
      let setting := parseSetting engine arrayBuffer in
      let m := set_state LoadModel m in
      setupModel setting m
  | Rejected =>
      CubismLogError ("Failed to load file " ++ _modelHomeDir m ++ fileName)%string m
  end.

Definition loadAssets (dir fileName : string) (m : LAppModel) : LAppModel :=
  let m := set_modelHomeDir dir m in
  fetchAsset (PManifest fileName) m.

(** **** Completions *)

Fixpoint removeNth {A} (n : nat) (l : list A) : list A :=
  match l, n with
  | [], _ => []
  | _ :: rest, O => rest
  | x :: rest, S n' => x :: removeNth n' rest
  end.

(** The handlers of the sub-resource fetches share one shape: an empty buffer
    for a response that is not ok, nothing at all after a rejection. *)
Definition thenWith (r : Response) (handler : list byte -> LAppModel -> LAppModel)
    (m : LAppModel) : LAppModel :=
  match arrayBufferOf r with
  | Some arrayBuffer => handler arrayBuffer m
  | None => m
  end.

(** The [k]-th fetch in flight ends with [r]. *)
Definition fetched (k : nat) (r : Response) (m : LAppModel) : LAppModel :=
  match nth_error (pending m) k with
  | None => m
  | Some (PTexture _ _ _) => m
  | Some p =>
      let m := set_pending (removeNth k (pending m)) m in
      match p with
      | PManifest fileName => onManifest fileName r m
      | PModel modelFileName => onModel modelFileName r m
      | PExpression count name _ => thenWith r (onExpression count name) m
      | PPhysics _ => thenWith r onPhysics m
      | PPose _ => thenWith r onPose m
      | PUserData _ => thenWith r onUserData m
      | PMotion group i _ => thenWith r (onMotion group i) m
      | PTexture _ _ _ => m
      end
  end.

(** The texture manager calls back for the [k]-th operation in flight with a
    record whose GPU handle is [texture]. *)
Definition textured (k : nat) (texture : nat) (m : LAppModel) : LAppModel :=
  match nth_error (pending m) k with
  | Some (PTexture modelTextureNumber textureCount _) =>
      let m := set_pending (removeNth k (pending m)) m in
      onLoad modelTextureNumber textureCount texture m
  | _ => m
  end.

Inductive Event :=
| Fetched (k : nat) (r : Response)
| Textured (k : nat) (texture : nat).

Definition deliver (m : LAppModel) (e : Event) : LAppModel :=
  match e with
  | Fetched k r => fetched k r m
  | Textured k texture => textured k texture m
  end.

Definition run (events : list Event) (m : LAppModel) : LAppModel :=
  fold_left deliver events m.

End Loading.

(** *** The per-frame part *)

(** What a frame finds outside the model: the time since the last frame,
    where the drag manager has got to, what the motion manager answers, and
    what the WAV handler reports after its own update ([None]: it threw). *)
Record Frame := mkFrame {
  deltaTimeSeconds : Q;
  dragX : Q;
  dragY : Q;
  motionFinished : bool;
  motionUpdated : bool;
  rms : option Num.root
}.

Definition addParameterValueById (parameter : string) (value : ParamValue)
    (weight : Q) : LAppModel -> LAppModel :=
  call (CallAddParameterValue parameter value weight).

Definition update (f : Frame) (m : LAppModel) : Wav.outcome unit * LAppModel :=
  if negb (LoadStep_eqb (_state m) CompleteSetup) then (Wav.Val tt, m)
  else
    let dt := deltaTimeSeconds f in
    let m := set_userTimeSeconds (_userTimeSeconds m + dt)%Q m in
    let m := call (CallDragUpdate dt) m in
    let m := onBase (set_dragX (dragX f)) m in
    let m := onBase (set_dragY (dragY f)) m in
    let m := call CallLoadParameters m in
    let (updated, m) :=
      if motionFinished f then
        (false, call (CallStartRandomMotion Define.MotionGroupIdle Define.PriorityIdle) m)
      else (motionUpdated f, call (CallUpdateMotion dt) m) in
    let m := call CallSaveParameters m in
    let m :=
      if negb updated && _eyeBlink (base m) then call (CallEyeBlinkUpdate dt) m
      else m in
    let m := call (CallExpressionUpdate dt) m in
    let x := _dragX (base m) in
    let y := _dragY (base m) in
    let m := addParameterValueById "ParamAngleX" (Number (x * 30)%Q) 1 m in
    let m := addParameterValueById "ParamAngleY" (Number (y * 30)%Q) 1 m in
    let m := addParameterValueById "ParamAngleZ" (Number (x * y * -30)%Q) 1 m in
    let m := addParameterValueById "ParamBodyAngleX" (Number (x * 10)%Q) 1 m in
    let m := addParameterValueById "ParamEyeBallX" (Number x) 1 m in
    let m := addParameterValueById "ParamEyeBallY" (Number y) 1 m in
    let m := if _breath (base m) then call (CallBreathUpdate dt) m else m in
    let m := if _physics (base m) then call (CallPhysicsEvaluate dt) m else m in
    let finish (m : LAppModel) :=
      let m := if _pose (base m) then call (CallPoseUpdate dt) m else m in
      (Wav.Val tt, call CallModelUpdate m) in
    if _lipsync (base m) then
      let m := call (CallWavUpdate dt) m in
      match rms f with
      | None => (Wav.Thrown, m)
      | Some value =>
          finish
            (fold_left
               (fun m parameter =>
                  addParameterValueById parameter (Envelope value) (8 # 10) m)
               (_lipSyncIds m) m)
      end
    else finish m.

Definition doDraw (m : LAppModel) : LAppModel :=
  if negb (_model (base m)) then m
  else call CallDrawModel (call CallSetRenderState m).

Definition draw (m : LAppModel) : LAppModel :=
  if negb (_model (base m)) then m
  else if LoadStep_eqb (_state m) CompleteSetup then
    let m := call CallMultiplyByModelMatrix m in
    let m := call CallSetMvpMatrix m in
    doDraw m
  else m.

(** *** What the manager asks of a model *)

(** The drawable id of the first hit area of that name. *)
Fixpoint hitAreaId (areas : list (string * string)) (hitArenaName : string)
  : option string :=
  match areas with
  | [] => None
  | (name, drawId) :: rest =>
      if String.eqb name hitArenaName then Some drawId
      else hitAreaId rest hitArenaName
  end.

(** [hitTest]; without a setting it throws a TypeError ([None]). *)
Definition hitTest (engine : Engine) (hitArenaName : string) (x y : Q)
    (m : LAppModel) : option bool * LAppModel :=
  let m := call (CallHitTest hitArenaName x y) m in
  if Num.Qlt_bool (_opacity (base m)) 1 then (Some false, m)
  else
    match _modelSetting m with
    | None => (None, m)
    | Some setting =>
        match hitAreaId (hitAreas setting) hitArenaName with
        | Some drawId => (Some (isHit engine drawId x y), call (CallIsHit drawId x y) m)
        | None => (Some false, m)
        end
    end.

Definition setDragging (x y : Q) : LAppModel -> LAppModel :=
  call (CallSetDragging x y).
Definition setRandomExpression : LAppModel -> LAppModel :=
  call CallSetRandomExpression.
Definition startRandomMotion (group : string) (priority : Z)
  : LAppModel -> LAppModel :=
  call (CallStartRandomMotion group priority).

End Model.

(** ** LAppLive2DManager *)

Module Manager.

Import Model.

(** The touch manager the pointer handlers write to and read from (its class
    is not among the sources: it is taken as it is used). *)
Record TouchOps (T : Type) := mkTouch {
  touchesBegan : Q -> Q -> T -> T;
  touchesMoved : Q -> Q -> T -> T;
  getX : T -> Q;
  getY : T -> Q
}.
Arguments touchesBegan {T} _ _ _ _.
Arguments touchesMoved {T} _ _ _ _.
Arguments getX {T} _ _.
Arguments getY {T} _ _.

(** Modelled from the specification: TouchManager, the class behind
    [_touchManager], is not among the sources.  The specification calls what
    it holds the drag anchor: pointer-down records the point as the anchor,
    pointer-move updates the anchor, and the anchor is what is read back. *)
Definition anchorTouch : TouchOps (Q * Q) :=
  mkTouch (Q * Q)
          (fun x y _ => (x, y))
          (fun x y _ => (x, y))
          fst snd.

(** The page and the two matrices: where the canvas is, the pixel ratio, and
    the maps [_deviceToScreen.transform] and [_viewMatrix.invertTransform]. *)
Record View := mkView {
  offsetLeft : Q;
  offsetTop : Q;
  devicePixelRatio : Q;
  deviceToScreenX : Q -> Q;
  deviceToScreenY : Q -> Q;
  invertTransformX : Q -> Q;
  invertTransformY : Q -> Q
}.

Section Manager.

Variable T : Type.
Variable touch : TouchOps T.
Variable view : View.
Variable engine : Engine.

(** The fields the scene and pointer code uses; the graphics context, the
    texture manager and the frame buffer are left out. *)
Record LAppLive2DManager := mkManager {
  _models : list LAppModel;
  _sceneIndex : Z;
  _touchManager : T;
  _captured : bool
}.

Definition set_models v (g : LAppLive2DManager) :=
  mkManager v (_sceneIndex g) (_touchManager g) (_captured g).
Definition set_sceneIndex v (g : LAppLive2DManager) :=
  mkManager (_models g) v (_touchManager g) (_captured g).
Definition set_touchManager v (g : LAppLive2DManager) :=
  mkManager (_models g) (_sceneIndex g) v (_captured g).
Definition set_captured v (g : LAppLive2DManager) :=
  mkManager (_models g) (_sceneIndex g) (_touchManager g) v.

(** [ModelDir[index]], the text "undefined" where there is no such entry. *)
Definition modelDir (index : Z) : string :=
  if index <? 0 then "undefined"%string
  else nth (Z.to_nat index) Define.ModelDir "undefined"%string.

Definition releaseAllModel (g : LAppLive2DManager) : LAppLive2DManager :=
  set_models [] g.

(** The instance [changeScene] makes for a scene. *)
Definition instanceFor (index : Z) : LAppModel :=
  let model := modelDir index in
  let modelPath := (Define.ResourcesPath ++ model ++ "/")%string in
  let modelJsonName := (modelDir index ++ ".model3.json")%string in
  loadAssets modelPath modelJsonName newModel.

Definition changeScene (index : Z) (g : LAppLive2DManager) : LAppLive2DManager :=
  let g := set_sceneIndex index g in
  let g := releaseAllModel g in
  let instance := instanceFor index in
  set_models (_models g ++ [instance]) g.

Definition nextScene (g : LAppLive2DManager) : LAppLive2DManager :=
  let no := Z.rem (_sceneIndex g + 1) (Z.of_nat Define.ModelDirSize) in
  changeScene no g.

(** [initialize]: without a graphics context nothing is loaded. *)
Definition initialize (contextFound : bool) (g : LAppLive2DManager)
  : LAppLive2DManager :=
  if contextFound then changeScene (_sceneIndex g) g else g.

(** [release] cancels the animation frame, releases the textures and the
    graphics context ([TextureGl]), drops the models and disposes of the
    framework; of the fields kept here it changes the list of models. *)
Definition release (g : LAppLive2DManager) : LAppLive2DManager :=
  releaseAllModel g.

(** [_models.at(0)] and a write back to it. *)
Definition active (g : LAppLive2DManager) : option LAppModel := hd_error (_models g).

Definition setActive (m : LAppModel) (g : LAppLive2DManager) : LAppLive2DManager :=
  match _models g with
  | [] => g
  | _ :: rest => set_models (m :: rest) g
  end.

(** [onUpdate]; [widen] says whether the canvas is taller than wide and the
    model wider than 1, in which case the model matrix is widened first. *)
Definition onUpdate (widen : bool) (f : Frame) (g : LAppLive2DManager)
  : Wav.outcome unit * LAppLive2DManager :=
  match active g with
  | None => (Wav.Val tt, g)
  | Some model =>
      let model :=
        if _model (base model) && widen
        then call (CallSetModelMatrixWidth 2) model
        else model in
      match update f model with
      | (Wav.Val _, model) => (Wav.Val tt, setActive (draw model) g)
      | (other, model) => (other, setActive model g)
      end
  end.

Definition onDrag (x y : Q) (g : LAppLive2DManager) : LAppLive2DManager :=
  match active g with
  | Some model => setActive (setDragging x y model) g
  | None => g
  end.

(** [onTap]: the head first, the body only when the head was not hit; a
    hit test that throws ends the handler. *)
Definition onTap (x y : Q) (g : LAppLive2DManager)
  : Wav.outcome unit * LAppLive2DManager :=
  match active g with
  | None => (Wav.Val tt, g)
  | Some model =>
      match hitTest engine Define.HitAreaNameHead x y model with
      | (None, model) => (Wav.Thrown, setActive model g)
      | (Some true, model) => (Wav.Val tt, setActive (setRandomExpression model) g)
      | (Some false, model) =>
          match hitTest engine Define.HitAreaNameBody x y model with
          | (None, model) => (Wav.Thrown, setActive model g)
          | (Some true, model) =>
              (Wav.Val tt,
               setActive (startRandomMotion Define.MotionGroupTapBody
                                            Define.PriorityNormal model) g)
          | (Some false, model) => (Wav.Val tt, setActive model g)
          end
      end
  end.

Definition transformViewX (deviceX : Q) : Q :=
  invertTransformX view (deviceToScreenX view deviceX).
Definition transformViewY (deviceY : Q) : Q :=
  invertTransformY view (deviceToScreenY view deviceY).

Definition onPointBegan (pageX pageY : Q) (g : LAppLive2DManager)
  : LAppLive2DManager :=
  let g := set_captured true g in
  let localX := (pageX - offsetLeft view)%Q in
  let localY := (pageY - offsetTop view)%Q in
  set_touchManager
    (touchesBegan touch (localX * devicePixelRatio view)%Q
                  (localY * devicePixelRatio view)%Q (_touchManager g)) g.

Definition onPointMoved (pageX pageY : Q) (g : LAppLive2DManager)
  : LAppLive2DManager :=
  if negb (_captured g) then g
  else
    let localX := (pageX - offsetLeft view)%Q in
    let localY := (pageY - offsetTop view)%Q in
    let posX := (localX * devicePixelRatio view)%Q in
    let posY := (localY * devicePixelRatio view)%Q in
    let viewX := transformViewX (getX touch (_touchManager g)) in
    let viewY := transformViewY (getY touch (_touchManager g)) in
    let g := set_touchManager (touchesMoved touch posX posY (_touchManager g)) g in
    onDrag viewX viewY g.

Definition onPointEnded (pageX pageY : Q) (g : LAppLive2DManager)
  : Wav.outcome unit * LAppLive2DManager :=
  let g := set_captured false g in
  let localX := (pageX - offsetLeft view)%Q in
  let localY := (pageY - offsetTop view)%Q in
  let posX := (localX * devicePixelRatio view)%Q in
  let posY := (localY * devicePixelRatio view)%Q in
  let g := onDrag 0 0 g in
  let x := transformViewX posX in
  let y := transformViewY posY in
  onTap x y g.

(** Everything that reaches the manager from outside. *)
Inductive Op :=
| Initialize (contextFound : bool)
| ChangeScene (index : Z)
| NextScene
| Release
| Tick (widen : bool) (f : Frame)
| PointBegan (pageX pageY : Q)
| PointMoved (pageX pageY : Q)
| PointEnded (pageX pageY : Q)
| Completed (e : Event).       (* a completion for the model held; one for
                                 an instance the manager has dropped runs on
                                 that instance and changes no field kept
                                 here *)

Definition step (g : LAppLive2DManager) (o : Op) : LAppLive2DManager :=
  match o with
  | Initialize contextFound => initialize contextFound g
  | ChangeScene index => changeScene index g
  | NextScene => nextScene g
  | Release => release g
  | Tick widen f => snd (onUpdate widen f g)
  | PointBegan x y => onPointBegan x y g
  | PointMoved x y => onPointMoved x y g
  | PointEnded x y => snd (onPointEnded x y g)
  | Completed e =>
      match active g with
      | Some model => setActive (deliver engine model e) g
      | None => g
      end
  end.

Definition run (ops : list Op) (g : LAppLive2DManager) : LAppLive2DManager :=
  fold_left step ops g.

End Manager.

Arguments _models {T} _.
Arguments _sceneIndex {T} _.
Arguments _touchManager {T} _.
Arguments _captured {T} _.
Arguments active {T} g.

(** [new LAppLive2DManager()]. *)
Definition newManager {T} (touchManager : T) : LAppLive2DManager T :=
  mkManager T [] 0 touchManager false.

End Manager.

(** ** The stages: what they put in flight, and the invariants of a run *)

Module ModelStages.

Import Model.

(** The tags the loops issue. *)
Definition expressionTags (count : Z) (l : list (string * string)) : list Pending :=
  map (fun e => PExpression count (fst e) (snd e)) l.
Definition motionTags (group : string) (l : list (nat * MotionEntry)) : list Pending :=
  map (fun e => PMotion group (fst e) (motionFile (snd e))) l.
Definition motionNotes (group : string) (l : list (nat * MotionEntry)) : list LogEntry :=
  map (fun e => Message ("[APP]load motion: " ++ motionFile (snd e)
                         ++ " => [" ++ motionKey group (fst e) ++ "]")%string) l.
Definition groupTags (setting : ModelSetting) (groups : list string) : list Pending :=
  flat_map (fun g => motionTags g (indexed (motionsOf (motionGroups setting) g))) groups.
Definition groupNotes (setting : ModelSetting) (groups : list string) : list LogEntry :=
  flat_map (fun g => motionNotes g (indexed (motionsOf (motionGroups setting) g))) groups.
Definition named (l : list (nat * string)) : list (nat * string) :=
  filter (fun e => negb (String.eqb (snd e) "")) l.
Definition textureTags (dir : string) (count : Z) (l : list (nat * string)) : list Pending :=
  map (fun e => PTexture (fst e) count (dir ++ snd e)%string) (named l).
Definition totalMotions (setting : ModelSetting) (groups : list string) : Z :=
  fold_right Z.add 0 (map (getMotionCount setting) groups).

(** What a stage may put in flight for a manifest [s], given whether the
    engine built a model: never a manifest or a rig binary again, motions
    only behind a model, textures only when the manifest has some. *)
Definition issued (s : ModelSetting) (hasModel : bool) (p : Pending) : Prop :=
  match p with
  | PManifest _ | PModel _ => False
  | PMotion _ _ _ => hasModel = true
  | PTexture _ _ _ => hasModel = true /\ textureFileNames s <> []
  | _ => True
  end.

(** Calls and log only grow. *)
Definition grows (m m' : LAppModel) : Prop :=
  (exists cs, calls m' = calls m ++ cs) /\ (exists ls, log m' = log m ++ ls).

(** [m'] is [m] after some stages have run: the same manifest and model
    flag, more operations in flight, more calls and log lines, and a state of
    rank at least [r] that is not the last one, and not beyond SetupLayout
    without a model. *)
Definition advance (s : ModelSetting) (r : nat) (m m' : LAppModel) : Prop :=
  _modelSetting m' = Some s
  /\ _model (base m') = _model (base m)
  /\ (exists tags, pending m' = pending m ++ tags
                   /\ Forall (issued s (_model (base m))) tags)
  /\ (r <= rank (_state m') <= 21)%nat
  /\ (_model (base m) = false -> (rank (_state m') <= 15)%nat)
  /\ grows m m'.

(** A model past the fetch of its rig binary. *)
Definition steady (s : ModelSetting) (m : LAppModel) : Prop :=
  _modelSetting m = Some s
  /\ Forall (issued s (_model (base m))) (pending m)
  /\ (rank (_state m) <= 21)%nat
  /\ (_model (base m) = false -> (rank (_state m) <= 15)%nat).

(** A model after its manifest: waiting for its rig binary, or past that. *)
Definition underway (s : ModelSetting) (m : LAppModel) : Prop :=
  (_modelSetting m = Some s /\ (exists f, pending m = [PModel f]) /\ _state m = WaitLoadModel)
  \/ steady s m.

(** The line the handler of the rig binary logs for a response that is not
    ok. *)
Definition lost (dir f : string) (r : Response) : list LogEntry :=
  match r with
  | NotOk _ => [LogError ("Failed to load file " ++ dir ++ f)%string]
  | _ => []
  end.

(** *** Schedules of completions *)

Definition answered (r : Response) : bool :=
  match r with Rejected => false | _ => true end.

(** A schedule for a stage with [n] fetches in flight: each event completes
    one of the fetches still in flight, with a response. *)
Fixpoint orderly (n : nat) (events : list Event) : bool :=
  match events with
  | [] => true
  | Fetched k r :: rest => (k <? n)%nat && answered r && orderly (pred n) rest
  | Textured _ _ :: _ => false
  end.

Definition bufferOf (r : Response) : list byte :=
  match arrayBufferOf r with Some b => b | None => [] end.

(** How many completions brought a buffer the engine builds a motion from,
    and how many did not. *)
Fixpoint built (engine : Engine) (events : list Event) : nat :=
  match events with
  | [] => 0
  | Fetched _ r :: rest =>
      (if buildsMotion engine (bufferOf r) then 1 else 0) + built engine rest
  | Textured _ _ :: rest => built engine rest
  end.

Fixpoint unbuilt (engine : Engine) (events : list Event) : nat :=
  match events with
  | [] => 0
  | Fetched _ r :: rest =>
      (if buildsMotion engine (bufferOf r) then 0 else 1) + unbuilt engine rest
  | Textured _ _ :: rest => unbuilt engine rest
  end.

Definition isExpression (count : Z) (p : Pending) : Prop :=
  exists n f, p = PExpression count n f.
Definition isMotion (p : Pending) : Prop :=
  exists g i f, p = PMotion g i f.

(** *** The two fan-out stages while their fetches complete *)

Definition expressionStage (s : ModelSetting) (total done : nat) (m : LAppModel)
  : Prop :=
  _modelSetting m = Some s
  /\ _state m = WaitLoadExpression
  /\ _expressionCount m = Z.of_nat done
  /\ Forall (isExpression (Z.of_nat total)) (pending m)
  /\ List.length (pending m) = (total - done)%nat.

Definition motionStage (s : ModelSetting) (total good bad : nat) (m : LAppModel)
  : Prop :=
  _modelSetting m = Some s
  /\ _state m = WaitLoadMotion
  /\ _motionCount m = Z.of_nat good
  /\ _allMotionCount m = Z.of_nat total - Z.of_nat bad
  /\ Forall isMotion (pending m)
  /\ List.length (pending m) = (total - good - bad)%nat.

Definition motionsDone (good bad : nat) (m : LAppModel) : Prop :=
  _state m = WaitLoadTexture
  /\ _motionCount m = Z.of_nat good
  /\ _allMotionCount m = Z.of_nat good.

End ModelStages.

(** ** Inputs used below *)

Module WavInputs.

Import Num Wav.

(** A handler about to read the 8-bit sample 0. *)
Definition lowest8 : LAppWavFileHandler :=
  mkHandler None 0%Q (Sqrt 0) 0%Q (mkInfo "" 1 8 8000 (JFin 1)) (mkReader [x00] 1 0).

(** A host that can make every array asked for. *)
Definition roomy (_ : Z) : bool := true.

(** A well-formed file: the canonical 16-byte PCM header (mono, 8000 Hz,
    16 bits), then a [data] chunk of four samples, two of 0x4000 and two of
    0xC000 (just above 0.5 and just below -0.5 once divided). *)
Definition shortClip : list byte :=
  list_byte_of_string "RIFF" ++ [x2c; x00; x00; x00] ++
  list_byte_of_string "WAVE" ++
  list_byte_of_string "fmt " ++ [x10; x00; x00; x00] ++
  [x01; x00] ++ [x01; x00] ++ [x40; x1f; x00; x00] ++ [x80; x3e; x00; x00] ++
  [x02; x00] ++ [x10; x00] ++
  list_byte_of_string "data" ++ [x08; x00; x00; x00] ++
  [x00; x40; x00; x40; x00; xc0; x00; xc0].

(** The handler after [start] on that file, once the load has settled. *)
Definition clipLoaded : LAppWavFileHandler :=
  snd (loadWavFileSettled roomy 8 "voice.wav" (Some shortClip)
         (snd (start "voice.wav" newHandler))).

(** The same header followed by one chunk, [LIST], whose size field holds
    0xFFFFFFF8, and nothing else: 44 bytes, no [data] chunk. *)
Definition negativeChunk : list byte :=
  list_byte_of_string "RIFF" ++ [x24; x00; x00; x00] ++
  list_byte_of_string "WAVE" ++
  list_byte_of_string "fmt " ++ [x10; x00; x00; x00] ++
  [x01; x00] ++ [x01; x00] ++ [x40; x1f; x00; x00] ++ [x80; x3e; x00; x00] ++
  [x02; x00] ++ [x10; x00] ++
  list_byte_of_string "LIST" ++ [xf8; xff; xff; xff].

(** The reader when the scan reaches that chunk. *)
Definition atList : ByteReader := mkReader negativeChunk 44 36.

End WavInputs.

Module ModelInputs.

Import Model.

Definition nonEmpty (buffer : list byte) : bool :=
  negb (Nat.eqb (List.length buffer) 0).

(** An engine that builds from every buffer but the empty one, and hits
    nothing. *)
Definition strictEngine : Engine :=
  mkEngine (fun _ => mkSetting "" [] "" "" "" [] [] [] [] [])
           nonEmpty nonEmpty nonEmpty nonEmpty
           (fun _ _ _ => false).

(** A manifest in the shape of the sample model's. *)
Definition haru : ModelSetting :=
  mkSetting "Haru.moc3"
    ["Haru.2048/texture_00.png"; "Haru.2048/texture_01.png"]%string
    "Haru.physics3.json" "Haru.pose3.json" ""
    [("F01", "expressions/F01.exp3.json");
     ("F02", "expressions/F02.exp3.json")]%string
    [("Idle", [mkMotion "motions/haru_g_idle.motion3.json" "";
               mkMotion "motions/haru_g_m15.motion3.json" ""]);
     ("TapBody", [mkMotion "motions/haru_g_m26.motion3.json"
                           "sounds/haru_talk_13.wav"])]%string
    ["ParamEyeLOpen"; "ParamEyeROpen"]%string ["ParamMouthOpenY"]%string
    [("Head", "HitArea"); ("Body", "HitArea2")]%string.

(** The same manifest without its textures. *)
Definition untextured : ModelSetting :=
  mkSetting (modelFileName haru) [] (physicsFileName haru) (poseFileName haru)
            (userDataFile haru) (expressions haru) (motionGroups haru)
            (eyeBlinkParameterIds haru) (lipSyncParameterIds haru) (hitAreas haru).

(** A manifest that names a rig binary and nothing else. *)
Definition bare : ModelSetting :=
  mkSetting "Bare.moc3" [] "" "" "" [] [] [] [] [].

(** The model once its manifest has been fetched and parsed to [setting]:
    [setupModel] has run and the fetch of the rig binary is in flight. *)
Definition parsed (dir : string) (setting : ModelSetting) : LAppModel :=
  setupModel setting (set_state LoadModel (set_modelHomeDir dir newModel)).

(** A response that is ok, with a body of one byte. *)
Definition ok : Response := Ok [x01].

(** The fetches of [untextured] all answered, each with a good body: the rig
    binary, two expressions, physics, pose, three motions. *)
Definition allOk : list Event :=
  [Fetched 0 ok; Fetched 1 ok; Fetched 0 ok; Fetched 0 ok; Fetched 0 ok;
   Fetched 2 ok; Fetched 0 ok; Fetched 0 ok].

(** The sample model when its expression stage, and when its motion stage,
    is about to be entered. *)
Definition beforeExpressions : LAppModel :=
  set_state LoadExpression
    (onBase (set_model true) (set_pending [] (parsed "/Haru/" haru))).
Definition beforeMotions : LAppModel := set_state LoadMotion beforeExpressions.

(** A frame a sixtieth of a second after the last, nothing dragged, the
    motion queue empty, silence. *)
Definition stillFrame : Frame :=
  mkFrame (1 # 60) 0 0 true false (Some (Num.Sqrt 0)).

End ModelInputs.

Module ManagerInputs.

Import Model Manager ModelInputs.

(** A canvas 8 pixels from the corner of the page on a display of pixel
    ratio 2; device pixels are scaled by 1/100 to the screen with the y axis
    turned over, and the view is zoomed by 2. *)
Definition deskView : View :=
  mkView 8 8 2
         (fun x => x / 100)%Q (fun y => - y / 100)%Q
         (fun x => x / 2)%Q (fun y => y / 2)%Q.

(** The first scene chosen, then the pointer pressed at (10, 20). *)
Definition pressed : LAppLive2DManager (Q * Q) :=
  onPointBegan (Q * Q) anchorTouch deskView 10 20
    (changeScene (Q * Q) 0 (newManager (0, 0)%Q)).

End ManagerInputs.

(** ** The layout of a WAV file, as [loadWavFile] walks it

    The families of inputs the properties of [loadWavFile] are stated on: a
    RIFF header with its [fmt ] chunk, chunks that are stepped over, and the
    [data] chunk.  Nothing here is code of the program. *)

Module WavLayout.

(** The byte of value [z mod 256]. *)
Definition byteOf (z : Z) : byte :=
  match Byte.of_N (Z.to_N (z mod 256)) with Some b => b | None => x00 end.

(** [z] in [n] bytes, lowest first. *)
Fixpoint le (n : nat) (z : Z) : list byte :=
  match n with
  | O => []
  | S n' => byteOf z :: le n' (z / 256)
  end.

Definition tag (s : string) : list byte := list_byte_of_string s.

(** The bytes of a buffer as numbers. *)
Definition bytesZ (l : list byte) : list Z := map (fun b => Z.of_N (Byte.to_N b)) l.

(** A 32-bit pattern read as a signed number. *)
Definition signed32 (v : Z) : Z := if v <? 2147483648 then v else v - 4294967296.

(** A chunk: a four-character id, the size of the body, the body. *)
Record Chunk := mkChunk {
  chunkId : string;
  chunkBody : list byte
}.

Definition chunk (c : Chunk) : list byte :=
  tag (chunkId c) ++ le 4 (Z.of_nat (List.length (chunkBody c))) ++ chunkBody c.

(** The fields of the [fmt ] chunk; [formatTag] 1 is PCM, and [extension]
    is what a [fmt ] chunk longer than 16 bytes holds after them. *)
Record Format := mkFormat {
  formatTag : Z;
  channels : Z;
  samplingRate : Z;
  byteRate : Z;
  blockAlign : Z;
  bitsPerSample : Z;
  extension : list byte
}.

(** The first 36 bytes and the extension, with whatever three signatures
    stand where [RIFF], [WAVE] and [fmt ] belong. *)
Definition headerWith (riff wave fmt : string) (riffSize : Z) (f : Format)
  : list byte :=
  tag riff ++ le 4 riffSize ++ tag wave ++
  tag fmt ++ le 4 (16 + Z.of_nat (List.length (extension f))) ++
  le 2 (formatTag f) ++ le 2 (channels f) ++ le 4 (samplingRate f) ++
  le 4 (byteRate f) ++ le 2 (blockAlign f) ++ le 2 (bitsPerSample f) ++
  extension f.

(** The RIFF header and the [fmt ] chunk. *)
Definition header : Z -> Format -> list byte := headerWith "RIFF" "WAVE" "fmt ".

(** A file: the header, chunks that are not the data, then the data chunk
    with [payload] as its body, and whatever follows it. *)
Definition wavFile (riffSize : Z) (f : Format) (others : list Chunk)
    (payload trailing : list byte) : list byte :=
  header riffSize f ++ flat_map chunk others ++
  chunk (mkChunk "data" payload) ++ trailing.

(** A chunk the scan steps over: four characters that are not [data], and a
    size that fits a signed 32-bit word. *)
Definition skipped (c : Chunk) : bool :=
  Nat.eqb (String.length (chunkId c)) 4
  && negb (String.eqb (chunkId c) "data")
  && (Z.of_nat (List.length (chunkBody c)) <? 2147483648).

(** A [fmt ] chunk of PCM samples that [loadWavFile] reads as it stands:
    one to 65535 channels, a rate that fits a signed 32-bit word, and 8, 16
    or 24 bits a sample. *)
Definition pcmFormat (f : Format) : bool :=
  (formatTag f =? 1)
  && (1 <=? channels f) && (channels f <? 65536)
  && (0 <=? samplingRate f) && (samplingRate f <? 2147483648)
  && ((bitsPerSample f =? 8) || (bitsPerSample f =? 16) || (bitsPerSample f =? 24))
  && (Z.of_nat (List.length (extension f)) <? 2147483632).

(** The sample [index] of [payload] for a depth of [bits]: its bytes, and
    the quotient [getPcmSample] makes of them. *)
Definition sampleBytesAt (bits : Z) (payload : list byte) (index : nat) : list byte :=
  firstn (WavSpec.sampleBytes bits)
         (skipn (index * WavSpec.sampleBytes bits) payload).

Definition quotientAt (bits : Z) (payload : list byte) (index : nat) : Q :=
  Qred (WavSpec.specWord bits (bytesZ (sampleBytesAt bits payload index))
        # 2147483647).

(** What the Float32Array holds for it: the quotient rounded to binary32. *)
Definition sampleAt (bits : Z) (payload : list byte) (index : nat) : Q :=
  Num.toFloat32 (quotientAt bits payload index).

(** [f 0], ..., [f (n - 1)]. *)
Definition tabulate {A} (n : nat) (f : nat -> A) : list A := map f (seq 0 n).

(** [count] arrays of [len] elements each. *)
Definition table (count len : nat) (g : nat -> nat -> Q) : list (list Q) :=
  tabulate count (fun c => tabulate len (g c)).

(** The samples of [payload] apart by channel: frame [j] holds one sample
    for each of the [c] channels, one after the other. *)
Definition deinterleaved (bits : Z) (c n : nat) (payload : list byte) : list (list Q) :=
  table c n (fun ch j => sampleAt bits payload (j * c + ch)).

End WavLayout.

(** ** What the envelope measures *)

Module WavWindow.

Import Num Wav.

Local Open Scope Q_scope.

(** The [len] samples of a channel from position [from] on. *)
Definition window (arr : list Q) (from len : nat) : list Q :=
  firstn len (skipn from arr).

(** The squares of a list added to [acc] one after the other, each product
    and each sum rounded to binary64. *)
Definition squares (l : list Q) (acc : jsnum) : jsnum :=
  fold_left (fun a x => addSquare a (Some x)) l acc.

(** The squares of the window added up, channel after channel. *)
Definition total (pcmData : list (list Q)) (from len : nat) (acc : jsnum) : jsnum :=
  fold_left (fun a arr => squares (window arr from len) a) pcmData acc.

(** Their mean: the sum over the number of channels times the length of the
    window, each a binary64 operation. *)
Definition meanSquare (pcmData : list (list Q)) (from len : nat) : jsnum :=
  round64
    (jsdivn (total pcmData from len (JFin 0))
            (fl64 (inject_Z (Z.of_nat (List.length pcmData))
                   * fl64 (inject_Z (Z.of_nat len))))).

(** A number that is not negative: a finite one, or the positive
    infinity. *)
Definition notNegative (x : jsnum) : Prop :=
  match x with
  | JFin q => 0 <= q
  | JInf negative => negative = false
  | JNaN => False
  end.

(** A value below 2^1024 in magnitude, where the doubles are finite. *)
Definition finite64 (q : Q) : bool := Qlt_bool (Qabs q) (pow2 1024).

(** A handler with a clip of [count] channels of [frames] samples each,
    [position] samples of which have been played. *)
Definition playing (count frames : nat) (position : Z) (h : LAppWavFileHandler)
  : Prop :=
  exists pcmData,
    _pcmData h = Some pcmData
    /\ List.length pcmData = count
    /\ Forall (fun arr => List.length arr = frames) pcmData
    /\ _numberOfChannels (_wavFileInfo h) = Z.of_nat count
    /\ _samplesPerChannel (_wavFileInfo h) = JFin (inject_Z (Z.of_nat frames))
    /\ _sampleOffset h = inject_Z position
    /\ (0 <= position)%Z.

(** The clock after a tick, the sample a clock has reached at a rate (at
    most the end of the clip), and where [update] gets to. *)
Definition clockAfter (deltaTimeSeconds : Q) (h : LAppWavFileHandler) : Q :=
  fl64 (Wav._userTimeSeconds h + fl64 deltaTimeSeconds).

Definition reached (frames : nat) (clock : Q) (rate : Z) : Z :=
  Z.min (Z.of_nat frames) (Qfloor (fl64 (clock * inject_Z rate))).

Definition goalOf (deltaTimeSeconds : Q) (frames : nat) (h : LAppWavFileHandler) : Z :=
  reached frames (clockAfter deltaTimeSeconds h) (_samplingRate (_wavFileInfo h)).

(** A clip whose play position is where its clock says; the clock is a
    double that is not negative. *)
Definition inStep (count frames : nat) (position : Z) (h : LAppWavFileHandler)
  : Prop :=
  playing count frames position h
  /\ (0 <= _samplingRate (_wavFileInfo h))%Z
  /\ 0 <= Wav._userTimeSeconds h
  /\ fl64 (Wav._userTimeSeconds h) == Wav._userTimeSeconds h
  /\ position
     = reached frames (Wav._userTimeSeconds h) (_samplingRate (_wavFileInfo h)).

(** One [update] for each tick: what each returned, and the handler at the
    end. *)
Fixpoint ticked (ticks : list Q) (h : LAppWavFileHandler)
  : list (outcome bool) * LAppWavFileHandler :=
  match ticks with
  | [] => ([], h)
  | deltaTimeSeconds :: rest =>
      let (o, h') := update deltaTimeSeconds h in
      let (os, h'') := ticked rest h' in
      (o :: os, h'')
  end.

(** [update] returned, with true or with false. *)
Definition returned (o : outcome bool) : Prop := exists b, o = Val b.

(** A run of ticks each of which leaves the tick, the clock and the product
    of the clock and the rate among the finite doubles: where the
    arithmetic of [update] is the one modelled. *)
Fixpoint steady (ticks : list Q) (h : LAppWavFileHandler) : bool :=
  match ticks with
  | [] => true
  | deltaTimeSeconds :: rest =>
      finite64 (fl64 deltaTimeSeconds)
      && finite64 (clockAfter deltaTimeSeconds h)
      && finite64 (fl64 (clockAfter deltaTimeSeconds h
                         * inject_Z (_samplingRate (_wavFileInfo h))))
      && steady rest (snd (update deltaTimeSeconds h))
  end.

(** Samples between -1 and 1, as the quotients of a load are once
    stored. *)
Definition normalized (pcmData : list (list Q)) : Prop :=
  Forall (Forall (fun x => -1 <= x /\ x <= 1)) pcmData.

End WavWindow.

(** ** Where [loadWavFile] stands while it reads

    The second half of [loadWavFile] as a piece of its own, and the states
    of the handler while the two loops over the samples run. *)

Module WavReading.

Import Num Wav WavLayout.

(** The part of [loadWavFile] behind the [fmt ] chunk. *)
Definition afterFormat (canAllocate : Z -> bool) (fuel : nat) : H bool :=
  tryCatch
    (reader (scanForData fuel) ;;;
     off <- gets (fun h => _readOffset (_byteReader h)) ;;
     size <- gets (fun h => _fileSize (_byteReader h)) ;;
     if size <=? off then ret false else readData canAllocate)
    (ret false).

(** The comparison at the end of [getCheckSignature]. *)
Definition same4 (bs ref : list Z) : bool :=
  match bs, ref with
  | [s0; s1; s2; s3], [r0; r1; r2; r3] =>
      (s0 =? r0) && (s1 =? r1) && (s2 =? r2) && (s3 =? r3)
  | _, _ => false
  end.

Section Frames.

Variables (t : Q) (rms : root) (so : Q) (info : WavFileInfo).
Variables (pre payload trailing : list byte) (size : Z).
Variables (count frames : nat).

(** The handler when [index] samples have been read and the arrays hold
    [g]. *)
Definition readingAt (index : nat) (g : nat -> nat -> Q) : LAppWavFileHandler :=
  mkHandler (Some (table count frames g)) t rms so info
            (mkReader (pre ++ payload ++ trailing) size
               (Z.of_nat (List.length pre
                          + index * WavSpec.sampleBytes (_bitsPerSample info)))).

(** Frame [j] has been filled up to channel [k], the frames before it
    wholly, and the rest is still zero. *)
Definition filledTo (j k : nat) (s : LAppWavFileHandler) : Prop :=
  exists g,
    s = readingAt (j * count + k) g
    /\ forall c i, (c < count)%nat -> (i < frames)%nat ->
         g c i = if (i <? j)%nat || ((i =? j)%nat && (c <? k)%nat)
                 then sampleAt (_bitsPerSample info) payload (i * count + c) else 0%Q.

End Frames.

End WavReading.

(** Inputs in that layout. *)

Module WavLayoutInputs.

Import WavLayout.

(** Mono, 16 bits, 8000 Hz: the format of [WavInputs.shortClip], and the
    bytes of its four samples. *)
Definition mono16 : Format := mkFormat 1 1 8000 16000 2 16 [].
Definition fourSamples : list byte := [x00; x40; x00; x40; x00; xc0; x00; xc0].

(** Stereo, 8 bits: two frames, the samples 0x80 and 0x00, then 0xFF and
    0x80. *)
Definition stereo8 : Format := mkFormat 1 2 8000 16000 2 8 [].
Definition twoFrames : list byte := [x80; x00; xff; x80].

(** A header that declares no channel, and one whose format tag is 85
    (MPEG layer 3). *)
Definition noChannels : Format := mkFormat 1 0 8000 0 0 16 [].
Definition compressed : Format := mkFormat 85 2 8000 16000 2 8 [].

(** A chunk to step over. *)
Definition listChunk : Chunk := mkChunk "LIST" [x01; x02].

End WavLayoutInputs.

(** ** The texture cache in use *)

Module TextureOrder.

Import Texture.

Section Order.

Variable C : Type.
Variable modelFiles : Loader.AssetTable.

(** The key a listener in flight will insert a record for, when it is the
    listener of a miss. *)
Definition missKey (d : string * Listener C) : list (string * bool) :=
  match snd d with
  | OnMiss fileName usePremultiply _ _ => [(fileName, usePremultiply)]
  | OnHit _ _ => []
  end.

Definition missing (m : LAppTextureManager C) : list (string * bool) :=
  flat_map missKey (decoding m).

(** Whether a miss for the key is in flight. *)
Definition rivalled (fileName : string) (usePremultiply : bool)
    (m : LAppTextureManager C) : bool :=
  existsb (fun k => String.eqb (fst k) fileName && Bool.eqb (snd k) usePremultiply)
          (missing m).

(** A run in which no acquire comes while a miss for its key is in
    flight. *)
Fixpoint unrivalled (ops : list (Op C)) (m : LAppTextureManager C) : bool :=
  match ops with
  | [] => true
  | o :: rest =>
      match o with
      | Acquire fileName usePremultiply _ => negb (rivalled fileName usePremultiply m)
      | _ => true
      end
      && unrivalled rest (step modelFiles m o)
  end.

(** The keys of the records and of the misses in flight are all apart. *)
Definition apart (m : LAppTextureManager C) : Prop :=
  NoDup (map key (_textures m) ++ missing m).

(** The handles made so far are the handles of the records together with
    the handles deleted, each once. *)
Definition accounted (m : LAppTextureManager C) : Prop :=
  Permutation (seq 0 (handles m)) (map id (_textures m) ++ deleted m).

Definition isAcquire (o : Op C) : bool :=
  match o with Acquire _ _ _ => true | _ => false end.

Definition isFailed (o : Op C) : bool :=
  match o with Failed _ => true | _ => false end.

End Order.

Arguments missKey {C} d.
Arguments missing {C} m.
Arguments rivalled {C} fileName usePremultiply m.
Arguments unrivalled {C} modelFiles ops m.
Arguments apart {C} m.
Arguments accounted {C} m.
Arguments isAcquire {C} o.
Arguments isFailed {C} o.

End TextureOrder.

Module CacheInputs.

Import Texture.

(** No asset table: every path is served as it is. *)
Definition asWritten : Loader.AssetTable := fun _ => None.

(** A texture acquired, loaded and acquired again, a second one, a release
    while the second is still decoding, and the first acquired once more. *)
Definition session : list (Op nat) :=
  [Acquire "a.png" true 0%nat; Loaded 0 2 2; Acquire "a.png" true 1%nat;
   Acquire "b.png" true 2%nat; Loaded 0 4 4; Release; Loaded 0 8 8;
   Acquire "a.png" true 3%nat; Loaded 0 2 2]%string.

(** A cache that holds a.png, 2 by 2. *)
Definition held : LAppTextureManager nat :=
  mkManager nat [mkTexture 0 0 2 2 true "a.png"] [] 1 1
            [(0%nat, Some (mkTexture 0 0 2 2 true "a.png"))] [].

End CacheInputs.

(** ** The texture cache and the graphics context

    The listener of a miss and [release] reach the graphics context through
    [_glManager], which is null until [setGlManager] is called, and through
    the context the GL manager holds, which is null until its [initialize]
    finds one and again after its [release].  [Texture] is the cache with
    the context there whenever it is reached for; here it is a state of its
    own. *)

Module TextureGl.

Import Texture.

Section Gl.

Variable C : Type.
Variable modelFiles : Loader.AssetTable.

Record Managed := mkManaged {
  cache : LAppTextureManager C;
  _glManager : bool;      (* [_glManager] is not null *)
  _gl : bool;             (* the context of the one GL manager is not null *)
  uncaught : nat          (* listeners that ended in a TypeError *)
}.

(** [new LAppTextureManager()], next to a new GL manager. *)
Definition newManaged : Managed := mkManaged newManager false false 0.

(** Whether [this._glManager!.getGl()] gives a context. *)
Definition usable (g : Managed) : bool := _glManager g && _gl g.

Definition onCache (f : LAppTextureManager C -> LAppTextureManager C)
    (g : Managed) : Managed :=
  mkManaged (f (cache g)) (_glManager g) (_gl g) (uncaught g).

(** The [load] event of the [k]-th image in flight.  The listener of a miss
    begins with [this._glManager!.getGl()] and [gl.createTexture()]: with
    [_glManager] null, or with a GL manager whose context is null, that is a
    TypeError, and the listener ends there: it has run, no record is made
    and the callback is not called.  The listener of a hit calls back
    without touching the context. *)
Definition loaded (k : nat) (imgWidth imgHeight : Z) (g : Managed) : Managed :=
  match nth_error (decoding (cache g)) k with
  | Some (_, OnMiss _ _ _ _) =>
      if usable g then onCache (Texture.loaded k imgWidth imgHeight) g
      else
        mkManaged
          (mkManager C (_textures (cache g)) (removeNth k (decoding (cache g)))
                     (images (cache g)) (handles (cache g)) (called (cache g))
                     (deleted (cache g)))
          (_glManager g) (_gl g) (S (uncaught g))
  | _ => onCache (Texture.loaded k imgWidth imgHeight) g
  end.

(** [release] and [releaseTextures]:
    [this._glManager?.getGl().deleteTexture(id)] for every record, then the
    list is cleared.  With [_glManager] null the call is skipped for every
    record; with a GL manager whose context is null the first record raises
    a TypeError and the list is left as it is. *)
Definition release (g : Managed) : Wav.outcome unit * Managed :=
  if negb (_glManager g) then
    (Wav.Val tt,
     onCache (fun m => mkManager C [] (decoding m) (images m) (handles m)
                                 (called m) (deleted m)) g)
  else if _gl g then (Wav.Val tt, onCache Texture.release g)
  else
    match _textures (cache g) with
    | [] => (Wav.Val tt, g)
    | _ :: _ => (Wav.Thrown, g)
    end.

(** What reaches the cache and the context. *)
Inductive Op :=
| OnCache (o : Texture.Op C)
| SetGlManager                   (* [setGlManager] with the one GL manager *)
| GlInitialize (found : bool)    (* its [initialize]: a context, or none *)
| GlRelease.                     (* its [release] *)

Definition step (g : Managed) (o : Op) : Managed :=
  match o with
  | OnCache (Loaded k imgWidth imgHeight) => loaded k imgWidth imgHeight g
  | OnCache Release => snd (release g)
  | OnCache o' => onCache (fun m => Texture.step modelFiles m o') g
  | SetGlManager => mkManaged (cache g) true (_gl g) (uncaught g)
  | GlInitialize found => mkManaged (cache g) (_glManager g) found (uncaught g)
  | GlRelease => mkManaged (cache g) (_glManager g) false (uncaught g)
  end.

Definition run (ops : list Op) (g : Managed) : Managed := fold_left step ops g.

(** The operations on the cache among [ops]. *)
Definition cacheOps (ops : list Op) : list (Texture.Op C) :=
  flat_map (fun o => match o with OnCache o' => [o'] | _ => [] end) ops.

Definition acquires (ops : list Op) : nat :=
  List.length (filter (fun o => match o with Acquire _ _ _ => true | _ => false end)
                      (cacheOps ops)).

Definition noFailure (o : Op) : bool :=
  match o with OnCache (Failed _) => false | _ => true end.

Definition noSetGlManager (o : Op) : bool :=
  match o with SetGlManager => false | _ => true end.

(** A run in which the context is there whenever it is reached for: at
    every load of a miss, and at every release of a list that is not
    empty. *)
Fixpoint served (ops : list Op) (g : Managed) : bool :=
  match ops with
  | [] => true
  | o :: rest =>
      match o with
      | OnCache (Loaded k _ _) =>
          match nth_error (decoding (cache g)) k with
          | Some (_, OnMiss _ _ _ _) => usable g
          | _ => true
          end
      | OnCache Release =>
          usable g || match _textures (cache g) with [] => true | _ => false end
      | _ => true
      end
      && served rest (step g o)
  end.

(** A texture manager without its GL manager that holds no record, has
    called nothing back, and has listeners of misses only in flight. *)
Definition bare (g : Managed) : Prop :=
  _glManager g = false
  /\ _textures (cache g) = []
  /\ called (cache g) = []
  /\ Forall (fun d => exists f p image c, snd d = OnMiss f p image c)
            (decoding (cache g)).

End Gl.

Arguments cache {C} _.
Arguments _glManager {C} _.
Arguments _gl {C} _.
Arguments uncaught {C} _.
Arguments newManaged {C}.
Arguments usable {C} g.
Arguments loaded {C} k imgWidth imgHeight g.
Arguments release {C} g.
Arguments OnCache {C} o.
Arguments SetGlManager {C}.
Arguments GlInitialize {C} found.
Arguments GlRelease {C}.
Arguments step {C} modelFiles g o.
Arguments run {C} modelFiles ops g.
Arguments cacheOps {C} ops.
Arguments acquires {C} ops.
Arguments noFailure {C} o.
Arguments noSetGlManager {C} o.
Arguments served {C} modelFiles ops g.
Arguments bare {C} g.

End TextureGl.

Module GlInputs.

Import Texture TextureGl.

(** A texture acquired before the texture manager has its GL manager, the
    same acquired again once it has one and a context; then the context is
    released and a second texture is acquired. *)
Definition contextLost : list (TextureGl.Op nat) :=
  [OnCache (Acquire "a.png" true 0%nat); OnCache (Loaded 0 2 2);
   GlInitialize true; SetGlManager;
   OnCache (Acquire "a.png" true 1%nat); OnCache (Loaded 0 2 2);
   GlRelease;
   OnCache (Acquire "b.png" true 2%nat); OnCache (Loaded 0 4 4)]%string.

(** The session of [CacheInputs], behind an initialised context. *)
Definition withContext : list (TextureGl.Op nat) :=
  GlInitialize true :: SetGlManager :: map OnCache CacheInputs.session.

End GlInputs.

(** ** The load of a model, from its manifest to CompleteSetup *)

Module ModelReady.

Import Model ModelStages.

Section Ready.

Variable engine : Engine.
Variable s : ModelSetting.

Definition textureTotal : nat := List.length (textureFileNames s).
Definition namedTotal : nat := List.length (named (indexed (textureFileNames s))).
Definition expressionTotal : nat := List.length (expressions s).
Definition motionTotal : nat := List.length (groupTags s (map fst (motionGroups s))).

Definition isModel (p : Pending) : Prop := exists f, p = PModel f.
Definition isPhysics (p : Pending) : Prop := exists f, p = PPhysics f.
Definition isPose (p : Pending) : Prop := exists f, p = PPose f.
Definition isUserData (p : Pending) : Prop := exists f, p = PUserData f.
Definition isTexture (p : Pending) : Prop :=
  exists n f, p = PTexture n (Z.of_nat textureTotal) f.

(** Completions that leave no fetch unanswered: no fetch in flight is
    rejected, and the body the fetch of the rig binary brings is one the
    engine builds a model from.  A completion that finds nothing in flight at
    its position is let through. *)
Fixpoint served (events : list Event) (m : LAppModel) : bool :=
  match events with
  | [] => true
  | e :: rest =>
      match e with
      | Fetched k r =>
          match nth_error (pending m) k with
          | None | Some (PTexture _ _ _) => true
          | Some (PModel _) => answered r && buildsModel engine (bufferOf r)
          | Some _ => answered r
          end
      | Textured _ _ => true
      end
      && served rest (deliver engine m e)
  end.

(** [a] against [b]: equal when nothing is lost, at most [b] otherwise. *)
Definition within (strict : bool) (a b : nat) : Prop :=
  if strict then a = b else (a <= b)%nat.

(** One fetch in flight, or, when fetches can be lost, none. *)
Definition single (strict : bool) (P : Pending -> Prop) (l : list Pending) : Prop :=
  (exists p, l = [p] /\ P p) \/ (strict = false /\ l = []).

(** What holds of a model after its manifest, state by state: what is in
    flight belongs to the stage the state names, and the counters count the
    completions of that stage. *)
Definition staged (strict : bool) (m : LAppModel) : Prop :=
  _modelSetting m = Some s
  /\ (_state m = LoadModel \/ modelFileName s <> ""%string)
  /\ (strict = true ->
      _state m = LoadModel \/ _state m = WaitLoadModel \/ _model (base m) = true)
  /\ match _state m with
     | LoadModel => pending m = [] /\ modelFileName s = ""%string
     | WaitLoadModel =>
         _textureCount m = 0 /\ _expressionCount m = 0
         /\ single strict isModel (pending m)
     | WaitLoadExpression =>
         _textureCount m = 0
         /\ Forall (isExpression (Z.of_nat expressionTotal)) (pending m)
         /\ exists done : nat,
              _expressionCount m = Z.of_nat done
              /\ within strict (List.length (pending m) + done) expressionTotal
              /\ (done < expressionTotal)%nat
     | WaitLoadPhysics => _textureCount m = 0 /\ single strict isPhysics (pending m)
     | WaitLoadPose => _textureCount m = 0 /\ single strict isPose (pending m)
     | WaitLoadUserData => _textureCount m = 0 /\ single strict isUserData (pending m)
     | SetupLayout =>
         _textureCount m = 0 /\ pending m = [] /\ _model (base m) = false
     | WaitLoadMotion =>
         _textureCount m = 0 /\ _model (base m) = true
         /\ Forall isMotion (pending m)
         /\ exists good bad : nat,
              _motionCount m = Z.of_nat good
              /\ _allMotionCount m = Z.of_nat motionTotal - Z.of_nat bad
              /\ within strict (List.length (pending m) + good + bad) motionTotal
              /\ ((good + bad < motionTotal)%nat
                  \/ (motionTotal = 0%nat /\ motionGroups s <> []))
     | WaitLoadTexture =>
         _model (base m) = true
         /\ (motionGroups s = [] \/ (0 < motionTotal)%nat)
         /\ Forall isTexture (pending m)
         /\ exists done : nat,
              _textureCount m = Z.of_nat done
              /\ within strict (List.length (pending m) + done) namedTotal
              /\ ((done < textureTotal)%nat \/ textureTotal = 0%nat)
     | CompleteSetup =>
         _model (base m) = true
         /\ (motionGroups s = [] \/ (0 < motionTotal)%nat)
         /\ pending m = []
         /\ _textureCount m = Z.of_nat textureTotal
         /\ (0 < textureTotal)%nat
         /\ namedTotal = textureTotal
     | _ => False
     end.

(** Where a stage starts from: nothing in flight, no texture bound yet. *)
Definition between (strict : bool) (m : LAppModel) : Prop :=
  _modelSetting m = Some s
  /\ pending m = []
  /\ _textureCount m = 0
  /\ modelFileName s <> ""%string
  /\ (strict = true -> _model (base m) = true).

(** A stage that has lost a fetch: what is left in flight, with what has
    completed, falls short of what the stage waits for. *)
Definition stalled (m : LAppModel) : Prop :=
  _modelSetting m = Some s
  /\ match _state m with
     | WaitLoadModel | WaitLoadPhysics | WaitLoadPose | WaitLoadUserData =>
         pending m = []
     | WaitLoadExpression =>
         Forall (isExpression (Z.of_nat expressionTotal)) (pending m)
         /\ exists done : nat,
              _expressionCount m = Z.of_nat done
              /\ (List.length (pending m) + done < expressionTotal)%nat
     | WaitLoadMotion =>
         Forall isMotion (pending m)
         /\ exists good bad : nat,
              _motionCount m = Z.of_nat good
              /\ _allMotionCount m = Z.of_nat motionTotal - Z.of_nat bad
              /\ (List.length (pending m) + good + bad < motionTotal)%nat
     | _ => False
     end.

(** A manifest the load of which can end: it names a rig binary and at
    least one texture, every texture has a name, and its motion groups, if it
    has any, hold a motion. *)
Definition complete : bool :=
  negb (String.eqb (modelFileName s) "")
  && negb (Nat.eqb textureTotal 0)
  && Nat.eqb namedTotal textureTotal
  && (Nat.eqb (List.length (motionGroups s)) 0 || negb (Nat.eqb motionTotal 0)).

End Ready.

End ModelReady.

Module ReadyInputs.

Import Model ModelInputs.

(** Every fetch of the sample model answered with a good body, the last
    expression first and the motions out of order, then its two textures. *)
Definition fullLoad : list Event :=
  [Fetched 0 ok; Fetched 1 ok; Fetched 0 ok; Fetched 0 ok; Fetched 0 ok;
   Fetched 2 ok; Fetched 0 ok; Fetched 0 ok; Textured 1 6; Textured 0 5].

End ReadyInputs.

(** ** Scenes, and what reaches a manager around them *)

Module ManagerScenes.

Import Model Manager.

(** The pointer events. *)
Definition pointer (o : Op) : bool :=
  match o with
  | PointBegan _ _ | PointMoved _ _ | PointEnded _ _ => true
  | _ => false
  end.

(** How the pointer releases of a run end, in their order: [onPointEnded]
    is the one pointer handler with a call that can throw (the hit test). *)
Fixpoint releases {T} (touch : TouchOps T) (view : View) (engine : Engine)
    (ops : list Op) (g : LAppLive2DManager T) : list (Wav.outcome unit) :=
  match ops with
  | [] => []
  | o :: rest =>
      match o with
      | PointEnded x y => [fst (onPointEnded T view engine x y g)]
      | _ => []
      end
      ++ releases touch view engine rest (step T touch view engine g o)
  end.

End ManagerScenes.

Module SceneInputs.

Import Model ModelInputs Manager ManagerInputs.

(** A manager the scene of which was set to -3 from outside. *)
Definition below : LAppLive2DManager (Q * Q) :=
  changeScene (Q * Q) (-3) (newManager (0, 0)%Q).

(** A press, a move and a release of the pointer, twice. *)
Definition afterwards : list Op :=
  [PointBegan 10 20; PointMoved 12 24; PointEnded 12 24;
   PointMoved 30 40; PointBegan 1 2; PointEnded 3 4].

End SceneInputs.

(** ** What a model has been given by the time it is ready *)

Module ModelProfile.

Import Model ModelStages.

(** The texture numbers bound so far, in the order bound. *)
Fixpoint bound (cs : list Call) : list nat :=
  match cs with
  | [] => []
  | CallBindTexture modelTextureNumber _ :: rest => modelTextureNumber :: bound rest
  | _ :: rest => bound rest
  end.

(** The texture numbers of the texture requests in flight. *)
Fixpoint awaited (ps : list Pending) : list nat :=
  match ps with
  | [] => []
  | PTexture modelTextureNumber _ _ :: rest => modelTextureNumber :: awaited rest
  | _ :: rest => awaited rest
  end.

(** The additions of the envelope made so far: parameter, value, weight. *)
Fixpoint fed (cs : list Call) : list (string * Num.root * Q) :=
  match cs with
  | [] => []
  | CallAddParameterValue parameter (Envelope value) weight :: rest =>
      (parameter, value, weight) :: fed rest
  | _ :: rest => fed rest
  end.

(** The calls that end a frame: the envelope, the pose, the update of the
    model, and the drawing. *)
Definition finishing (c : Call) : bool :=
  match c with
  | CallModelUpdate | CallDrawModel | CallPoseUpdate _ | CallSetRenderState
  | CallAddParameterValue _ (Envelope _) _ => true
  | _ => false
  end.

Section Profile.

Variable s : ModelSetting.

(** The numbers of the textures the manifest names. *)
Definition slots : list nat := map fst (named (indexed (textureFileNames s))).

(** What the stages up to rank [r] have left in the model: the eye blink
    (rank 10) and the breath (11), the parameter ids of eye blink (14) and
    lip sync (15), the end of the initialisation and the texture requests
    (21). *)
Definition profile (r : nat) (m : LAppModel) : Prop :=
  _eyeBlink (base m) = (10 <=? r)%nat && (0 <? getEyeBlinkParameterCount s)
  /\ _breath (base m) = (11 <=? r)%nat
  /\ _eyeBlinkIds m = (if (14 <=? r)%nat then eyeBlinkParameterIds s else [])
  /\ _lipSyncIds m = (if (15 <=? r)%nat then lipSyncParameterIds s else [])
  /\ _updating (base m) = negb (21 <=? r)%nat
  /\ _initialized (base m) = (21 <=? r)%nat
  /\ (if (21 <=? r)%nat
      then Permutation (bound (calls m) ++ awaited (pending m)) slots
      else bound (calls m) = [] /\ awaited (pending m) = []).

End Profile.

End ModelProfile.

Module ProfileInputs.

Import Model ModelInputs ReadyInputs.

(** The sample model with everything loaded. *)
Definition ready : LAppModel := run strictEngine fullLoad (parsed "/Haru/" haru).

(** A manager showing it. *)
Definition showing : Manager.LAppLive2DManager (Q * Q) :=
  Manager.mkManager (Q * Q) [ready] 0 (0, 0)%Q false.

(** A frame in which the WAV handler throws. *)
Definition brokenFrame : Frame := mkFrame (1 # 60) 0 0 true false None.

End ProfileInputs.

(** * Properties *)

(** ** 32-bit words *)

Module JSFacts.

Import JS.

Lemma toInt32_small z : -2147483648 <= z < 2147483648 -> toInt32 z = z.
Proof. unfold toInt32; intros H. rewrite Z.mod_small; lia. Qed.

Lemma toInt32_range z : -2147483648 <= toInt32 z < 2147483648.
Proof.
  unfold toInt32.
  pose proof (Z.mod_pos_bound (z + 2147483648) 4294967296 eq_refl). lia.
Qed.

(** Or-ing a value shifted by [k] with a value below [2^k] adds them. *)
Lemma lor_shiftl_add hi lo k :
  0 <= k -> 0 <= lo < 2 ^ k -> Z.lor (Z.shiftl hi k) lo = hi * 2 ^ k + lo.
Proof.
  intros Hk Hlo.
  assert (Hland : Z.land (Z.shiftl hi k) lo = 0).
  { apply Z.bits_inj'; intros n Hn.
    rewrite Z.land_spec, Z.bits_0.
    destruct (Z.ltb_spec n k) as [Hlt | Hge].
    - rewrite Z.shiftl_spec_low by assumption. reflexivity.
    - destruct (Z.eq_dec lo 0) as [-> | Hne].
      + rewrite Z.bits_0. apply andb_false_r.
      + rewrite (Z.bits_above_log2 lo n), andb_false_r; [reflexivity | lia |].
        apply Z.log2_lt_pow2; [lia |].
        apply Z.lt_le_trans with (2 ^ k); [lia |].
        apply Z.pow_le_mono_r; lia. }
  rewrite <- Z.lxor_lor by assumption.
  rewrite <- Z.add_nocarry_lxor by assumption.
  rewrite Z.shiftl_mul_pow2 by assumption. reflexivity.
Qed.

Lemma shl_small x n :
  0 <= n < 32 -> -2147483648 <= x < 2147483648 -> shl x n = toInt32 (x * 2 ^ n).
Proof.
  intros Hn Hx. unfold shl. rewrite (toInt32_small x) by assumption.
  rewrite Z.mod_small by lia. rewrite Z.shiftl_mul_pow2 by lia. reflexivity.
Qed.

Lemma bor_small hi lo k :
  0 <= k -> 0 <= lo < 2 ^ k -> -2147483648 <= hi * 2 ^ k < 2147483648 ->
  0 <= lo < 2147483648 ->
  bor (hi * 2 ^ k) lo = toInt32 (hi * 2 ^ k + lo).
Proof.
  intros Hk Hlo Hhi Hlo'. unfold bor.
  rewrite (toInt32_small (hi * 2 ^ k)), (toInt32_small lo) by lia.
  rewrite <- Z.shiftl_mul_pow2 by assumption.
  rewrite lor_shiftl_add by assumption.
  rewrite Z.shiftl_mul_pow2 by assumption. reflexivity.
Qed.

(** The little-endian reads put the bytes side by side. *)
Lemma word16 b0 b1 :
  0 <= b0 < 256 -> 0 <= b1 < 256 -> bor (shl b1 8) b0 = b1 * 256 + b0.
Proof.
  intros H0 H1. rewrite shl_small by lia. change (2 ^ 8) with 256.
  rewrite (toInt32_small (b1 * 256)) by lia.
  change 256 with (2 ^ 8) at 1.
  rewrite bor_small by (change (2 ^ 8) with 256; lia).
  change (2 ^ 8) with 256. apply toInt32_small. lia.
Qed.

Lemma word24 b0 b1 b2 :
  0 <= b0 < 256 -> 0 <= b1 < 256 -> 0 <= b2 < 256 ->
  bor (bor (shl b2 16) (shl b1 8)) b0 = b2 * 65536 + b1 * 256 + b0.
Proof.
  intros H0 H1 H2. rewrite !shl_small by lia.
  change (2 ^ 8) with 256. change (2 ^ 16) with 65536.
  rewrite (toInt32_small (b1 * 256)), (toInt32_small (b2 * 65536)) by lia.
  change 65536 with (2 ^ 16) at 1.
  rewrite bor_small by (change (2 ^ 16) with 65536; lia).
  change (2 ^ 16) with 65536. rewrite toInt32_small by lia.
  replace (b2 * 65536 + b1 * 256) with ((b2 * 256 + b1) * 2 ^ 8)
    by (change (2 ^ 8) with 256; lia).
  rewrite bor_small by (change (2 ^ 8) with 256; lia).
  change (2 ^ 8) with 256. rewrite toInt32_small by lia. lia.
Qed.

End JSFacts.


(** ** Rounding to a binary format *)

Module RoundFacts.

Import Num.

Local Open Scope Q_scope.

Lemma pow2_pos z : 0 < pow2 z.
Proof. apply Qpower_0_lt. reflexivity. Qed.

Lemma pow2_add a b : pow2 (a + b) == pow2 a * pow2 b.
Proof. apply Qpower_plus. discriminate. Qed.

Lemma pow2_le a b : (a <= b)%Z -> pow2 a <= pow2 b.
Proof. intros H. apply Qpower_le_compat_l; [exact H | discriminate]. Qed.

Lemma pow2_lt a b : (a < b)%Z -> pow2 a < pow2 b.
Proof. intros H. apply Qpower_lt_compat_l; [exact H | reflexivity]. Qed.

Lemma pow2_Z n : (0 <= n)%Z -> pow2 n == inject_Z (2 ^ n).
Proof. intros H. unfold pow2. rewrite Zpower_Qpower by exact H. reflexivity. Qed.

Lemma pow2_succ a : pow2 (a + 1) == 2 * pow2 a.
Proof. rewrite pow2_add. change (pow2 1) with 2. ring. Qed.

Lemma pow2_sub a b : pow2 (a - b) * pow2 b == pow2 a.
Proof. rewrite <- pow2_add. replace (a - b + b)%Z with a by lia. reflexivity. Qed.

Lemma div_pow2 x u : x / pow2 u * pow2 u == x.
Proof. field. pose proof (pow2_pos u). lra. Qed.

Lemma div_pow2_le x y u : x <= y -> x / pow2 u <= y / pow2 u.
Proof.
  intros H. pose proof (pow2_pos u) as Hp.
  apply Qle_shift_div_l; [exact Hp |]. rewrite div_pow2. exact H.
Qed.

(** [ilog2 q] is the exponent of the power of two at or below [q]. *)
Lemma ilog2_spec q : 0 < q -> pow2 (ilog2 q) <= q /\ q < pow2 (ilog2 q + 1).
Proof.
  intros Hq. destruct q as [n d].
  assert (Hn : (0 < n)%Z).
  { unfold Qlt in Hq. cbn in Hq. lia. }
  unfold ilog2. cbn [Qnum Qden].
  set (a := Z.log2 n). set (b := Z.log2 (Zpos d)).
  pose proof (Z.log2_spec n Hn) as [Ha1 Ha2]. fold a in Ha1, Ha2.
  pose proof (Z.log2_spec (Zpos d) eq_refl) as [Hb1 Hb2]. fold b in Hb1, Hb2.
  pose proof (Z.log2_nonneg n) as Ha0. fold a in Ha0.
  pose proof (Z.log2_nonneg (Zpos d)) as Hb0. fold b in Hb0.
  set (A := pow2 a). set (B := pow2 b).
  assert (HA : A == inject_Z (2 ^ a)) by (apply pow2_Z; exact Ha0).
  assert (HB : B == inject_Z (2 ^ b)) by (apply pow2_Z; exact Hb0).
  set (N := inject_Z n). set (D := inject_Z (Zpos d)).
  assert (HAN : A <= N) by (rewrite HA; unfold N; rewrite <- Zle_Qle; exact Ha1).
  assert (HNA : N < 2 * A).
  { rewrite HA. unfold N. change 2 with (inject_Z 2). rewrite <- inject_Z_mult, <- Zlt_Qlt.
    replace (Z.succ a) with (a + 1)%Z in Ha2 by lia.
    rewrite Z.pow_add_r in Ha2 by lia. lia. }
  assert (HBD : B <= D) by (rewrite HB; unfold D; rewrite <- Zle_Qle; exact Hb1).
  assert (HDB : D < 2 * B).
  { rewrite HB. unfold D. change 2 with (inject_Z 2). rewrite <- inject_Z_mult, <- Zlt_Qlt.
    replace (Z.succ b) with (b + 1)%Z in Hb2 by lia.
    rewrite Z.pow_add_r in Hb2 by lia. lia. }
  assert (HA0 : 0 < A) by apply pow2_pos.
  assert (HB0 : 0 < B) by apply pow2_pos.
  assert (HD0 : 0 < D) by (unfold D; change 0 with (inject_Z 0); rewrite <- Zlt_Qlt; lia).
  set (q := n # d) in *.
  assert (Eq : q * D == N) by (unfold q, N, D; rewrite (Qmake_Qdiv n d); field; discriminate).
  set (P := pow2 (a - b)).
  assert (EP : P * B == A) by (unfold P, A, B; apply pow2_sub).
  assert (HP0 : 0 < P) by apply pow2_pos.
  destruct (Qle_bool P q) eqn:E.
  - apply Qle_bool_iff in E. split; [exact E |].
    rewrite pow2_succ. fold P. nra.
  - assert (Hlt : q < P).
    { apply Qnot_le_lt. intros H. apply Qle_bool_iff in H. congruence. }
    replace (a - b - 1 + 1)%Z with (a - b)%Z by lia. fold P. split; [| exact Hlt].
    assert (E2 : 2 * pow2 (a - b - 1) == P).
    { rewrite <- pow2_succ. replace (a - b - 1 + 1)%Z with (a - b)%Z by lia. reflexivity. }
    set (P' := pow2 (a - b - 1)) in *.
    assert (0 < P') by apply pow2_pos. nra.
Qed.

Lemma ilog2_unique q e :
  pow2 e <= q -> q < pow2 (e + 1) -> ilog2 q = e.
Proof.
  intros H1 H2.
  assert (Hq : 0 < q) by (pose proof (pow2_pos e); lra).
  destruct (ilog2_spec q Hq) as [G1 G2].
  destruct (Z.lt_trichotomy (ilog2 q) e) as [Hlt | [Heq | Hgt]]; [| exact Heq |].
  - pose proof (pow2_le (ilog2 q + 1) e ltac:(lia)). lra.
  - pose proof (pow2_le (e + 1) (ilog2 q) ltac:(lia)). lra.
Qed.

Lemma ilog2_comp x y : 0 < x -> x == y -> ilog2 x = ilog2 y.
Proof.
  intros Hx E. destruct (ilog2_spec x Hx) as [G1 G2].
  symmetry. apply ilog2_unique; rewrite <- E; assumption.
Qed.

Lemma ilog2_le x y : 0 < x -> x <= y -> (ilog2 x <= ilog2 y)%Z.
Proof.
  intros Hx Hxy. assert (Hy : 0 < y) by lra.
  destruct (ilog2_spec x Hx) as [G1 G2]. destruct (ilog2_spec y Hy) as [K1 K2].
  destruct (Z.le_gt_cases (ilog2 x) (ilog2 y)) as [H | H]; [exact H |].
  pose proof (pow2_le (ilog2 y + 1) (ilog2 x) ltac:(lia)). lra.
Qed.

Lemma ilog2_scaled m u :
  (0 < m)%Z -> ilog2 (inject_Z m * pow2 u) = (Z.log2 m + u)%Z.
Proof.
  intros Hm. pose proof (Z.log2_spec m Hm) as [H1 H2].
  pose proof (Z.log2_nonneg m) as H0. pose proof (pow2_pos u) as Hu.
  apply ilog2_unique.
  - rewrite pow2_add, (pow2_Z _ H0).
    apply Qmult_le_compat_r; [rewrite <- Zle_Qle; exact H1 | lra].
  - replace (Z.log2 m + u + 1)%Z with (Z.succ (Z.log2 m) + u)%Z by lia.
    rewrite pow2_add, (pow2_Z (Z.succ (Z.log2 m))) by lia.
    apply Qmult_lt_compat_r; [exact Hu | rewrite <- Zlt_Qlt; exact H2].
Qed.

(** *** The nearest whole number *)

Lemma nearestEven_bounds x : (Qfloor x <= nearestEven x <= Qfloor x + 1)%Z.
Proof.
  unfold nearestEven.
  destruct (Qcompare _ _); [destruct (Z.even _) | |]; lia.
Qed.

Lemma nearestEven_comp x y : x == y -> nearestEven x = nearestEven y.
Proof.
  intros E. unfold nearestEven. rewrite (Qfloor_comp x y E).
  assert (E2 : x - inject_Z (Qfloor y) == y - inject_Z (Qfloor y)) by (rewrite E; reflexivity).
  rewrite (Qcompare_comp _ _ E2 (1 # 2) (1 # 2) (Qeq_refl _)). reflexivity.
Qed.

Lemma nearestEven_Z z : nearestEven (inject_Z z) = z.
Proof.
  unfold nearestEven. rewrite Qfloor_Z.
  assert (E : inject_Z z - inject_Z z == 0) by ring.
  rewrite (Qcompare_comp _ _ E (1 # 2) (1 # 2) (Qeq_refl _)). reflexivity.
Qed.

Lemma nearestEven_le x y : x <= y -> (nearestEven x <= nearestEven y)%Z.
Proof.
  intros H. pose proof (Qfloor_resp_le x y H) as Hf.
  pose proof (nearestEven_bounds x) as Bx. pose proof (nearestEven_bounds y) as By.
  destruct (Z.eq_dec (Qfloor x) (Qfloor y)) as [E | N]; [| lia].
  unfold nearestEven. rewrite <- E.
  destruct (Qcompare_spec (x - inject_Z (Qfloor x)) (1 # 2)) as [Cx | Cx | Cx];
    destruct (Qcompare_spec (y - inject_Z (Qfloor x)) (1 # 2)) as [Cy | Cy | Cy];
    try (destruct (Z.even (Qfloor x))); try lia; exfalso; lra.
Qed.

Lemma nearestEven_ge x z : inject_Z z <= x -> (z <= nearestEven x)%Z.
Proof. intros H. rewrite <- (nearestEven_Z z). apply nearestEven_le. exact H. Qed.

Lemma nearestEven_le_Z x z : x <= inject_Z z -> (nearestEven x <= z)%Z.
Proof. intros H. rewrite <- (nearestEven_Z z). apply nearestEven_le. exact H. Qed.

Lemma nearestEven_small x : 0 <= x -> x < 1 # 2 -> nearestEven x = 0%Z.
Proof.
  intros H0 H1. unfold nearestEven.
  assert (Ef : Qfloor x = 0%Z).
  { pose proof (Qfloor_le x) as A. pose proof (Qlt_floor x) as B.
    assert (C : (0 <= Qfloor x)%Z) by (rewrite <- (Qfloor_Z 0); apply Qfloor_resp_le; exact H0).
    assert (D : (Qfloor x < 1)%Z).
    { apply Z.lt_nge. intros G. rewrite Zle_Qle in G. change (inject_Z 1) with 1 in G. lra. }
    lia. }
  rewrite Ef.
  assert (C : Qcompare (x - inject_Z 0) (1 # 2) = Lt).
  { destruct (Qcompare_spec (x - inject_Z 0) (1 # 2)) as [C | C | C];
      [exfalso | reflexivity | exfalso]; change (inject_Z 0) with 0 in C; lra. }
  rewrite C. reflexivity.
Qed.

(** *** Rounding *)

Section Format.

Variables p emin : Z.
Hypothesis precision : (1 <= p)%Z.

Lemma roundTo_zero q : q == 0 -> roundTo p emin q = 0.
Proof.
  intros E. unfold roundTo.
  assert (H : Qeq_bool q 0 = true) by (apply Qeq_bool_iff; exact E).
  rewrite H. reflexivity.
Qed.

Lemma roundTo_pos q : 0 < q -> roundTo p emin q == roundPos p emin q.
Proof.
  intros Hq. unfold roundTo.
  assert (H0 : Qeq_bool q 0 = false).
  { destruct (Qeq_bool q 0) eqn:E; [| reflexivity]. apply Qeq_bool_iff in E. lra. }
  assert (H1 : Qlt_bool q 0 = false).
  { unfold Qlt_bool. apply negb_false_iff. apply Qle_bool_iff. lra. }
  rewrite H0, H1. cbv zeta. rewrite Qred_correct.
  assert (Ea : Qabs q == q) by (apply Qabs_pos; lra).
  assert (Ha : 0 < Qabs q) by lra.
  unfold roundPos, ulpExponent. rewrite (ilog2_comp _ _ Ha Ea).
  set (u := Z.max _ _).
  assert (E : Qabs q / pow2 u == q / pow2 u) by (rewrite Ea; reflexivity).
  rewrite (nearestEven_comp _ _ E). reflexivity.
Qed.

Lemma roundPos_comp x y : 0 < x -> x == y -> roundPos p emin x == roundPos p emin y.
Proof.
  intros Hx E. unfold roundPos, ulpExponent. rewrite (ilog2_comp x y Hx E).
  set (u := Z.max _ _).
  assert (E2 : x / pow2 u == y / pow2 u) by (rewrite E; reflexivity).
  rewrite (nearestEven_comp _ _ E2). reflexivity.
Qed.

Lemma roundTo_comp x y : x == y -> roundTo p emin x = roundTo p emin y.
Proof.
  intros E. unfold roundTo.
  assert (E0 : Qeq_bool x 0 = Qeq_bool y 0).
  { destruct (Qeq_bool x 0) eqn:A, (Qeq_bool y 0) eqn:B; try reflexivity.
    - apply Qeq_bool_iff in A. rewrite E in A. apply Qeq_bool_iff in A. congruence.
    - apply Qeq_bool_iff in B. rewrite <- E in B. apply Qeq_bool_iff in B. congruence. }
  rewrite <- E0. destruct (Qeq_bool x 0) eqn:A; [reflexivity |].
  assert (Hx : ~ x == 0).
  { intros H. apply Qeq_bool_iff in H. congruence. }
  assert (E1 : Qlt_bool x 0 = Qlt_bool y 0).
  { unfold Qlt_bool. f_equal.
    destruct (Qle_bool 0 x) eqn:C, (Qle_bool 0 y) eqn:D; try reflexivity.
    - apply Qle_bool_iff in C. rewrite E in C. apply Qle_bool_iff in C. congruence.
    - apply Qle_bool_iff in D. rewrite <- E in D. apply Qle_bool_iff in D. congruence. }
  rewrite <- E1. cbv zeta.
  assert (Ea : Qabs x == Qabs y) by (rewrite E; reflexivity).
  assert (Ha : 0 < Qabs x).
  { pose proof (Qabs_nonneg x) as H.
    destruct (Qle_lt_or_eq _ _ H) as [G | G]; [exact G |].
    exfalso. apply Hx. symmetry in G.
    destruct (Qabs_Qle_condition x 0) as [K _]. specialize (K ltac:(rewrite G; lra)). lra. }
  rewrite <- (ilog2_comp _ _ Ha Ea). set (u := Z.max _ _).
  assert (E2 : Qabs x / pow2 u == Qabs y / pow2 u) by (rewrite Ea; reflexivity).
  rewrite <- (nearestEven_comp _ _ E2). reflexivity.
Qed.

Lemma roundPos_nonneg a : 0 <= a -> 0 <= roundPos p emin a.
Proof.
  intros Ha. unfold roundPos. set (u := ulpExponent p emin a).
  pose proof (pow2_pos u) as Hu.
  apply Qmult_le_0_compat; [| lra].
  change 0 with (inject_Z 0). rewrite <- Zle_Qle. apply nearestEven_ge.
  change (inject_Z 0) with 0. apply Qle_shift_div_l; [exact Hu | lra].
Qed.

Lemma roundTo_nonneg q : 0 <= q -> 0 <= roundTo p emin q.
Proof.
  intros H. destruct (Qle_lt_or_eq _ _ H) as [G | G].
  - rewrite (roundTo_pos q G). apply roundPos_nonneg. exact H.
  - rewrite (roundTo_zero q) by (symmetry; exact G). lra.
Qed.

(** Below the smallest power of two a value reaches, and above the
    largest it stays under. *)
Lemma roundPos_upper a :
  0 < a -> roundPos p emin a <= pow2 (ilog2 a + 1).
Proof.
  intros Ha. destruct (ilog2_spec a Ha) as [_ G]. unfold roundPos.
  set (u := ulpExponent p emin a). set (e := ilog2 a) in *.
  pose proof (pow2_pos u) as Hu.
  assert (Hx : a / pow2 u < pow2 (e + 1 - u)).
  { apply Qlt_shift_div_r; [exact Hu |]. rewrite pow2_sub. exact G. }
  destruct (Z.le_gt_cases 0 (e + 1 - u)) as [Hk | Hk].
  - assert (Hn : (nearestEven (a / pow2 u) <= 2 ^ (e + 1 - u))%Z).
    { apply nearestEven_le_Z. rewrite <- (pow2_Z _ Hk). lra. }
    rewrite Zle_Qle in Hn. rewrite <- (pow2_Z _ Hk) in Hn.
    rewrite <- (pow2_sub (e + 1) u).
    apply Qmult_le_compat_r; [exact Hn | lra].
  - assert (Hs : pow2 (e + 1 - u) <= 1 # 2).
    { change (1 # 2) with (pow2 (-1)). apply pow2_le. lia. }
    rewrite (nearestEven_small (a / pow2 u)).
    + pose proof (pow2_pos (e + 1)). change (inject_Z 0) with 0. lra.
    + apply Qle_shift_div_l; [exact Hu | lra].
    + lra.
Qed.

Lemma roundPos_lower a :
  0 < a -> (emin <= ilog2 a - (p - 1))%Z -> pow2 (ilog2 a) <= roundPos p emin a.
Proof.
  intros Ha He. destruct (ilog2_spec a Ha) as [G _]. unfold roundPos, ulpExponent.
  rewrite Z.max_l by exact He.
  set (e := ilog2 a) in *. set (u := (e - (p - 1))%Z).
  pose proof (pow2_pos u) as Hu.
  assert (Hx : pow2 (p - 1) <= a / pow2 u).
  { apply Qle_shift_div_l; [exact Hu |]. rewrite <- pow2_add.
    replace (p - 1 + u)%Z with e by (unfold u; lia). exact G. }
  assert (Hn : (2 ^ (p - 1) <= nearestEven (a / pow2 u))%Z).
  { apply nearestEven_ge. rewrite <- pow2_Z by lia. exact Hx. }
  rewrite Zle_Qle in Hn. rewrite <- pow2_Z in Hn by lia.
  replace e with (p - 1 + u)%Z at 1 by (unfold u; lia). rewrite pow2_add.
  apply Qmult_le_compat_r; [exact Hn | lra].
Qed.

Lemma roundPos_le x y : 0 < x -> x <= y -> roundPos p emin x <= roundPos p emin y.
Proof.
  intros Hx Hxy. assert (Hy : 0 < y) by lra.
  pose proof (ilog2_le x y Hx Hxy) as He.
  destruct (Z.eq_dec (ulpExponent p emin x) (ulpExponent p emin y)) as [E | N].
  - unfold roundPos. rewrite E. set (u := ulpExponent p emin y).
    pose proof (pow2_pos u) as Hu.
    apply Qmult_le_compat_r; [| lra].
    rewrite <- Zle_Qle. apply nearestEven_le. apply div_pow2_le. exact Hxy.
  - assert (Hlt : (ilog2 x < ilog2 y)%Z) by (unfold ulpExponent in N; lia).
    assert (Hmin : (emin <= ilog2 y - (p - 1))%Z) by (unfold ulpExponent in N; lia).
    pose proof (roundPos_upper x Hx) as U.
    pose proof (roundPos_lower y Hy Hmin) as L.
    pose proof (pow2_le (ilog2 x + 1) (ilog2 y) ltac:(lia)). lra.
Qed.

(** Rounding keeps the order of values that are not negative. *)
Lemma roundTo_le x y : 0 <= x -> x <= y -> roundTo p emin x <= roundTo p emin y.
Proof.
  intros Hx Hxy. destruct (Qle_lt_or_eq _ _ Hx) as [G | G].
  - rewrite (roundTo_pos x G), (roundTo_pos y) by lra. apply roundPos_le; assumption.
  - rewrite (roundTo_zero x) by (symmetry; exact G). apply roundTo_nonneg. lra.
Qed.

Lemma roundTo_fixed r : representable p emin r -> roundTo p emin r == r.
Proof.
  intros (m & u & E & [Hm0 Hm] & Hu).
  destruct (Z.eq_dec m 0) as [-> | Hne].
  - assert (E0 : r == 0) by (rewrite E; ring).
    rewrite (roundTo_zero r E0). symmetry. exact E0.
  - assert (Hpos : (0 < m)%Z) by lia.
    pose proof (pow2_pos u) as Hpu.
    assert (Hr : 0 < r).
    { rewrite E. apply Qmult_lt_0_compat; [| exact Hpu].
      change 0 with (inject_Z 0). rewrite <- Zlt_Qlt. exact Hpos. }
    rewrite (roundTo_pos r Hr), (roundPos_comp r _ Hr E).
    unfold roundPos, ulpExponent. rewrite (ilog2_scaled m u Hpos).
    assert (Hl : (Z.log2 m < p)%Z) by (apply Z.log2_lt_pow2; lia).
    set (v := Z.max (Z.log2 m + u - (p - 1)) emin).
    assert (Hv : (v <= u)%Z) by (unfold v; lia).
    assert (Ex : inject_Z m * pow2 u / pow2 v == inject_Z (m * 2 ^ (u - v))).
    { rewrite inject_Z_mult, <- pow2_Z by lia.
      rewrite <- (pow2_sub u v). field. pose proof (pow2_pos v). lra. }
    rewrite (nearestEven_comp _ _ Ex), nearestEven_Z.
    rewrite inject_Z_mult, <- pow2_Z by lia.
    rewrite <- Qmult_assoc, pow2_sub. symmetry. exact E.
Qed.

Lemma roundPos_representable a : 0 < a -> representable p emin (roundPos p emin a).
Proof.
  intros Ha. destruct (ilog2_spec a Ha) as [_ G].
  set (u := ulpExponent p emin a). set (e := ilog2 a) in *.
  pose proof (pow2_pos u) as Hu.
  assert (Hue : (e + 1 - u <= p)%Z) by (unfold u, ulpExponent; fold e; lia).
  assert (Hmin : (emin <= u)%Z) by (unfold u, ulpExponent; lia).
  assert (Hx : a / pow2 u <= pow2 p).
  { apply Qle_shift_div_r; [exact Hu |].
    pose proof (pow2_le (e + 1) (p + u) ltac:(lia)) as H.
    rewrite (pow2_add p u) in H. lra. }
  assert (Hn : (nearestEven (a / pow2 u) <= 2 ^ p)%Z).
  { apply nearestEven_le_Z. rewrite <- pow2_Z by lia. exact Hx. }
  assert (Hn0 : (0 <= nearestEven (a / pow2 u))%Z).
  { apply nearestEven_ge. change (inject_Z 0) with 0.
    apply Qle_shift_div_l; [exact Hu | lra]. }
  destruct (Z.eq_dec (nearestEven (a / pow2 u)) (2 ^ p)) as [E | N].
  - exists (2 ^ (p - 1))%Z, (u + 1)%Z. split; [| split; [| lia]].
    + unfold roundPos. fold u. rewrite E.
      rewrite <- !pow2_Z by lia. rewrite <- !pow2_add.
      replace (p - 1 + (u + 1))%Z with (p + u)%Z by lia. reflexivity.
    + split; [apply Z.pow_nonneg; lia | apply Z.pow_lt_mono_r; lia].
  - exists (nearestEven (a / pow2 u)), u. split; [reflexivity |]. split; lia.
Qed.

Lemma roundTo_representable q : 0 <= q -> representable p emin (roundTo p emin q).
Proof.
  intros H. destruct (Qle_lt_or_eq _ _ H) as [G | G].
  - destruct (roundPos_representable q G) as (m & u & E & Hm & Hu).
    exists m, u. split; [rewrite (roundTo_pos q G); exact E | split; assumption].
  - rewrite (roundTo_zero q) by (symmetry; exact G).
    exists 0%Z, emin. split; [ring |]. split; [| lia].
    split; [lia | apply Z.pow_pos_nonneg; lia].
Qed.

(** Rounding what has been rounded changes nothing. *)
Lemma roundTo_idempotent q :
  0 <= q -> roundTo p emin (roundTo p emin q) == roundTo p emin q.
Proof. intros H. apply roundTo_fixed. apply roundTo_representable. exact H. Qed.

End Format.

End RoundFacts.

(** ** The WAV reader and the sample format *)

Module WavFacts.

Import JS Num Wav WavSpec WavInputs JSFacts.

Lemma getUint8_range view off v : getUint8 view off = Some v -> 0 <= v < 256.
Proof.
  unfold getUint8. destruct (off <? 0); [discriminate |].
  destruct (nth_error view (Z.to_nat off)) as [b |]; [| discriminate].
  simpl. intros [= <-]. pose proof (Byte.to_N_bounded b). lia.
Qed.

Lemma shl8_word v : 0 <= v < 256 -> shl (v - 128) 24 = (v - 128) * 16777216.
Proof. intros H. rewrite shl_small by lia. change (2 ^ 24) with 16777216. apply toInt32_small. lia. Qed.

Lemma shl16_word v : 0 <= v < 65536 -> shl v 16 = signed16 v * 65536.
Proof.
  intros H. rewrite shl_small by lia. change (2 ^ 16) with 65536.
  unfold signed16, toInt32. destruct (Z.ltb_spec v 32768); Z.div_mod_to_equations; lia.
Qed.

Lemma shl24_word v : 0 <= v < 16777216 -> shl v 8 = signed24 v * 256.
Proof.
  intros H. rewrite shl_small by lia. change (2 ^ 8) with 256.
  unfold signed24, toInt32. destruct (Z.ltb_spec v 8388608); Z.div_mod_to_equations; lia.
Qed.

Lemma get8_run r :
  get8 r = match getUint8 (_fileByte r) (_readOffset r) with
           | Some v => (Val v, setOffset (_readOffset r + 1) r)
           | None => (Thrown, r)
           end.
Proof.
  unfold get8, bind, peek, advance, modify, ret. rewrite Z.add_0_r.
  destruct (getUint8 _ _); reflexivity.
Qed.

Lemma get16_run r :
  get16LittleEndian r =
  match getUint8 (_fileByte r) (_readOffset r), getUint8 (_fileByte r) (_readOffset r + 1) with
  | Some b0, Some b1 => (Val (bor (shl b1 8) b0), setOffset (_readOffset r + 2) r)
  | _, _ => (Thrown, r)
  end.
Proof.
  unfold get16LittleEndian, bind, peek, advance, modify, ret.
  destruct (getUint8 _ (_readOffset r + 1)); cbn beta iota; rewrite ?Z.add_0_r;
    destruct (getUint8 _ (_readOffset r)); reflexivity.
Qed.

Lemma get24_run r :
  get24LittleEndian r =
  match getUint8 (_fileByte r) (_readOffset r), getUint8 (_fileByte r) (_readOffset r + 1),
        getUint8 (_fileByte r) (_readOffset r + 2) with
  | Some b0, Some b1, Some b2 =>
      (Val (bor (bor (shl b2 16) (shl b1 8)) b0), setOffset (_readOffset r + 3) r)
  | _, _, _ => (Thrown, r)
  end.
Proof.
  unfold get24LittleEndian, bind, peek, advance, modify, ret.
  destruct (getUint8 _ (_readOffset r + 2)); cbn beta iota;
    destruct (getUint8 _ (_readOffset r + 1)); cbn beta iota; rewrite ?Z.add_0_r;
    destruct (getUint8 _ (_readOffset r)); reflexivity.
Qed.

Lemma littleEndian1 b0 : littleEndian [b0] = b0.
Proof. cbn [littleEndian]. lia. Qed.
Lemma littleEndian2 b0 b1 : littleEndian [b0; b1] = b1 * 256 + b0.
Proof. cbn [littleEndian]. lia. Qed.
Lemma littleEndian3 b0 b1 b2 : littleEndian [b0; b1; b2] = b2 * 65536 + b1 * 256 + b0.
Proof. cbn [littleEndian]. lia. Qed.

Lemma pcm32_run bits r :
  pcm32 bits r =
  match readBytes (_fileByte r) (_readOffset r) (sampleBytes bits) with
  | Some bs => (Val (specWord bits bs),
                setOffset (_readOffset r + Z.of_nat (sampleBytes bits)) r)
  | None => (Thrown, r)
  end.
Proof.
  unfold pcm32, sampleBytes, specWord.
  destruct (bits =? 8); [| destruct (bits =? 16); [| destruct (bits =? 24)]].
  - unfold bind. rewrite get8_run. cbn [readBytes].
    destruct (getUint8 _ _) as [b0 |] eqn:E0; [| reflexivity].
    unfold ret. rewrite littleEndian1, shl8_word by (eapply getUint8_range; eassumption).
    reflexivity.
  - unfold bind. rewrite get16_run. cbn [readBytes].
    destruct (getUint8 _ (_readOffset r)) as [b0 |] eqn:E0; [| reflexivity].
    destruct (getUint8 _ (_readOffset r + 1)) as [b1 |] eqn:E1; [| reflexivity].
    apply getUint8_range in E0, E1.
    unfold ret. rewrite littleEndian2, word16 by assumption.
    rewrite shl16_word by lia. reflexivity.
  - unfold bind. rewrite get24_run. cbn [readBytes].
    replace (_readOffset r + 1 + 1) with (_readOffset r + 2) by lia.
    destruct (getUint8 _ (_readOffset r)) as [b0 |] eqn:E0;
      [destruct (getUint8 _ (_readOffset r + 1)) as [b1 |] eqn:E1;
       [destruct (getUint8 _ (_readOffset r + 2)) as [b2 |] eqn:E2 |] |];
      try reflexivity.
    apply getUint8_range in E0, E1, E2.
    unfold ret. rewrite littleEndian3, word24 by assumption.
    rewrite shl24_word by lia. reflexivity.
  - cbn [readBytes]. unfold ret, setOffset. rewrite Z.add_0_r. destruct r; reflexivity.
Qed.

Lemma readBytes_bounds view n : forall off bs,
  readBytes view off n = Some bs ->
  List.length bs = n /\ 0 <= littleEndian bs < 256 ^ Z.of_nat n.
Proof.
  induction n as [| n IH]; intros off bs; simpl readBytes.
  - intros [= <-]. simpl. lia.
  - destruct (getUint8 view off) as [b |] eqn:Eb; [| discriminate].
    destruct (readBytes view (off + 1) n) as [t |] eqn:Et; [| discriminate].
    intros [= <-]. apply getUint8_range in Eb. destruct (IH _ _ Et) as [Hl Hr].
    split; [simpl; congruence |].
    cbn [littleEndian]. rewrite Nat2Z.inj_succ, Z.pow_succ_r by lia. lia.
Qed.

Lemma specWord_range bits bs :
  List.length bs = sampleBytes bits -> 0 <= littleEndian bs < 256 ^ Z.of_nat (sampleBytes bits) ->
  -2147483648 <= specWord bits bs <= 2147483392.
Proof.
  unfold sampleBytes, specWord, signed16, signed24.
  destruct (bits =? 8); [| destruct (bits =? 16); [| destruct (bits =? 24)]];
    intros _; cbn -[Z.mul Z.ltb]; intros H.
  - lia.
  - destruct (Z.ltb_spec (littleEndian bs) 32768); lia.
  - destruct (Z.ltb_spec (littleEndian bs) 8388608); lia.
  - lia.
Qed.

Local Open Scope Q_scope.

(** C4, as stated, fails: the 8-bit sample 0 becomes the word -2^31, and
    -2^31 / 2147483647 is below -1. *)
Lemma getPcmSample_below_minus_one :
  exists q h', getPcmSample lowest8 = (Val q, h') /\ q < -1.
Proof.
  eexists; eexists; split; [vm_compute; reflexivity |]. reflexivity.
Qed.

(** C4, amended: [getPcmSample] reads the sample the specification
    describes (8-bit offset by 128, 16-bit and 24-bit signed little-endian,
    each moved to the top of a 32-bit word) and returns that word divided by
    2147483647.  The quotient lies in [-2147483648/2147483647, 1); it is below
    -1 exactly for the word -2^31.  A depth other than 8, 16 and 24 gives 0,
    reads nothing and does not throw; a sample that is not wholly inside the
    buffer throws and leaves the state as it was. *)
Theorem getPcmSample_quotient (h : LAppWavFileHandler) :
  let bits := _bitsPerSample (_wavFileInfo h) in
  let r := _byteReader h in
  match readBytes (_fileByte r) (_readOffset r) (sampleBytes bits) with
  | Some bs =>
      let w := specWord bits bs in
      let q := Qred (w # 2147483647) in
      let h' := setReader (setOffset (_readOffset r + Z.of_nat (sampleBytes bits)) r) h in
      getPcmSample h = (Val q, h')
      /\ (-2147483648 <= w <= 2147483392)%Z
      /\ - (2147483648 # 2147483647) <= q
      /\ q < 1
      /\ (q < -1 <-> w = (-2147483648)%Z)
      /\ (bits <> 8%Z -> bits <> 16%Z -> bits <> 24%Z -> q = 0 /\ h' = h)
  | None => getPcmSample h = (Thrown, h)
  end.
Proof.
  intros bits r.
  assert (Hrun : getPcmSample h =
                 let (o, r') := pcm32 bits r in
                 match o with
                 | Val w => (Val (Qred (w # 2147483647)), setReader r' h)
                 | Thrown => (Thrown, setReader r' h)
                 | Spinning => (Spinning, setReader r' h)
                 end).
  { unfold getPcmSample, bind, gets, reader, ret. fold bits. fold r.
    destruct (pcm32 bits r) as [[w | |] r']; reflexivity. }
  rewrite pcm32_run in Hrun.
  destruct (readBytes (_fileByte r) (_readOffset r) (sampleBytes bits)) as [bs |] eqn:Eb.
  - cbv zeta. apply readBytes_bounds in Eb as [Hlen Hle].
    pose proof (specWord_range bits bs Hlen Hle) as Hw.
    split; [exact Hrun |]. split; [exact Hw |].
    set (w := specWord bits bs) in *.
    split; [| split; [| split]].
    + rewrite Qred_correct. unfold Qle; simpl. lia.
    + rewrite Qred_correct. unfold Qlt; simpl. lia.
    + rewrite Qred_correct. unfold Qlt; simpl. lia.
    + intros H8 H16 H24. subst w. unfold specWord, sampleBytes.
      apply Z.eqb_neq in H8, H16, H24. rewrite H8, H16, H24.
      split; [reflexivity |].
      unfold setReader, setOffset. subst r. simpl. rewrite Z.add_0_r.
      destruct h as [? ? ? ? ? [? ? ?]]; reflexivity.
  - rewrite Hrun. unfold setReader. subst r. destruct h; reflexivity.
Qed.

(** *** The scan for the data chunk *)

(** One round of the scan: after a signature that is not [data], with the
    offset still inside the file, the offset moves on by the declared size
    plus the 4 bytes of the size field. *)
Lemma scanForData_skips fuel r r1 size r2 :
  getCheckSignature "data" r = (Val false, r1) ->
  (_readOffset r1 <? _fileSize r1) = true ->
  get32LittleEndian r1 = (Val size, r2) ->
  scanForData (S fuel) r =
  scanForData fuel (setOffset (_readOffset r1 + (size + 4)) r2).
Proof.
  intros Hsig Hin Hsize. cbn [scanForData]. unfold bind at 1. rewrite Hsig.
  unfold bind, gets, modify. rewrite Hin. cbn [negb andb]. rewrite Hsize.
  reflexivity.
Qed.

(** On [negativeChunk] a round of the scan ends where it began:
    40 + (-8 + 4) = 36. *)
Lemma scan_again fuel : scanForData (S fuel) atList = scanForData fuel atList.
Proof. reflexivity. Qed.

Lemma scan_spins fuel : scanForData fuel atList = (Spinning, atList).
Proof.
  induction fuel as [| fuel IH]; [reflexivity |].
  rewrite scan_again. exact IH.
Qed.

(** C6 fails on the code: on [negativeChunk], whose header parses and which
    has no data chunk, [loadWavFile] is still inside its scan loop whatever
    fuel it is given; it returns neither false nor anything else. *)
Theorem loadWavFile_negative_size_never_returns :
  forall (canAllocate : Z -> bool) (fuel : nat) (h : LAppWavFileHandler),
    fst (loadWavFile canAllocate fuel "voice.wav" (Some negativeChunk) h) = Spinning.
Proof.
  intros canAllocate fuel h.
  destruct h as [pcm t rms off info rd].
  destruct pcm; cbv -[scanForData readData].
  all: match goal with
       | |- context [scanForData _ ?r] => change r with atList
       end; rewrite scan_spins; reflexivity.
Qed.

(** Without that chunk the same file is rejected: a header alone, and a
    header cut short, make [loadWavFile] return false. *)
Example loadWavFile_header_only :
  fst (loadWavFile roomy 8 "voice.wav" (Some (firstn 36 negativeChunk)) newHandler)
  = Val false
  /\ fst (loadWavFile roomy 8 "voice.wav" (Some (firstn 30 negativeChunk)) newHandler)
     = Val false.
Proof. split; vm_compute; reflexivity. Qed.

(** *** update *)

(** The quotients 1073741824 / 2147483647 and -1073741824 / 2147483647
    of the four samples are held as the binary32 values 0.5 and -0.5. *)
Example clip_loads :
  fst (loadWavFile roomy 8 "voice.wav" (Some shortClip) newHandler) = Val true
  /\ _pcmData (snd (start "voice.wav" newHandler)) = None
  /\ _pcmData clipLoaded = Some [[1 # 2; 1 # 2; -1 # 2; -1 # 2]]
  /\ _samplesPerChannel (_wavFileInfo clipLoaded) = JFin 4
  /\ _sampleOffset clipLoaded = 0.
Proof. repeat split; vm_compute; reflexivity. Qed.

(** C5 fails on the code: on a loaded clip that has not ended, a tick of 0
    seconds (and so any tick too short to reach the next sample) divides 0
    by 0; the envelope is NaN and [update] returns true. *)
Theorem update_zero_tick_nan :
  exists h', update 0 clipLoaded = (Val true, h')
             /\ getRms h' = RootNaN
             /\ _sampleOffset h' = 0.
Proof. eexists. split; [vm_compute; reflexivity |]. split; reflexivity. Qed.

(** The same after the clip has started to play: a tick of 250 microseconds
    (two samples at 8000 Hz, the envelope the root of 0.25), then one
    of 10. *)
Example update_short_tick_nan :
  exists h1 h2, update (1 # 4000) clipLoaded = (Val true, h1)
                /\ getRms h1 = Sqrt (1 # 4) /\ _sampleOffset h1 = 2
                /\ update (1 # 100000) h1 = (Val true, h2)
                /\ getRms h2 = RootNaN /\ _sampleOffset h2 = 2.
Proof.
  eexists; eexists. split; [vm_compute; reflexivity |].
  split; [reflexivity |]. split; [reflexivity |].
  split; [vm_compute; reflexivity |]. split; reflexivity.
Qed.

End WavFacts.

(** ** The texture cache *)

Module TextureFacts.

Import Texture.

(** No asset table entry: every path is fetched as it is. *)
Definition noTable : Loader.AssetTable := fun _ => None.

(** Two acquirers ask for the same texture before its first decode ends;
    then both decodes end. *)
Definition twoInFlight : list (Op nat) :=
  [Acquire "/Haru/Haru.2048/texture_00.png" true 1%nat;
   Acquire "/Haru/Haru.2048/texture_00.png" true 2%nat;
   Loaded 0 2048 2048;
   Loaded 0 2048 2048].

(** C7 fails on the code: both acquires miss the (still empty) list, and
    each load listener pushes a record of its own, so the cache ends with two
    records for the one key, each with its own GPU handle. *)
Theorem duplicate_record_when_in_flight :
  let m := run noTable twoInFlight newManager in
  countKey "/Haru/Haru.2048/texture_00.png" true m = 2%nat
  /\ map id (_textures m) = [0%nat; 1%nat]
  /\ map fst (called m) = [1%nat; 2%nat].
Proof. repeat split. Qed.

(** A record that is found is not inserted again: the acquire starts one
    more decode, and leaves the records as many as they were. *)
Lemma hit_starts_decode (C : Type) (table : Loader.AssetTable)
    (m : LAppTextureManager C) f p (c : C) position :
  find f p (_textures m) = Some position ->
  let m' := createTextureFromPngFile table f p c m in
  decoding m' = decoding m ++ [(Loader.getAssetUrl table f, OnHit position c)]
  /\ List.length (_textures m') = List.length (_textures m)
  /\ map key (_textures m') = map key (_textures m).
Proof.
  intros Hfind. unfold createTextureFromPngFile. rewrite Hfind. cbn.
  split; [reflexivity |].
  assert (Hkeys : forall l n, map key (setNth n (setImg (images m)) l) = map key l).
  { induction l as [| t l IH]; intros [| n]; cbn; try reflexivity.
    f_equal. apply IH. }
  split; [| apply Hkeys].
  rewrite <- (length_map key), Hkeys, length_map. reflexivity.
Qed.

Lemma find_sameKey f p l position :
  find f p l = Some position ->
  exists t, nth_error l position = Some t /\ sameKey f p t = true.
Proof.
  revert position. induction l as [| t l IH]; intros position; cbn; [discriminate |].
  destruct (sameKey f p t) eqn:Ek.
  - intros [= <-]. exists t. split; [reflexivity | exact Ek].
  - destruct (find f p l) as [n |]; cbn; [| discriminate].
    intros [= <-]. cbn. apply IH. reflexivity.
Qed.

End TextureFacts.

(** ** The loading pipeline *)

Module ModelFacts.

Import Model ModelStages ModelInputs.

Lemma LoadStep_eqb_eq a b : LoadStep_eqb a b = true <-> a = b.
Proof. split; [destruct a, b; (reflexivity || discriminate) | intros <-; destruct a; reflexivity]. Qed.

Lemma LoadStep_eqb_neq a b : LoadStep_eqb a b = false <-> a <> b.
Proof.
  split.
  - intros H E. apply LoadStep_eqb_eq in E. congruence.
  - intros H. destruct (LoadStep_eqb a b) eqn:E; [| reflexivity].
    apply LoadStep_eqb_eq in E. contradiction.
Qed.

(** *** The loops *)

Lemma fold_expressions count l : forall m,
  fold_left (fun (m : LAppModel) (e : string * string) =>
               let (expressionName, expressionFileName) := e in
               fetchAsset (PExpression count expressionName expressionFileName) m) l m
  = set_pending (pending m ++ expressionTags count l) m.
Proof.
  induction l as [| [n f] l IH]; intros m; cbn [fold_left expressionTags map].
  - rewrite app_nil_r. destruct m; reflexivity.
  - rewrite IH. unfold fetchAsset, set_pending. cbn. rewrite <- app_assoc. reflexivity.
Qed.

Lemma preLoadMotionGroup_eq setting group m :
  preLoadMotionGroup setting group m
  = set_log (log m ++ motionNotes group (indexed (motionsOf (motionGroups setting) group)))
      (set_pending (pending m ++ motionTags group (indexed (motionsOf (motionGroups setting) group))) m).
Proof.
  unfold preLoadMotionGroup.
  generalize (indexed (motionsOf (motionGroups setting) group)) as l. intros l. revert m.
  induction l as [| [i e] l IH]; intros m; cbn [fold_left motionTags motionNotes map].
  - rewrite !app_nil_r. destruct m; reflexivity.
  - rewrite IH. unfold fetchAsset, printMessage, set_pending, set_log. cbn.
    rewrite <- !app_assoc. reflexivity.
Qed.

Lemma fold_groups setting groups : forall m,
  fold_left (fun m g => preLoadMotionGroup setting g m) groups m
  = set_log (log m ++ groupNotes setting groups)
      (set_pending (pending m ++ groupTags setting groups) m).
Proof.
  induction groups as [| g groups IH]; intros m; cbn [fold_left groupTags groupNotes flat_map].
  - rewrite !app_nil_r. destruct m; reflexivity.
  - rewrite IH, preLoadMotionGroup_eq. unfold set_pending, set_log. cbn.
    rewrite <- !app_assoc. reflexivity.
Qed.

Lemma fold_counts setting groups : forall m,
  fold_left (fun (m : LAppModel) (g : string) =>
               set_allMotionCount (_allMotionCount m + getMotionCount setting g) m) groups m
  = set_allMotionCount (_allMotionCount m + totalMotions setting groups) m.
Proof.
  induction groups as [| g groups IH]; intros m; cbn [fold_left totalMotions map fold_right].
  - rewrite Z.add_0_r. destruct m; reflexivity.
  - rewrite IH. unfold set_allMotionCount. cbn. f_equal. fold (totalMotions setting groups). lia.
Qed.

Lemma fold_textures count l : forall m,
  fold_left
    (fun (m : LAppModel) (entry : nat * string) =>
       let (modelTextureNumber, texturePath) := entry in
       if String.eqb texturePath "" then m
       else
         let fullPath := (_modelHomeDir m ++ texturePath)%string in
         let m := fetchAsset (PTexture modelTextureNumber count fullPath) m in
         call (CallSetIsPremultipliedAlpha true) m) l m
  = set_calls (calls m ++ map (fun _ => CallSetIsPremultipliedAlpha true) (named l))
      (set_pending (pending m ++ textureTags (_modelHomeDir m) count l) m).
Proof.
  induction l as [| [n path] l IH]; intros m; cbn [fold_left].
  - unfold textureTags, named. cbn. rewrite !app_nil_r. destruct m; reflexivity.
  - unfold textureTags, named in *. cbn [filter snd].
    destruct (String.eqb path "") eqn:E; cbn [negb].
    + apply IH.
    + rewrite IH. unfold fetchAsset, call, set_pending, set_calls. cbn.
      rewrite <- !app_assoc. reflexivity.
Qed.

(** *** Stage by stage *)

Lemma grows_refl m : grows m m.
Proof. split; exists []; rewrite app_nil_r; reflexivity. Qed.

Lemma grows_trans m1 m2 m3 : grows m1 m2 -> grows m2 m3 -> grows m1 m3.
Proof.
  intros [[c1 C1] [l1 L1]] [[c2 C2] [l2 L2]]. split.
  - exists (c1 ++ c2). rewrite C2, C1, app_assoc. reflexivity.
  - exists (l1 ++ l2). rewrite L2, L1, app_assoc. reflexivity.
Qed.

Ltac grow :=
  split;
  first [ exists []; cbn; rewrite app_nil_r; reflexivity
        | eexists; cbn; rewrite <- ?app_assoc; reflexivity ].

Lemma advance_weaken s r r' m m' :
  (r' <= r)%nat -> advance s r m m' -> advance s r' m m'.
Proof.
  unfold advance. intros H (A & B & C & D & E & G).
  repeat split; try assumption; try lia; apply G.
Qed.

(** The stages only look at a few fields of where they start. *)
Lemma advance_from s r m0 m m' :
  pending m = pending m0 -> _model (base m) = _model (base m0) -> grows m0 m ->
  advance s r m m' -> advance s r m0 m'.
Proof.
  intros Hp Hb Hg (A & B & C & D & E & G). unfold advance. rewrite <- Hp, <- Hb.
  repeat split; try assumption; try lia; apply (grows_trans _ _ _ Hg G).
Qed.

Lemma advance_same s r m m' m'' :
  _modelSetting m'' = _modelSetting m' -> _model (base m'') = _model (base m') ->
  pending m'' = pending m' -> _state m'' = _state m' -> grows m' m'' ->
  advance s r m m' -> advance s r m m''.
Proof.
  intros A B C D Hg (A' & B' & C' & D' & E' & G'). unfold advance. rewrite A, B, C, D.
  repeat split; try assumption; try lia; apply (grows_trans _ _ _ G' Hg).
Qed.

Lemma advance_trans s r1 r2 m1 m2 m3 :
  advance s r1 m1 m2 -> advance s r2 m2 m3 -> advance s r2 m1 m3.
Proof.
  intros (A1 & B1 & (t1 & C1 & F1) & D1 & E1 & G1)
         (A2 & B2 & (t2 & C2 & F2) & D2 & E2 & G2).
  rewrite B1 in F2, E2.
  split; [exact A2 |]. split; [congruence |].
  split; [| split; [assumption | split; [assumption | apply (grows_trans _ _ _ G1 G2)]]].
  exists (t1 ++ t2). split; [rewrite C2, C1, <- app_assoc; reflexivity |].
  apply Forall_app. split; assumption.
Qed.

Lemma advance_here s r m m' :
  _modelSetting m' = Some s -> _model (base m') = _model (base m) ->
  pending m' = pending m ->
  (r <= rank (_state m') <= 15)%nat -> grows m m' ->
  advance s r m m'.
Proof.
  intros A B C D G. repeat split; try assumption; try lia; try apply G.
  exists []. rewrite app_nil_r. split; [assumption | constructor].
Qed.

Lemma advance_wait s r m m' p :
  _modelSetting m' = Some s -> _model (base m') = _model (base m) ->
  pending m' = pending m ++ [p] -> issued s (_model (base m)) p ->
  (r <= rank (_state m') <= 15)%nat -> grows m m' ->
  advance s r m m'.
Proof.
  intros A B C I D G. repeat split; try assumption; try lia; try apply G.
  exists [p]. split; [assumption | constructor; [assumption | constructor]].
Qed.

Section Stages.

Variable engine : Engine.
Variable s : ModelSetting.

Lemma issued_textures dir count :
  Forall (issued s true) (textureTags dir count (indexed (textureFileNames s))).
Proof.
  destruct (textureFileNames s) as [| t ts] eqn:E; [constructor |].
  unfold textureTags. apply Forall_forall. intros p Hin.
  apply in_map_iff in Hin as (e & <- & _). cbn. split; [reflexivity |].
  rewrite E. discriminate.
Qed.

Lemma issued_groups groups : Forall (issued s true) (groupTags s groups).
Proof.
  unfold groupTags. apply Forall_forall. intros p Hin.
  apply in_flat_map in Hin as (g & _ & Hin). unfold motionTags in Hin.
  apply in_map_iff in Hin as (e & <- & _). reflexivity.
Qed.

Lemma issued_expressions b count l : Forall (issued s b) (expressionTags count l).
Proof.
  unfold expressionTags. apply Forall_forall. intros p Hin.
  apply in_map_iff in Hin as (e & <- & _). exact I.
Qed.

Lemma setupTextures_advance m :
  _modelSetting m = Some s -> _model (base m) = true -> _state m = LoadTexture ->
  advance s 21 m (setupTextures m).
Proof.
  intros Hs Hm Hst. unfold setupTextures. rewrite Hst, Hs. cbn [LoadStep_eqb].
  rewrite fold_textures. unfold advance. cbn. rewrite Hm.
  split; [assumption |]. split; [reflexivity |].
  split; [eexists; split; [reflexivity | apply issued_textures] |].
  split; [lia |]. split; [discriminate | grow].
Qed.

Lemma startTextures_advance m :
  _modelSetting m = Some s -> _model (base m) = true ->
  advance s 21 m (startTextures m).
Proof.
  intros Hs Hm. unfold startTextures.
  match goal with
  | |- advance _ _ _ (call ?c ?x) =>
      apply (advance_same s 21 m x (call c x));
        [reflexivity | reflexivity | reflexivity | reflexivity | grow |]
  end.
  eapply advance_from; [| | | apply setupTextures_advance];
    try reflexivity; try assumption; grow.
Qed.

Lemma startTextures_state m :
  _modelSetting m = Some s -> _state (startTextures m) = WaitLoadTexture.
Proof.
  intros Hs. unfold startTextures, setupTextures. cbn. rewrite Hs.
  rewrite fold_textures. reflexivity.
Qed.

Lemma loadCubismMotion_advance m :
  _modelSetting m = Some s -> _model (base m) = true ->
  advance s 17 m (loadCubismMotion m).
Proof.
  intros Hs Hm. unfold loadCubismMotion. cbn. rewrite Hm, Hs. cbn [negb].
  rewrite fold_counts, fold_groups.
  match goal with
  | |- advance _ _ _ (if _ then startTextures ?x else _) =>
      assert (Hx : advance s 17 m x)
  end.
  { unfold advance. cbn. rewrite Hm.
    split; [assumption |]. split; [reflexivity |].
    split; [eexists; split; [reflexivity | apply issued_groups] |].
    split; [lia |]. split; [discriminate | grow]. }
  destruct (getMotionGroupCount s =? 0); [| exact Hx].
  eapply advance_weaken with (r := 21%nat); [lia |].
  eapply advance_trans; [exact Hx |].
  destruct Hx as (A & B & _).
  apply startTextures_advance; [exact A | rewrite B; exact Hm].
Qed.

Lemma setupLayout_advance m :
  _modelSetting m = Some s -> _state m = SetupLayout ->
  advance s 15 m (setupLayout m).
Proof.
  intros Hs Hst. unfold setupLayout. rewrite Hs.
  destruct (_model (base m)) eqn:Hm.
  - eapply advance_weaken with (r := 17%nat); [lia |].
    eapply advance_from; [| | | apply loadCubismMotion_advance];
      try reflexivity; try assumption; grow.
  - apply advance_here; cbn; try assumption; try reflexivity; [| grow].
    rewrite Hst. cbn. lia.
Qed.

Lemma setupLipSyncIds_advance m :
  _modelSetting m = Some s -> advance s 15 m (setupLipSyncIds m).
Proof.
  intros Hs. unfold setupLipSyncIds. rewrite Hs.
  eapply advance_from; [| | | apply setupLayout_advance];
    try reflexivity; try assumption; grow.
Qed.

Lemma setupEyeBlinkIds_advance m :
  _modelSetting m = Some s -> advance s 15 m (setupEyeBlinkIds m).
Proof.
  intros Hs. unfold setupEyeBlinkIds. rewrite Hs.
  eapply advance_from; [| | | apply setupLipSyncIds_advance];
    try reflexivity; try assumption; grow.
Qed.

Lemma loadUserDataFile_advance m :
  _modelSetting m = Some s -> advance s 12 m (loadUserDataFile m).
Proof.
  intros Hs. unfold loadUserDataFile. rewrite Hs.
  destruct (negb (String.eqb (userDataFile s) "")).
  - apply advance_wait with (p := PUserData (userDataFile s)); cbn;
      try assumption; try reflexivity; try exact I; try lia; grow.
  - eapply advance_weaken with (r := 15%nat); [lia |].
    eapply advance_from; [| | | apply setupEyeBlinkIds_advance];
    try reflexivity; try assumption; grow.
Qed.

Lemma setupBreath_advance m :
  _modelSetting m = Some s -> advance s 12 m (setupBreath m).
Proof.
  intros Hs. unfold setupBreath.
  eapply advance_from; [| | | apply loadUserDataFile_advance];
    try reflexivity; try assumption; grow.
Qed.

Lemma setupEyeBlink_advance m :
  _modelSetting m = Some s -> advance s 12 m (setupEyeBlink m).
Proof.
  intros Hs. unfold setupEyeBlink. rewrite Hs.
  destruct (0 <? getEyeBlinkParameterCount s);
    (eapply advance_from; [| | | apply setupBreath_advance];
     try reflexivity; try assumption; grow).
Qed.

Lemma loadCubismPose_advance m :
  _modelSetting m = Some s -> advance s 8 m (loadCubismPose m).
Proof.
  intros Hs. unfold loadCubismPose. rewrite Hs.
  destruct (negb (String.eqb (poseFileName s) "")).
  - apply advance_wait with (p := PPose (poseFileName s)); cbn;
      try assumption; try reflexivity; try exact I; try lia; grow.
  - eapply advance_weaken with (r := 12%nat); [lia |].
    eapply advance_from; [| | | apply setupEyeBlink_advance];
    try reflexivity; try assumption; grow.
Qed.

Lemma loadCubismPhysics_advance m :
  _modelSetting m = Some s -> advance s 6 m (loadCubismPhysics m).
Proof.
  intros Hs. unfold loadCubismPhysics. rewrite Hs.
  destruct (negb (String.eqb (physicsFileName s) "")).
  - apply advance_wait with (p := PPhysics (physicsFileName s)); cbn;
      try assumption; try reflexivity; try exact I; try lia; grow.
  - eapply advance_weaken with (r := 8%nat); [lia |].
    eapply advance_from; [| | | apply loadCubismPose_advance];
    try reflexivity; try assumption; grow.
Qed.

Lemma loadCubismExpression_advance m :
  _modelSetting m = Some s -> advance s 4 m (loadCubismExpression m).
Proof.
  intros Hs. unfold loadCubismExpression. rewrite Hs.
  destruct (0 <? getExpressionCount s).
  - rewrite fold_expressions. unfold advance. cbn.
    split; [assumption |]. split; [reflexivity |].
    split; [eexists; split; [reflexivity | apply issued_expressions] |].
    split; [lia |]. split; [intros _; lia | grow].
  - eapply advance_weaken with (r := 6%nat); [lia |].
    eapply advance_from; [| | | apply loadCubismPhysics_advance];
    try reflexivity; try assumption; grow.
Qed.

End Stages.

(** *** The completion handlers *)

Lemma Forall_removeNth {A} (P : A -> Prop) (l : list A) : forall k,
  Forall P l -> Forall P (removeNth k l).
Proof.
  induction l as [| x l IH]; intros [| k] H; cbn; try assumption.
  - inversion H; assumption.
  - inversion H; subst. constructor; [assumption | apply IH; assumption].
Qed.

Lemma steady_advance s r m m' : steady s m -> advance s r m m' -> steady s m'.
Proof.
  intros (A & B & C & D) (A' & B' & (tags & C1 & C2) & D' & E' & _).
  split; [exact A' |]. rewrite B'. split; [| split; [lia | exact E']].
  rewrite C1. apply Forall_app. split; assumption.
Qed.

(** A handler that leaves the stage as it is. *)
Lemma steady_same s m m' :
  steady s m -> _modelSetting m' = _modelSetting m ->
  _model (base m') = _model (base m) -> pending m' = pending m ->
  _state m' = _state m -> steady s m'.
Proof. unfold steady. intros H A B C D. rewrite A, B, C, D. exact H. Qed.

Section Handlers.

Variable engine : Engine.
Variable s : ModelSetting.

Lemma steady_fetched k r m :
  steady s m ->
  steady s (fetched engine k r m)
  /\ _model (base (fetched engine k r m)) = _model (base m).
Proof.
  intros H. unfold fetched.
  destruct (nth_error (pending m) k) as [p |] eqn:En; [| split; [exact H | reflexivity]].
  assert (Hp : issued s (_model (base m)) p).
  { destruct H as (_ & F & _). rewrite Forall_forall in F. apply F.
    eapply nth_error_In; eassumption. }
  set (m1 := set_pending (removeNth k (pending m)) m).
  assert (H1 : steady s m1).
  { destruct H as (A & B & C & D). repeat split; try assumption.
    apply Forall_removeNth. exact B. }
  assert (Hs1 : _modelSetting m1 = Some s) by apply H1.
  destruct p; try contradiction; unfold thenWith;
    try (destruct (arrayBufferOf r) as [arrayBuffer |]; [| split; [exact H1 | reflexivity]]).
  - (* an expression *)
    unfold onExpression.
    match goal with |- context [if ?c then _ else _] => destruct c end.
    + assert (Ha : advance s 6 m1 (loadCubismPhysics
               (set_state LoadPhysics
                  (set_expressionCount (_expressionCount
                     (set_expressions (setValue expressionName arrayBuffer (_expressions
                        (call (CallLoadExpression arrayBuffer expressionName) m1)))
                        (call (CallLoadExpression arrayBuffer expressionName) m1)) + 1)
                     (set_expressions (setValue expressionName arrayBuffer (_expressions
                        (call (CallLoadExpression arrayBuffer expressionName) m1)))
                        (call (CallLoadExpression arrayBuffer expressionName) m1)))))).
      { eapply advance_from; [| | | apply loadCubismPhysics_advance];
        try reflexivity; [grow | exact Hs1]. }
      split; [eapply steady_advance; eassumption | apply Ha].
    + split; [eapply steady_same; [exact H1 | | | |]; reflexivity | reflexivity].
  - (* physics *)
    unfold onPhysics.
    match goal with |- steady _ (loadCubismPose ?x) /\ _ =>
      assert (Ha : advance s 8 m1 (loadCubismPose x))
        by (eapply advance_from; [| | | apply loadCubismPose_advance];
            try reflexivity; [grow | exact Hs1])
    end.
    split; [eapply steady_advance; eassumption | apply Ha].
  - (* pose *)
    unfold onPose.
    match goal with |- steady _ (setupEyeBlink ?x) /\ _ =>
      assert (Ha : advance s 12 m1 (setupEyeBlink x))
        by (eapply advance_from; [| | | apply setupEyeBlink_advance];
            try reflexivity; [grow | exact Hs1])
    end.
    split; [eapply steady_advance; eassumption | apply Ha].
  - (* user data *)
    unfold onUserData.
    match goal with |- steady _ (setupEyeBlinkIds ?x) /\ _ =>
      assert (Ha : advance s 15 m1 (setupEyeBlinkIds x))
        by (eapply advance_from; [| | | apply setupEyeBlinkIds_advance];
            try reflexivity; [grow | exact Hs1])
    end.
    split; [eapply steady_advance; eassumption | apply Ha].
  - (* a motion: there is a model *)
    cbn in Hp. unfold onMotion.
    destruct (buildsMotion engine arrayBuffer);
      match goal with |- context [if ?c then _ else _] => destruct c end;
      try (split; [eapply steady_same; [exact H1 | | | |]; reflexivity | reflexivity]);
      match goal with |- steady _ (startTextures ?x) /\ _ =>
        assert (Ha : advance s 21 m1 (startTextures x))
          by (eapply advance_from; [| | | apply startTextures_advance];
              try reflexivity; [grow | exact Hs1 | exact Hp])
      end;
      (split; [eapply steady_advance; eassumption | apply Ha]).
  - (* a texture request is not a fetch *)
    split; [exact H | reflexivity].
Qed.

(** Without a model, or without textures in the manifest, no texture request
    is in flight, and nothing is there for [textured] to complete. *)
Lemma steady_textured k texture m :
  steady s m -> _model (base m) = false \/ textureFileNames s = [] ->
  textured k texture m = m.
Proof.
  intros (_ & F & _) Hno. unfold textured.
  destruct (nth_error (pending m) k) as [p |] eqn:En; [| reflexivity].
  destruct p; try reflexivity.
  rewrite Forall_forall in F. apply nth_error_In in En. apply F in En.
  cbn in En. destruct En as [Hm Ht]. destruct Hno; congruence.
Qed.

Lemma waiting_fetched k r m f :
  _modelSetting m = Some s -> pending m = [PModel f] -> _state m = WaitLoadModel ->
  let m' := fetched engine k r m in
  (k <> O -> m' = m)
  /\ (k = O ->
      steady s m'
      /\ match arrayBufferOf r with
         | None => pending m' = [] /\ _state m' = WaitLoadModel /\ log m' = log m
         | Some arrayBuffer =>
             _model (base m') = buildsModel engine arrayBuffer
             /\ (4 <= rank (_state m'))%nat
             /\ (exists cs, calls m' = calls m ++ CallLoadModel arrayBuffer :: cs)
             /\ (exists ls, log m' = log m ++ lost (_modelHomeDir m) f r ++ ls)
         end).
Proof.
  intros A B C. cbv zeta. unfold fetched. rewrite B. split.
  - intros Hk. destruct k as [| [| k]]; [contradiction | reflexivity | reflexivity].
  - intros ->. cbn [nth_error removeNth]. unfold onModel.
    destruct (arrayBufferOf r) as [arrayBuffer |] eqn:Er.
    + match goal with |- steady _ (loadCubismExpression ?x) /\ _ =>
        assert (Ha : advance s 4 x (loadCubismExpression x))
          by (apply loadCubismExpression_advance; destruct r; exact A);
        assert (Hx : pending x = []
                     /\ _model (base x) = buildsModel engine arrayBuffer
                     /\ calls x = calls m ++ [CallLoadModel arrayBuffer]
                     /\ log x = log m ++ lost (_modelHomeDir m) f r)
          by (destruct r; repeat split; cbn; rewrite ?app_nil_r; reflexivity)
      end.
      destruct Hx as (Hx1 & Hx2 & Hx3 & Hx4).
      destruct Ha as (A' & B' & (tags & C1 & C2) & D' & E' & [[cs G1] [ls G2]]).
      split; [| split; [| split; [| split]]].
      * split; [exact A' |]. rewrite B'. split; [| split; [lia | exact E']].
        rewrite C1, Hx1. exact C2.
      * rewrite B'. exact Hx2.
      * lia.
      * exists cs. rewrite G1, Hx3, <- app_assoc. reflexivity.
      * exists ls. rewrite G2, Hx4, <- app_assoc. reflexivity.
    + destruct r; try discriminate. cbn.
      split; [| split; [reflexivity | split; [exact C | reflexivity]]].
      repeat split; cbn; try assumption; try constructor; rewrite C; cbn; lia.
Qed.

End Handlers.

(** *** The fan-out stages *)

Lemma length_removeNth {A} (l : list A) : forall k,
  (k < List.length l)%nat -> List.length (removeNth k l) = pred (List.length l).
Proof.
  induction l as [| x l IH]; intros [| k] H; cbn in *; try lia.
  rewrite IH by lia. destruct l; cbn in *; lia.
Qed.

Lemma length_indexed {A} (l : list A) : List.length (indexed l) = List.length l.
Proof. unfold indexed. rewrite length_combine, length_seq. lia. Qed.

Lemma length_groupTags s groups :
  Z.of_nat (List.length (groupTags s groups)) = totalMotions s groups.
Proof.
  unfold groupTags, totalMotions.
  induction groups as [| g groups IH]; cbn [flat_map map fold_right]; [reflexivity |].
  rewrite length_app, Nat2Z.inj_add, IH. f_equal.
  unfold motionTags, getMotionCount. rewrite length_map, length_indexed. reflexivity.
Qed.

Section Fan.

Variable engine : Engine.
Variable s : ModelSetting.

Lemma expressionStage_entered m :
  _modelSetting m = Some s -> pending m = [] -> _expressionCount m = 0 ->
  (0 < List.length (expressions s))%nat ->
  expressionStage s (List.length (expressions s)) 0 (loadCubismExpression m).
Proof.
  intros Hs Hp Hc Hn. unfold loadCubismExpression. rewrite Hs.
  unfold getExpressionCount.
  destruct (Z.ltb_spec 0 (Z.of_nat (List.length (expressions s)))); [| lia].
  rewrite fold_expressions. unfold expressionStage. cbn. rewrite Hp. cbn.
  repeat split; try assumption.
  - unfold expressionTags. apply Forall_forall. intros p Hin.
    apply in_map_iff in Hin as (e & <- & _). eexists; eexists; reflexivity.
  - unfold expressionTags. rewrite length_map. lia.
Qed.

Lemma expressionStage_step total done k r m :
  expressionStage s total done m -> (done < total)%nat ->
  (k < total - done)%nat -> answered r = true ->
  let m' := fetched engine k r m in
  if (S done <? total)%nat then expressionStage s total (S done) m'
  else (6 <= rank (_state m') <= 21)%nat.
Proof.
  intros (Hs & Hst & Hc & Hf & Hl) Hd Hk Ha. cbv zeta. unfold fetched.
  destruct (nth_error (pending m) k) as [p |] eqn:En.
  2: { apply nth_error_None in En. lia. }
  pose proof (nth_error_In _ _ En) as Hin.
  pose proof Hf as Hf'.
  rewrite Forall_forall in Hf'. destruct (Hf' p Hin) as (n & f & ->).
  unfold thenWith.
  destruct (arrayBufferOf r) as [b |] eqn:Eb; [| destruct r; discriminate].
  unfold onExpression.
  destruct (Nat.ltb_spec (S done) total) as [Hlt | Hge];
    cbn -[Z.of_nat Z.add Z.sub Z.leb]; rewrite Hc.
  - destruct (Z.leb_spec (Z.of_nat total) (Z.of_nat done + 1)); [lia |].
    unfold expressionStage. cbn -[Z.of_nat Z.add Z.sub Z.leb].
    split; [assumption |]. split; [assumption |]. split; [lia |].
    split; [apply Forall_removeNth; exact Hf |].
    rewrite length_removeNth by lia. lia.
  - destruct (Z.leb_spec (Z.of_nat total) (Z.of_nat done + 1)); [| lia].
    match goal with |- (_ <= rank (_state (loadCubismPhysics ?x)) <= _)%nat =>
      pose proof (loadCubismPhysics_advance s x Hs) as (_ & _ & _ & D & _)
    end. exact D.
Qed.

Lemma expressionStage_run total : forall events done m,
  expressionStage s total done m -> (done < total)%nat ->
  orderly (total - done) events = true ->
  let m' := run engine events m in
  ((List.length events < total - done)%nat ->
   _state m' = WaitLoadExpression
   /\ _expressionCount m' = Z.of_nat (done + List.length events))
  /\ (List.length events = (total - done)%nat -> (6 <= rank (_state m') <= 21)%nat).
Proof.
  induction events as [| e events IH]; intros done m Hst Hd Ho; cbv zeta.
  - cbn. split; [| lia]. intros _. destruct Hst as (_ & A & B & _).
    rewrite Nat.add_0_r. split; assumption.
  - destruct e as [k r |]; [| discriminate]. cbn [orderly] in Ho.
    apply andb_prop in Ho as [Ho Ho3]. apply andb_prop in Ho as [Ho1 Ho2].
    apply Nat.ltb_lt in Ho1.
    pose proof (expressionStage_step total done k r m Hst Hd Ho1 Ho2) as Hstep.
    cbv zeta in Hstep. cbn [run fold_left deliver List.length].
    destruct (Nat.ltb_spec (S done) total) as [Hlt | Hge].
    + replace (pred (total - done)) with (total - S done)%nat in Ho3 by lia.
      specialize (IH (S done) _ Hstep Hlt Ho3). cbv zeta in IH. unfold run in IH.
      destruct IH as [IH1 IH2]. split.
      * intros Hlen. replace (done + S (List.length events))%nat
          with (S done + List.length events)%nat by lia. apply IH1. lia.
      * intros Hlen. apply IH2. lia.
    + assert (Hev : events = []).
      { destruct events as [| [k' r' |] events]; [reflexivity | | discriminate].
        cbn in Ho3. replace (pred (total - done)) with 0%nat in Ho3 by lia.
        discriminate. }
      subst events. cbn. split; [lia |]. intros _. exact Hstep.
Qed.

Lemma motionStage_entered m :
  _modelSetting m = Some s -> pending m = [] -> _model (base m) = true ->
  (0 < List.length (groupTags s (map fst (motionGroups s))))%nat ->
  motionStage s (List.length (groupTags s (map fst (motionGroups s)))) 0 0
              (loadCubismMotion m).
Proof.
  intros Hs Hp Hm Hn. unfold loadCubismMotion. cbn. rewrite Hm, Hs. cbn [negb].
  rewrite fold_counts, fold_groups.
  destruct (Z.eqb_spec (getMotionGroupCount s) 0) as [Hz | Hz].
  { unfold getMotionGroupCount in Hz. destruct (motionGroups s); [| discriminate].
    cbn in Hn. lia. }
  unfold motionStage. cbn. rewrite Hp. cbn.
  repeat split; try assumption.
  - rewrite length_groupTags. lia.
  - unfold groupTags. apply Forall_forall. intros p Hin.
    apply in_flat_map in Hin as (g & _ & Hin). unfold motionTags in Hin.
    apply in_map_iff in Hin as (e & <- & _). eexists; eexists; eexists; reflexivity.
  - lia.
Qed.

Lemma startTextures_counts m :
  _modelSetting m = Some s ->
  _state (startTextures m) = WaitLoadTexture
  /\ _motionCount (startTextures m) = _motionCount m
  /\ _allMotionCount (startTextures m) = _allMotionCount m.
Proof.
  intros Hs. unfold startTextures, setupTextures. cbn. rewrite Hs.
  rewrite fold_textures. repeat split.
Qed.

Lemma motionStage_step total good bad k r m :
  motionStage s total good bad m -> (good + bad < total)%nat ->
  (k < total - (good + bad))%nat -> answered r = true ->
  let m' := fetched engine k r m in
  let good' := if buildsMotion engine (bufferOf r) then S good else good in
  let bad' := if buildsMotion engine (bufferOf r) then bad else S bad in
  if (S (good + bad) <? total)%nat then motionStage s total good' bad' m'
  else motionsDone good' bad' m'.
Proof.
  intros (Hs & Hst & Hc & Ha & Hf & Hl) Hd Hk Hans. cbv zeta. unfold fetched.
  destruct (nth_error (pending m) k) as [p |] eqn:En.
  2: { apply nth_error_None in En. lia. }
  pose proof (nth_error_In _ _ En) as Hin.
  pose proof Hf as Hf'.
  rewrite Forall_forall in Hf'. destruct (Hf' p Hin) as (g & i & f & ->).
  unfold thenWith, bufferOf.
  destruct (arrayBufferOf r) as [b |] eqn:Eb; [| destruct r; discriminate].
  unfold onMotion.
  destruct (Nat.ltb_spec (S (good + bad)) total) as [Hlt | Hge];
    destruct (buildsMotion engine b);
    cbn -[Z.of_nat Z.add Z.sub Z.leb]; rewrite Hc, Ha;
    match goal with |- context [if (?x <=? ?y) then _ else _] =>
      destruct (Z.leb_spec x y)
    end; try lia.
  all: try (match goal with |- motionsDone _ _ (startTextures ?x) =>
              pose proof (startTextures_counts x Hs) as (A & B & C)
            end;
            unfold motionsDone; rewrite A, B, C;
            cbn -[Z.of_nat Z.add Z.sub Z.leb]; repeat split; lia).
  all: unfold motionStage; cbn -[Z.of_nat Z.add Z.sub Z.leb];
    (split; [assumption |]); (split; [assumption |]); (split; [lia |]);
    (split; [lia |]); (split; [apply Forall_removeNth; exact Hf |]);
    rewrite length_removeNth by lia; lia.
Qed.

Lemma motionStage_run total : forall events good bad m,
  motionStage s total good bad m -> (good + bad < total)%nat ->
  orderly (total - (good + bad)) events = true ->
  let m' := run engine events m in
  _motionCount m' = Z.of_nat (good + built engine events)
  /\ _allMotionCount m' = Z.of_nat total - Z.of_nat (bad + unbuilt engine events)
  /\ ((List.length events < total - (good + bad))%nat -> _state m' = WaitLoadMotion)
  /\ (List.length events = (total - (good + bad))%nat -> _state m' = WaitLoadTexture).
Proof.
  induction events as [| e events IH]; intros good bad m Hst Hd Ho; cbv zeta.
  - cbn. rewrite !Nat.add_0_r. destruct Hst as (_ & A & B & C & _).
    repeat split; try assumption; intros; try assumption; lia.
  - destruct e as [k r |]; [| discriminate]. cbn [orderly] in Ho.
    apply andb_prop in Ho as [Ho Ho3]. apply andb_prop in Ho as [Ho1 Ho2].
    apply Nat.ltb_lt in Ho1.
    pose proof (motionStage_step total good bad k r m Hst Hd Ho1 Ho2) as Hstep.
    cbv zeta in Hstep. cbn [run fold_left deliver List.length built unbuilt].
    destruct (Nat.ltb_spec (S (good + bad)) total) as [Hlt | Hge].
    + destruct (buildsMotion engine (bufferOf r)).
      * replace (pred (total - (good + bad))) with (total - (S good + bad))%nat in Ho3 by lia.
        assert (Hlt' : (S good + bad < total)%nat) by lia.
        specialize (IH (S good) bad _ Hstep Hlt' Ho3). cbv zeta in IH. unfold run in IH.
        destruct IH as (I1 & I2 & I3 & I4).
        split; [rewrite I1; lia |]. split; [rewrite I2; lia |].
        split; intros Hlen; [apply I3 | apply I4]; lia.
      * replace (pred (total - (good + bad))) with (total - (good + S bad))%nat in Ho3 by lia.
        assert (Hlt' : (good + S bad < total)%nat) by lia.
        specialize (IH good (S bad) _ Hstep Hlt' Ho3). cbv zeta in IH. unfold run in IH.
        destruct IH as (I1 & I2 & I3 & I4).
        split; [rewrite I1; lia |]. split; [rewrite I2; lia |].
        split; intros Hlen; [apply I3 | apply I4]; lia.
    + assert (Hev : events = []).
      { destruct events as [| [k' r' |] events]; [reflexivity | | discriminate].
        cbn in Ho3. replace (pred (total - (good + bad))) with 0%nat in Ho3 by lia.
        discriminate. }
      subst events. cbn [fold_left built unbuilt List.length].
      destruct Hstep as (A & B & C).
      destruct (buildsMotion engine (bufferOf r));
        (split; [rewrite B; lia |]); (split; [rewrite C; lia |]);
        (split; [lia | intros _; exact A]).
Qed.

End Fan.

(** *** Runs *)

Lemma run_nil_pending engine events : forall m, pending m = [] -> run engine events m = m.
Proof.
  induction events as [| e events IH]; intros m Hp; [reflexivity |].
  cbn [run fold_left].
  assert (He : deliver engine m e = m).
  { destruct e as [k r | k t]; cbn; unfold fetched, textured; rewrite Hp;
      destruct k; reflexivity. }
  rewrite He. apply IH. exact Hp.
Qed.

Lemma rank_ready st : (rank st <= 21)%nat -> LoadStep_eqb st CompleteSetup = false.
Proof. destruct st; cbn; intros H; try reflexivity; lia. Qed.

(** After the manifest: either the rig binary is being fetched, or the
    manifest names none and nothing is. *)
Lemma parsed_start dir s :
  _modelSetting (parsed dir s) = Some s
  /\ _modelHomeDir (parsed dir s) = dir
  /\ log (parsed dir s)
     = (if String.eqb (modelFileName s) "" then [Message "Model data does not exist."] else [])
  /\ calls (parsed dir s) = []
  /\ (if String.eqb (modelFileName s) ""
      then pending (parsed dir s) = [] /\ _state (parsed dir s) = LoadModel
      else pending (parsed dir s) = [PModel (modelFileName s)]
           /\ _state (parsed dir s) = WaitLoadModel).
Proof.
  unfold parsed, setupModel. destruct (String.eqb (modelFileName s) ""); cbn; repeat split.
Qed.

Lemma underway_parsed dir s : underway s (parsed dir s).
Proof.
  destruct (parsed_start dir s) as (A & _ & _ & _ & B).
  destruct (String.eqb (modelFileName s) "").
  - right. destruct B as [B1 B2]. repeat split; try assumption;
      rewrite ?B1, ?B2; try constructor; cbn; lia.
  - left. destruct B as [B1 B2]. repeat split; eauto.
Qed.

Section Pipeline.

Variable engine : Engine.
Variable s : ModelSetting.

Lemma untextured_deliver m e :
  textureFileNames s = [] -> underway s m -> underway s (deliver engine m e).
Proof.
  intros Ht [(A & (f & B) & C) | H]; destruct e as [k r | k t]; cbn [deliver].
  - pose proof (waiting_fetched engine s k r m f A B C) as [H1 H2]. cbv zeta in *.
    destruct k as [| k].
    + right. apply H2. reflexivity.
    + rewrite H1 by discriminate. left. repeat split; eauto.
  - left. unfold textured. rewrite B. destruct k as [| [| k]]; cbn; repeat split; eauto.
  - right. apply steady_fetched. exact H.
  - right. rewrite (steady_textured s k t m H (or_intror Ht)). exact H.
Qed.

(** A manifest without textures never gets to CompleteSetup. *)
Lemma zero_textures_never_ready dir events :
  textureFileNames s = [] ->
  LoadStep_eqb (_state (run engine events (parsed dir s))) CompleteSetup = false.
Proof.
  intros Ht.
  assert (Hrun : forall events m, underway s m -> underway s (run engine events m)).
  { induction events0 as [| e events0 IH]; intros m Hm; [exact Hm |].
    cbn [run fold_left]. apply IH. apply untextured_deliver; assumption. }
  apply rank_ready.
  destruct (Hrun events _ (underway_parsed dir s)) as [(_ & _ & C) | (_ & _ & C & _)].
  - rewrite C. cbn. lia.
  - exact C.
Qed.

(** Without a model nothing gets past SetupLayout. *)
Lemma unbuilt_never_ready events : forall m,
  steady s m -> _model (base m) = false ->
  (rank (_state (run engine events m)) <= 15)%nat.
Proof.
  induction events as [| e events IH]; intros m H Hm.
  - apply H. exact Hm.
  - cbn [run fold_left]. destruct e as [k r | k t]; cbn [deliver].
    + destruct (steady_fetched engine s k r m H) as [H1 H2].
      apply IH; [exact H1 | congruence].
    + rewrite (steady_textured s k t m H (or_introl Hm)). apply IH; assumption.
Qed.

End Pipeline.

(** C1 fails on the code: the model without textures goes through every
    stage, enters the texture stage, and stays in WaitLoadTexture with
    nothing in flight; whatever completes later changes nothing, so
    CompleteSetup is never reached. *)
Theorem untextured_model_stalls :
  let m := run strictEngine allOk (parsed "/Haru/" untextured) in
  _state m = WaitLoadTexture
  /\ pending m = []
  /\ (_motionCount m, _allMotionCount m, _textureCount m) = (3, 3, 0)
  /\ forall events, run strictEngine events m = m.
Proof.
  cbv zeta. split; [reflexivity |]. split; [reflexivity |]. split; [reflexivity |].
  intros events. apply run_nil_pending. reflexivity.
Qed.

(** C2, as stated, fails: after a response that is not ok the expression
    stage is entered, with the empty buffer handed to the engine; and a
    rejected fetch logs nothing. *)
Lemma rig_not_ok_goes_on :
  let m := parsed "/Haru/" haru in
  _state (fetched strictEngine 0 (NotOk []) m) = WaitLoadExpression
  /\ calls (fetched strictEngine 0 (NotOk []) m) = [CallLoadModel []]
  /\ List.length (pending (fetched strictEngine 0 (NotOk []) m)) = 2%nat
  /\ log (fetched strictEngine 0 Rejected m) = [].
Proof. repeat split. Qed.

(** C2, amended.  For a manifest that names a rig binary: when the fetch of
    it is rejected no handler runs, the state stays WaitLoadModel and no
    later completion changes the model; when the response is not ok the
    failure is logged, the engine is handed an empty buffer, and the
    expression stage (or a later one) is entered with it; the pipeline then
    never gets past SetupLayout, so never to CompleteSetup, if the engine
    builds no model from the empty buffer. *)
Theorem rig_binary_failure :
  forall (engine : Engine) (s : ModelSetting) (dir : string) (body : list byte)
         (events : list Event),
    String.eqb (modelFileName s) "" = false ->
    let m := parsed dir s in
    let rejected := fetched engine 0 Rejected m in
    let notOk := fetched engine 0 (NotOk body) m in
    (_state rejected = WaitLoadModel /\ run engine events rejected = rejected)
    /\ In (LogError ("Failed to load file " ++ dir ++ modelFileName s)%string) (log notOk)
    /\ In (CallLoadModel []) (calls notOk)
    /\ (rank LoadExpression < rank (_state notOk))%nat
    /\ (buildsModel engine [] = false ->
        (rank (_state (run engine events notOk)) <= rank SetupLayout)%nat
        /\ LoadStep_eqb (_state (run engine events notOk)) CompleteSetup = false).
Proof.
  intros engine s dir body events Hname. cbv zeta.
  destruct (parsed_start dir s) as (A & Hdir & Hlog & Hcalls & B).
  rewrite Hname in B, Hlog. destruct B as [B C].
  pose proof (waiting_fetched engine s 0 Rejected _ _ A B C) as [_ Hr].
  pose proof (waiting_fetched engine s 0 (NotOk body) _ _ A B C) as [_ Hn].
  cbv zeta in Hr, Hn. specialize (Hr eq_refl). specialize (Hn eq_refl).
  cbn [arrayBufferOf] in Hr, Hn.
  destruct Hr as (_ & R1 & R2 & _).
  destruct Hn as (N0 & N1 & N2 & (cs & N3) & (ls & N4)).
  split; [split; [exact R2 | apply run_nil_pending; exact R1] |].
  split; [rewrite N4, Hlog, Hdir; cbn; left; reflexivity |].
  split; [rewrite N3; apply in_or_app; right; left; reflexivity |].
  split; [cbn; lia |].
  intros Hb. rewrite Hb in N1.
  pose proof (unbuilt_never_ready engine s events _ N0 N1) as Hrank.
  split; [exact Hrank | apply rank_ready; cbn in Hrank; lia].
Qed.

Lemma rig_binary_failure_witness :
  (_state (fetched strictEngine 0 Rejected (parsed "/Haru/" haru)) = WaitLoadModel
   /\ run strictEngine [Fetched 0 ok; Textured 0 7]
          (fetched strictEngine 0 Rejected (parsed "/Haru/" haru))
      = fetched strictEngine 0 Rejected (parsed "/Haru/" haru))
  /\ LoadStep_eqb
       (_state (run strictEngine [Fetched 0 ok; Fetched 0 ok; Fetched 0 ok; Fetched 0 ok]
                    (fetched strictEngine 0 (NotOk [x3c]) (parsed "/Haru/" haru))))
       CompleteSetup = false.
Proof.
  split.
  - apply (rig_binary_failure strictEngine haru "/Haru/" [x3c]
             [Fetched 0 ok; Textured 0 7] eq_refl).
  - apply (rig_binary_failure strictEngine haru "/Haru/" [x3c]
             [Fetched 0 ok; Fetched 0 ok; Fetched 0 ok; Fetched 0 ok] eq_refl).
    reflexivity.
Defined.

(** An expression whose response is not ok raises the completed count (here
    from 0 to 1) and leaves the total, 2, as it was: the expression handler
    has no branch that lowers a total. *)
Lemma failed_expression_is_counted :
  let e := fetched strictEngine 0 (NotOk []) (loadCubismExpression beforeExpressions) in
  _expressionCount e = 1
  /\ pending e = [PExpression 2 "F02" "expressions/F02.exp3.json"].
Proof. repeat split. Qed.

(** The second [then] of a motion fetch, by what the engine makes of the
    buffer. *)
Lemma onMotion_cases engine group i arrayBuffer m :
  onMotion engine group i arrayBuffer m
  = let name := motionKey group i in
    let m := call (CallLoadMotion arrayBuffer name group i) m in
    if buildsMotion engine arrayBuffer then
      let m := call (CallSetEffectIds name) m in
      let m := set_motions (setValue name arrayBuffer (_motions m)) m in
      let m := set_motionCount (_motionCount m + 1) m in
      if _allMotionCount m <=? _motionCount m then startTextures m else m
    else
      let m := set_allMotionCount (_allMotionCount m - 1) m in
      if _allMotionCount m <=? _motionCount m then startTextures m else m.
Proof. unfold onMotion. destruct (buildsMotion engine arrayBuffer); reflexivity. Qed.

(** C3 fails on the code.  The chains of the two fan-out stages,
    [fetchAsset(...).then(...).then(...)], end without a catch, so a sub-fetch
    that is rejected (the network failed) runs no handler: neither is the
    completed count raised nor the total lowered.  On the sample manifest,
    for every engine and whatever the other sub-fetches answer:
    - motions: the first of the three fetches rejected, the two others
      completed in any way: the stage is still WaitLoadMotion, nothing is in
      flight, the completed count is below the total, and no later completion
      changes the model;
    - expressions: the second of the two fetches rejected, the other
      completed in any way: the stage is still WaitLoadExpression, nothing is
      in flight, the completed count is below 2, the number of expressions,
      and no later completion changes the model.
    And on the whole load of the sample model from its manifest, every fetch
    answered well but the last of its motions, which is rejected: the model
    is left in WaitLoadMotion with 2 of 3 motions counted and nothing in
    flight, for good. *)
Theorem rejected_sub_fetch_leaves_the_stage_waiting :
  forall (engine : Engine) (r1 r2 : Response),
    let m := run engine [Fetched 0 Rejected; Fetched 0 r1; Fetched 0 r2]
                 (loadCubismMotion beforeMotions) in
    let e := run engine [Fetched 1 Rejected; Fetched 0 r1]
                 (loadCubismExpression beforeExpressions) in
    let l := run strictEngine
                 [Fetched 0 ok; Fetched 1 ok; Fetched 0 ok; Fetched 0 ok; Fetched 0 ok;
                  Fetched 2 Rejected; Fetched 0 ok; Fetched 0 ok]
                 (parsed "/Haru/" haru) in
    (List.length (pending (loadCubismMotion beforeMotions)) = 3%nat
     /\ _state m = WaitLoadMotion
     /\ pending m = []
     /\ _motionCount m < _allMotionCount m
     /\ forall events, run engine events m = m)
    /\ (List.length (pending (loadCubismExpression beforeExpressions)) = 2%nat
        /\ _state e = WaitLoadExpression
        /\ pending e = []
        /\ _expressionCount e < Z.of_nat (List.length (expressions haru))
        /\ forall events, run engine events e = e)
    /\ (_state l = WaitLoadMotion
        /\ pending l = []
        /\ (_motionCount l, _allMotionCount l) = (2, 3)
        /\ forall events, run strictEngine events l = l).
Proof.
  intros engine r1 r2. cbv zeta. split; [| split].
  3:{ split; [vm_compute; reflexivity |].
      split; [vm_compute; reflexivity |].
      split; [vm_compute; reflexivity |].
      intros events. apply run_nil_pending. vm_compute. reflexivity. }
  - split; [reflexivity |].
    assert (H : _state (run engine [Fetched 0 Rejected; Fetched 0 r1; Fetched 0 r2]
                          (loadCubismMotion beforeMotions)) = WaitLoadMotion
                /\ pending (run engine [Fetched 0 Rejected; Fetched 0 r1; Fetched 0 r2]
                              (loadCubismMotion beforeMotions)) = []
                /\ _motionCount (run engine [Fetched 0 Rejected; Fetched 0 r1; Fetched 0 r2]
                                   (loadCubismMotion beforeMotions))
                   < _allMotionCount (run engine [Fetched 0 Rejected; Fetched 0 r1; Fetched 0 r2]
                                        (loadCubismMotion beforeMotions))).
    { unfold run. cbn [fold_left deliver].
      match goal with
      | |- context [fetched engine 0 r1 ?X] =>
          let v := eval cbv in X in change X with v
      end.
      destruct r1 as [b1 | b1 |];
        match goal with
        | |- context [fetched engine 0 r2 ?X] =>
            let v := eval cbv -[onMotion buildsMotion] in X in change X with v
        end;
        rewrite ?onMotion_cases;
        try match goal with
            | |- context [buildsMotion engine ?b] => destruct (buildsMotion engine b)
            end;
        match goal with
        | |- context [fetched engine 0 r2 ?X] =>
            let v := eval cbv in X in change X with v
        end;
        destruct r2 as [b2 | b2 |];
        match goal with
        | |- context [fetched engine 0 ?r ?X] =>
            let v := eval cbv -[onMotion buildsMotion] in (fetched engine 0 r X) in
            change (fetched engine 0 r X) with v
        end;
        rewrite ?onMotion_cases;
        try match goal with
            | |- context [buildsMotion engine ?b] => destruct (buildsMotion engine b)
            end;
        cbv; repeat split. }
    destruct H as (A & B & C).
    split; [exact A |]. split; [exact B |]. split; [exact C |].
    intros events. apply run_nil_pending. exact B.
  - split; [reflexivity |].
    assert (H : _state (run engine [Fetched 1 Rejected; Fetched 0 r1]
                          (loadCubismExpression beforeExpressions)) = WaitLoadExpression
                /\ pending (run engine [Fetched 1 Rejected; Fetched 0 r1]
                              (loadCubismExpression beforeExpressions)) = []
                /\ _expressionCount (run engine [Fetched 1 Rejected; Fetched 0 r1]
                                       (loadCubismExpression beforeExpressions))
                   < Z.of_nat (List.length (expressions haru))).
    { destruct r1 as [b1 | b1 |]; cbv; repeat split. }
    destruct H as (A & B & C).
    split; [exact A |]. split; [exact B |]. split; [exact C |].
    intros events. apply run_nil_pending. exact B.
Qed.

(** What the stages do with completions that are responses (ok or not), for
    every arrival order of them.  Expressions: every completion, whatever
    its content, raises the completed count by one; the total is never
    lowered; the stage is left for the physics stage or a later one exactly
    at the last completion. *)
Lemma expression_fan_in :
  forall (engine : Engine) (s : ModelSetting) (me : LAppModel)
         (expressionEvents : list Event),
    let expressionTotal := List.length (expressions s) in
    _modelSetting me = Some s -> pending me = [] -> _expressionCount me = 0 ->
    (0 < expressionTotal)%nat ->
    orderly expressionTotal expressionEvents = true ->
    let e := run engine expressionEvents (loadCubismExpression me) in
    ((List.length expressionEvents < expressionTotal)%nat ->
     _state e = WaitLoadExpression
     /\ _expressionCount e = Z.of_nat (List.length expressionEvents))
    /\ (List.length expressionEvents = expressionTotal ->
        (rank LoadPhysics < rank (_state e))%nat).
Proof.
  intros engine s me evE NE He1 He2 He3 He4 HoE.
  cbv zeta.
  pose proof (expressionStage_entered s me He1 He2 He3 He4) as HE.
  fold NE in HE.
  pose proof (expressionStage_run engine s NE evE 0 _ HE He4) as RE.
  cbv zeta in RE. rewrite Nat.sub_0_r in RE.
  specialize (RE HoE).
  destruct RE as [RE1 RE2].
  split; [exact RE1 |].
  intros Hl; specialize (RE2 Hl); cbn; lia.
Qed.

(** Motions: a completion whose buffer the engine builds a motion from raises
    the completed count, any other (the empty buffer of a response that is
    not ok included) lowers the total instead; the texture stage is entered
    exactly at the last completion. *)
Lemma motion_fan_in :
  forall (engine : Engine) (s : ModelSetting) (mm : LAppModel)
         (motionEvents : list Event),
    let motionTotal := List.length (groupTags s (map fst (motionGroups s))) in
    _modelSetting mm = Some s -> pending mm = [] -> _model (base mm) = true ->
    (0 < motionTotal)%nat ->
    orderly motionTotal motionEvents = true ->
    let m := run engine motionEvents (loadCubismMotion mm) in
    _motionCount m = Z.of_nat (built engine motionEvents)
    /\ _allMotionCount m = Z.of_nat motionTotal - Z.of_nat (unbuilt engine motionEvents)
    /\ ((List.length motionEvents < motionTotal)%nat -> _state m = WaitLoadMotion)
    /\ (List.length motionEvents = motionTotal -> _state m = WaitLoadTexture).
Proof.
  intros engine s mm evM NM Hm1 Hm2 Hm3 Hm4 HoM.
  cbv zeta.
  pose proof (motionStage_entered s mm Hm1 Hm2 Hm3 Hm4) as HM.
  fold NM in HM.
  pose proof (motionStage_run engine s NM evM 0 0 _ HM Hm4) as RM.
  cbv zeta in RM. cbn [Nat.add] in RM.
  rewrite Nat.sub_0_r in RM.
  exact (RM HoM).
Qed.

Example fan_in_on_the_sample :
  _state (run strictEngine [Fetched 2 ok; Fetched 0 (NotOk []); Fetched 0 ok]
              (loadCubismMotion beforeMotions)) = WaitLoadTexture
  /\ _state (run strictEngine [Fetched 1 ok] (loadCubismExpression beforeExpressions))
     = WaitLoadExpression.
Proof. split; reflexivity. Qed.

(** *** Before the model is ready *)

(** C9: while the state is not CompleteSetup, [update] returns at once and
    [draw] draws nothing: neither changes the model in any field, so no
    parameter is touched and no call reaches the engine or the renderer. *)
Theorem no_update_no_draw_before_ready (f : Frame) (m : LAppModel) :
  _state m <> CompleteSetup ->
  update f m = (Wav.Val tt, m) /\ draw m = m.
Proof.
  intros H. apply LoadStep_eqb_neq in H. unfold update, draw. rewrite H.
  split; [reflexivity |]. destruct (negb (_model (base m))); reflexivity.
Qed.

Lemma no_update_no_draw_before_ready_witness :
  update stillFrame (parsed "/Haru/" haru) = (Wav.Val tt, parsed "/Haru/" haru)
  /\ draw (parsed "/Haru/" haru) = parsed "/Haru/" haru.
Proof.
  apply (no_update_no_draw_before_ready stillFrame (parsed "/Haru/" haru)).
  discriminate.
Defined.

End ModelFacts.

(** ** The manager *)

Module ManagerFacts.

Import Model ModelInputs Manager ManagerInputs.

Section Facts.

Variable T : Type.
Variable touch : TouchOps T.
Variable view : View.
Variable engine : Engine.

Lemma length_setActive (m : LAppModel) (g : LAppLive2DManager T) :
  List.length (_models (setActive T m g)) = List.length (_models g).
Proof. destruct g as [[| model rest] index tm captured]; reflexivity. Qed.

Lemma step_models (g : LAppLive2DManager T) (o : Op) :
  (List.length (_models g) <= 1)%nat ->
  (List.length (_models (step T touch view engine g o)) <= 1)%nat.
Proof.
  intros H. destruct o; cbn [step].
  - unfold initialize. destruct contextFound; [apply Nat.le_refl | exact H].
  - apply Nat.le_refl.
  - apply Nat.le_refl.
  - apply Nat.le_0_l.
  - unfold onUpdate. destruct (active g) as [model |]; [| exact H].
    destruct (update f _) as [[[] | |] model']; cbn [snd];
      rewrite length_setActive; exact H.
  - exact H.
  - unfold onPointMoved. destruct (negb (_captured g)); [exact H |].
    destruct g as [[| model rest] index tm captured]; exact H.
  - destruct g as [[| model rest] index tm captured]; [exact H |].
    unfold onPointEnded, onTap, onDrag, active. cbn.
    destruct (hitTest engine _ _ _ _) as [[[] |] model1]; cbn; try exact H.
    destruct (hitTest engine _ _ _ _) as [[[] |] model2]; cbn; exact H.
  - destruct (active g); [rewrite length_setActive |]; exact H.
Qed.

End Facts.

(** C10: after [changeScene index] the manager holds exactly one model,
    whatever it held before: a model as the constructor leaves it but for the
    two things [loadAssets] does, its home directory set to the directory of
    scene [index] (the entry of ModelDir at [index] between the slashes) and
    the fetch of that scene's manifest in flight; where ModelDir has no entry
    at [index] the text read is "undefined".  The scene index is [index].
    And whatever reaches a manager from its construction on, it never holds
    more than one model. *)
Theorem one_model_per_scene :
  forall (T : Type) (touch : TouchOps T) (view : View) (engine : Engine)
         (g : LAppLive2DManager T) (index : Z) (touchManager : T) (ops : list Op),
    let fresh := fun dir : string =>
      mkModel (mkBase false false false false false true 1 0 0 false false)
              None ("/" ++ dir ++ "/") 0 [] [] [] [] LoadAssets 0 0 0 0
              [PManifest (dir ++ ".model3.json")] [] [] in
    (forall dir : string,
        0 <= index ->
        nth_error ["Haru"; "Mao"; "Hiyori"]%string (Z.to_nat index) = Some dir ->
        _models (changeScene T index g) = [fresh dir])
    /\ (index < 0 \/ 3 <= index ->
        _models (changeScene T index g) = [fresh "undefined"%string])
    /\ _sceneIndex (changeScene T index g) = index
    /\ (List.length (_models (run T touch view engine ops (newManager touchManager))) <= 1)%nat.
Proof.
  intros T touch view engine g index touchManager ops. cbv zeta.
  split; [| split; [| split; [reflexivity |]]].
  - intros dir H0 Hn.
    unfold changeScene, instanceFor, modelDir.
    destruct (Z.ltb_spec index 0) as [Hlt | _]; [lia |].
    unfold Define.ModelDir.
    destruct (Z.to_nat index) as [| [| [| n]]]; cbn in Hn;
      try (injection Hn as <-; reflexivity).
    destruct n; discriminate.
  - intros Hout.
    unfold changeScene, instanceFor, modelDir.
    destruct (Z.ltb_spec index 0) as [Hlt | Hge]; [reflexivity |].
    assert (Hn : (3 <= Z.to_nat index)%nat) by lia.
    unfold Define.ModelDir.
    destruct (Z.to_nat index) as [| [| [| n]]]; try lia.
    destruct n; reflexivity.
  - unfold run.
    assert (Hinv : forall ops g0, (List.length (_models g0) <= 1)%nat ->
                   (List.length (_models (fold_left (step T touch view engine) ops g0)) <= 1)%nat).
    { induction ops0 as [| o ops0 IH]; intros g0 H0; [exact H0 |].
      cbn [fold_left]. apply IH. apply step_models. exact H0. }
    apply Hinv. apply Nat.le_0_l.
Qed.

Lemma one_model_per_scene_witness :
  _models (changeScene (Q * Q) 1 pressed)
  = [mkModel (mkBase false false false false false true 1 0 0 false false)
             None "/Mao/" 0 [] [] [] [] LoadAssets 0 0 0 0
             [PManifest "Mao.model3.json"] [] []]
  /\ _models (changeScene (Q * Q) 3 pressed)
     = [mkModel (mkBase false false false false false true 1 0 0 false false)
                None "/undefined/" 0 [] [] [] [] LoadAssets 0 0 0 0
                [PManifest "undefined.model3.json"] [] []].
Proof.
  split.
  - destruct (one_model_per_scene (Q * Q) anchorTouch deskView strictEngine pressed 1
                (0, 0)%Q []) as (H & _).
    apply (H "Mao"%string); [lia | reflexivity].
  - destruct (one_model_per_scene (Q * Q) anchorTouch deskView strictEngine pressed 3
                (0, 0)%Q []) as (_ & H & _).
    apply H. right. lia.
Defined.


(** A hit test records itself, then at most the engine's own test; every
    other field of the model is as before. *)
Lemma hitTest_calls engine name x y m :
  exists tail,
    calls (snd (hitTest engine name x y m)) = calls m ++ CallHitTest name x y :: tail
    /\ (forall name' x' y', ~ In (CallHitTest name' x' y') tail).
Proof.
  unfold hitTest.
  destruct (Num.Qlt_bool (_opacity (base (call (CallHitTest name x y) m))) 1).
  - exists []. split; [reflexivity | intros ? ? ? []].
  - destruct (_modelSetting (call (CallHitTest name x y) m)) as [setting |].
    + destruct (hitAreaId (hitAreas setting) name) as [drawId |].
      * exists [CallIsHit drawId x y]. split.
        -- cbn. rewrite <- app_assoc. reflexivity.
        -- intros ? ? ? [H | []]. discriminate.
      * exists []. split; [reflexivity | intros ? ? ? []].
    + exists []. split; [reflexivity | intros ? ? ? []].
Qed.

Section Tap.

Variable T : Type.
Variable engine : Engine.

Lemma onTap_calls x y (g : LAppLive2DManager T) model rest :
  _models g = model :: rest ->
  let g' := snd (onTap T engine x y g) in
  _captured g' = _captured g
  /\ _touchManager g' = _touchManager g
  /\ exists model' tail,
      _models g' = model' :: rest
      /\ calls model' = calls model ++ CallHitTest Define.HitAreaNameHead x y :: tail
      /\ forall name x' y', In (CallHitTest name x' y') tail -> x' = x /\ y' = y.
Proof.
  intros Hm. cbv zeta. unfold onTap, active. rewrite Hm. cbn [hd_error].
  destruct (hitTest_calls engine Define.HitAreaNameHead x y model) as (t1 & C1 & N1).
  destruct (hitTest engine Define.HitAreaNameHead x y model) as [[[|] |] model1];
    cbn [snd] in *.
  - (* the head is hit *)
    unfold setActive. rewrite Hm. cbn. repeat split.
    exists (setRandomExpression model1), (t1 ++ [CallSetRandomExpression]).
    split; [reflexivity |]. split.
    + cbn. rewrite C1, <- app_assoc. reflexivity.
    + intros name x' y' Hin. apply in_app_or in Hin as [Hin | [Hin | []]];
        [apply N1 in Hin; contradiction | discriminate].
  - (* the head is not hit: the body is tested *)
    destruct (hitTest_calls engine Define.HitAreaNameBody x y model1) as (t2 & C2 & N2).
    destruct (hitTest engine Define.HitAreaNameBody x y model1) as [[[|] |] model2];
      cbn [snd] in *; unfold setActive; rewrite Hm; cbn; repeat split.
    + exists (startRandomMotion Define.MotionGroupTapBody Define.PriorityNormal model2),
             (t1 ++ CallHitTest Define.HitAreaNameBody x y
                 :: t2 ++ [CallStartRandomMotion Define.MotionGroupTapBody
                                                 Define.PriorityNormal]).
      split; [reflexivity |]. split.
      * cbn. rewrite C2, C1. repeat (rewrite <- app_assoc; cbn). reflexivity.
      * intros name x' y' Hin.
        apply in_app_or in Hin as [Hin | [Hin | Hin]];
          [apply N1 in Hin; contradiction | injection Hin; auto |].
        apply in_app_or in Hin as [Hin | [Hin | []]];
          [apply N2 in Hin; contradiction | discriminate].
    + exists model2, (t1 ++ CallHitTest Define.HitAreaNameBody x y :: t2).
      split; [reflexivity |]. split.
      * rewrite C2, C1. repeat (rewrite <- app_assoc; cbn). reflexivity.
      * intros name x' y' Hin.
        apply in_app_or in Hin as [Hin | [Hin | Hin]];
          [apply N1 in Hin; contradiction | injection Hin; auto
          | apply N2 in Hin; contradiction].
    + exists model2, (t1 ++ CallHitTest Define.HitAreaNameBody x y :: t2).
      split; [reflexivity |]. split.
      * rewrite C2, C1. repeat (rewrite <- app_assoc; cbn). reflexivity.
      * intros name x' y' Hin.
        apply in_app_or in Hin as [Hin | [Hin | Hin]];
          [apply N1 in Hin; contradiction | injection Hin; auto
          | apply N2 in Hin; contradiction].
  - (* the head test threw *)
    unfold setActive. rewrite Hm. cbn. repeat split.
    exists model1, t1. split; [reflexivity |]. split; [exact C1 |].
    intros name x' y' Hin. apply N1 in Hin. contradiction.
Qed.

End Tap.



End ManagerFacts.

(** ** The byte reader, the parse of a file, and the envelope *)

Module ReaderFacts.

Import JS Num Wav WavSpec WavLayout JSFacts WavFacts.

Lemma get32_run r :
  get32LittleEndian r =
  match getUint8 (_fileByte r) (_readOffset r), getUint8 (_fileByte r) (_readOffset r + 1),
        getUint8 (_fileByte r) (_readOffset r + 2), getUint8 (_fileByte r) (_readOffset r + 3) with
  | Some b0, Some b1, Some b2, Some b3 =>
      (Val (bor (bor (bor (shl b3 24) (shl b2 16)) (shl b1 8)) b0),
       setOffset (_readOffset r + 4) r)
  | _, _, _, _ => (Thrown, r)
  end.
Proof.
  unfold get32LittleEndian, bind, peek, advance, modify, ret.
  destruct (getUint8 _ (_readOffset r + 3)); cbn beta iota;
    destruct (getUint8 _ (_readOffset r + 2)); cbn beta iota;
    destruct (getUint8 _ (_readOffset r + 1)); cbn beta iota; rewrite ?Z.add_0_r;
    destruct (getUint8 _ (_readOffset r)); reflexivity.
Qed.

Lemma shl24_byte b : 0 <= b < 256 ->
  shl b 24 = (if b <? 128 then b else b - 256) * 2 ^ 24.
Proof.
  intros H. rewrite shl_small by lia. change (2 ^ 24) with 16777216.
  unfold toInt32. destruct (Z.ltb_spec b 128); Z.div_mod_to_equations; lia.
Qed.

Lemma word32 b0 b1 b2 b3 :
  0 <= b0 < 256 -> 0 <= b1 < 256 -> 0 <= b2 < 256 -> 0 <= b3 < 256 ->
  bor (bor (bor (shl b3 24) (shl b2 16)) (shl b1 8)) b0
  = signed32 (b3 * 16777216 + b2 * 65536 + b1 * 256 + b0).
Proof.
  intros H0 H1 H2 H3. rewrite shl24_byte by assumption.
  rewrite (shl_small b2 16), (shl_small b1 8) by lia.
  change (2 ^ 8) with 256. change (2 ^ 16) with 65536.
  rewrite (toInt32_small (b1 * 256)), (toInt32_small (b2 * 65536)) by lia.
  set (s3 := if b3 <? 128 then b3 else b3 - 256).
  assert (Hs3 : -128 <= s3 < 128) by (subst s3; destruct (Z.ltb_spec b3 128); lia).
  rewrite bor_small by (change (2 ^ 24) with 16777216; lia).
  change (2 ^ 24) with 16777216. rewrite toInt32_small by lia.
  replace (s3 * 16777216 + b2 * 65536) with ((s3 * 256 + b2) * 2 ^ 16)
    by (change (2 ^ 16) with 65536; lia).
  rewrite bor_small by (change (2 ^ 16) with 65536; lia).
  change (2 ^ 16) with 65536. rewrite toInt32_small by lia.
  replace ((s3 * 256 + b2) * 65536 + b1 * 256) with ((s3 * 65536 + b2 * 256 + b1) * 2 ^ 8)
    by (change (2 ^ 8) with 256; lia).
  rewrite bor_small by (change (2 ^ 8) with 256; lia).
  change (2 ^ 8) with 256. rewrite toInt32_small by lia.
  unfold signed32. subst s3.
  destruct (Z.ltb_spec b3 128);
    destruct (Z.ltb_spec (b3 * 16777216 + b2 * 65536 + b1 * 256 + b0) 2147483648); lia.
Qed.

Lemma littleEndian4 b0 b1 b2 b3 :
  littleEndian [b0; b1; b2; b3] = b3 * 16777216 + b2 * 65536 + b1 * 256 + b0.
Proof. cbn [littleEndian]. lia. Qed.

Lemma getUint8_Some view off :
  0 <= off < Z.of_nat (List.length view) -> exists v, getUint8 view off = Some v.
Proof.
  intros H. unfold getUint8. destruct (Z.ltb_spec off 0); [lia |].
  destruct (nth_error view (Z.to_nat off)) eqn:E; [eexists; reflexivity |].
  apply nth_error_None in E. lia.
Qed.

Lemma getUint8_None view off :
  getUint8 view off = None <-> off < 0 \/ Z.of_nat (List.length view) <= off.
Proof.
  unfold getUint8. destruct (Z.ltb_spec off 0).
  - split; [left; lia | reflexivity].
  - destruct (nth_error view (Z.to_nat off)) eqn:E; cbn.
    + split; [discriminate |]. intros [? | ?]; [lia |].
      assert (nth_error view (Z.to_nat off) = None) by (apply nth_error_None; lia). congruence.
    + apply nth_error_None in E. split; [right; lia | reflexivity].
Qed.

(** A read of [n] bytes succeeds exactly when all of them are inside. *)
Lemma readBytes_Some view n : forall off,
  0 <= off -> off + Z.of_nat n <= Z.of_nat (List.length view) ->
  exists bs, readBytes view off n = Some bs.
Proof.
  induction n as [| n IH]; intros off H0 H1; [eexists; reflexivity |].
  cbn [readBytes]. destruct (getUint8_Some view off) as [v ->]; [lia |].
  destruct (IH (off + 1)) as [t ->]; [lia | lia |]. eexists; reflexivity.
Qed.

Lemma readBytes_None view n : forall off,
  readBytes view off (S n) = None <->
  off < 0 \/ Z.of_nat (List.length view) < off + Z.of_nat (S n).
Proof.
  induction n as [| n IH]; intros off.
  - cbn [readBytes]. destruct (getUint8 view off) eqn:E.
    + split; [discriminate |]. intros H.
      assert (getUint8 view off = None) by (apply getUint8_None; lia). congruence.
    + apply getUint8_None in E. split; [lia | reflexivity].
  - change (readBytes view off (S (S n)))
      with (match getUint8 view off, readBytes view (off + 1) (S n) with
            | Some b, Some t => Some (b :: t) | _, _ => None end).
    destruct (getUint8 view off) eqn:E.
    + assert (0 <= off < Z.of_nat (List.length view)).
      { destruct (Z.ltb_spec off 0) as [Hn | Hn].
        - assert (getUint8 view off = None) by (apply getUint8_None; lia). congruence.
        - destruct (Z.ltb_spec off (Z.of_nat (List.length view))); [lia |].
          assert (getUint8 view off = None) by (apply getUint8_None; lia). congruence. }
      destruct (readBytes view (off + 1) (S n)) eqn:Er.
      * split; [discriminate |]. intros Hx.
        assert (readBytes view (off + 1) (S n) = None) by (apply IH; lia). congruence.
      * apply IH in Er. split; [lia | reflexivity].
    + apply getUint8_None in E. split; [lia | reflexivity].
Qed.

Lemma readBytes_S view off n :
  readBytes view off (S n) =
  match getUint8 view off, readBytes view (off + 1) n with
  | Some b, Some t => Some (b :: t) | _, _ => None end.
Proof. reflexivity. Qed.


Lemma get32_bytes r bs :
  readBytes (_fileByte r) (_readOffset r) 4 = Some bs ->
  get32LittleEndian r
  = (Val (signed32 (littleEndian bs)), setOffset (_readOffset r + 4) r)
  /\ 0 <= littleEndian bs < 4294967296.
Proof.
  rewrite get32_run. cbn [readBytes].
  replace (_readOffset r + 1 + 1) with (_readOffset r + 2) by lia.
  replace (_readOffset r + 2 + 1) with (_readOffset r + 3) by lia.
  destruct (getUint8 _ (_readOffset r)) as [b0 |] eqn:E0; [| discriminate].
  destruct (getUint8 _ (_readOffset r + 1)) as [b1 |] eqn:E1; [| discriminate].
  destruct (getUint8 _ (_readOffset r + 2)) as [b2 |] eqn:E2; [| discriminate].
  destruct (getUint8 _ (_readOffset r + 3)) as [b3 |] eqn:E3; [| discriminate].
  intros [= <-]. apply getUint8_range in E0, E1, E2, E3.
  rewrite littleEndian4, word32 by assumption. split; [reflexivity | lia].
Qed.

Lemma get32_short r :
  readBytes (_fileByte r) (_readOffset r) 4 = None -> get32LittleEndian r = (Thrown, r).
Proof.
  rewrite get32_run. cbn [readBytes].
  replace (_readOffset r + 1 + 1) with (_readOffset r + 2) by lia.
  replace (_readOffset r + 2 + 1) with (_readOffset r + 3) by lia.
  destruct (getUint8 _ (_readOffset r)) as [b0 |] eqn:E0; [| reflexivity].
  destruct (getUint8 _ (_readOffset r + 1)) as [b1 |] eqn:E1; [| reflexivity].
  destruct (getUint8 _ (_readOffset r + 2)) as [b2 |] eqn:E2; [| reflexivity].
  destruct (getUint8 _ (_readOffset r + 3)) as [b3 |] eqn:E3; [discriminate | reflexivity].
Qed.

Lemma get16_bytes r bs :
  readBytes (_fileByte r) (_readOffset r) 2 = Some bs ->
  get16LittleEndian r = (Val (littleEndian bs), setOffset (_readOffset r + 2) r)
  /\ 0 <= littleEndian bs < 65536.
Proof.
  rewrite get16_run. cbn [readBytes].
  destruct (getUint8 _ (_readOffset r)) as [b0 |] eqn:E0; [| discriminate].
  destruct (getUint8 _ (_readOffset r + 1)) as [b1 |] eqn:E1; [| discriminate].
  intros [= <-]. apply getUint8_range in E0, E1.
  rewrite littleEndian2, word16 by assumption. split; [reflexivity | lia].
Qed.

Lemma get16_short r :
  readBytes (_fileByte r) (_readOffset r) 2 = None -> get16LittleEndian r = (Thrown, r).
Proof.
  rewrite get16_run. cbn [readBytes].
  destruct (getUint8 _ (_readOffset r)) as [b0 |] eqn:E0; [| reflexivity].
  destruct (getUint8 _ (_readOffset r + 1)) as [b1 |] eqn:E1; [discriminate | reflexivity].
Qed.

Lemma get24_bytes r bs :
  readBytes (_fileByte r) (_readOffset r) 3 = Some bs ->
  get24LittleEndian r = (Val (littleEndian bs), setOffset (_readOffset r + 3) r)
  /\ 0 <= littleEndian bs < 16777216.
Proof.
  rewrite get24_run. cbn [readBytes].
  replace (_readOffset r + 1 + 1) with (_readOffset r + 2) by lia.
  destruct (getUint8 _ (_readOffset r)) as [b0 |] eqn:E0; [| discriminate].
  destruct (getUint8 _ (_readOffset r + 1)) as [b1 |] eqn:E1; [| discriminate].
  destruct (getUint8 _ (_readOffset r + 2)) as [b2 |] eqn:E2; [| discriminate].
  intros [= <-]. apply getUint8_range in E0, E1, E2.
  rewrite littleEndian3, word24 by assumption. split; [reflexivity | lia].
Qed.

Lemma get24_short r :
  readBytes (_fileByte r) (_readOffset r) 3 = None -> get24LittleEndian r = (Thrown, r).
Proof.
  rewrite get24_run. cbn [readBytes].
  replace (_readOffset r + 1 + 1) with (_readOffset r + 2) by lia.
  destruct (getUint8 _ (_readOffset r)) as [b0 |] eqn:E0; [| reflexivity].
  destruct (getUint8 _ (_readOffset r + 1)) as [b1 |] eqn:E1; [| reflexivity].
  destruct (getUint8 _ (_readOffset r + 2)) as [b2 |] eqn:E2; [discriminate | reflexivity].
Qed.

(** X1: when four bytes are left at the read offset, [get32LittleEndian]
    returns their little-endian value read as a signed 32-bit number (the
    unsigned value less 2^32 once the top bit is set) and moves the offset
    on by four; when fewer are left it throws and leaves the reader as it
    was. *)
Theorem get32LittleEndian_signed (r : ByteReader) :
  match readBytes (_fileByte r) (_readOffset r) 4 with
  | Some bs =>
      let u := littleEndian bs in
      get32LittleEndian r
      = (Val (if u <? 2147483648 then u else u - 4294967296),
         setOffset (_readOffset r + 4) r)
      /\ 0 <= u < 4294967296
  | None => get32LittleEndian r = (Thrown, r)
  end.
Proof.
  destruct (readBytes _ _ 4) as [bs |] eqn:E.
  - exact (get32_bytes r bs E).
  - exact (get32_short r E).
Qed.

(** X2: [get16LittleEndian] and [get24LittleEndian] return the
    little-endian value of the two, or three, bytes at the read offset as a
    number that is never negative (below 2^16, or 2^24) and move the offset
    on by as many; when fewer bytes are left they throw and leave the reader
    as it was. *)
Theorem get16_get24_unsigned (r : ByteReader) :
  match readBytes (_fileByte r) (_readOffset r) 2 with
  | Some bs =>
      get16LittleEndian r = (Val (littleEndian bs), setOffset (_readOffset r + 2) r)
      /\ 0 <= littleEndian bs < 65536
  | None => get16LittleEndian r = (Thrown, r)
  end
  /\ match readBytes (_fileByte r) (_readOffset r) 3 with
     | Some bs =>
         get24LittleEndian r = (Val (littleEndian bs), setOffset (_readOffset r + 3) r)
         /\ 0 <= littleEndian bs < 16777216
     | None => get24LittleEndian r = (Thrown, r)
     end.
Proof.
  split.
  - destruct (readBytes _ _ 2) as [bs |] eqn:E;
      [exact (get16_bytes r bs E) | exact (get16_short r E)].
  - destruct (readBytes _ _ 3) as [bs |] eqn:E;
      [exact (get24_bytes r bs E) | exact (get24_short r E)].
Qed.

End ReaderFacts.

Module LayoutFacts.

Import JS Num Wav WavSpec JSFacts WavFacts ReaderFacts WavLayout.

Lemma byteOf_value z : Z.of_N (Byte.to_N (byteOf z)) = z mod 256.
Proof.
  unfold byteOf. pose proof (Z.mod_pos_bound z 256 eq_refl) as Hm.
  destruct (Byte.of_N (Z.to_N (z mod 256))) as [b |] eqn:E.
  - apply Byte.to_of_N in E. rewrite E. lia.
  - apply Byte.of_N_None_iff in E. lia.
Qed.

Lemma length_le n : forall z, List.length (le n z) = n.
Proof. induction n; intros z; simpl; [reflexivity | f_equal; apply IHn]. Qed.

Lemma littleEndian_le n : forall z,
  littleEndian (bytesZ (le n z)) = z mod 256 ^ Z.of_nat n.
Proof.
  induction n as [| n IH]; intros z.
  - simpl. rewrite Z.mod_1_r. reflexivity.
  - cbn [le bytesZ map littleEndian]. fold (bytesZ (le n (z / 256))).
    rewrite IH, byteOf_value, Nat2Z.inj_succ, Z.pow_succ_r by lia.
    rewrite Z.rem_mul_r by lia. lia.
Qed.

Lemma length_tag s : List.length (tag s) = String.length s.
Proof.
  unfold tag, list_byte_of_string. rewrite length_map.
  induction s; simpl; congruence.
Qed.

Lemma tag_inj s t : tag s = tag t -> s = t.
Proof.
  unfold tag. intros H.
  rewrite <- (string_of_list_byte_of_string s), <- (string_of_list_byte_of_string t).
  congruence.
Qed.

Lemma length_bytesZ l : List.length (bytesZ l) = List.length l.
Proof. apply length_map. Qed.

(** *** Reading at a position *)

Lemma getUint8_nth view off b :
  0 <= off -> nth_error view (Z.to_nat off) = Some b ->
  getUint8 view off = Some (Z.of_N (Byte.to_N b)).
Proof.
  intros H0 Hn. unfold getUint8. destruct (Z.ltb_spec off 0); [lia |].
  rewrite Hn. reflexivity.
Qed.

Lemma readBytes_window n : forall file off bs,
  0 <= off -> firstn n (skipn (Z.to_nat off) file) = bs -> List.length bs = n ->
  readBytes file off n = Some (bytesZ bs).
Proof.
  induction n as [| n IH]; intros file off bs H0 Hw Hl.
  - destruct bs; [reflexivity | discriminate].
  - destruct bs as [| b bs]; [discriminate |].
    rewrite readBytes_S.
    assert (Hs : skipn (Z.to_nat off) file = b :: skipn (S (Z.to_nat off)) file
                 /\ firstn n (skipn (S (Z.to_nat off)) file) = bs).
    { destruct (skipn (Z.to_nat off) file) as [| x rest] eqn:Es; [discriminate |].
      cbn [firstn] in Hw. injection Hw as -> Hw.
      assert (rest = skipn (S (Z.to_nat off)) file).
      { replace (S (Z.to_nat off)) with (1 + Z.to_nat off)%nat by lia.
        rewrite <- skipn_skipn, Es. reflexivity. }
      subst rest. split; [reflexivity | assumption]. }
    destruct Hs as [Hs Hw'].
    assert (Hnth : nth_error file (Z.to_nat off) = Some b).
    { rewrite <- (firstn_skipn (Z.to_nat off) file) at 1.
      assert (Hlen : (Z.to_nat off <= List.length file)%nat).
      { destruct (Nat.le_gt_cases (Z.to_nat off) (List.length file)); [assumption |].
        rewrite skipn_all2 in Hs by lia. discriminate. }
      rewrite nth_error_app2 by (rewrite length_firstn; lia).
      rewrite length_firstn, Nat.min_l, Nat.sub_diag, Hs by assumption. reflexivity. }
    rewrite (getUint8_nth _ _ _ H0 Hnth).
    rewrite (IH file (off + 1) bs); [reflexivity | lia | | simpl in Hl; lia].
    replace (Z.to_nat (off + 1)) with (S (Z.to_nat off)) by lia. assumption.
Qed.

Lemma window_app (pre mid post : list byte) :
  firstn (List.length mid) (skipn (List.length pre) (pre ++ mid ++ post)) = mid.
Proof.
  rewrite skipn_app, skipn_all, Nat.sub_diag. cbn [skipn app].
  rewrite firstn_app, firstn_all, Nat.sub_diag. cbn [firstn]. apply app_nil_r.
Qed.

Lemma readBytes_app (pre mid post : list byte) :
  readBytes (pre ++ mid ++ post) (Z.of_nat (List.length pre)) (List.length mid)
  = Some (bytesZ mid).
Proof.
  apply readBytes_window; [lia | | reflexivity].
  rewrite Nat2Z.id. apply window_app.
Qed.

End LayoutFacts.

Module SignatureFacts.

Import JS Num Wav WavSpec JSFacts WavFacts ReaderFacts WavLayout WavReading LayoutFacts.

Lemma readBytes_4 view off bs :
  readBytes view off 4 = Some bs ->
  exists s0 s1 s2 s3, bs = [s0; s1; s2; s3]
    /\ getUint8 view off = Some s0 /\ getUint8 view (off + 1) = Some s1
    /\ getUint8 view (off + 2) = Some s2 /\ getUint8 view (off + 3) = Some s3.
Proof.
  cbn [readBytes].
  replace (off + 1 + 1) with (off + 2) by lia.
  replace (off + 2 + 1) with (off + 3) by lia.
  destruct (getUint8 view off) as [s0 |]; [| discriminate].
  destruct (getUint8 view (off + 1)) as [s1 |]; [| discriminate].
  destruct (getUint8 view (off + 2)) as [s2 |]; [| discriminate].
  destruct (getUint8 view (off + 3)) as [s3 |]; [| discriminate].
  intros [= <-]. exists s0, s1, s2, s3. repeat split.
Qed.

Lemma same4_eq bs ref :
  List.length bs = 4%nat -> (same4 bs ref = true <-> bs = ref).
Proof.
  intros Hl.
  destruct bs as [| s0 [| s1 [| s2 [| s3 [| ? ?]]]]]; try discriminate.
  destruct ref as [| r0 [| r1 [| r2 [| r3 [| ? ?]]]]]; cbn [same4];
    try (split; [discriminate | intros [=]]).
  rewrite !andb_true_iff, !Z.eqb_eq. split.
  - intros [[[-> ->] ->] ->]. reflexivity.
  - intros [= -> -> -> ->]. repeat split.
Qed.

Lemma getCheckSignature_run reference r bs :
  String.length reference = 4%nat ->
  readBytes (_fileByte r) (_readOffset r) 4 = Some bs ->
  getCheckSignature reference r
  = (Val (same4 bs (encode reference)), setOffset (_readOffset r + 4) r).
Proof.
  intros Hl Hr. apply readBytes_4 in Hr.
  destruct Hr as (s0 & s1 & s2 & s3 & -> & E0 & E1 & E2 & E3).
  unfold getCheckSignature. rewrite Hl. cbn [Nat.eqb negb].
  unfold bind. rewrite get8_run, E0.
  rewrite get8_run. cbn [setOffset _fileByte _readOffset]. rewrite E1.
  rewrite get8_run. cbn [setOffset _fileByte _readOffset].
  replace (_readOffset r + 1 + 1) with (_readOffset r + 2) by lia. rewrite E2.
  rewrite get8_run. cbn [setOffset _fileByte _readOffset].
  replace (_readOffset r + 2 + 1) with (_readOffset r + 3) by lia. rewrite E3.
  unfold ret. cbn [setOffset _fileByte _fileSize _readOffset].
  replace (_readOffset r + 3 + 1) with (_readOffset r + 4) by lia.
  unfold same4.
  destruct (encode reference) as [| r0 [| r1 [| r2 [| r3 [| ? ?]]]]]; reflexivity.
Qed.

Lemma length_encode s : List.length (encode s) = String.length s.
Proof. unfold encode. rewrite length_map. apply length_tag. Qed.

(** A signature that cannot be read whole throws; the bytes that were
    there have been passed. *)
Lemma getCheckSignature_short reference r :
  String.length reference = 4%nat ->
  readBytes (_fileByte r) (_readOffset r) 4 = None ->
  exists off, getCheckSignature reference r = (Thrown, setOffset off r)
              /\ _readOffset r <= off <= _readOffset r + 3.
Proof.
  intros Hl Hr. unfold getCheckSignature. rewrite Hl. cbn [Nat.eqb negb].
  cbn [readBytes] in Hr.
  replace (_readOffset r + 1 + 1) with (_readOffset r + 2) in Hr by lia.
  replace (_readOffset r + 2 + 1) with (_readOffset r + 3) in Hr by lia.
  unfold bind. rewrite get8_run.
  destruct (getUint8 _ (_readOffset r)) as [s0 |] eqn:E0.
  2:{ exists (_readOffset r). split; [destruct r; reflexivity | lia]. }
  rewrite get8_run. cbn [setOffset _fileByte _readOffset].
  destruct (getUint8 _ (_readOffset r + 1)) as [s1 |] eqn:E1.
  2:{ exists (_readOffset r + 1). split; [reflexivity | lia]. }
  rewrite get8_run. cbn [setOffset _fileByte _readOffset].
  replace (_readOffset r + 1 + 1) with (_readOffset r + 2) by lia.
  destruct (getUint8 _ (_readOffset r + 2)) as [s2 |] eqn:E2.
  2:{ exists (_readOffset r + 2). split; [reflexivity | lia]. }
  rewrite get8_run. cbn [setOffset _fileByte _readOffset].
  replace (_readOffset r + 2 + 1) with (_readOffset r + 3) by lia.
  destruct (getUint8 _ (_readOffset r + 3)) as [s3 |] eqn:E3; [discriminate |].
  exists (_readOffset r + 3). split; [reflexivity | lia].
Qed.

(** X3: for an ASCII reference of four characters, [getCheckSignature]
    passes four bytes whether they match or not, and returns true exactly
    when they are the codes of the characters of the reference; when fewer
    than four bytes are left it throws after passing those that were there.
    An ASCII reference of any other length returns false and reads
    nothing. *)
Theorem getCheckSignature_compares (reference : string) (r : ByteReader) :
  isAscii reference = true ->
  if Nat.eqb (String.length reference) 4 then
    match readBytes (_fileByte r) (_readOffset r) 4 with
    | Some bs =>
        exists same : bool,
          getCheckSignature reference r = (Val same, setOffset (_readOffset r + 4) r)
          /\ (same = true <-> bs = encode reference)
    | None =>
        exists off,
          getCheckSignature reference r = (Thrown, setOffset off r)
          /\ _readOffset r <= off <= _readOffset r + 3
    end
  else getCheckSignature reference r = (Val false, r).
Proof.
  intros _.
  destruct (Nat.eqb_spec (String.length reference) 4) as [Hl | Hl].
  - destruct (readBytes _ _ 4) as [bs |] eqn:Hr.
    + exists (same4 bs (encode reference)). split.
      * apply getCheckSignature_run; assumption.
      * apply same4_eq. apply readBytes_bounds in Hr. tauto.
    + apply getCheckSignature_short; assumption.
  - unfold getCheckSignature.
    destruct (Nat.eqb_spec (String.length reference) 4); [contradiction | reflexivity].
Qed.

Lemma getCheckSignature_compares_witness :
  isAscii "RIFF" = true
  /\ (exists same : bool,
        getCheckSignature "RIFF" (mkReader WavInputs.shortClip 52 0)
        = (Val same, mkReader WavInputs.shortClip 52 4)
        /\ (same = true <-> [82; 73; 70; 70] = encode "RIFF"))
  /\ getCheckSignature "RIFF " (mkReader WavInputs.shortClip 52 0)
     = (Val false, mkReader WavInputs.shortClip 52 0).
Proof.
  split; [reflexivity |]. split.
  - exact (getCheckSignature_compares "RIFF" (mkReader WavInputs.shortClip 52 0) eq_refl).
  - exact (getCheckSignature_compares "RIFF " (mkReader WavInputs.shortClip 52 0) eq_refl).
Defined.

(** *** Reading the fields of the layout *)

Lemma bytesZ_inj a b : bytesZ a = bytesZ b -> a = b.
Proof.
  revert b. induction a as [| x a IH]; intros [| y b]; try discriminate; [reflexivity |].
  cbn [bytesZ map]. intros [= Hx Ht]. f_equal; [| apply IH; assumption].
  apply N2Z.inj in Hx.
  assert (Some x = Some y) by (rewrite <- (Byte.of_to_N x), <- (Byte.of_to_N y); congruence).
  congruence.
Qed.

Lemma read_tag file size off s reference :
  String.length s = 4%nat -> String.length reference = 4%nat ->
  readBytes file off 4 = Some (bytesZ (tag s)) ->
  getCheckSignature reference (mkReader file size off)
  = (Val (String.eqb s reference), mkReader file size (off + 4)).
Proof.
  intros Hs Hl Hr.
  rewrite (getCheckSignature_run reference (mkReader file size off) (bytesZ (tag s)) Hl Hr).
  cbn [setOffset _fileByte _fileSize _readOffset]. f_equal. f_equal.
  destruct (String.eqb_spec s reference) as [-> | Hne].
  - apply same4_eq; [rewrite length_bytesZ, length_tag; assumption | reflexivity].
  - destruct (same4 _ _) eqn:E; [| reflexivity].
    apply same4_eq in E; [| rewrite length_bytesZ, length_tag; assumption].
    apply bytesZ_inj, tag_inj in E. contradiction.
Qed.

Lemma read_le32 file size off z :
  readBytes file off 4 = Some (bytesZ (le 4 z)) ->
  get32LittleEndian (mkReader file size off)
  = (Val (signed32 (z mod 4294967296)), mkReader file size (off + 4)).
Proof.
  intros Hr. destruct (get32_bytes (mkReader file size off) _ Hr) as [H _].
  rewrite H, littleEndian_le. reflexivity.
Qed.

Lemma read_le16 file size off z :
  readBytes file off 2 = Some (bytesZ (le 2 z)) ->
  get16LittleEndian (mkReader file size off)
  = (Val (z mod 65536), mkReader file size (off + 2)).
Proof.
  intros Hr. destruct (get16_bytes (mkReader file size off) _ Hr) as [H _].
  rewrite H, littleEndian_le. reflexivity.
Qed.

End SignatureFacts.

Module ScanFacts.

Import JS Num Wav WavSpec JSFacts WavFacts ReaderFacts WavLayout LayoutFacts SignatureFacts.

Lemma signed32_small z : 0 <= z < 2147483648 -> signed32 (z mod 4294967296) = z.
Proof.
  intros H. rewrite Z.mod_small by lia. unfold signed32.
  destruct (Z.ltb_spec z 2147483648); lia.
Qed.

Lemma length_chunk c :
  String.length (chunkId c) = 4%nat ->
  List.length (chunk c) = (8 + List.length (chunkBody c))%nat.
Proof.
  intros H. unfold chunk. rewrite !length_app, length_le, length_tag, H. lia.
Qed.

(** One chunk that is not the data: the scan goes on behind it. *)
Lemma scan_chunk fuel pre c rest :
  skipped c = true ->
  let file := pre ++ chunk c ++ rest in
  scanForData (S fuel) (mkReader file (Z.of_nat (List.length file)) (Z.of_nat (List.length pre)))
  = scanForData fuel (mkReader file (Z.of_nat (List.length file))
                               (Z.of_nat (List.length (pre ++ chunk c)))).
Proof.
  intros Hc file. unfold skipped in Hc.
  rewrite !andb_true_iff, Nat.eqb_eq, negb_true_iff, Z.ltb_lt in Hc.
  destruct Hc as [[Hid Hdata] Hsize].
  assert (Htag : readBytes file (Z.of_nat (List.length pre)) 4 = Some (bytesZ (tag (chunkId c)))).
  { subst file. unfold chunk. rewrite <- !app_assoc.
    rewrite <- Hid, <- length_tag. apply readBytes_app. }
  assert (Hle : readBytes file (Z.of_nat (List.length pre) + 4) 4
                = Some (bytesZ (le 4 (Z.of_nat (List.length (chunkBody c)))))).
  { subst file. unfold chunk. rewrite <- !app_assoc.
    rewrite (app_assoc pre).
    replace (Z.of_nat (List.length pre) + 4) with (Z.of_nat (List.length (pre ++ tag (chunkId c))))
      by (rewrite length_app, length_tag, Hid; lia).
    rewrite <- (length_le 4 (Z.of_nat (List.length (chunkBody c)))) at 2.
    apply readBytes_app. }
  assert (Hlen : Z.of_nat (List.length pre) + 4 < Z.of_nat (List.length file)).
  { subst file. rewrite !length_app, length_chunk by assumption. clear. lia. }
  cbn [scanForData]. unfold bind at 1.
  rewrite (read_tag _ _ _ (chunkId c) "data" Hid eq_refl Htag), Hdata.
  unfold bind, gets, modify. cbn [_readOffset _fileSize negb andb].
  destruct (Z.ltb_spec (Z.of_nat (List.length pre) + 4) (Z.of_nat (List.length file))); [| lia].
  rewrite (read_le32 _ _ _ _ Hle), signed32_small by lia.
  unfold setOffset. cbn [_fileByte _fileSize _readOffset].
  f_equal. f_equal. rewrite length_app, length_chunk by assumption. lia.
Qed.

(** The chunks before the data are stepped over one by one. *)
Lemma scan_chunks others : forall fuel pre rest,
  forallb skipped others = true ->
  let file := pre ++ flat_map chunk others ++ rest in
  scanForData (List.length others + fuel)
    (mkReader file (Z.of_nat (List.length file)) (Z.of_nat (List.length pre)))
  = scanForData fuel
      (mkReader file (Z.of_nat (List.length file))
                (Z.of_nat (List.length (pre ++ flat_map chunk others)))).
Proof.
  induction others as [| c cs IH]; intros fuel pre rest Hall file.
  - subst file. cbn [flat_map List.length Nat.add]. rewrite app_nil_r. reflexivity.
  - cbn [forallb] in Hall. apply andb_true_iff in Hall. destruct Hall as [Hc Hcs].
    subst file. cbn [flat_map List.length Nat.add].
    rewrite <- (app_assoc (chunk c)).
    rewrite (scan_chunk _ pre c (flat_map chunk cs ++ rest) Hc).
    rewrite (app_assoc pre (chunk c)).
    rewrite (IH fuel (pre ++ chunk c) rest Hcs).
    rewrite <- !app_assoc. reflexivity.
Qed.

(** At the data chunk the scan ends, behind the signature. *)
Lemma scan_data fuel pre rest :
  let file := pre ++ tag "data" ++ rest in
  scanForData (S fuel) (mkReader file (Z.of_nat (List.length file)) (Z.of_nat (List.length pre)))
  = (Val tt, mkReader file (Z.of_nat (List.length file)) (Z.of_nat (List.length pre) + 4)).
Proof.
  intros file.
  assert (Htag : readBytes file (Z.of_nat (List.length pre)) 4 = Some (bytesZ (tag "data"))).
  { subst file. apply (readBytes_app pre (tag "data") rest). }
  cbn [scanForData]. unfold bind at 1.
  rewrite (read_tag _ _ _ "data" "data" eq_refl eq_refl Htag).
  reflexivity.
Qed.

(** At the end of the file the signature cannot be read. *)
Lemma scan_end fuel file :
  scanForData (S fuel) (mkReader file (Z.of_nat (List.length file)) (Z.of_nat (List.length file)))
  = (Thrown, mkReader file (Z.of_nat (List.length file)) (Z.of_nat (List.length file))).
Proof.
  cbn [scanForData]. unfold bind at 1.
  unfold getCheckSignature. cbn [String.length Nat.eqb negb]. unfold bind at 1.
  rewrite get8_run. cbn [_fileByte _readOffset].
  assert (E : getUint8 file (Z.of_nat (List.length file)) = None)
    by (apply getUint8_None; lia).
  rewrite E. reflexivity.
Qed.

End ScanFacts.

Module LoadFacts.

Import JS Num Wav WavSpec JSFacts WavFacts ReaderFacts WavLayout WavReading LayoutFacts SignatureFacts ScanFacts.

Lemma header_fields riff wave fmt riffSize f rest :
  String.length riff = 4%nat -> String.length wave = 4%nat -> String.length fmt = 4%nat ->
  let file := headerWith riff wave fmt riffSize f ++ rest in
  readBytes file 0 4 = Some (bytesZ (tag riff))
  /\ readBytes file 4 4 = Some (bytesZ (le 4 riffSize))
  /\ readBytes file 8 4 = Some (bytesZ (tag wave))
  /\ readBytes file 12 4 = Some (bytesZ (tag fmt))
  /\ readBytes file 16 4 = Some (bytesZ (le 4 (16 + Z.of_nat (List.length (extension f)))))
  /\ readBytes file 20 2 = Some (bytesZ (le 2 (formatTag f)))
  /\ readBytes file 22 2 = Some (bytesZ (le 2 (channels f)))
  /\ readBytes file 24 4 = Some (bytesZ (le 4 (samplingRate f)))
  /\ readBytes file 28 4 = Some (bytesZ (le 4 (byteRate f)))
  /\ readBytes file 32 2 = Some (bytesZ (le 2 (blockAlign f)))
  /\ readBytes file 34 2 = Some (bytesZ (le 2 (bitsPerSample f))).
Proof.
  intros Hr Hw Hf file. subst file. unfold headerWith.
  destruct riff as [| r0 [| r1 [| r2 [| r3 [| ? ?]]]]]; try discriminate.
  destruct wave as [| w0 [| w1 [| w2 [| w3 [| ? ?]]]]]; try discriminate.
  destruct fmt as [| f0 [| f1 [| f2 [| f3 [| ? ?]]]]]; try discriminate.
  repeat split; (apply readBytes_window; [lia | reflexivity | reflexivity]).
Qed.

Lemma length_headerWith riff wave fmt riffSize f :
  String.length riff = 4%nat -> String.length wave = 4%nat -> String.length fmt = 4%nat ->
  List.length (headerWith riff wave fmt riffSize f) = (36 + List.length (extension f))%nat.
Proof.
  intros Hr Hw Hf. unfold headerWith.
  rewrite !length_app, !length_le, !length_tag, Hr, Hw, Hf. reflexivity.
Qed.

Lemma length_header riffSize f :
  List.length (header riffSize f) = (36 + List.length (extension f))%nat.
Proof. apply length_headerWith; reflexivity. Qed.

Lemma reader_run {A} (c : R A) p t rms so info r :
  reader c (mkHandler p t rms so info r)
  = (fst (c r), mkHandler p t rms so info (snd (c r))).
Proof. unfold reader. cbn [_byteReader]. destruct (c r). reflexivity. Qed.


Lemma reader_val {A} (c : R A) p t rms so info r a r' :
  c r = (Val a, r') ->
  reader c (mkHandler p t rms so info r) = (Val a, mkHandler p t rms so info r').
Proof. intros E. rewrite reader_run, E. reflexivity. Qed.

Lemma reader_thrown {A} (c : R A) p t rms so info r r' :
  c r = (Thrown, r') ->
  reader c (mkHandler p t rms so info r) = (Thrown, mkHandler p t rms so info r').
Proof. intros E. rewrite reader_run, E. reflexivity. Qed.

Lemma try_val {S A B} (c : St S A) (k : A -> St S B) handler s a s' :
  c s = (Val a, s') ->
  tryCatch (bind c k) handler s = tryCatch (k a) handler s'.
Proof. intros E. unfold tryCatch, bind. rewrite E. reflexivity. Qed.

Lemma try_thrown {S A B} (c : St S A) (k : A -> St S B) handler s s' :
  c s = (Thrown, s') ->
  tryCatch (bind c k) handler s = handler s'.
Proof. intros E. unfold tryCatch, bind. rewrite E. reflexivity. Qed.

Lemma try_gets {S A B} (f : S -> A) (k : A -> St S B) handler s :
  tryCatch (bind (gets f) k) handler s = tryCatch (k (f s)) handler s.
Proof. reflexivity. Qed.

Lemma try_modify {S B} (f : S -> S) (k : unit -> St S B) handler s :
  tryCatch (bind (modify f) k) handler s = tryCatch (k tt) handler (f s).
Proof. reflexivity. Qed.

Ltac fields :=
  unfold setPcmData, setReader, setInfo, setUserTimeSeconds, setLastRms,
         setSampleOffset, setOffset;
  cbn [_pcmData Wav._userTimeSeconds _lastRms _sampleOffset _wavFileInfo _byteReader
       _fileName _numberOfChannels _bitsPerSample _samplingRate _samplesPerChannel
       _fileByte _fileSize _readOffset].

(** The header and the [fmt ] chunk are read; a signature that is not the
    one expected, or a format tag other than 1, ends the load. *)
Lemma load_format canAllocate fuel path riff wave fmt riffSize f rest pcm t rms so info rd :
  String.length riff = 4%nat -> String.length wave = 4%nat -> String.length fmt = 4%nat ->
  Z.of_nat (List.length (extension f)) < 2147483632 ->
  let file := headerWith riff wave fmt riffSize f ++ rest in
  exists h',
    loadWavFile canAllocate fuel path (Some file) (mkHandler pcm t rms so info rd)
    = (if String.eqb riff "RIFF" && String.eqb wave "WAVE" && String.eqb fmt "fmt "
          && (formatTag f mod 65536 =? 1)
       then
         afterFormat canAllocate fuel
           (mkHandler None t rms so
              (mkInfo path (channels f mod 65536) (bitsPerSample f mod 65536)
                      (signed32 (samplingRate f mod 4294967296)) (_samplesPerChannel info))
              (mkReader file (Z.of_nat (List.length file))
                        (Z.of_nat (List.length (headerWith riff wave fmt riffSize f)))))
       else (Val false, h'))
    /\ _pcmData h' = None /\ Wav._userTimeSeconds h' = t /\ _lastRms h' = rms
    /\ _sampleOffset h' = so.
Proof.
  intros Hr Hw Hf Hext file.
  destruct (header_fields riff wave fmt riffSize f rest Hr Hw Hf)
    as (F0 & F4 & F8 & F12 & F16 & F20 & F22 & F24 & F28 & F32 & F34).
  fold file in F0, F4, F8, F12, F16, F20, F22, F24, F28, F32, F34.
  assert (Hlen : 36 <= Z.of_nat (List.length file)).
  { subst file. rewrite length_app, length_headerWith by assumption. lia. }
  unfold loadWavFile, loadWavFileSettled, afterFormat.
  set (tail := (reader (scanForData fuel) ;;; _)).
  assert (Hrel : forall k : St LAppWavFileHandler bool,
            (pcm0 <- gets _pcmData ;;
             (match pcm0 with Some _ => releasePcmData | None => ret tt end) ;;; k)
              (mkHandler pcm t rms so info rd)
            = k (mkHandler None t rms so info rd)).
  { intros k. unfold bind, gets, releasePcmData, modify, ret. fields.
    destruct pcm; reflexivity. }
  rewrite Hrel. clear Hrel.
  rewrite try_modify. fields.
  rewrite try_gets. fields.
  destruct (Z.ltb_spec (Z.of_nat (List.length file)) 4) as [? | _]; [lia |].
  rewrite try_modify. fields.
  erewrite try_val by (apply reader_val; eapply read_tag; [| | exact F0]; [exact Hr | reflexivity]).
  fields. destruct (String.eqb riff "RIFF"); cbn [negb andb];
    [| eexists; split; [reflexivity | repeat split]].
  erewrite try_val by (apply reader_val; apply read_le32; exact F4). fields.
  erewrite try_val by (apply reader_val; eapply read_tag; [| | exact F8]; [exact Hw | reflexivity]).
  fields. destruct (String.eqb wave "WAVE"); cbn [negb andb];
    [| eexists; split; [reflexivity | repeat split]].
  erewrite try_val by (apply reader_val; eapply read_tag; [| | exact F12]; [exact Hf | reflexivity]).
  fields. destruct (String.eqb fmt "fmt "); cbn [negb andb];
    [| eexists; split; [reflexivity | repeat split]].
  erewrite try_val by (apply reader_val; apply read_le32; exact F16). fields.
  erewrite try_val by (apply reader_val; apply read_le16; exact F20). fields.
  destruct (formatTag f mod 65536 =? 1); cbn [negb];
    [| eexists; split; [reflexivity | repeat split]].
  exists (mkHandler None t rms so info rd). split; [| repeat split].
  erewrite try_val by (apply reader_val; apply read_le16; exact F22). fields.
  rewrite try_modify. fields.
  erewrite try_val by (apply reader_val; apply read_le32; exact F24). fields.
  rewrite try_modify. fields.
  erewrite try_val by (apply reader_val; apply read_le32; exact F28). fields.
  erewrite try_val by (apply reader_val; apply read_le16; exact F32). fields.
  erewrite try_val by (apply reader_val; apply read_le16; exact F34). fields.
  rewrite try_modify. fields.
  rewrite signed32_small by lia.
  rewrite length_headerWith by assumption.
  destruct (Z.ltb_spec 16 (16 + Z.of_nat (List.length (extension f)))) as [Hx | Hx].
  - erewrite try_val by (apply reader_val; reflexivity). fields.
    do 4 f_equal. lia.
  - erewrite try_val by reflexivity.
    fields. do 4 f_equal. lia.
Qed.

Lemma load_header canAllocate fuel path riffSize f rest pcm t rms so info rd :
  formatTag f mod 65536 = 1 ->
  Z.of_nat (List.length (extension f)) < 2147483632 ->
  let file := header riffSize f ++ rest in
  loadWavFile canAllocate fuel path (Some file) (mkHandler pcm t rms so info rd)
  = afterFormat canAllocate fuel
      (mkHandler None t rms so
         (mkInfo path (channels f mod 65536) (bitsPerSample f mod 65536)
                 (signed32 (samplingRate f mod 4294967296)) (_samplesPerChannel info))
         (mkReader file (Z.of_nat (List.length file))
                   (Z.of_nat (List.length (header riffSize f))))).
Proof.
  intros Hpcm Hext file.
  destruct (load_format canAllocate fuel path "RIFF" "WAVE" "fmt " riffSize f rest
              pcm t rms so info rd eq_refl eq_refl eq_refl Hext) as (h' & E & _).
  cbv zeta in E. fold (header riffSize f) in E. fold file in E.
  rewrite E, Hpcm. reflexivity.
Qed.

End LoadFacts.

Module TableFacts.

Import Wav WavLayout.

Lemma length_tabulate {A} n (f : nat -> A) : List.length (tabulate n f) = n.
Proof. unfold tabulate. rewrite length_map, length_seq. reflexivity. Qed.

Lemma tabulate_ext {A} n (f g : nat -> A) :
  (forall i, (i < n)%nat -> f i = g i) -> tabulate n f = tabulate n g.
Proof.
  intros H. unfold tabulate. apply map_ext_in. intros i Hi.
  apply in_seq in Hi. apply H. lia.
Qed.

Lemma nth_error_tabulate {A} n (f : nat -> A) i :
  (i < n)%nat -> nth_error (tabulate n f) i = Some (f i).
Proof.
  intros H. unfold tabulate. rewrite nth_error_map, nth_error_seq.
  destruct (Nat.ltb_spec i n); [reflexivity | lia].
Qed.

Lemma setAt_map_seq {A} (g : nat -> A) (f : A -> A) n : forall s k,
  setAt k f (map g (seq s n))
  = map (fun i => if (i =? s + k)%nat then f (g i) else g i) (seq s n).
Proof.
  induction n as [| n IH]; intros s k; [destruct k; reflexivity |].
  cbn [seq map]. destruct k as [| k]; cbn [setAt].
  - rewrite Nat.add_0_r, Nat.eqb_refl. f_equal.
    apply map_ext_in. intros i Hi. apply in_seq in Hi.
    destruct (Nat.eqb_spec i s); [lia | reflexivity].
  - destruct (Nat.eqb_spec s (s + S k)); [lia |]. f_equal.
    rewrite IH. apply map_ext_in. intros i _.
    replace (S s + k)%nat with (s + S k)%nat by lia. reflexivity.
Qed.

Lemma setAt_tabulate {A} n (g : nat -> A) (f : A -> A) k :
  setAt k f (tabulate n g)
  = tabulate n (fun i => if (i =? k)%nat then f (g i) else g i).
Proof. unfold tabulate. rewrite setAt_map_seq. reflexivity. Qed.

Lemma table_ext count len g g' :
  (forall c i, (c < count)%nat -> (i < len)%nat -> g c i = g' c i) ->
  table count len g = table count len g'.
Proof.
  intros H. apply tabulate_ext. intros c Hc. apply tabulate_ext. intros i Hi.
  apply H; assumption.
Qed.

Lemma table_zero count len :
  repeat (repeat 0%Q len) count = table count len (fun _ _ => 0%Q).
Proof.
  assert (Hr : forall (A : Type) (x : A) n, repeat x n = tabulate n (fun _ => x)).
  { intros A x n. unfold tabulate. generalize 0%nat.
    induction n; intros s; simpl; [reflexivity | f_equal; apply IHn]. }
  unfold table. rewrite Hr. apply tabulate_ext. intros c _. apply Hr.
Qed.

Lemma storeSample_table count len g c i v t rms so info rd :
  (c < count)%nat ->
  storeSample (Z.of_nat c) (Z.of_nat i) v
    (mkHandler (Some (table count len g)) t rms so info rd)
  = (Val tt,
     mkHandler
       (Some (table count len
                (fun c' i' => if (c' =? c)%nat && (i' =? i)%nat
                              then Num.toFloat32 v else g c' i')))
       t rms so info rd).
Proof.
  intros Hc. unfold storeSample. cbn [_pcmData].
  unfold table at 1. rewrite length_tabulate.
  destruct (Z.ltb_spec (Z.of_nat c) 0); [lia |].
  destruct (Z.leb_spec (Z.of_nat count) (Z.of_nat c)); [lia |].
  cbn [orb]. unfold setPcmData.
  cbn [Wav._userTimeSeconds _lastRms _sampleOffset _wavFileInfo _byteReader].
  do 3 f_equal.
  destruct (Z.ltb_spec (Z.of_nat i) 0); [lia |].
  rewrite !Nat2Z.id. unfold table. rewrite setAt_tabulate.
  apply tabulate_ext. intros c' _.
  destruct (Nat.eqb_spec c' c); cbn [andb]; [| reflexivity].
  rewrite setAt_tabulate. reflexivity.
Qed.

(** A loop that keeps an invariant and does not throw. *)
Lemma for_invariant {S} (I : nat -> S -> Prop) (body : Z -> St S unit) n :
  forall start s,
    (forall k s, (k < n)%nat -> I k s ->
       exists s', body (start + Z.of_nat k) s = (Val tt, s') /\ I (Datatypes.S k) s') ->
    I O s ->
    exists s', for_ n start body s = (Val tt, s') /\ I n s'.
Proof.
  revert I. induction n as [| n IH]; intros I start s Hbody H0.
  - exists s. split; [reflexivity | assumption].
  - cbn [for_]. unfold bind.
    destruct (Hbody O s) as (s1 & E1 & H1); [lia | assumption |].
    rewrite Z.add_0_r in E1. rewrite E1.
    destruct (IH (fun k => I (Datatypes.S k)) (start + 1) s1) as (s2 & E2 & H2).
    + intros k s' Hk Hs'. destruct (Hbody (Datatypes.S k) s') as (s'' & E & H''); [lia | assumption |].
      exists s''. split; [| assumption].
      rewrite <- E. f_equal. lia.
    + assumption.
    + exists s2. split; assumption.
Qed.

(** A loop that keeps an invariant up to a round that throws. *)
Lemma for_throws {S} (I : nat -> S -> Prop) (J : S -> Prop) (body : Z -> St S unit) m :
  forall n start s,
    (m < n)%nat ->
    (forall k s, (k < m)%nat -> I k s ->
       exists s', body (start + Z.of_nat k) s = (Val tt, s') /\ I (Datatypes.S k) s') ->
    (forall s, I m s -> exists s', body (start + Z.of_nat m) s = (Thrown, s') /\ J s') ->
    I O s ->
    exists s', for_ n start body s = (Thrown, s') /\ J s'.
Proof.
  revert I. induction m as [| m IH]; intros I n start s Hmn Hbody Hthrow H0.
  - destruct n as [| n]; [lia |]. cbn [for_]. unfold bind.
    destruct (Hthrow s H0) as (s' & E & HJ). rewrite Z.add_0_r in E. rewrite E.
    exists s'. split; [reflexivity | assumption].
  - destruct n as [| n]; [lia |]. cbn [for_]. unfold bind.
    destruct (Hbody O s) as (s1 & E1 & H1); [lia | assumption |].
    rewrite Z.add_0_r in E1. rewrite E1.
    apply (IH (fun k => I (Datatypes.S k)) n (start + 1) s1); [lia | | | assumption].
    + intros k s' Hk Hs'. destruct (Hbody (Datatypes.S k) s') as (s'' & E & H''); [lia | assumption |].
      exists s''. split; [| assumption]. rewrite <- E. f_equal. lia.
    + intros s' Hs'. destruct (Hthrow s' Hs') as (s'' & E & HJ).
      exists s''. split; [| assumption]. rewrite <- E. f_equal. lia.
Qed.

End TableFacts.

Module DataFacts.

Import JS Num Wav WavSpec JSFacts WavFacts ReaderFacts WavLayout WavReading LayoutFacts
       SignatureFacts ScanFacts LoadFacts TableFacts.

(** *** Numbers *)

Lemma Qred_inject_Z z : Qred (inject_Z z) = inject_Z z.
Proof.
  unfold Qred, inject_Z.
  pose proof (Z.ggcd_gcd z 1) as Hg. pose proof (Z.ggcd_correct_divisors z 1) as Hd.
  destruct (Z.ggcd z 1) as [g [a b]]. cbn [fst snd] in *.
  rewrite Z.gcd_1_r in Hg. subst g. destruct Hd as [Ha Hb].
  assert (Ea : a = z) by lia. assert (Eb : b = 1) by lia. rewrite Ea, Eb. reflexivity.
Qed.

Lemma inject_Z_zero d : (inject_Z d == 0)%Q -> d = 0.
Proof. unfold Qeq, inject_Z. cbn [Qnum Qden]. lia. Qed.

Lemma jsdiv_exact n d :
  d <> 0 -> jsdiv (inject_Z (n * d)) (inject_Z d) = JFin (inject_Z n).
Proof.
  intros Hd. unfold jsdiv.
  destruct (Qeq_bool (inject_Z d) 0) eqn:E.
  - apply Qeq_bool_eq, inject_Z_zero in E. contradiction.
  - f_equal. rewrite <- (Qred_inject_Z n). apply Qred_complete.
    rewrite inject_Z_mult. field. intros H. apply inject_Z_zero in H. contradiction.
Qed.

Lemma jsdiv_by_zero n : 0 < n -> jsdiv (inject_Z n) (inject_Z 0) = JInf false.
Proof.
  intros Hn. unfold jsdiv.
  change (Qeq_bool (inject_Z 0) 0) with true. cbv iota.
  destruct (Qeq_bool (inject_Z n) 0) eqn:E.
  - apply Qeq_bool_eq, inject_Z_zero in E. lia.
  - f_equal. unfold Qlt_bool. apply negb_false_iff. apply Qle_bool_iff.
    change 0%Q with (inject_Z 0). rewrite <- Zle_Qle. lia.
Qed.

Lemma toIndex_whole n : 0 <= n -> toIndex (JFin (inject_Z n)) = Some n.
Proof.
  intros Hn. unfold toIndex, Qlt_bool.
  assert (E : Qle_bool 0 (inject_Z n) = true).
  { apply Qle_bool_iff. change 0%Q with (inject_Z 0). rewrite <- Zle_Qle. assumption. }
  rewrite E. cbn [negb]. rewrite Qfloor_Z.
  destruct (Z.ltb_spec n 0); [lia | reflexivity].
Qed.

Lemma loopCount_whole n : loopCount (JFin (inject_Z n)) = Some (Z.to_nat n).
Proof. unfold loopCount. rewrite Qceiling_Z. reflexivity. Qed.

(** *** One sample *)

Lemma sample_window bits pre payload trailing index :
  ((index + 1) * sampleBytes bits <= List.length payload)%nat ->
  readBytes (pre ++ payload ++ trailing)
            (Z.of_nat (List.length pre + index * sampleBytes bits)) (sampleBytes bits)
  = Some (bytesZ (sampleBytesAt bits payload index)).
Proof.
  intros H. set (B := sampleBytes bits) in *.
  apply readBytes_window; [lia | |].
  - rewrite Nat2Z.id. unfold sampleBytesAt. fold B.
    rewrite skipn_app, skipn_all2 by lia. cbn [app].
    replace (List.length pre + index * B - List.length pre)%nat with (index * B)%nat by lia.
    rewrite skipn_app.
    replace (index * B - List.length payload)%nat with 0%nat by lia.
    cbn [skipn]. rewrite firstn_app, length_skipn.
    replace (B - (List.length payload - index * B))%nat with 0%nat by lia.
    cbn [firstn]. apply app_nil_r.
  - unfold sampleBytesAt. fold B. rewrite length_firstn, length_skipn. lia.
Qed.

Lemma getPcmSample_at p t rms so info file size off bs :
  readBytes file off (sampleBytes (_bitsPerSample info)) = Some bs ->
  getPcmSample (mkHandler p t rms so info (mkReader file size off))
  = (Val (Qred (specWord (_bitsPerSample info) bs # 2147483647)),
     mkHandler p t rms so info
       (mkReader file size (off + Z.of_nat (sampleBytes (_bitsPerSample info))))).
Proof.
  intros Hr. unfold getPcmSample, bind, gets. cbn [_wavFileInfo].
  rewrite reader_run, pcm32_run. cbn [_fileByte _readOffset]. rewrite Hr.
  reflexivity.
Qed.

Lemma getPcmSample_out p t rms so info file size off :
  readBytes file off (sampleBytes (_bitsPerSample info)) = None ->
  getPcmSample (mkHandler p t rms so info (mkReader file size off))
  = (Thrown, mkHandler p t rms so info (mkReader file size off)).
Proof.
  intros Hr. unfold getPcmSample, bind, gets. cbn [_wavFileInfo].
  rewrite reader_run, pcm32_run. cbn [_fileByte _readOffset]. rewrite Hr.
  reflexivity.
Qed.

(** *** The two loops over the samples *)

Section Frames.

Variables (t : Q) (rms : root) (so : Q) (info : WavFileInfo).
Variables (pre payload trailing : list byte) (size : Z).
Variables (count frames : nat).

Let bits := _bitsPerSample info.
Let width := sampleBytes bits.
Let file := pre ++ payload ++ trailing.

Local Abbreviation reading :=
  (readingAt t rms so info pre payload trailing size count frames).
Local Abbreviation filled :=
  (filledTo t rms so info pre payload trailing size count frames).

Lemma sample_stored j k s :
  (k < count)%nat -> ((j * count + k + 1) * width <= List.length payload)%nat ->
  filled j k s ->
  exists s',
    (v <- getPcmSample ;; storeSample (Z.of_nat k) (Z.of_nat j) v) s = (Val tt, s')
    /\ filled j (S k) s'.
Proof.
  intros Hk Hin (g & -> & Hg). unfold readingAt, bind. fold file.
  rewrite (getPcmSample_at _ _ _ _ _ _ _ _ _
             (sample_window bits pre payload trailing (j * count + k) Hin)).
  rewrite storeSample_table by assumption.
  eexists. split; [reflexivity |].
  eexists. split.
  - unfold readingAt. do 2 f_equal. f_equal. change (sampleBytes (_bitsPerSample info)) with width. nia.
  - intros c i Hc Hi. cbv beta. rewrite (Hg c i Hc Hi).
    unfold sampleAt, quotientAt, sampleBytesAt. fold bits.
    destruct (Nat.eqb_spec c k) as [-> | Hck];
      destruct (Nat.eqb_spec i j) as [-> | Hij]; cbn [andb].
    + destruct (Nat.ltb_spec j j); [lia |].
      destruct (Nat.ltb_spec k (S k)); [| lia]. reflexivity.
    + destruct (Nat.ltb_spec i j); reflexivity.
    + destruct (Nat.ltb_spec j j); [lia |]. cbn [orb].
      destruct (Nat.ltb_spec c k); destruct (Nat.ltb_spec c (S k)); try lia; reflexivity.
    + destruct (Nat.ltb_spec i j); reflexivity.
Qed.

(** A sample that is not wholly there throws, and nothing is stored. *)
Lemma sample_missing j k s :
  trailing = [] ->
  (List.length payload < (j * count + k + 1) * width)%nat ->
  filled j k s ->
  (v <- getPcmSample ;; storeSample (Z.of_nat k) (Z.of_nat j) v) s = (Thrown, s).
Proof.
  intros Ht Hout (g & -> & Hg). unfold readingAt, bind.
  rewrite getPcmSample_out; [reflexivity |].
  change (sampleBytes (_bitsPerSample info)) with width.
  destruct width as [| w] eqn:Ew; [lia |].
  apply readBytes_None. right. subst file. rewrite Ht, app_nil_r, length_app. lia.
Qed.

Lemma frame_stored j s :
  ((j + 1) * count * width <= List.length payload)%nat -> filled j 0 s ->
  exists s',
    for_ count 0 (fun channelCount =>
      v <- getPcmSample ;; storeSample channelCount (Z.of_nat j) v) s = (Val tt, s')
    /\ filled (S j) 0 s'.
Proof.
  intros Hj H0.
  destruct (for_invariant (filled j)
              (fun channelCount => v <- getPcmSample ;; storeSample channelCount (Z.of_nat j) v)
              count 0 s) as (s' & E & (g & -> & Hg)).
  - intros k s0 Hk Hs0. rewrite Z.add_0_l. apply sample_stored; [assumption | | assumption].
    apply Nat.le_trans with ((j + 1) * count * width)%nat; [| exact Hj].
    apply Nat.mul_le_mono_r. nia.
  - assumption.
  - exists (reading (j * count + count) g). split; [assumption |].
    exists g. split.
    + unfold readingAt. do 3 f_equal. lia.
    + intros c i Hc Hi. rewrite (Hg c i Hc Hi).
      destruct (Nat.ltb_spec c count); [| lia].
      destruct (Nat.ltb_spec c 0); [lia |]. rewrite !andb_false_r, andb_true_r, orb_false_r.
      destruct (Nat.ltb_spec i j); destruct (Nat.eqb_spec i j);
        destruct (Nat.ltb_spec i (S j)); try lia; reflexivity.
Qed.

(** The frame in which the bytes run out. *)
Lemma frame_missing j c0 s :
  trailing = [] -> (c0 < count)%nat ->
  ((j * count + c0) * width <= List.length payload)%nat ->
  (List.length payload < (j * count + c0 + 1) * width)%nat ->
  filled j 0 s ->
  exists s',
    for_ count 0 (fun channelCount =>
      v <- getPcmSample ;; storeSample channelCount (Z.of_nat j) v) s = (Thrown, s')
    /\ filled j c0 s'.
Proof.
  intros Ht Hc0 Hin Hout H0.
  apply (for_throws (filled j) (filled j c0)
           (fun channelCount => v <- getPcmSample ;; storeSample channelCount (Z.of_nat j) v)
           c0 count 0 s Hc0); [| | assumption].
  - intros k s0 Hk Hs0. rewrite Z.add_0_l. apply sample_stored; [lia | | assumption].
    apply Nat.le_trans with ((j * count + c0) * width)%nat; [| exact Hin].
    apply Nat.mul_le_mono_r. lia.
  - intros s0 Hs0. exists s0. rewrite Z.add_0_l.
    split; [apply sample_missing; assumption | assumption].
Qed.

Lemma frames_stored :
  (frames * count * width <= List.length payload)%nat ->
  exists s',
    for_ frames 0 (fun sampleCount =>
      for_ count 0 (fun channelCount =>
        v <- getPcmSample ;; storeSample channelCount sampleCount v))
      (reading 0 (fun _ _ => 0%Q))
    = (Val tt, s')
    /\ s' = mkHandler (Some (deinterleaved bits count frames payload)) t rms so info
              (mkReader file size
                 (Z.of_nat (List.length pre + frames * count * width))).
Proof.
  intros Hfits.
  destruct (for_invariant (fun j => filled j 0)
              (fun sampleCount =>
                 for_ count 0 (fun channelCount =>
                   v <- getPcmSample ;; storeSample channelCount sampleCount v))
              frames 0 (reading 0 (fun _ _ => 0%Q))) as (s' & E & (g & -> & Hg)).
  - intros j s0 Hj Hs0. rewrite Z.add_0_l. apply frame_stored; [| assumption].
    apply Nat.le_trans with (frames * count * width)%nat; [| exact Hfits].
    apply Nat.mul_le_mono_r. apply Nat.mul_le_mono_r. lia.
  - exists (fun _ _ => 0%Q). split; [reflexivity |].
    intros c i _ _. destruct (Nat.ltb_spec i 0); [lia |].
    rewrite andb_false_r. reflexivity.
  - eexists. split; [exact E |].
    unfold readingAt. f_equal.
    + f_equal. apply table_ext. intros c i Hc Hi. rewrite (Hg c i Hc Hi).
      destruct (Nat.ltb_spec i frames); [| lia]. reflexivity.
    + do 2 f_equal. unfold width, bits. lia.
Qed.

(** When the bytes run out before the last frame, the loops end in a throw
    with the arrays still in place. *)
Lemma frames_missing :
  trailing = [] -> (1 <= width)%nat ->
  (List.length payload < frames * count * width)%nat ->
  exists s' j k,
    for_ frames 0 (fun sampleCount =>
      for_ count 0 (fun channelCount =>
        v <- getPcmSample ;; storeSample channelCount sampleCount v))
      (reading 0 (fun _ _ => 0%Q))
    = (Thrown, s')
    /\ filled j k s'.
Proof.
  intros Ht Hw Hshort.
  assert (Hcount : (1 <= count)%nat) by (destruct count; [lia | lia]).
  set (have := (List.length payload / width)%nat).
  assert (Hhave : (have * width <= List.length payload < (have + 1) * width)%nat).
  { subst have. pose proof (Nat.div_mod_eq (List.length payload) width) as Hdm.
    pose proof (Nat.mod_upper_bound (List.length payload) width) as Hmod. nia. }
  assert (Hless : (have < frames * count)%nat) by nia.
  set (j0 := (have / count)%nat). set (c0 := (have mod count)%nat).
  assert (Hsplit : (have = j0 * count + c0 /\ c0 < count)%nat).
  { subst j0 c0. pose proof (Nat.div_mod_eq have count).
    pose proof (Nat.mod_upper_bound have count). nia. }
  destruct Hsplit as [Hsplit Hc0].
  assert (Hj0 : (j0 < frames)%nat) by nia.
  destruct (for_throws (fun j => filled j 0) (filled j0 c0)
              (fun sampleCount =>
                 for_ count 0 (fun channelCount =>
                   v <- getPcmSample ;; storeSample channelCount sampleCount v))
              j0 frames 0 (reading 0 (fun _ _ => 0%Q)) Hj0) as (s' & E & Hs').
  - intros j s0 Hj Hs0. rewrite Z.add_0_l. apply frame_stored; [| assumption].
    apply Nat.le_trans with (have * width)%nat; [| lia].
    apply Nat.mul_le_mono_r. nia.
  - intros s0 Hs0. rewrite Z.add_0_l.
    apply frame_missing; try assumption; rewrite <- Hsplit; lia.
  - exists (fun _ _ => 0%Q). split; [reflexivity |].
    intros c i _ _. destruct (Nat.ltb_spec i 0); [lia |].
    rewrite andb_false_r. reflexivity.
  - exists s', j0, c0. split; assumption.
Qed.

End Frames.

End DataFacts.

Module ReadDataFacts.

Import JS Num Wav WavSpec JSFacts WavFacts ReaderFacts WavLayout WavReading LayoutFacts
       SignatureFacts ScanFacts LoadFacts TableFacts DataFacts.

Lemma bind_val {S A B} (c : St S A) (k : A -> St S B) s a s' :
  c s = (Val a, s') -> bind c k s = k a s'.
Proof. intros E. unfold bind. rewrite E. reflexivity. Qed.

Lemma bind_thrown {S A B} (c : St S A) (k : A -> St S B) s s' :
  c s = (Thrown, s') -> bind c k s = (Thrown, s').
Proof. intros E. unfold bind. rewrite E. reflexivity. Qed.

Lemma allocate_all (canAllocate : Z -> bool) n h : forall count,
  0 <= n -> canAllocate n = true ->
  allocateChannels canAllocate count (JFin (inject_Z n)) h
  = (Val (repeat (repeat 0%Q (Z.to_nat n)) count), h).
Proof.
  intros count Hn Hc. induction count as [| c IH]; [reflexivity |].
  cbn [allocateChannels repeat]. unfold bind at 1.
  unfold newFloat32Array. rewrite toIndex_whole, Hc by assumption.
  unfold ret at 1. unfold bind. rewrite IH. reflexivity.
Qed.

Lemma sampleBytes_bits bits :
  bits = 8 \/ bits = 16 \/ bits = 24 -> bits = 8 * Z.of_nat (sampleBytes bits).
Proof. intros [-> | [-> | ->]]; reflexivity. Qed.

(** The data chunk is read whole. *)
Lemma readData_run (canAllocate : Z -> bool) t rms so path bits rate spc
    pre payload trailing (count frames : nat) :
  bits = 8 \/ bits = 16 \/ bits = 24 ->
  (1 <= count)%nat ->
  List.length payload = (frames * count * sampleBytes bits)%nat ->
  Z.of_nat (List.length payload) < 2147483648 ->
  canAllocate (Z.of_nat frames) = true ->
  let file := pre ++ le 4 (Z.of_nat (List.length payload)) ++ payload ++ trailing in
  readData canAllocate
    (mkHandler None t rms so (mkInfo path (Z.of_nat count) bits rate spc)
               (mkReader file (Z.of_nat (List.length file)) (Z.of_nat (List.length pre))))
  = (Val true,
     mkHandler (Some (deinterleaved bits count frames payload)) t rms so
               (mkInfo path (Z.of_nat count) bits rate (JFin (inject_Z (Z.of_nat frames))))
               (mkReader file (Z.of_nat (List.length file))
                         (Z.of_nat (List.length pre) + 4 + Z.of_nat (List.length payload)))).
Proof.
  intros Hbits Hcount Hlen Hsize Halloc file.
  assert (Hle : readBytes file (Z.of_nat (List.length pre)) 4
                = Some (bytesZ (le 4 (Z.of_nat (List.length payload))))).
  { subst file.
    rewrite <- (length_le 4 (Z.of_nat (List.length payload))) at 2.
    apply readBytes_app. }
  unfold readData.
  erewrite bind_val by (apply reader_val; apply read_le32; exact Hle).
  rewrite signed32_small by lia.
  unfold bind at 1, gets at 1. fields.
  unfold bind at 1, gets at 1. fields.
  assert (Hspc : jsdiv (inject_Z (Z.of_nat (List.length payload) * 8))
                       (inject_Z (bits * Z.of_nat count))
                 = JFin (inject_Z (Z.of_nat frames))).
  { replace (Z.of_nat (List.length payload) * 8)
      with (Z.of_nat frames * (bits * Z.of_nat count)).
    - apply jsdiv_exact. destruct Hbits as [-> | [-> | ->]]; lia.
    - rewrite Hlen. rewrite (sampleBytes_bits bits Hbits) at 1. nia. }
  rewrite Hspc.
  unfold bind at 1, modify at 1. fields.
  unfold bind at 1, modify at 1. fields.
  erewrite bind_val by (apply allocate_all; [lia | exact Halloc]).
  unfold bind at 1, modify at 1. fields.
  rewrite loopCount_whole, !Nat2Z.id.
  rewrite table_zero.
  pose proof (frames_stored t rms so
                (mkInfo path (Z.of_nat count) bits rate (JFin (inject_Z (Z.of_nat frames))))
                (pre ++ le 4 (Z.of_nat (List.length payload))) payload trailing
                (Z.of_nat (List.length file)) count frames) as Hrun.
  cbn [_bitsPerSample] in Hrun.
  destruct Hrun as (s' & E & ->); [lia |].
  unfold readingAt in E. cbn [_bitsPerSample] in E.
  rewrite <- app_assoc in E. fold file in E.
  replace (Z.of_nat (List.length (pre ++ le 4 (Z.of_nat (List.length payload)))
                     + 0 * sampleBytes bits))
    with (Z.of_nat (List.length pre) + 4) in E
    by (rewrite length_app, length_le; lia).
  erewrite bind_val by exact E.
  unfold ret. do 4 f_equal. rewrite length_app, length_le, Hlen. lia.
Qed.

(** The data chunk declares more bytes than the file holds. *)
Lemma readData_cut (canAllocate : Z -> bool) t rms so path bits rate spc
    pre body (count frames : nat) :
  bits = 8 \/ bits = 16 \/ bits = 24 ->
  (1 <= count)%nat ->
  (List.length body < frames * count * sampleBytes bits)%nat ->
  Z.of_nat (frames * count * sampleBytes bits) < 2147483648 ->
  canAllocate (Z.of_nat frames) = true ->
  let file := pre ++ le 4 (Z.of_nat (frames * count * sampleBytes bits)) ++ body in
  exists g rd,
    readData canAllocate
      (mkHandler None t rms so (mkInfo path (Z.of_nat count) bits rate spc)
                 (mkReader file (Z.of_nat (List.length file)) (Z.of_nat (List.length pre))))
    = (Thrown,
       mkHandler (Some (table count frames g)) t rms so
                 (mkInfo path (Z.of_nat count) bits rate (JFin (inject_Z (Z.of_nat frames))))
                 rd).
Proof.
  intros Hbits Hcount Hshort Hsize Halloc file.
  set (declared := Z.of_nat (frames * count * sampleBytes bits)) in *.
  assert (Hle : readBytes file (Z.of_nat (List.length pre)) 4 = Some (bytesZ (le 4 declared))).
  { subst file. rewrite <- (length_le 4 declared) at 2. apply readBytes_app. }
  unfold readData.
  erewrite bind_val by (apply reader_val; apply read_le32; exact Hle).
  rewrite signed32_small by (subst declared; lia).
  unfold bind at 1, gets at 1. fields.
  unfold bind at 1, gets at 1. fields.
  assert (Hspc : jsdiv (inject_Z (declared * 8)) (inject_Z (bits * Z.of_nat count))
                 = JFin (inject_Z (Z.of_nat frames))).
  { replace (declared * 8) with (Z.of_nat frames * (bits * Z.of_nat count)).
    - apply jsdiv_exact. destruct Hbits as [-> | [-> | ->]]; lia.
    - subst declared. rewrite (sampleBytes_bits bits Hbits) at 1. nia. }
  rewrite Hspc.
  unfold bind at 1, modify at 1. fields.
  unfold bind at 1, modify at 1. fields.
  erewrite bind_val by (apply allocate_all; [lia | exact Halloc]).
  unfold bind at 1, modify at 1. fields.
  rewrite loopCount_whole, !Nat2Z.id.
  rewrite table_zero.
  pose proof (frames_missing t rms so
                (mkInfo path (Z.of_nat count) bits rate (JFin (inject_Z (Z.of_nat frames))))
                (pre ++ le 4 declared) body [] (Z.of_nat (List.length file)) count frames
                eq_refl) as Hrun.
  cbn [_bitsPerSample] in Hrun.
  destruct Hrun as (s' & j & k & E & (g & -> & _)).
  { destruct Hbits as [-> | [-> | ->]]; cbn; lia. }
  { exact Hshort. }
  unfold readingAt in E. cbn [_bitsPerSample] in E.
  rewrite app_nil_r, <- app_assoc in E. fold file in E.
  replace (Z.of_nat (List.length (pre ++ le 4 declared) + 0 * sampleBytes bits))
    with (Z.of_nat (List.length pre) + 4) in E
    by (rewrite length_app, length_le; lia).
  erewrite bind_thrown by exact E. eexists. eexists. reflexivity.
Qed.

End ReadDataFacts.

Module LoadTheorems.

Import WavInputs WavLayoutInputs.
Import JS Num Wav WavSpec JSFacts WavFacts ReaderFacts WavLayout WavReading LayoutFacts
       SignatureFacts ScanFacts LoadFacts TableFacts DataFacts ReadDataFacts.

Lemma scan_to_data file pre others rest fuel :
  file = pre ++ flat_map chunk others ++ tag "data" ++ rest ->
  forallb skipped others = true ->
  scanForData (List.length others + S fuel)
    (mkReader file (Z.of_nat (List.length file)) (Z.of_nat (List.length pre)))
  = (Val tt, mkReader file (Z.of_nat (List.length file))
                      (Z.of_nat (List.length (pre ++ flat_map chunk others)) + 4)).
Proof.
  intros -> Hall.
  rewrite (scan_chunks others (S fuel) pre (tag "data" ++ rest) Hall).
  rewrite (app_assoc pre).
  apply (scan_data fuel (pre ++ flat_map chunk others) rest).
Qed.

Lemma scan_to_end file pre others fuel :
  file = pre ++ flat_map chunk others ->
  forallb skipped others = true ->
  scanForData (List.length others + S fuel)
    (mkReader file (Z.of_nat (List.length file)) (Z.of_nat (List.length pre)))
  = (Thrown, mkReader file (Z.of_nat (List.length file)) (Z.of_nat (List.length file))).
Proof.
  intros -> Hall.
  pose proof (scan_chunks others (S fuel) pre [] Hall) as E.
  cbv zeta in E. rewrite !app_nil_r in E. rewrite E.
  apply scan_end.
Qed.

Lemma pcmFormat_fields f :
  pcmFormat f = true ->
  formatTag f = 1 /\ 1 <= channels f < 65536 /\ 0 <= samplingRate f < 2147483648
  /\ (bitsPerSample f = 8 \/ bitsPerSample f = 16 \/ bitsPerSample f = 24)
  /\ Z.of_nat (List.length (extension f)) < 2147483632.
Proof.
  unfold pcmFormat. rewrite !andb_true_iff, !orb_true_iff.
  rewrite !Z.eqb_eq, !Z.leb_le, !Z.ltb_lt. tauto.
Qed.

Lemma readData_file (canAllocate : Z -> bool) t rms so path bits rate spc
    file channelCount off pre payload trailing (count frames : nat) :
  file = pre ++ le 4 (Z.of_nat (List.length payload)) ++ payload ++ trailing ->
  channelCount = Z.of_nat count -> off = Z.of_nat (List.length pre) ->
  bits = 8 \/ bits = 16 \/ bits = 24 ->
  (1 <= count)%nat ->
  List.length payload = (frames * count * sampleBytes bits)%nat ->
  Z.of_nat (List.length payload) < 2147483648 ->
  canAllocate (Z.of_nat frames) = true ->
  readData canAllocate
    (mkHandler None t rms so (mkInfo path channelCount bits rate spc)
               (mkReader file (Z.of_nat (List.length file)) off))
  = (Val true,
     mkHandler (Some (deinterleaved bits count frames payload)) t rms so
               (mkInfo path channelCount bits rate (JFin (inject_Z (Z.of_nat frames))))
               (mkReader file (Z.of_nat (List.length file))
                         (off + 4 + Z.of_nat (List.length payload)))).
Proof. intros -> -> ->. apply readData_run. Qed.

Lemma load_canonical
    (canAllocate : Z -> bool) (fuel : nat) (filePath : string) (riffSize : Z)
    (f : Format) (others : list Chunk) (payload trailing : list byte)
    (frames : nat) (h : LAppWavFileHandler) :
  pcmFormat f = true ->
  forallb skipped others = true ->
  List.length payload
  = (frames * Z.to_nat (channels f) * sampleBytes (bitsPerSample f))%nat ->
  Z.of_nat (List.length payload) < 2147483648 ->
  canAllocate (Z.of_nat frames) = true ->
  (List.length others < fuel)%nat ->
  let file := wavFile riffSize f others payload trailing in
  loadWavFile canAllocate fuel filePath (Some file) h
  = (Val true,
     mkHandler
       (Some (deinterleaved (bitsPerSample f) (Z.to_nat (channels f)) frames payload))
       (Wav._userTimeSeconds h) (_lastRms h) (_sampleOffset h)
       (mkInfo filePath (channels f) (bitsPerSample f) (samplingRate f)
               (JFin (inject_Z (Z.of_nat frames))))
       (mkReader file (Z.of_nat (List.length file))
                 (Z.of_nat (List.length file) - Z.of_nat (List.length trailing)))).
Proof.
  intros Hf Hall Hlen Hsize Halloc Hfuel file.
  apply pcmFormat_fields in Hf. destruct Hf as (Htag & Hch & Hrate & Hbits & Hext).
  destruct h as [pcm t rms so info rd].
  cbn [Wav._userTimeSeconds _lastRms _sampleOffset].
  set (pre := header riffSize f ++ flat_map chunk others).
  set (size := le 4 (Z.of_nat (List.length payload))).
  assert (Hfile : file = header riffSize f ++ flat_map chunk others ++ tag "data"
                         ++ size ++ payload ++ trailing).
  { subst file. unfold wavFile, chunk. cbn [chunkId chunkBody].
    rewrite <- !app_assoc. reflexivity. }
  assert (Hfile' : file = (pre ++ tag "data") ++ size ++ payload ++ trailing).
  { rewrite Hfile. subst pre. rewrite <- !app_assoc. reflexivity. }
  assert (Hlenfile : Z.of_nat (List.length file)
                     = Z.of_nat (List.length pre) + 8 + Z.of_nat (List.length payload)
                       + Z.of_nat (List.length trailing)).
  { rewrite Hfile'. subst size. rewrite !length_app, length_le, length_tag.
    cbn [String.length]. lia. }
  unfold file at 1. unfold wavFile.
  rewrite load_header by (rewrite ?Htag; try reflexivity; lia).
  change (header riffSize f ++ flat_map chunk others
          ++ chunk {| chunkId := "data"; chunkBody := payload |} ++ trailing) with file.
  rewrite signed32_small by lia. rewrite !Z.mod_small by lia.
  unfold afterFormat.
  replace fuel with (List.length others + S (fuel - S (List.length others)))%nat by lia.
  erewrite try_val
    by (apply reader_val; apply (scan_to_data file _ others _ _ Hfile Hall)).
  fold pre. rewrite try_gets, try_gets. fields.
  destruct (Z.leb_spec (Z.of_nat (List.length file)) (Z.of_nat (List.length pre) + 4)) as [Hx | _];
    [lia |].
  unfold tryCatch.
  rewrite (readData_file canAllocate t rms so filePath (bitsPerSample f) (samplingRate f)
             (_samplesPerChannel info) file (channels f) _ (pre ++ tag "data")
             payload trailing (Z.to_nat (channels f)) frames Hfile');
    [| lia | rewrite length_app, length_tag; cbn [String.length]; lia
     | exact Hbits | lia | exact Hlen | exact Hsize | exact Halloc].
  do 3 f_equal. lia.
Qed.


(** X4: a file that is a RIFF header with a PCM [fmt ] chunk (with or
    without an extension), any chunks that are not the data, and a data
    chunk of whole frames is loaded: [loadWavFile] returns true, records
    the path, the channels, the depth, the rate and the frames per channel,
    leaves the reader behind the last sample, and [_pcmData] holds, channel
    by channel, the binary32 value nearest to the quotient [getPcmSample]
    makes of sample [j * channels + ch] of the chunk.  The RIFF size, the
    byte rate and the block alignment are read and ignored, and so is what
    follows the data. *)
Theorem loadWavFile_reads_the_data_chunk
    (canAllocate : Z -> bool) (fuel : nat) (filePath : string) (riffSize : Z)
    (f : Format) (others : list Chunk) (payload trailing : list byte)
    (frames : nat) (h : LAppWavFileHandler) :
  pcmFormat f = true ->
  forallb skipped others = true ->
  List.length payload
  = (frames * Z.to_nat (channels f) * sampleBytes (bitsPerSample f))%nat ->
  Z.of_nat (List.length payload) < 2147483648 ->
  canAllocate (Z.of_nat frames) = true ->
  (List.length others < fuel)%nat ->
  let file := wavFile riffSize f others payload trailing in
  loadWavFile canAllocate fuel filePath (Some file) h
  = (Val true,
     mkHandler
       (Some (deinterleaved (bitsPerSample f) (Z.to_nat (channels f)) frames payload))
       (Wav._userTimeSeconds h) (_lastRms h) (_sampleOffset h)
       (mkInfo filePath (channels f) (bitsPerSample f) (samplingRate f)
               (JFin (inject_Z (Z.of_nat frames))))
       (mkReader file (Z.of_nat (List.length file))
                 (Z.of_nat (List.length file) - Z.of_nat (List.length trailing)))).
Proof.
  exact (load_canonical canAllocate fuel filePath riffSize f others payload trailing
           frames h).
Qed.

Lemma loadWavFile_reads_the_data_chunk_witness :
  wavFile 44 mono16 [] fourSamples [] = shortClip
  /\ loadWavFile roomy 8 "voice.wav"
       (Some (wavFile 60 stereo8 [listChunk] twoFrames [x00])) newHandler
     = (Val true,
        mkHandler (Some (deinterleaved 8 2 2 twoFrames)) 0 (Sqrt 0) 0
                  (mkInfo "voice.wav" 2 8 8000 (JFin 2))
                  (mkReader (wavFile 60 stereo8 [listChunk] twoFrames [x00]) 59 58))
  /\ deinterleaved 8 2 2 twoFrames = [[0; 127 # 128]; [-1; 0]]%Q.
Proof.
  split; [reflexivity |]. split; [| vm_compute; reflexivity].
  apply (loadWavFile_reads_the_data_chunk roomy 8 "voice.wav" 60 stereo8 [listChunk]
           twoFrames [x00] 2 newHandler); try reflexivity. cbn. lia.
Defined.

(** X5: when the data chunk declares more bytes than the file holds,
    [loadWavFile] returns false, and yet [_pcmData] is left holding the
    arrays it had made, one per channel and each as long as declared, with
    [_samplesPerChannel] as declared: the read that runs off the end is
    caught after the arrays are in place. *)
Theorem loadWavFile_cut_short
    (canAllocate : Z -> bool) (fuel : nat) (filePath : string) (riffSize : Z)
    (f : Format) (others : list Chunk) (body : list byte)
    (frames : nat) (h : LAppWavFileHandler) :
  pcmFormat f = true ->
  forallb skipped others = true ->
  let count := Z.to_nat (channels f) in
  let declared := (frames * count * sampleBytes (bitsPerSample f))%nat in
  (List.length body < declared)%nat ->
  Z.of_nat declared < 2147483648 ->
  canAllocate (Z.of_nat frames) = true ->
  (List.length others < fuel)%nat ->
  let file := header riffSize f ++ flat_map chunk others
              ++ tag "data" ++ le 4 (Z.of_nat declared) ++ body in
  let result := loadWavFile canAllocate fuel filePath (Some file) h in
  fst result = Val false
  /\ exists pcmData,
       _pcmData (snd result) = Some pcmData
       /\ List.length pcmData = count
       /\ Forall (fun arr => List.length arr = frames) pcmData
       /\ _samplesPerChannel (_wavFileInfo (snd result)) = JFin (inject_Z (Z.of_nat frames)).
Proof.
  intros Hf Hall count declared Hshort Hsize Halloc Hfuel file result.
  apply pcmFormat_fields in Hf. destruct Hf as (Htag & Hch & Hrate & Hbits & Hext).
  destruct h as [pcm t rms so info rd].
  set (pre := header riffSize f ++ flat_map chunk others).
  assert (Hfile' : file = (pre ++ tag "data") ++ le 4 (Z.of_nat declared) ++ body).
  { subst file pre. rewrite <- !app_assoc. reflexivity. }
  assert (Hlenfile : Z.of_nat (List.length file)
                     = Z.of_nat (List.length pre) + 8 + Z.of_nat (List.length body)).
  { rewrite Hfile'. rewrite !length_app, length_le, length_tag.
    cbn [String.length]. lia. }
  assert (E : exists g rd',
            result = (Val false,
                      mkHandler (Some (table count frames g)) t rms so
                        (mkInfo filePath (channels f) (bitsPerSample f) (samplingRate f)
                                (JFin (inject_Z (Z.of_nat frames)))) rd')).
  { subst result. unfold file at 1.
    rewrite load_header by (rewrite ?Htag; try reflexivity; lia).
    fold file.
    rewrite signed32_small by lia. rewrite !Z.mod_small by lia.
    unfold afterFormat.
    replace fuel with (List.length others + S (fuel - S (List.length others)))%nat by lia.
    erewrite try_val
      by (apply reader_val; apply (scan_to_data file _ others _ _ eq_refl Hall)).
    fold pre. rewrite try_gets, try_gets. fields.
    destruct (Z.leb_spec (Z.of_nat (List.length file)) (Z.of_nat (List.length pre) + 4))
      as [Hx | _]; [lia |].
    unfold tryCatch.
    pose proof (readData_cut canAllocate t rms so filePath (bitsPerSample f)
                  (samplingRate f) (_samplesPerChannel info) (pre ++ tag "data") body
                  count frames Hbits) as Hcut.
    destruct Hcut as (g & rd' & Hcut); [subst count; lia | exact Hshort | exact Hsize
                                        | exact Halloc |].
    fold declared in Hcut. rewrite <- Hfile' in Hcut.
    replace (Z.of_nat (List.length (pre ++ tag "data")))
      with (Z.of_nat (List.length pre) + 4) in Hcut
      by (rewrite length_app, length_tag; cbn [String.length]; lia).
    replace (Z.of_nat count) with (channels f) in Hcut by (subst count; lia).
    rewrite Hcut. exists g, rd'. reflexivity. }
  destruct E as (g & rd' & ->). cbn [fst snd _pcmData _wavFileInfo _samplesPerChannel].
  split; [reflexivity |].
  exists (table count frames g). split; [reflexivity |].
  split; [apply length_tabulate |]. split; [| reflexivity].
  unfold table, tabulate. apply Forall_map. apply Forall_forall. intros c _.
  rewrite length_map, length_seq. reflexivity.
Qed.

Lemma loadWavFile_cut_short_witness :
  let file := header 60 stereo8 ++ flat_map chunk [listChunk]
              ++ tag "data" ++ le 4 4 ++ [x80; x00; xff] in
  fst (loadWavFile roomy 8 "voice.wav" (Some file) newHandler) = Val false
  /\ exists pcmData,
       _pcmData (snd (loadWavFile roomy 8 "voice.wav" (Some file) newHandler))
       = Some pcmData
       /\ List.length pcmData = 2%nat.
Proof.
  destruct (loadWavFile_cut_short roomy 8 "voice.wav" 60 stereo8 [listChunk]
              [x80; x00; xff] 2 newHandler) as (A & pcmData & B & C & _);
    try reflexivity; try (cbn; lia).
  split; [exact A |]. exists pcmData. split; [exact B | exact C].
Defined.



(** X7: a file whose header parses and whose chunks, each with a size
    that is not negative, fill it to the end without a [data] chunk among
    them: the scan steps over every chunk, the read at the end of the file
    throws, and [loadWavFile] returns false with [_pcmData] null. *)
Theorem loadWavFile_without_data_chunk
    (canAllocate : Z -> bool) (fuel : nat) (filePath : string) (riffSize : Z)
    (f : Format) (others : list Chunk) (h : LAppWavFileHandler) :
  formatTag f = 1 ->
  Z.of_nat (List.length (extension f)) < 2147483632 ->
  forallb skipped others = true ->
  (List.length others < fuel)%nat ->
  let file := header riffSize f ++ flat_map chunk others in
  let result := loadWavFile canAllocate fuel filePath (Some file) h in
  fst result = Val false
  /\ _pcmData (snd result) = None
  /\ _readOffset (_byteReader (snd result)) = Z.of_nat (List.length file).
Proof.
  intros Htag Hext Hall Hfuel file result.
  destruct h as [pcm t rms so info rd].
  assert (E : exists i,
            result = (Val false,
                      mkHandler None t rms so i
                        (mkReader file (Z.of_nat (List.length file))
                                  (Z.of_nat (List.length file))))).
  { subst result. unfold file at 1.
    rewrite load_header by (rewrite ?Htag; try reflexivity; lia).
    fold file. unfold afterFormat.
    replace fuel with (List.length others + S (fuel - S (List.length others)))%nat by lia.
    erewrite try_thrown
      by (apply reader_thrown; apply (scan_to_end file _ others _ eq_refl Hall)).
    eexists. reflexivity. }
  destruct E as [i ->]. repeat split.
Qed.

Lemma loadWavFile_without_data_chunk_witness :
  fst (loadWavFile roomy 8 "voice.wav"
         (Some (header 60 stereo8 ++ flat_map chunk [listChunk; listChunk])) newHandler)
  = Val false.
Proof.
  apply (loadWavFile_without_data_chunk roomy 8 "voice.wav" 60 stereo8
           [listChunk; listChunk] newHandler); try reflexivity. cbn. lia.
Defined.

Lemma scan_spins_on o1 o2 pre rest :
  forallb skipped o1 = true ->
  let file := pre ++ flat_map chunk (o1 ++ o2) ++ rest in
  fst (scanForData (List.length o1)
         (mkReader file (Z.of_nat (List.length file)) (Z.of_nat (List.length pre))))
  = Spinning.
Proof.
  intros H1 file. subst file. rewrite flat_map_app, <- app_assoc.
  replace (List.length o1) with (List.length o1 + 0)%nat at 1 by lia.
  rewrite (scan_chunks o1 0 pre _ H1). reflexivity.
Qed.

Lemma scan_out_of_fuel others fuel pre rest :
  forallb skipped others = true -> (fuel <= List.length others)%nat ->
  let file := pre ++ flat_map chunk others ++ rest in
  fst (scanForData fuel
         (mkReader file (Z.of_nat (List.length file)) (Z.of_nat (List.length pre))))
  = Spinning.
Proof.
  intros Hall Hfuel.
  pose proof (scan_spins_on (firstn fuel others) (skipn fuel others) pre rest) as H.
  rewrite firstn_skipn, length_firstn, Nat.min_l in H by assumption.
  apply H. rewrite <- (firstn_skipn fuel others), forallb_app in Hall.
  apply andb_true_iff in Hall. tauto.
Qed.

(** X8: a header that declares no channel, with a data chunk that is not
    empty: the frames per channel are a division by zero, +Infinity, no
    array is made, and the loop over the frames has no end; [loadWavFile]
    never returns, whatever fuel the model is given. *)
Theorem loadWavFile_without_channels_never_returns
    (canAllocate : Z -> bool) (fuel : nat) (filePath : string) (riffSize : Z)
    (f : Format) (others : list Chunk) (payload trailing : list byte)
    (h : LAppWavFileHandler) :
  formatTag f = 1 -> channels f = 0 ->
  Z.of_nat (List.length (extension f)) < 2147483632 ->
  forallb skipped others = true ->
  (0 < List.length payload)%nat -> Z.of_nat (List.length payload) < 2147483648 ->
  fst (loadWavFile canAllocate fuel filePath
         (Some (wavFile riffSize f others payload trailing)) h)
  = Spinning.
Proof.
  intros Htag Hch Hext Hall Hpos Hsize.
  destruct h as [pcm t rms so info rd].
  set (file := wavFile riffSize f others payload trailing).
  set (pre := header riffSize f ++ flat_map chunk others).
  set (size := le 4 (Z.of_nat (List.length payload))).
  assert (Hfile : file = header riffSize f ++ flat_map chunk others ++ tag "data"
                         ++ size ++ payload ++ trailing).
  { subst file. unfold wavFile, chunk. cbn [chunkId chunkBody].
    rewrite <- !app_assoc. reflexivity. }
  assert (Hfile' : file = (pre ++ tag "data") ++ size ++ payload ++ trailing).
  { rewrite Hfile. subst pre. rewrite <- !app_assoc. reflexivity. }
  assert (Hlenfile : Z.of_nat (List.length file)
                     = Z.of_nat (List.length pre) + 8 + Z.of_nat (List.length payload)
                       + Z.of_nat (List.length trailing)).
  { rewrite Hfile'. subst size. rewrite !length_app, length_le, length_tag.
    cbn [String.length]. lia. }
  unfold file at 1. unfold wavFile.
  rewrite load_header by (rewrite ?Htag; try reflexivity; lia).
  change (header riffSize f ++ flat_map chunk others
          ++ chunk {| chunkId := "data"; chunkBody := payload |} ++ trailing) with file.
  rewrite Hch. change (0 mod 65536) with 0.
  unfold afterFormat.
  destruct (Nat.le_gt_cases fuel (List.length others)) as [Hshort | Hlong].
  - pose proof (scan_out_of_fuel others fuel (header riffSize f)
                  (chunk {| chunkId := "data"; chunkBody := payload |} ++ trailing)
                  Hall Hshort) as Hspin.
    cbv zeta in Hspin. fold (wavFile riffSize f others payload trailing) in Hspin.
    fold file in Hspin.
    unfold tryCatch, bind. rewrite reader_run.
    destruct (scanForData fuel _) as [o r']. cbn [fst] in Hspin. subst o. reflexivity.
  - replace fuel with (List.length others + S (fuel - S (List.length others)))%nat by lia.
    erewrite try_val
      by (apply reader_val; apply (scan_to_data file _ others _ _ Hfile Hall)).
    fold pre. rewrite try_gets, try_gets. fields.
    destruct (Z.leb_spec (Z.of_nat (List.length file)) (Z.of_nat (List.length pre) + 4)) as [Hx | _];
      [lia |].
    assert (Hle : readBytes file (Z.of_nat (List.length pre) + 4) 4 = Some (bytesZ size)).
    { rewrite Hfile'.
      replace (Z.of_nat (List.length pre) + 4)
        with (Z.of_nat (List.length (pre ++ tag "data")))
        by (rewrite length_app, length_tag; cbn [String.length]; lia).
      subst size. rewrite <- (length_le 4 (Z.of_nat (List.length payload))) at 2.
      apply readBytes_app. }
    unfold readData.
    erewrite try_val by (apply reader_val; apply read_le32; exact Hle).
    rewrite signed32_small by lia.
    rewrite try_gets, try_gets. fields.
    rewrite Z.mul_0_r, jsdiv_by_zero by lia.
    rewrite try_modify, try_modify. fields.
    cbn [Z.to_nat allocateChannels].
    erewrite try_val by reflexivity.
    rewrite try_modify. fields.
    reflexivity.
Qed.

Lemma loadWavFile_without_channels_never_returns_witness :
  fst (loadWavFile roomy 1000 "voice.wav"
         (Some (wavFile 60 noChannels [listChunk] twoFrames [])) newHandler)
  = Spinning.
Proof.
  apply (loadWavFile_without_channels_never_returns roomy 1000 "voice.wav" 60
           noChannels [listChunk] twoFrames [] newHandler); try reflexivity. cbn. lia.
Defined.

(** X9: when the fetch fails, or the body is shorter than four bytes or
    does not begin with [RIFF], [loadWavFile] returns false; [_pcmData] is
    null afterwards (a clip loaded before is released first) and the play
    state is untouched. *)
Theorem loadWavFile_turns_down
    (canAllocate : Z -> bool) (fuel : nat) (filePath : string)
    (fetched : option (list byte)) (h : LAppWavFileHandler) :
  match fetched with
  | None => True
  | Some body => firstn 4 body <> tag "RIFF"
  end ->
  let result := loadWavFile canAllocate fuel filePath fetched h in
  fst result = Val false
  /\ _pcmData (snd result) = None
  /\ Wav._userTimeSeconds (snd result) = Wav._userTimeSeconds h
  /\ _sampleOffset (snd result) = _sampleOffset h
  /\ _lastRms (snd result) = _lastRms h.
Proof.
  intros Hbody result. subst result.
  destruct h as [pcm t rms so info rd].
  assert (Hrel : forall k : St LAppWavFileHandler bool,
            (pcm0 <- gets _pcmData ;;
             (match pcm0 with Some _ => releasePcmData | None => ret tt end) ;;; k)
              (mkHandler pcm t rms so info rd)
            = k (mkHandler None t rms so info rd)).
  { intros k. unfold bind, gets, releasePcmData, modify, ret. fields.
    destruct pcm; reflexivity. }
  unfold loadWavFile, loadWavFileSettled. rewrite Hrel. clear Hrel.
  destruct fetched as [body |]; [| repeat split].
  rewrite try_modify. fields. rewrite try_gets. fields.
  destruct (Z.ltb_spec (Z.of_nat (List.length body)) 4) as [Hshort | Hlong];
    [repeat split |].
  rewrite try_modify. fields.
  destruct (readBytes_Some body 4 0) as [bs Hbs]; [lia | lia |].
  pose proof (getCheckSignature_run "RIFF" (mkReader body (Z.of_nat (List.length body)) 0)
                bs eq_refl Hbs) as Hsig.
  destruct (same4 bs (encode "RIFF")) eqn:Hsame.
  - exfalso. apply Hbody.
    apply same4_eq in Hsame; [| apply readBytes_bounds in Hbs; tauto].
    assert (Hw : readBytes body 0 4 = Some (bytesZ (firstn 4 body))).
    { apply readBytes_window; [lia | reflexivity |].
      rewrite length_firstn. lia. }
    rewrite Hbs in Hw. injection Hw as Hw. rewrite Hsame in Hw.
    apply bytesZ_inj. symmetry. exact Hw.
  - erewrite try_val by (apply reader_val; exact Hsig).
    cbn [negb]. repeat split.
Qed.

Lemma loadWavFile_turns_down_witness :
  fst (loadWavFile roomy 8 "voice.wav" None clipLoaded) = Val false
  /\ _pcmData (snd (loadWavFile roomy 8 "voice.wav" (Some (tag "RIFX" ++ [x00]))
                      clipLoaded)) = None.
Proof.
  split.
  - apply (loadWavFile_turns_down roomy 8 "voice.wav" None clipLoaded). exact I.
  - apply (loadWavFile_turns_down roomy 8 "voice.wav" (Some (tag "RIFX" ++ [x00]))
             clipLoaded). discriminate.
Defined.

End LoadTheorems.

Module UpdateFacts.

Import Num Wav WavWindow RoundFacts DataFacts.

Local Open Scope Q_scope.

Lemma element_at arr (k j : nat) :
  element arr (inject_Z (Z.of_nat k) + inject_Z (Z.of_nat j)) = nth_error arr (k + j).
Proof.
  unfold element, isInteger.
  assert (E : Qfloor (inject_Z (Z.of_nat k) + inject_Z (Z.of_nat j)) = Z.of_nat (k + j)).
  { rewrite <- inject_Z_plus, Qfloor_Z. lia. }
  rewrite E.
  assert (E2 : Qeq_bool (inject_Z (Z.of_nat (k + j)))
                 (inject_Z (Z.of_nat k) + inject_Z (Z.of_nat j)) = true).
  { apply Qeq_bool_iff. rewrite <- inject_Z_plus. rewrite Nat2Z.inj_add. reflexivity. }
  rewrite E2. destruct (Z.leb_spec 0 (Z.of_nat (k + j))); [| lia].
  cbn [andb]. rewrite Nat2Z.id. reflexivity.
Qed.

Lemma window_step arr from len x :
  nth_error arr from = Some x ->
  window arr from (S len) = x :: window arr (S from) len.
Proof.
  intros H. unfold window.
  assert (E : skipn from arr = x :: skipn (S from) arr).
  { revert arr H. induction from as [| n IH]; intros [| y arr] H; try discriminate.
    - injection H as ->. reflexivity.
    - cbn [nth_error] in H. cbn [skipn]. rewrite (IH arr H). reflexivity. }
  rewrite E. reflexivity.
Qed.

(** The inner loop of [update] on one channel adds the squares of the
    window, in its order. *)
Lemma channelSquares_window arr (k : nat) : forall n j acc,
  (k + j + n <= List.length arr)%nat ->
  fold_left (fun a i => addSquare a (element arr (inject_Z (Z.of_nat k) + inject_Z (Z.of_nat i))))
            (seq j n) acc
  = squares (window arr (k + j) n) acc.
Proof.
  induction n as [| n IH]; intros j acc Hlen; [reflexivity |].
  cbn [seq fold_left]. rewrite element_at.
  destruct (nth_error arr (k + j)) as [x |] eqn:Ex.
  2:{ apply nth_error_None in Ex. lia. }
  rewrite (window_step arr (k + j) n x Ex). unfold squares. cbn [fold_left].
  rewrite IH by lia. replace (k + S j)%nat with (S (k + j)) by lia. reflexivity.
Qed.

(** The two loops of [update] over the channels still to do. *)
Lemma sumSquares_total (k n frames : nat) : forall todo done acc,
  (k + n <= frames)%nat ->
  Forall (fun arr => List.length arr = frames) todo ->
  sumSquares (List.length todo) (List.length done) (done ++ todo) n
             (inject_Z (Z.of_nat k)) acc
  = Some (total todo k n acc).
Proof.
  induction todo as [| arr todo IH]; intros done acc Hk Hall; [reflexivity |].
  inversion Hall as [| ? ? Harr Hrest]; subst.
  cbn [List.length sumSquares]. unfold total. cbn [fold_left]. fold (total todo k n).
  assert (Hnext : forall b,
            sumSquares (List.length todo) (S (List.length done))
                       (done ++ arr :: todo) n (inject_Z (Z.of_nat k)) b
            = Some (total todo k n b)).
  { intros b. pose proof (IH (done ++ [arr]) b Hk Hrest) as E.
    rewrite length_app, <- app_assoc in E. cbn [List.length app] in E.
    replace (List.length done + 1)%nat with (S (List.length done)) in E by lia.
    exact E. }
  destruct n as [| n].
  - rewrite Hnext. reflexivity.
  - rewrite nth_error_app2 by lia. rewrite Nat.sub_diag. cbn [nth_error].
    unfold channelSquares.
    rewrite (channelSquares_window arr k (S n) 0 acc) by lia.
    rewrite Hnext, Nat.add_0_r. reflexivity.
Qed.

(** *** Sums that are not negative *)

Lemma fl64_nonneg q : 0 <= q -> 0 <= fl64 q.
Proof. apply roundTo_nonneg. Qed.

Lemma fl64_le x y : 0 <= x -> x <= y -> fl64 x <= fl64 y.
Proof. apply roundTo_le. lia. Qed.

Lemma fl64_comp x y : x == y -> fl64 x = fl64 y.
Proof. apply roundTo_comp. Qed.

Lemma fl64_idempotent q : 0 <= q -> fl64 (fl64 q) == fl64 q.
Proof. apply roundTo_idempotent. lia. Qed.

Lemma fl64_zero q : q == 0 -> fl64 q = 0.
Proof. apply roundTo_zero. Qed.

Lemma fl64_one : fl64 1 = 1.
Proof. vm_compute. reflexivity. Qed.

Lemma toDouble_notNegative q : 0 <= q -> notNegative (toDouble q).
Proof.
  intros H. unfold toDouble. pose proof (fl64_nonneg q H) as Hr.
  destruct (Qle_bool _ _); cbn [notNegative]; [| exact Hr].
  unfold Qlt_bool. apply negb_false_iff. apply Qle_bool_iff. exact Hr.
Qed.

Lemma addSquare_notNegative acc x :
  notNegative acc -> notNegative (addSquare acc (Some x)).
Proof.
  intros H. destruct acc as [| s | a]; cbn [notNegative addSquare] in *; [contradiction | exact H |].
  assert (Hx : 0 <= x * x).
  { destruct (Qlt_le_dec x 0) as [Hneg | Hpos]; [| apply Qmult_le_0_compat; assumption].
    setoid_replace (x * x) with ((- x) * (- x)) by ring.
    apply Qmult_le_0_compat; lra. }
  pose proof (toDouble_notNegative (x * x) Hx) as Hs.
  destruct (toDouble (x * x)) as [| s | sq]; cbn [notNegative] in Hs; [contradiction | exact Hs |].
  apply toDouble_notNegative. lra.
Qed.

Lemma squares_notNegative l : forall acc, notNegative acc -> notNegative (squares l acc).
Proof.
  induction l as [| x l IH]; intros acc H; [exact H |].
  unfold squares. cbn [fold_left]. apply IH. apply addSquare_notNegative. exact H.
Qed.

Lemma total_notNegative pcmData from len : forall acc,
  notNegative acc -> notNegative (total pcmData from len acc).
Proof.
  induction pcmData as [| arr l IH]; intros acc H; [exact H |].
  unfold total. cbn [fold_left]. apply IH. apply squares_notNegative. exact H.
Qed.

Lemma total_empty pcmData from : forall acc, total pcmData from 0 acc = acc.
Proof.
  induction pcmData as [| arr l IH]; intros acc; [reflexivity |].
  unfold total. cbn [fold_left]. unfold window at 1. cbn [firstn squares fold_left].
  apply IH.
Qed.

(** A whole number of 1 or more stays 1 or more when rounded. *)
Lemma fl64_ge_one q : 1 <= q -> 1 <= fl64 q.
Proof.
  intros H. rewrite <- fl64_one at 1. apply fl64_le; [lra | exact H].
Qed.

(** *** Sums of the squares of samples between -1 and 1 *)

Lemma fl64_whole z : (0 <= z <= 2 ^ 53)%Z -> fl64 (inject_Z z) == inject_Z z.
Proof.
  intros H. apply roundTo_fixed; [lia |].
  destruct (Z.eq_dec z (2 ^ 53)) as [-> | Hne].
  - exists (2 ^ 52)%Z, 1%Z. split; [reflexivity | split; lia].
  - exists z, 0%Z. split; [change (pow2 0) with 1; ring | split; lia].
Qed.

Lemma toDouble_small q k :
  0 <= q -> q <= inject_Z k -> (k <= 2 ^ 53)%Z ->
  exists r, toDouble q = JFin r /\ 0 <= r /\ r <= inject_Z k.
Proof.
  intros H0 Hk Hb.
  assert (Hk0 : (0 <= k)%Z).
  { rewrite Zle_Qle. change (inject_Z 0) with 0. lra. }
  pose proof (fl64_nonneg q H0) as Hr.
  assert (Hrk : fl64 q <= inject_Z k).
  { rewrite <- (fl64_whole k) by lia. apply fl64_le; assumption. }
  exists (fl64 q). split; [| split; assumption].
  unfold toDouble.
  assert (E : Qle_bool (pow2 1024) (Qabs (fl64 q)) = false).
  { destruct (Qle_bool _ _) eqn:E; [| reflexivity]. exfalso.
    apply Qle_bool_iff in E. rewrite (Qabs_pos _ Hr) in E.
    assert (Hp : inject_Z k <= pow2 53).
    { rewrite (pow2_Z 53) by lia. rewrite <- Zle_Qle. exact Hb. }
    pose proof (pow2_lt 53 1024 ltac:(lia)). lra. }
  rewrite E. reflexivity.
Qed.

Lemma addSquare_bounded a x k :
  0 <= a -> a <= inject_Z k -> -1 <= x -> x <= 1 -> (k + 1 <= 2 ^ 53)%Z ->
  exists a', addSquare (JFin a) (Some x) = JFin a' /\ 0 <= a' /\ a' <= inject_Z (k + 1).
Proof.
  intros Ha0 Hak Hx1 Hx2 Hb.
  assert (Hk0 : (0 <= k)%Z).
  { rewrite Zle_Qle. change (inject_Z 0) with 0. lra. }
  assert (Hsq0 : 0 <= x * x) by nra.
  assert (Hsq1 : x * x <= inject_Z 1) by (change (inject_Z 1) with 1; nra).
  destruct (toDouble_small (x * x) 1 Hsq0 Hsq1 ltac:(lia)) as (s & Es & Hs0 & Hs1).
  cbn [addSquare]. rewrite Es.
  apply toDouble_small; [lra | | exact Hb].
  rewrite inject_Z_plus. lra.
Qed.

Lemma squares_bounded l :
  Forall (fun x => -1 <= x /\ x <= 1) l ->
  forall a k,
    0 <= a -> a <= inject_Z k -> (k + Z.of_nat (List.length l) <= 2 ^ 53)%Z ->
    exists a', squares l (JFin a) = JFin a' /\ 0 <= a'
               /\ a' <= inject_Z (k + Z.of_nat (List.length l)).
Proof.
  induction 1 as [| x l [Hx1 Hx2] _ IH]; intros a k Ha0 Hak Hb.
  - exists a. cbn [List.length]. rewrite Z.add_0_r. repeat split; assumption.
  - cbn [List.length] in Hb. unfold squares. cbn [fold_left].
    destruct (addSquare_bounded a x k Ha0 Hak Hx1 Hx2 ltac:(lia)) as (a1 & E1 & H0 & H1).
    rewrite E1. destruct (IH a1 (k + 1)%Z H0 H1 ltac:(lia)) as (a' & E' & H0' & H1').
    exists a'. split; [exact E' |]. split; [exact H0' |].
    cbn [List.length]. replace (k + Z.of_nat (S (List.length l)))%Z
      with (k + 1 + Z.of_nat (List.length l))%Z by lia. exact H1'.
Qed.

Lemma Forall_kept (P : Q -> Prop) : forall n l,
  Forall P l -> Forall P (firstn n l) /\ Forall P (skipn n l).
Proof.
  induction n as [| n IH]; intros l H; [split; [constructor | exact H] |].
  destruct H as [| x l Hx Hl]; [split; constructor |].
  destruct (IH l Hl) as [H1 H2]. split; [constructor; assumption | exact H2].
Qed.

Lemma Forall_window (P : Q -> Prop) arr from len :
  Forall P arr -> Forall P (window arr from len).
Proof.
  intros H. unfold window.
  apply (Forall_kept P len). apply (Forall_kept P from). exact H.
Qed.

Lemma length_window (arr : list Q) from len : (List.length (window arr from len) <= len)%nat.
Proof. unfold window. apply firstn_le_length. Qed.

Lemma total_bounded pcmData from len :
  normalized pcmData ->
  forall a k,
    0 <= a -> a <= inject_Z k ->
    (k + Z.of_nat (List.length pcmData * len) <= 2 ^ 53)%Z ->
    exists a', total pcmData from len (JFin a) = JFin a' /\ 0 <= a'
               /\ a' <= inject_Z (k + Z.of_nat (List.length pcmData * len)).
Proof.
  induction 1 as [| arr l Harr _ IH]; intros a k Ha0 Hak Hb.
  - exists a. cbn [List.length Nat.mul]. rewrite Z.add_0_r. repeat split; assumption.
  - cbn [List.length] in Hb. unfold total. cbn [fold_left]. fold (total l from len).
    pose proof (length_window arr from len) as Hw.
    destruct (squares_bounded _ (Forall_window _ arr from len Harr) a k Ha0 Hak ltac:(lia))
      as (a1 & E1 & H0 & H1).
    rewrite E1.
    assert (H1' : a1 <= inject_Z (k + Z.of_nat len)).
    { apply Qle_trans with (1 := H1). rewrite <- Zle_Qle. lia. }
    destruct (IH a1 (k + Z.of_nat len)%Z H0 H1' ltac:(lia)) as (a' & E' & G0 & G1).
    exists a'. split; [exact E' |]. split; [exact G0 |].
    cbn [List.length]. replace (k + Z.of_nat (S (List.length l) * len))%Z
      with (k + Z.of_nat len + Z.of_nat (List.length l * len))%Z by lia. exact G1.
Qed.

End UpdateFacts.

Module UpdateTheorems.

Import WavInputs WavLayoutInputs.
Import Num Wav WavWindow RoundFacts DataFacts UpdateFacts.

Local Open Scope Q_scope.

Lemma Qle_bool_inject a b : Qle_bool (inject_Z a) (inject_Z b) = (a <=? b)%Z.
Proof.
  destruct (Z.leb_spec a b) as [H | H].
  - apply Qle_bool_iff. rewrite <- Zle_Qle. exact H.
  - destruct (Qle_bool (inject_Z a) (inject_Z b)) eqn:E; [| reflexivity].
    apply Qle_bool_iff in E. rewrite <- Zle_Qle in E. lia.
Qed.

Lemma Qlt_bool_inject a b : Qlt_bool (inject_Z a) (inject_Z b) = (a <? b)%Z.
Proof.
  unfold Qlt_bool. rewrite Qle_bool_inject.
  destruct (Z.leb_spec b a); destruct (Z.ltb_spec a b); try lia; reflexivity.
Qed.

Lemma windowLength_whole (a b : Z) :
  windowLength (inject_Z a) (inject_Z b) = Z.to_nat (b - a).
Proof.
  unfold windowLength. f_equal.
  rewrite <- (Qceiling_Z (b - a)). apply Qceiling_comp.
  unfold Zminus. rewrite inject_Z_plus, inject_Z_opp. reflexivity.
Qed.

(** The divisor of the mean, for a window of whole length. *)
Lemma divisor_whole (count : nat) (position goal : Z) :
  (position <= goal)%Z ->
  fl64 (inject_Z (Z.of_nat count) * fl64 (inject_Z goal - inject_Z position))
  = fl64 (inject_Z (Z.of_nat count)
          * fl64 (inject_Z (Z.of_nat (Z.to_nat (goal - position))))).
Proof.
  intros H.
  assert (E : fl64 (inject_Z goal - inject_Z position)
              = fl64 (inject_Z (Z.of_nat (Z.to_nat (goal - position))))).
  { apply fl64_comp. rewrite Z2Nat.id by lia.
    unfold Zminus. rewrite inject_Z_plus, inject_Z_opp. reflexivity. }
  rewrite E. reflexivity.
Qed.

Lemma divisor_positive (count n : nat) :
  (1 <= count)%nat -> (1 <= n)%nat ->
  1 <= fl64 (inject_Z (Z.of_nat count) * fl64 (inject_Z (Z.of_nat n))).
Proof.
  intros Hc Hn.
  assert (H1 : 1 <= inject_Z (Z.of_nat n)).
  { change 1 with (inject_Z 1). rewrite <- Zle_Qle. lia. }
  assert (H2 : 1 <= inject_Z (Z.of_nat count)).
  { change 1 with (inject_Z 1). rewrite <- Zle_Qle. lia. }
  pose proof (fl64_ge_one _ H1) as H3.
  apply fl64_ge_one. nra.
Qed.

Lemma divisor_empty (count : nat) :
  fl64 (inject_Z (Z.of_nat count) * fl64 (inject_Z (Z.of_nat 0))) = 0.
Proof. apply fl64_zero. change (fl64 (inject_Z (Z.of_nat 0))) with 0. ring. Qed.

(** The root of a mean over a window that is not empty. *)
Lemma meanSquare_root pcmData from len :
  (1 <= List.length pcmData)%nat -> (1 <= len)%nat ->
  mathSqrt (meanSquare pcmData from len) = RootInf
  \/ exists q, mathSqrt (meanSquare pcmData from len) = Sqrt q /\ 0 <= q.
Proof.
  intros Hc Hn. unfold meanSquare.
  pose proof (divisor_positive _ _ Hc Hn) as Hd.
  set (d := fl64 _) in *.
  pose proof (total_notNegative pcmData from len (JFin 0) (Qle_refl 0)) as Ht.
  assert (Ed : Qeq_bool d 0 = false).
  { destruct (Qeq_bool d 0) eqn:E; [| reflexivity]. apply Qeq_bool_iff in E. lra. }
  assert (Eneg : Qlt_bool d 0 = false).
  { unfold Qlt_bool. apply negb_false_iff. apply Qle_bool_iff. lra. }
  destruct (total pcmData from len (JFin 0)) as [| s | a]; cbn [notNegative] in Ht;
    [contradiction | |].
  - subst s. cbn [jsdivn]. rewrite Ed, Eneg. left. reflexivity.
  - cbn [jsdivn]. unfold jsdiv. rewrite Ed. cbn [round64].
    assert (Hq : 0 <= Qred (a / d)).
    { rewrite Qred_correct. apply Qle_shift_div_l; [lra |]. lra. }
    pose proof (toDouble_notNegative _ Hq) as Hr.
    destruct (toDouble (Qred (a / d))) as [| s | q]; cbn [notNegative] in Hr;
      [contradiction | subst s; left; reflexivity |].
    right. exists q. split; [| exact Hr]. cbn [mathSqrt].
    unfold Qlt_bool. assert (E : Qle_bool 0 q = true) by (apply Qle_bool_iff; exact Hr).
    rewrite E. reflexivity.
Qed.

Lemma meanSquare_empty pcmData from :
  mathSqrt (meanSquare pcmData from 0) = RootNaN.
Proof.
  unfold meanSquare. rewrite total_empty, divisor_empty. reflexivity.
Qed.

Lemma update_window
    (deltaTimeSeconds : Q) (count frames : nat) (position : Z)
    (h : LAppWavFileHandler) :
  playing count frames position h ->
  (1 <= count)%nat ->
  (position < Z.of_nat frames)%Z ->
  let goal := goalOf deltaTimeSeconds frames h in
  (position <= goal)%Z ->
  exists h',
    update deltaTimeSeconds h = (Val true, h')
    /\ playing count frames goal h'
    /\ Wav._userTimeSeconds h' = clockAfter deltaTimeSeconds h
    /\ _pcmData h' = _pcmData h
    /\ _wavFileInfo h' = _wavFileInfo h
    /\ (exists pcmData,
          _pcmData h = Some pcmData
          /\ getRms h'
             = mathSqrt (meanSquare pcmData (Z.to_nat position)
                                    (Z.to_nat (goal - position))))
    /\ (if (position <? goal)%Z
        then getRms h' = RootInf \/ exists q, getRms h' = Sqrt q /\ 0 <= q
        else getRms h' = RootNaN).
Proof.
  intros (pcm & Hpcm & Hcount & Hall & Hch & Hspc & Hoff & Hpos) Hone Hlt goal Hgoal.
  destruct h as [p t rms so info rd].
  cbn [_pcmData _wavFileInfo _sampleOffset Wav._userTimeSeconds] in *.
  subst p so. unfold update.
  cbn [_pcmData _wavFileInfo _sampleOffset Wav._userTimeSeconds].
  rewrite Hspc. cbn [geNum]. rewrite Qle_bool_inject.
  destruct (Z.leb_spec (Z.of_nat frames) position) as [? | _]; [lia |].
  unfold setUserTimeSeconds.
  cbn [_pcmData _wavFileInfo _sampleOffset Wav._userTimeSeconds _lastRms _byteReader].
  rewrite Qlt_bool_inject.
  set (F := Qfloor (fl64 (fl64 (t + fl64 deltaTimeSeconds) * inject_Z (_samplingRate info)))).
  assert (Egoal : (if (Z.of_nat frames <? F)%Z then inject_Z (Z.of_nat frames) else inject_Z F)
                  = inject_Z goal).
  { unfold goal, goalOf, reached, clockAfter. cbn [Wav._userTimeSeconds _wavFileInfo]. fold F.
    destruct (Z.ltb_spec (Z.of_nat frames) F); f_equal; lia. }
  rewrite Egoal. unfold measure.
  cbn [_pcmData _wavFileInfo _sampleOffset Wav._userTimeSeconds _lastRms _byteReader].
  rewrite Hch, Nat2Z.id, windowLength_whole.
  assert (Hgoal' : (goal <= Z.of_nat frames)%Z) by (unfold goal, goalOf, reached; lia).
  pose proof (sumSquares_total (Z.to_nat position) (Z.to_nat (goal - position)) frames
                pcm [] (JFin 0) ltac:(lia) Hall) as Esum.
  cbn [List.length app] in Esum. rewrite Hcount, Z2Nat.id in Esum by assumption.
  rewrite Esum. rewrite (divisor_whole count position goal Hgoal).
  assert (Erms : mathSqrt
                   (round64
                      (jsdivn (total pcm (Z.to_nat position) (Z.to_nat (goal - position)) (JFin 0))
                         (fl64 (inject_Z (Z.of_nat count)
                                * fl64 (inject_Z (Z.of_nat (Z.to_nat (goal - position))))))))
                 = mathSqrt (meanSquare pcm (Z.to_nat position) (Z.to_nat (goal - position)))).
  { unfold meanSquare. rewrite Hcount. reflexivity. }
  rewrite Erms.
  eexists. split; [reflexivity |].
  unfold setSampleOffset, setLastRms, getRms.
  cbn [_pcmData _wavFileInfo _sampleOffset Wav._userTimeSeconds _lastRms _byteReader].
  split; [| split; [reflexivity | split; [reflexivity | split; [reflexivity | split]]]].
  - exists pcm. repeat split; try assumption. lia.
  - exists pcm. split; reflexivity.
  - destruct (Z.ltb_spec position goal) as [Hmove | Hstay].
    + apply meanSquare_root; lia.
    + replace (goal - position)%Z with 0%Z by lia. apply meanSquare_empty.
Qed.

(** With samples between -1 and 1 the mean is at most 1. *)
Lemma meanSquare_bounded pcmData from len :
  normalized pcmData -> (1 <= List.length pcmData)%nat -> (1 <= len)%nat ->
  (Z.of_nat (List.length pcmData * len) <= 2 ^ 53)%Z ->
  exists q, mathSqrt (meanSquare pcmData from len) = Sqrt q /\ 0 <= q /\ q <= 1.
Proof.
  intros Hn Hc Hl Hb. unfold meanSquare.
  destruct (total_bounded pcmData from len Hn 0 0%Z (Qle_refl 0) (Qle_refl 0) ltac:(lia))
    as (a & Ea & Ha0 & Ha1).
  rewrite Ea. cbn [Z.add] in Ha1.
  set (c := List.length pcmData) in *.
  assert (Ed : fl64 (inject_Z (Z.of_nat c) * fl64 (inject_Z (Z.of_nat len)))
               == inject_Z (Z.of_nat (c * len))).
  { rewrite (fl64_comp _ (inject_Z (Z.of_nat (c * len)))); [apply fl64_whole; lia |].
    rewrite (fl64_whole (Z.of_nat len)) by nia.
    rewrite <- inject_Z_mult, Nat2Z.inj_mul. reflexivity. }
  set (d := fl64 _) in *.
  assert (Hd : 1 <= d).
  { rewrite Ed. change 1 with (inject_Z 1). rewrite <- Zle_Qle. nia. }
  assert (Ed0 : Qeq_bool d 0 = false).
  { destruct (Qeq_bool d 0) eqn:E; [| reflexivity]. apply Qeq_bool_iff in E. lra. }
  cbn [jsdivn]. unfold jsdiv. rewrite Ed0. cbn [round64].
  assert (Hq0 : 0 <= Qred (a / d)).
  { rewrite Qred_correct. apply Qle_shift_div_l; lra. }
  assert (Hq1 : Qred (a / d) <= inject_Z 1).
  { rewrite Qred_correct. change (inject_Z 1) with 1.
    apply Qle_shift_div_r; [lra |]. rewrite Ed. lra. }
  destruct (toDouble_small _ 1 Hq0 Hq1 ltac:(lia)) as (r & Er & Hr0 & Hr1).
  rewrite Er. exists r. split; [| split; [exact Hr0 | exact Hr1]].
  cbn [mathSqrt]. unfold Qlt_bool.
  assert (E : Qle_bool 0 r = true) by (apply Qle_bool_iff; exact Hr0).
  rewrite E. reflexivity.
Qed.

(** The clock and the position are binary64 results: a tick of the double
    nearest to 0.001125 at 8000 Hz reaches sample 9, though that double is
    below 9/8000; six ticks of a sixtieth of a second reach sample 799, not
    800. *)
Example clock_is_binary64 :
  reached 1000 (fl64 (0 + fl64 (1125 # 1000000))) 8000 = 9%Z
  /\ fl64 (1125 # 1000000) < 9 # 8000
  /\ reached 1000
       (fold_left (fun clock tick => fl64 (clock + fl64 tick))
                  [1 # 60; 1 # 60; 1 # 60; 1 # 60; 1 # 60; 1 # 60] 0)
       8000 = 799%Z.
Proof. split; [| split]; vm_compute; reflexivity. Qed.

(** X10: on a clip that has not ended, [update] adds the tick to the clock
    and moves the play position to the sample the clock has reached (at most
    the end), both in binary64, and returns true.  The envelope is the
    square root of the mean of the squares of the new samples, the squares
    added in binary64 sample after sample and channel after channel, then
    divided by the number of channels times the number of new samples.  When
    at least one sample is new it is never NaN and never negative, and with
    samples between -1 and 1 it is the root of a number between 0 and 1;
    when none is new it is NaN. *)
Theorem update_measures_the_window
    (deltaTimeSeconds : Q) (count frames : nat) (position : Z)
    (h : LAppWavFileHandler) :
  playing count frames position h ->
  (1 <= count)%nat ->
  (position < Z.of_nat frames)%Z ->
  steady [deltaTimeSeconds] h = true ->
  let goal := goalOf deltaTimeSeconds frames h in
  (position <= goal)%Z ->
  exists h' pcmData,
    update deltaTimeSeconds h = (Val true, h')
    /\ playing count frames goal h'
    /\ Wav._userTimeSeconds h' = clockAfter deltaTimeSeconds h
    /\ _pcmData h = Some pcmData
    /\ _pcmData h' = Some pcmData
    /\ getRms h'
       = mathSqrt (meanSquare pcmData (Z.to_nat position) (Z.to_nat (goal - position)))
    /\ (if (position <? goal)%Z
        then (getRms h' = RootInf \/ exists q, getRms h' = Sqrt q /\ 0 <= q)
             /\ (normalized pcmData ->
                 (Z.of_nat (count * frames) <= 2 ^ 53)%Z ->
                 exists q, getRms h' = Sqrt q /\ 0 <= q /\ q <= 1)
        else getRms h' = RootNaN).
Proof.
  intros Hplay Hone Hlt _ goal Hgoal.
  destruct (update_window deltaTimeSeconds count frames position h Hplay Hone Hlt Hgoal)
    as (h' & E & Hplay' & Hclock & Hdata & _ & (pcmData & Hpcm & Hrms) & Hroot).
  fold goal in Hplay', Hrms, Hroot.
  exists h', pcmData. split; [exact E |]. split; [exact Hplay' |]. split; [exact Hclock |].
  split; [exact Hpcm |]. split; [rewrite Hdata; exact Hpcm |]. split; [exact Hrms |].
  destruct (Z.ltb_spec position goal) as [Hmove | Hstay]; [| exact Hroot].
  split; [exact Hroot |]. intros Hnorm Hsize. rewrite Hrms.
  destruct Hplay as (pcm & Hpcm' & Hcount & _ & _ & _ & _ & Hpos). rewrite Hpcm in Hpcm'.
  injection Hpcm' as <-.
  assert (Hg : (goal <= Z.of_nat frames)%Z) by (unfold goal, goalOf, reached; lia).
  apply meanSquare_bounded; [exact Hnorm | lia | lia |].
  rewrite Hcount. apply Z.le_trans with (2 := Hsize).
  apply inj_le. apply Nat.mul_le_mono_l. lia.
Qed.

Lemma update_measures_the_window_witness :
  playing 1 4 0 clipLoaded
  /\ steady [1 # 4000] clipLoaded = true
  /\ goalOf (1 # 4000) 4 clipLoaded = 2%Z
  /\ exists h',
       update (1 # 4000) clipLoaded = (Val true, h')
       /\ playing 1 4 2 h'
       /\ getRms h' = Sqrt (1 # 4).
Proof.
  assert (P : playing 1 4 0 clipLoaded).
  { exists [[1 # 2; 1 # 2; -1 # 2; -1 # 2]].
    repeat split; try (vm_compute; reflexivity).
    - repeat constructor.
    - discriminate. }
  assert (S : steady [1 # 4000] clipLoaded = true) by (vm_compute; reflexivity).
  assert (G : goalOf (1 # 4000) 4 clipLoaded = 2%Z) by (vm_compute; reflexivity).
  split; [exact P |]. split; [exact S |]. split; [exact G |].
  destruct (update_measures_the_window (1 # 4000) 1 4 0 clipLoaded P)
    as (h' & pcmData & E & P' & _ & Hpcm & _ & R & _);
    [lia | reflexivity | exact S | rewrite G; discriminate |].
  rewrite G in P', R.
  exists h'. split; [exact E |]. split; [exact P' |].
  assert (Epcm : _pcmData clipLoaded = Some [[1 # 2; 1 # 2; -1 # 2; -1 # 2]])
    by (vm_compute; reflexivity).
  rewrite Epcm in Hpcm. injection Hpcm as <-. rewrite R. vm_compute. reflexivity.
Defined.

End UpdateTheorems.

Module LifeFacts.

Import WavInputs WavLayoutInputs.
Import Num Wav WavSpec WavLayout WavWindow RoundFacts TableFacts DataFacts
       UpdateFacts UpdateTheorems LoadTheorems.

Local Open Scope Q_scope.

Lemma update_rest count frames position dt h :
  playing count frames position h -> (Z.of_nat frames <= position)%Z ->
  update dt h = (Val false, setLastRms (Sqrt 0) h).
Proof.
  intros (pcm & Hpcm & Hcount & Hall & Hch & Hspc & Hoff & Hpos) Hend.
  unfold update. rewrite Hpcm, Hspc, Hoff. cbn [geNum].
  rewrite Qle_bool_inject.
  destruct (Z.leb_spec (Z.of_nat frames) position); [reflexivity | lia].
Qed.

Lemma playing_setLastRms count frames position v h :
  playing count frames position h -> playing count frames position (setLastRms v h).
Proof. intros (pcm & H). exists pcm. exact H. Qed.

Lemma reached_le frames clock rate : (reached frames clock rate <= Z.of_nat frames)%Z.
Proof. unfold reached. lia. Qed.

(** A later clock has reached a later sample, or the same. *)
Lemma reached_monotone frames clock clock' rate :
  0 <= clock -> clock <= clock' -> (0 <= rate)%Z ->
  (reached frames clock rate <= reached frames clock' rate)%Z.
Proof.
  intros H0 Hle Hrate. unfold reached.
  apply Z.min_le_compat_l. apply Qfloor_resp_le.
  assert (Hr : 0 <= inject_Z rate).
  { change 0 with (inject_Z 0). rewrite <- Zle_Qle. exact Hrate. }
  apply fl64_le; [apply Qmult_le_0_compat; assumption |].
  apply Qmult_le_compat_r; assumption.
Qed.

(** A tick that is not negative does not set the clock back. *)
Lemma clockAfter_monotone dt h :
  0 <= dt -> 0 <= Wav._userTimeSeconds h ->
  fl64 (Wav._userTimeSeconds h) == Wav._userTimeSeconds h ->
  Wav._userTimeSeconds h <= clockAfter dt h
  /\ 0 <= clockAfter dt h
  /\ fl64 (clockAfter dt h) == clockAfter dt h.
Proof.
  intros Hdt Hc Hfix. unfold clockAfter.
  pose proof (fl64_nonneg dt Hdt) as Hd.
  assert (Hsum : 0 <= Wav._userTimeSeconds h + fl64 dt) by lra.
  split; [| split].
  - rewrite <- Hfix at 1. apply fl64_le; [exact Hc | lra].
  - apply fl64_nonneg. exact Hsum.
  - apply fl64_idempotent. exact Hsum.
Qed.

(** One tick keeps the clip in step. *)
Lemma inStep_update count frames position dt h :
  (1 <= count)%nat -> 0 <= dt -> inStep count frames position h ->
  exists played position',
    fst (update dt h) = Val played
    /\ inStep count frames position' (snd (update dt h))
    /\ (position <= position' <= Z.of_nat frames)%Z.
Proof.
  intros Hone Hdt (Hplay & Hrate & Hc0 & Hfix & Hpos).
  destruct (clockAfter_monotone dt h Hdt Hc0 Hfix) as (Hle & Hc0' & Hfix').
  destruct (Z.lt_ge_cases position (Z.of_nat frames)) as [Hlt | Hge].
  - assert (Hmono : (position <= goalOf dt frames h)%Z).
    { rewrite Hpos at 1. unfold goalOf. apply reached_monotone; assumption. }
    destruct (update_window dt count frames position h Hplay Hone Hlt Hmono)
      as (h' & E & Hplay' & Htime & Hdata & Hinfo & _).
    rewrite E. cbn [fst snd].
    exists true, (goalOf dt frames h). split; [reflexivity |]. split.
    + split; [exact Hplay' |]. rewrite Hinfo, Htime.
      split; [exact Hrate |]. split; [exact Hc0' |]. split; [exact Hfix' | reflexivity].
    + pose proof (reached_le frames (clockAfter dt h) (_samplingRate (_wavFileInfo h))).
      unfold goalOf in *. lia.
  - rewrite (update_rest count frames position dt h Hplay Hge). cbn [fst snd].
    exists false, position. split; [reflexivity |]. split.
    + split; [apply playing_setLastRms; exact Hplay |].
      destruct h; repeat split; assumption.
    + pose proof (reached_le frames (Wav._userTimeSeconds h) (_samplingRate (_wavFileInfo h))).
      lia.
Qed.

(** X11: on a clip whose play position is where its clock says, every
    [update] of a run of ticks that are not negative returns (none
    throws): the clock stays a double that is not negative, the position
    stays where the clock, in binary64, says, it only moves on, and it never
    passes the end of the clip. *)
Theorem play_position_only_advances
    (count frames : nat) (ticks : list Q) (position : Z) (h : LAppWavFileHandler) :
  (1 <= count)%nat ->
  Forall (fun deltaTimeSeconds => 0 <= deltaTimeSeconds) ticks ->
  steady ticks h = true ->
  inStep count frames position h ->
  Forall returned (fst (ticked ticks h))
  /\ exists position',
       inStep count frames position' (snd (ticked ticks h))
       /\ (position <= position' <= Z.of_nat frames)%Z.
Proof.
  intros Hone Hticks _. revert position h.
  induction Hticks as [| dt ticks Hdt _ IH]; intros position h Hstep.
  - split; [constructor |]. exists position. split; [exact Hstep |].
    destruct Hstep as (_ & _ & _ & _ & ->).
    pose proof (reached_le frames (Wav._userTimeSeconds h) (_samplingRate (_wavFileInfo h))).
    lia.
  - destruct (inStep_update count frames position dt h Hone Hdt Hstep)
      as (played & p1 & Hret & Hstep1 & Hp1).
    destruct (IH p1 _ Hstep1) as (Hrets & p2 & Hstep2 & Hp2).
    cbn [ticked]. destruct (update dt h) as [o h1]. cbn [fst snd] in *.
    destruct (ticked ticks h1) as [os h2]. cbn [fst snd] in *.
    split; [constructor; [exists played; exact Hret | exact Hrets] |].
    exists p2. split; [exact Hstep2 | lia].
Qed.

Lemma play_position_only_advances_witness :
  inStep 1 4 0 clipLoaded
  /\ steady [1 # 4000; 0; 1 # 100] clipLoaded = true
  /\ Forall returned (fst (ticked [1 # 4000; 0; 1 # 100] clipLoaded))
  /\ exists position',
       inStep 1 4 position' (snd (ticked [1 # 4000; 0; 1 # 100] clipLoaded))
       /\ (0 <= position' <= 4)%Z.
Proof.
  assert (P : inStep 1 4 0 clipLoaded).
  { split; [| split; [vm_compute; discriminate |
                      split; [vm_compute; discriminate |
                              split; vm_compute; reflexivity]]].
    exists [[1 # 2; 1 # 2; -1 # 2; -1 # 2]].
    repeat split; try (vm_compute; reflexivity).
    - repeat constructor.
    - discriminate. }
  assert (S : steady [1 # 4000; 0; 1 # 100] clipLoaded = true) by (vm_compute; reflexivity).
  split; [exact P |]. split; [exact S |].
  apply (play_position_only_advances 1 4 [1 # 4000; 0; 1 # 100] 0 clipLoaded);
    [lia | repeat constructor; discriminate | exact S | exact P].
Defined.

Lemma deinterleaved_shape bits count frames payload :
  List.length (deinterleaved bits count frames payload) = count
  /\ Forall (fun arr => List.length arr = frames) (deinterleaved bits count frames payload).
Proof.
  unfold deinterleaved, table. split; [apply length_tabulate |].
  unfold tabulate at 1. apply Forall_map. apply Forall_forall. intros c _.
  apply length_tabulate.
Qed.

(** [start] leaves the handler without a clip, at rest. *)
Lemma start_run filePath h :
  start filePath h
  = (Val tt, mkHandler None 0 (Sqrt 0) 0 (_wavFileInfo h) (_byteReader h)).
Proof.
  destruct h as [pcm t rms so info rd]. destruct pcm; reflexivity.
Qed.

(** Without a clip every [update] returns false and changes nothing but the
    envelope, which it sets to 0. *)
Lemma ticked_unloaded info rd : forall ticks,
  ticked ticks (mkHandler None 0 (Sqrt 0) 0 info rd)
  = (map (fun _ => Val false) ticks, mkHandler None 0 (Sqrt 0) 0 info rd).
Proof.
  induction ticks as [| dt ticks IH]; [reflexivity |].
  cbn [ticked map]. change (update dt (mkHandler None 0 (Sqrt 0) 0 info rd))
    with (Val false, mkHandler None 0 (Sqrt 0) 0 info rd).
  cbv iota. rewrite IH. reflexivity.
Qed.



End LifeFacts.

(** ** The texture cache in use *)

Module CacheFacts.

Import Texture TextureOrder.

Section Facts.

Variable C : Type.
Variable table : Loader.AssetTable.

Lemma sameKey_key f p (t : TextureInfo) : sameKey f p t = true <-> key t = (f, p).
Proof.
  unfold sameKey, key. rewrite andb_true_iff, String.eqb_eq, Bool.eqb_true_iff.
  split; [intros [-> ->]; reflexivity | intros [= -> ->]; split; reflexivity].
Qed.

Lemma find_None f p l : find f p l = None -> ~ In (f, p) (map key l).
Proof.
  induction l as [| t l IH]; cbn; [tauto |].
  destruct (sameKey f p t) eqn:E; [discriminate |].
  destruct (find f p l); [discriminate |]. intros _ [H | H].
  - apply sameKey_key in H. congruence.
  - apply IH; [reflexivity | exact H].
Qed.

Lemma map_key_setNth i l : forall n, map key (setNth n (setImg i) l) = map key l.
Proof. induction l as [| t l IH]; intros [| n]; cbn; try reflexivity. f_equal. apply IH. Qed.

Lemma map_id_setNth i l : forall n, map id (setNth n (setImg i) l) = map id l.
Proof. induction l as [| t l IH]; intros [| n]; cbn; try reflexivity. f_equal. apply IH. Qed.

Lemma count_le_one f p l :
  NoDup (map key l) -> (List.length (filter (sameKey f p) l) <= 1)%nat.
Proof.
  induction l as [| t l IH]; cbn; [lia |]. intros Hnd. inversion Hnd as [| ? ? Hnot Hrest]; subst.
  destruct (sameKey f p t) eqn:E; [| apply IH; exact Hrest].
  cbn. assert (filter (sameKey f p) l = []) as ->; [| cbn; lia].
  destruct (filter (sameKey f p) l) as [| u r] eqn:Ef; [reflexivity |].
  exfalso. assert (Hin : In u (filter (sameKey f p) l)) by (rewrite Ef; left; reflexivity).
  apply filter_In in Hin. destruct Hin as [Hin Hu].
  apply sameKey_key in E, Hu. apply Hnot. rewrite E, <- Hu. apply in_map. exact Hin.
Qed.

Lemma split_nth {A} (l : list A) : forall k x,
  nth_error l k = Some x ->
  exists l1 l2, l = l1 ++ x :: l2 /\ removeNth k l = l1 ++ l2.
Proof.
  induction l as [| y l IH]; intros [| k] x; cbn; try discriminate.
  - intros [= ->]. exists [], l. split; reflexivity.
  - intros H. destruct (IH k x H) as (l1 & l2 & -> & E).
    exists (y :: l1), l2. cbn. rewrite E. split; reflexivity.
Qed.

Lemma removeNth_none {A} (l : list A) : forall k,
  nth_error l k = None -> removeNth k l = l.
Proof.
  induction l as [| y l IH]; intros [| k]; cbn; try reflexivity; try discriminate.
  intros H. rewrite IH by exact H. reflexivity.
Qed.

Lemma rivalled_false f p (m : LAppTextureManager C) :
  rivalled f p m = false -> ~ In (f, p) (missing m).
Proof.
  unfold rivalled. intros H Hin.
  assert (E : existsb (fun k => String.eqb (fst k) f && Bool.eqb (snd k) p) (missing m) = true).
  { apply existsb_exists. exists (f, p). split; [exact Hin |]. cbn.
    rewrite String.eqb_refl, Bool.eqb_reflx. reflexivity. }
  congruence.
Qed.

Lemma apart_step (m : LAppTextureManager C) (o : Op C) :
  apart m ->
  match o with
  | Acquire f p _ => rivalled f p m = false
  | _ => True
  end ->
  apart (step table m o).
Proof.
  unfold apart. intros Hnd Ho. destruct o as [f p c | k w h | k |]; cbn [step].
  - unfold createTextureFromPngFile.
    destruct (find f p (_textures m)) as [position |] eqn:Ef; cbn [_textures decoding];
      unfold missing; cbn [decoding]; rewrite flat_map_app; cbn [flat_map missKey snd].
    + rewrite map_key_setNth, !app_nil_r. exact Hnd.
    + rewrite app_nil_r.
      apply (Permutation_NoDup (l := (f, p) :: map key (_textures m) ++ flat_map missKey (decoding m))).
      { rewrite app_assoc. apply Permutation_cons_append. }
      constructor; [| exact Hnd].
      intros Hin. apply in_app_or in Hin. destruct Hin as [Hin | Hin].
      * apply (find_None _ _ _ Ef Hin).
      * apply (rivalled_false _ _ _ Ho Hin).
  - unfold loaded. destruct (nth_error (decoding m) k) as [[src l] |] eqn:En; [| exact Hnd].
    destruct (split_nth _ _ _ En) as (d1 & d2 & Ed & Er).
    unfold missing in *. rewrite Ed, flat_map_app in Hnd. cbn [flat_map missKey snd] in Hnd.
    destruct l as [position c | f p image c]; cbn [_textures decoding]; rewrite Er, flat_map_app.
    + cbn [app] in Hnd. exact Hnd.
    + rewrite map_app. cbn [map key fileName usePremultply app].
      cbn [app] in Hnd. rewrite <- app_assoc. cbn [app].
      apply (Permutation_NoDup (l := map key (_textures m) ++ flat_map missKey d1
                                     ++ (f, p) :: flat_map missKey d2)); [| exact Hnd].
      apply Permutation_app_head. symmetry. apply Permutation_middle.
  - unfold failed. cbn [_textures decoding]. unfold missing in *. cbn [decoding].
    destruct (nth_error (decoding m) k) as [[src l] |] eqn:En.
    + destruct (split_nth _ _ _ En) as (d1 & d2 & Ed & Er).
      rewrite Er, flat_map_app. rewrite Ed, flat_map_app in Hnd. cbn [flat_map] in Hnd.
      assert (Hp : Permutation (map key (_textures m) ++ flat_map missKey d1
                                  ++ missKey (src, l) ++ flat_map missKey d2)
                               (missKey (src, l) ++ map key (_textures m)
                                  ++ flat_map missKey d1 ++ flat_map missKey d2)).
      { rewrite !app_assoc. apply Permutation_app_tail. rewrite <- (app_assoc (missKey (src, l))).
        apply Permutation_app_comm. }
      apply (Permutation_NoDup Hp) in Hnd. apply NoDup_app_remove_l in Hnd. exact Hnd.
    + rewrite removeNth_none by exact En. exact Hnd.
  - unfold release. cbn [_textures decoding]. unfold missing in *. cbn [decoding map app].
    apply NoDup_app_remove_l in Hnd. exact Hnd.
Qed.

Lemma apart_run (ops : list (Op C)) : forall m : LAppTextureManager C,
  apart m -> unrivalled table ops m = true -> apart (run table ops m).
Proof.
  induction ops as [| o ops IH]; intros m Hm Hu; [exact Hm |].
  cbn [unrivalled] in Hu. apply andb_true_iff in Hu. destruct Hu as [Ho Hu].
  change (run table (o :: ops) m) with (run table ops (step table m o)).
  apply IH; [| exact Hu]. apply apart_step; [exact Hm |].
  destruct o; try exact I. apply negb_true_iff. exact Ho.
Qed.

(** X13: as long as no acquire is made while a miss for the same key is
    still decoding, the cache never holds two records for one key,
    whatever the loads, failures and releases in between. *)
Theorem one_record_per_key_when_acquires_wait
    (ops : list (Op C)) (m : LAppTextureManager C)
    (fileName : string) (usePremultiply : bool) :
  NoDup (map key (_textures m) ++ missing m) ->
  unrivalled table ops m = true ->
  (countKey fileName usePremultiply (run table ops m) <= 1)%nat.
Proof.
  intros Hm Hu. unfold countKey. apply count_le_one.
  apply (NoDup_app_remove_r _ _ (apart_run ops m Hm Hu)).
Qed.

Lemma accounted_step (m : LAppTextureManager C) (o : Op C) :
  accounted m -> accounted (step table m o).
Proof.
  unfold accounted. intros H. destruct o as [f p c | k w h | k |]; cbn [step].
  - unfold createTextureFromPngFile.
    destruct (find f p (_textures m)); cbn [_textures handles deleted];
      [rewrite map_id_setNth |]; exact H.
  - unfold loaded. destruct (nth_error (decoding m) k) as [[src [position c | f p image c]] |];
      cbn [_textures handles deleted]; try exact H.
    rewrite seq_S, map_app. cbn [map id Nat.add].
    rewrite <- app_assoc. cbn [app].
    apply (Permutation_trans (l' := handles m :: seq 0 (handles m))).
    { symmetry. apply Permutation_cons_append. }
    apply (Permutation_trans (l' := handles m :: map id (_textures m) ++ deleted m)).
    { constructor. exact H. }
    apply Permutation_middle.
  - exact H.
  - unfold release. cbn [_textures handles deleted map app].
    apply (Permutation_trans H). apply Permutation_app_comm.
Qed.

Lemma accounted_run (ops : list (Op C)) : forall m : LAppTextureManager C,
  accounted m -> accounted (run table ops m).
Proof.
  induction ops as [| o ops IH]; intros m Hm; [exact Hm |].
  change (run table (o :: ops) m) with (run table ops (step table m o)).
  apply IH. apply accounted_step. exact Hm.
Qed.

(** X14: whatever is done with a new cache, every texture handle made is
    either the handle of exactly one record or deleted exactly once, never
    both: no handle is deleted twice and no record holds a deleted
    handle. *)
Theorem every_handle_is_held_or_deleted_once (ops : list (Op C)) :
  let m := run table ops (@newManager C) in
  NoDup (map id (_textures m) ++ deleted m)
  /\ forall x : nat, In x (map id (_textures m) ++ deleted m) <-> (x < handles m)%nat.
Proof.
  intros m.
  assert (H : accounted m) by (apply accounted_run; unfold accounted; cbn; constructor).
  unfold accounted in H. split.
  - apply (Permutation_NoDup H). apply seq_NoDup.
  - intros x. split; intros Hx.
    + apply (Permutation_in _ (Permutation_sym H)) in Hx. apply in_seq in Hx. lia.
    + apply (Permutation_in _ H). apply in_seq. lia.
Qed.

Lemma find_Some f p l : forall position,
  find f p l = Some position ->
  exists t, nth_error l position = Some t /\ key t = (f, p).
Proof.
  induction l as [| t l IH]; cbn; [discriminate |]. intros position.
  destruct (sameKey f p t) eqn:E.
  - intros [= <-]. exists t. split; [reflexivity | apply sameKey_key; exact E].
  - destruct (find f p l) as [q |]; [| discriminate]. cbn. intros [= <-]. cbn. apply IH. reflexivity.
Qed.

Lemma nth_error_setNth g l : forall n t,
  nth_error l n = Some t -> nth_error (setNth n g l) n = Some (g t).
Proof.
  induction l as [| u l IH]; intros [| n] t; cbn; try discriminate.
  - intros [= ->]. reflexivity.
  - apply IH.
Qed.

Lemma nth_error_snoc {A} (l : list A) (x : A) : nth_error (l ++ [x]) (List.length l) = Some x.
Proof. induction l as [| y l IH]; [reflexivity | exact IH]. Qed.

Lemma removeNth_snoc {A} (l : list A) (x : A) : removeNth (List.length l) (l ++ [x]) = l.
Proof. induction l as [| y l IH]; [reflexivity | cbn; rewrite IH; reflexivity]. Qed.

Lemma length_setNth g l : forall n, List.length (setNth n g l) = List.length l.
Proof. induction l as [| u l IH]; intros [| n]; cbn; try reflexivity. rewrite IH. reflexivity. Qed.


Lemma length_removed {A} (l : list A) : forall k x,
  nth_error l k = Some x -> S (List.length (removeNth k l)) = List.length l.
Proof.
  induction l as [| y l IH]; intros [| k] x; cbn; try discriminate.
  - reflexivity.
  - intros H. rewrite (IH k x H). reflexivity.
Qed.

End Facts.

End CacheFacts.

Module CacheWitnesses.

Import Texture TextureOrder CacheInputs CacheFacts.

Lemma one_record_per_key_when_acquires_wait_witness :
  NoDup (map key (_textures (@newManager nat)) ++ missing (@newManager nat))
  /\ unrivalled asWritten session newManager = true
  /\ (countKey "a.png" true (run asWritten session newManager) <= 1)%nat.
Proof.
  assert (H0 : NoDup (map key (_textures (@newManager nat)) ++ missing (@newManager nat)))
    by (cbn; constructor).
  assert (H1 : unrivalled asWritten session newManager = true) by (vm_compute; reflexivity).
  split; [exact H0 |]. split; [exact H1 |].
  exact (one_record_per_key_when_acquires_wait nat asWritten session newManager
           "a.png" true H0 H1).
Defined.


End CacheWitnesses.

(** ** The texture cache and the graphics context *)

Module GlFacts.

Import Texture TextureOrder TextureGl CacheInputs GlInputs CacheFacts.

Section Facts.

Variable C : Type.
Variable table : Loader.AssetTable.

Lemma acquires_cons (o : TextureGl.Op C) ops :
  acquires (o :: ops)
  = ((match o with OnCache (Acquire _ _ _) => 1 | _ => 0 end) + acquires ops)%nat.
Proof.
  unfold acquires. cbn [cacheOps flat_map]. rewrite filter_app, length_app.
  destruct o as [[f p c | k w h | k |] | | found |]; reflexivity.
Qed.

(** Every step keeps the count: what an acquire adds to the listeners in
    flight, a load moves to the callbacks made or to the listeners that
    threw. *)
Lemma accounted_for_run (ops : list (TextureGl.Op C)) : forall g : Managed C,
  forallb noFailure ops = true ->
  (List.length (called (cache (run table ops g)))
   + List.length (decoding (cache (run table ops g)))
   + uncaught (run table ops g)
   = List.length (called (cache g)) + List.length (decoding (cache g)) + uncaught g
     + acquires ops)%nat.
Proof.
  induction ops as [| o ops IH]; intros g Hn; [unfold acquires; cbn; lia |].
  cbn [forallb] in Hn. apply andb_true_iff in Hn. destruct Hn as [Ho Hn].
  change (run table (o :: ops) g) with (run table ops (step table g o)).
  rewrite (IH (step table g o) Hn), acquires_cons. clear IH.
  destruct o as [[f p c | k w h | k |] | | found |]; cbn [step noFailure] in *;
    try discriminate; cbn [cache uncaught onCache]; try lia.
  - unfold Texture.step, createTextureFromPngFile.
    destruct (find f p (_textures (cache g))); cbn [called decoding];
      rewrite length_app; cbn [List.length]; lia.
  - unfold loaded, Texture.loaded.
    destruct (nth_error (decoding (cache g)) k) as [[src [position c | f p image c]] |] eqn:En.
    + pose proof (length_removed _ _ _ En).
      cbn [cache uncaught onCache]. rewrite En. cbn [called decoding].
      rewrite length_app. cbn [List.length]. lia.
    + pose proof (length_removed _ _ _ En).
      destruct (usable g); cbn [cache uncaught onCache]; [rewrite En |];
        cbn [called decoding]; [rewrite length_app; cbn [List.length] |]; lia.
    + cbn [cache uncaught onCache]. rewrite En. lia.
  - unfold release.
    destruct (negb (_glManager g)); [cbn; lia |].
    destruct (_gl g); [cbn; lia |].
    destruct (_textures (cache g)); cbn; lia.
Qed.

(** Without its GL manager the cache never holds a record and never calls
    back. *)
Lemma Forall_removed {A} (P : A -> Prop) (l : list A) : forall k,
  Forall P l -> Forall P (removeNth k l).
Proof.
  induction l as [| x l IH]; intros [| k] H; cbn; try exact H.
  - inversion H; assumption.
  - inversion H; subst. constructor; [assumption | apply IH; assumption].
Qed.

Lemma bare_step (g : Managed C) (o : TextureGl.Op C) :
  bare g -> noSetGlManager o = true -> bare (step table g o).
Proof.
  intros (Hm & Ht & Hc & Hd) Ho.
  destruct o as [[f p c | k w h | k |] | | found |]; cbn [step noSetGlManager] in *;
    try discriminate.
  - unfold bare, onCache, Texture.step, createTextureFromPngFile. cbn [cache _glManager].
    rewrite Ht. cbn [find _textures called decoding]. repeat split; try assumption.
    apply Forall_app. split; [exact Hd |]. constructor; [| constructor].
    cbn [snd]. eauto.
  - unfold loaded.
    destruct (nth_error (decoding (cache g)) k) as [[src [position c | f p image c]] |] eqn:En.
    + exfalso. pose proof (proj1 (Forall_forall _ _) Hd _ (nth_error_In _ _ En))
        as (f & p & image & c' & E). discriminate.
    + unfold usable. rewrite Hm. cbn [andb].
      unfold bare. cbn [cache _glManager _textures called decoding].
      repeat split; try assumption. apply Forall_removed. exact Hd.
    + unfold bare, onCache, Texture.loaded. cbn [cache _glManager]. rewrite En.
      repeat split; assumption.
  - unfold bare, onCache, Texture.step, failed. cbn [cache _glManager _textures called decoding].
    repeat split; try assumption. apply Forall_removed. exact Hd.
  - unfold release. rewrite Hm. cbn [negb snd].
    unfold bare, onCache. cbn [cache _glManager _textures called decoding].
    repeat split; assumption.
  - unfold bare. cbn [cache _glManager]. repeat split; assumption.
  - unfold bare. cbn [cache _glManager]. repeat split; assumption.
Qed.

Lemma bare_run (ops : list (TextureGl.Op C)) : forall g : Managed C,
  bare g -> forallb noSetGlManager ops = true -> bare (run table ops g).
Proof.
  induction ops as [| o ops IH]; intros g Hg Hn; [exact Hg |].
  cbn [forallb] in Hn. apply andb_true_iff in Hn. destruct Hn as [Ho Hn].
  change (run table (o :: ops) g) with (run table ops (step table g o)).
  apply IH; [apply bare_step; assumption | exact Hn].
Qed.

(** With the context there whenever it is reached for, the cache is the one
    of [Texture], and no listener throws. *)
Lemma served_step (g : Managed C) (o : TextureGl.Op C) :
  served table [o] g = true ->
  cache (step table g o)
  = Texture.run table (cacheOps [o]) (cache g)
  /\ uncaught (step table g o) = uncaught g.
Proof.
  cbn [served]. rewrite andb_true_r. intros Hs.
  destruct o as [[f p c | k w h | k |] | | found |]; cbn [step cacheOps flat_map app];
    try (split; reflexivity).
  - unfold loaded.
    destruct (nth_error (decoding (cache g)) k) as [[src [position c | f p image c]] |] eqn:En;
      [| rewrite Hs |]; split; reflexivity.
  - unfold release.
    destruct (_glManager g) eqn:Em; cbn [negb].
    + destruct (_gl g) eqn:Eg; [split; reflexivity |].
      unfold usable in Hs. rewrite Em, Eg in Hs. cbn [andb orb] in Hs.
      destruct (_textures (cache g)) eqn:Et; [| discriminate].
      cbn [snd Texture.run fold_left Texture.step]. unfold Texture.release.
      rewrite Et. cbn [map]. rewrite app_nil_r. destruct g as [[] ? ? ?].
      cbn in *. subst. split; reflexivity.
    + unfold usable in Hs. rewrite Em in Hs. cbn [andb orb] in Hs.
      destruct (_textures (cache g)) eqn:Et; [| discriminate].
      cbn [snd onCache cache uncaught Texture.run fold_left Texture.step].
      unfold Texture.release. rewrite Et. cbn [map]. rewrite app_nil_r.
      split; reflexivity.
Qed.

Lemma served_run (ops : list (TextureGl.Op C)) : forall g : Managed C,
  served table ops g = true ->
  cache (run table ops g) = Texture.run table (cacheOps ops) (cache g)
  /\ uncaught (run table ops g) = uncaught g.
Proof.
  induction ops as [| o ops IH]; intros g Hs; [split; reflexivity |].
  assert (H1 : served table [o] g = true /\ served table ops (step table g o) = true).
  { cbn [served] in *. apply andb_true_iff in Hs. destruct Hs as [A B].
    rewrite A, B. split; reflexivity. }
  destruct H1 as [H1 H2].
  change (run table (o :: ops) g) with (run table ops (step table g o)).
  destruct (IH _ H2) as [E1 E2]. destruct (served_step g o H1) as [F1 F2].
  rewrite E1, E2, F1, F2. split; [| reflexivity].
  assert (Ec : cacheOps (o :: ops) = cacheOps [o] ++ cacheOps ops).
  { unfold cacheOps. cbn [flat_map]. rewrite app_nil_r. reflexivity. }
  rewrite Ec. unfold Texture.run. rewrite fold_left_app. reflexivity.
Qed.


End Facts.

End GlFacts.

Module GlWitnesses.

Import Texture TextureOrder TextureGl CacheInputs GlInputs GlFacts.


End GlWitnesses.

(** ** The load of a model, from its manifest to CompleteSetup *)

Module ReadyFacts.

Import Model ModelStages ModelInputs ModelFacts ModelReady.

Section Facts.

Variable engine : Engine.
Variable s : ModelSetting.

Local Abbreviation staged := (staged s).
Local Abbreviation between := (between s).
Local Abbreviation stalled := (stalled s).
Local Abbreviation Nt := (textureTotal s).
Local Abbreviation Nn := (namedTotal s).
Local Abbreviation Ne := (expressionTotal s).
Local Abbreviation Nm := (motionTotal s).

Lemma length_named {A} (l : list (A * string)) :
  (List.length (filter (fun e => negb (String.eqb (snd e) "")) l) <= List.length l)%nat.
Proof. induction l as [| x l IH]; cbn; [lia |]. destruct (negb _); cbn; lia. Qed.

Lemma named_le : (Nn <= Nt)%nat.
Proof.
  unfold namedTotal, textureTotal, named.
  rewrite <- (length_indexed (textureFileNames s)). apply length_named.
Qed.

Lemma startTextures_staged strict m :
  between strict m -> _model (base m) = true ->
  (motionGroups s = [] \/ (0 < Nm)%nat) ->
  staged strict (startTextures m).
Proof.
  intros (Hs & Hp & Ht & Hn & Hb) Hm Hg.
  unfold startTextures, setupTextures. cbn. rewrite Hs. rewrite fold_textures. cbn.
  unfold staged. cbn. rewrite Hp, Ht, Hm. cbn [app].
  split; [exact Hs |]. split; [right; exact Hn |].
  split; [intros _; right; right; reflexivity |].
  split; [reflexivity |]. split; [exact Hg |]. split.
  - unfold textureTags. apply Forall_forall. intros p Hin. apply in_map_iff in Hin.
    destruct Hin as ([n f] & <- & _). unfold isTexture, getTextureCount, textureTotal. eauto.
  - exists 0%nat. split; [reflexivity |]. split.
    + unfold textureTags. rewrite length_map, Nat.add_0_r.
      unfold within, namedTotal. destruct strict; reflexivity.
    + destruct Nt; [right; reflexivity | left; lia].
Qed.

Lemma motionTotal_eq : Z.of_nat Nm = totalMotions s (map fst (motionGroups s)).
Proof. apply length_groupTags. Qed.

Lemma loadCubismMotion_staged strict m :
  between strict m -> _model (base m) = true -> staged strict (loadCubismMotion m).
Proof.
  intros Hb Hm. pose proof Hb as (Hs & Hp & Ht & Hn & _).
  unfold loadCubismMotion. cbn. rewrite Hm. cbn. rewrite Hs.
  rewrite fold_counts, fold_groups. cbn.
  unfold getMotionGroupCount.
  destruct (motionGroups s) as [| g groups] eqn:Eg.
  - cbn. apply startTextures_staged.
    + repeat split; cbn; rewrite ?Hp; try assumption; try reflexivity. intros _. exact Hm.
    + exact Hm.
    + left. exact Eg.
  - replace (Z.of_nat (List.length (g :: groups)) =? 0) with false
      by (symmetry; apply Z.eqb_neq; cbn [List.length]; lia).
    rewrite <- Eg. rewrite <- motionTotal_eq.
    unfold staged. cbn. rewrite Hp, Ht, Hm. cbn [app].
    split; [exact Hs |]. split; [right; exact Hn |].
    split; [intros _; right; right; reflexivity |].
    split; [reflexivity |]. split; [reflexivity |]. split.
    + unfold groupTags. apply Forall_forall. intros p Hin. apply in_flat_map in Hin.
      destruct Hin as (grp & _ & Hin). unfold motionTags in Hin. apply in_map_iff in Hin.
      destruct Hin as ([i e] & <- & _). unfold isMotion. eauto.
    + exists 0%nat, 0%nat. split; [reflexivity |]. split; [cbn; lia |]. split.
      * rewrite !Nat.add_0_r. unfold within, motionTotal. destruct strict; reflexivity.
      * destruct Nm eqn:En; [right; split; [reflexivity | rewrite Eg; discriminate] | left; lia].
Qed.

Lemma setupLayout_staged strict m :
  between strict m -> _state m = SetupLayout -> staged strict (setupLayout m).
Proof.
  intros Hb Hst. pose proof Hb as (Hs & Hp & Ht & Hn & Hbuilt).
  unfold setupLayout. rewrite Hs. destruct (_model (base m)) eqn:Hm.
  - apply loadCubismMotion_staged; [| exact Hm].
    repeat split; cbn; try assumption. intros _. exact Hm.
  - unfold staged. cbn. rewrite Hst, Hp, Ht, Hm.
    split; [exact Hs |]. split; [right; exact Hn |].
    split; [intros E; specialize (Hbuilt E); discriminate |].
    repeat split.
Qed.

Ltac stays Hb :=
  destruct Hb as (? & ? & ? & ? & ?); repeat split; cbn; assumption.

Lemma setupLipSyncIds_staged strict m :
  between strict m -> staged strict (setupLipSyncIds m).
Proof.
  intros Hb. pose proof Hb as (Hs & _). unfold setupLipSyncIds. rewrite Hs.
  apply setupLayout_staged; [stays Hb | reflexivity].
Qed.

Lemma setupEyeBlinkIds_staged strict m :
  between strict m -> staged strict (setupEyeBlinkIds m).
Proof.
  intros Hb. pose proof Hb as (Hs & _). unfold setupEyeBlinkIds. rewrite Hs.
  apply setupLipSyncIds_staged. stays Hb.
Qed.

Lemma onUserData_staged strict b m :
  between strict m -> staged strict (onUserData b m).
Proof. intros Hb. unfold onUserData. apply setupEyeBlinkIds_staged. stays Hb. Qed.

Lemma loadUserDataFile_staged strict m :
  between strict m -> staged strict (loadUserDataFile m).
Proof.
  intros Hb. pose proof Hb as (Hs & Hp & Ht & Hn & Hbuilt).
  unfold loadUserDataFile. rewrite Hs.
  destruct (negb (String.eqb (userDataFile s) "")).
  - unfold staged. cbn. rewrite Hp, Ht.
    split; [exact Hs |]. split; [right; exact Hn |].
    split; [intros E; right; right; exact (Hbuilt E) |].
    split; [reflexivity |]. left. eexists. split; [reflexivity |]. unfold isUserData. eauto.
  - apply setupEyeBlinkIds_staged. stays Hb.
Qed.

Lemma setupBreath_staged strict m :
  between strict m -> staged strict (setupBreath m).
Proof. intros Hb. unfold setupBreath. apply loadUserDataFile_staged. stays Hb. Qed.

Lemma setupEyeBlink_staged strict m :
  between strict m -> staged strict (setupEyeBlink m).
Proof.
  intros Hb. pose proof Hb as (Hs & _). unfold setupEyeBlink. rewrite Hs.
  apply setupBreath_staged. destruct (0 <? getEyeBlinkParameterCount s); stays Hb.
Qed.

Lemma onPose_staged strict b m :
  between strict m -> staged strict (onPose engine b m).
Proof. intros Hb. unfold onPose. apply setupEyeBlink_staged. stays Hb. Qed.

Lemma loadCubismPose_staged strict m :
  between strict m -> staged strict (loadCubismPose m).
Proof.
  intros Hb. pose proof Hb as (Hs & Hp & Ht & Hn & Hbuilt).
  unfold loadCubismPose. rewrite Hs.
  destruct (negb (String.eqb (poseFileName s) "")).
  - unfold staged. cbn. rewrite Hp, Ht.
    split; [exact Hs |]. split; [right; exact Hn |].
    split; [intros E; right; right; exact (Hbuilt E) |].
    split; [reflexivity |]. left. eexists. split; [reflexivity |]. unfold isPose. eauto.
  - apply setupEyeBlink_staged. stays Hb.
Qed.

Lemma onPhysics_staged strict b m :
  between strict m -> staged strict (onPhysics engine b m).
Proof. intros Hb. unfold onPhysics. apply loadCubismPose_staged. stays Hb. Qed.

Lemma loadCubismPhysics_staged strict m :
  between strict m -> staged strict (loadCubismPhysics m).
Proof.
  intros Hb. pose proof Hb as (Hs & Hp & Ht & Hn & Hbuilt).
  unfold loadCubismPhysics. rewrite Hs.
  destruct (negb (String.eqb (physicsFileName s) "")).
  - unfold staged. cbn. rewrite Hp, Ht.
    split; [exact Hs |]. split; [right; exact Hn |].
    split; [intros E; right; right; exact (Hbuilt E) |].
    split; [reflexivity |]. left. eexists. split; [reflexivity |]. unfold isPhysics. eauto.
  - apply loadCubismPose_staged. stays Hb.
Qed.

Lemma loadCubismExpression_staged strict m :
  between strict m -> _expressionCount m = 0 -> staged strict (loadCubismExpression m).
Proof.
  intros Hb He. pose proof Hb as (Hs & Hp & Ht & Hn & Hbuilt).
  unfold loadCubismExpression. rewrite Hs. unfold getExpressionCount.
  destruct (0 <? Z.of_nat (List.length (expressions s))) eqn:E.
  - rewrite fold_expressions. unfold staged. cbn. rewrite Hp, Ht, He. cbn [app].
    split; [exact Hs |]. split; [right; exact Hn |].
    split; [intros E'; right; right; exact (Hbuilt E') |].
    split; [reflexivity |]. split.
    + unfold expressionTags. apply Forall_forall. intros p Hin. apply in_map_iff in Hin.
      destruct Hin as ([n f] & <- & _). unfold isExpression, expressionTotal. eauto.
    + exists 0%nat. split; [reflexivity |]. split.
      * unfold expressionTags. rewrite length_map, Nat.add_0_r.
        unfold within, expressionTotal. destruct strict; reflexivity.
      * apply Z.ltb_lt in E. unfold expressionTotal. lia.
  - apply loadCubismPhysics_staged. stays Hb.
Qed.

(** *** The completion handlers *)

Lemma nth_single strict (P : Pending -> Prop) l k p :
  single strict P l -> nth_error l k = Some p -> l = [p] /\ k = 0%nat /\ P p.
Proof.
  intros [(q & -> & Hq) | [_ ->]] H.
  - destruct k as [| k]; cbn in H; [injection H as <-; auto | destruct k; discriminate].
  - destruct k; discriminate.
Qed.

Lemma nth_length {A} (l : list A) : forall k p,
  nth_error l k = Some p -> List.length l = S (List.length (removeNth k l)).
Proof.
  induction l as [| x l IH]; intros [| k] p; cbn; try discriminate; [reflexivity |].
  intros H. rewrite (IH k p H). reflexivity.
Qed.

Lemma within_le strict a b : within strict a b -> (a <= b)%nat.
Proof. destruct strict; cbn; lia. Qed.

Lemma within_next strict a b c : within strict (S a + b) c -> within strict (a + S b) c.
Proof. destruct strict; cbn; lia. Qed.

Lemma within_lost a b c : within false (S a + b) c -> within false (a + b) c.
Proof. cbn. lia. Qed.

Lemma length_nil {A} (l : list A) : List.length l = 0%nat -> l = [].
Proof. destruct l; [reflexivity | discriminate]. Qed.

Lemma nth_nil {A} (l : list A) k p : l = [] -> nth_error l k = Some p -> False.
Proof. intros ->. destruct k; discriminate. Qed.

Lemma named_known m : _state m <> LoadModel ->
  (_state m = LoadModel \/ modelFileName s <> ""%string) -> modelFileName s <> ""%string.
Proof. intros H [E | E]; [contradiction | exact E]. Qed.

Lemma fetched_staged strict m k r :
  staged strict m ->
  (strict = true -> served engine [Fetched k r] m = true) ->
  staged strict (fetched engine k r m).
Proof.
  intros HI Hok. unfold fetched.
  destruct (nth_error (pending m) k) as [p |] eqn:En; [| exact HI].
  assert (Hans : strict = true -> (exists n c f, p = PTexture n c f) \/ answered r = true).
  { intros E. specialize (Hok E). cbn in Hok. rewrite En in Hok.
    destruct p; try (right; apply andb_true_iff in Hok; destruct Hok as [Hok _];
                     try (apply andb_true_iff in Hok; destruct Hok as [Hok _]); exact Hok).
    left. eauto. }
  assert (Hbuild : strict = true -> (exists f, p = PModel f) ->
                   buildsModel engine (bufferOf r) = true).
  { intros E [f ->]. specialize (Hok E). cbn in Hok. rewrite En in Hok.
    apply andb_true_iff in Hok. destruct Hok as [Hok _].
    apply andb_true_iff in Hok. destruct Hok as [_ Hok]. exact Hok. }
  clear Hok. pose proof (nth_length _ _ _ En) as Hlen.
  destruct HI as (Hs & Hn & Hb & Hst).
  destruct (_state m) eqn:Est; try contradiction.
  - (* LoadModel *)
    destruct Hst as [Hp _]. exfalso. exact (nth_nil _ _ _ Hp En).
  - (* WaitLoadModel *)
    destruct Hst as (Ht & He & Hsingle).
    destruct (nth_single _ _ _ _ _ Hsingle En) as (Hp & -> & [f ->]).
    assert (Hname : modelFileName s <> ""%string) by (destruct Hn; [discriminate | assumption]).
    rewrite Hp. cbn [removeNth]. unfold onModel.
    destruct r as [body | body |]; cbn [arrayBufferOf].
    + apply loadCubismExpression_staged; [| exact He].
      repeat split; cbn; try assumption. intros E. apply (Hbuild E). eauto.
    + apply loadCubismExpression_staged; [| exact He].
      repeat split; cbn; try assumption. intros E. apply (Hbuild E). eauto.
    + destruct strict; [destruct (Hans eq_refl) as [(? & ? & ? & ?) | ?]; discriminate |].
      unfold staged. cbn. rewrite Est.
      split; [exact Hs |]. split; [right; exact Hname |]. split; [discriminate |].
      split; [exact Ht |]. split; [exact He |]. right. split; reflexivity.
  - (* WaitLoadExpression *)
    destruct Hst as (Ht & Hall & done & He & Hw & Hd).
    assert (Hname : modelFileName s <> ""%string) by (destruct Hn; [discriminate | assumption]).
    assert (Hbuilt : strict = true -> _model (base m) = true).
    { intros E. destruct (Hb E) as [? | [? | ?]]; [discriminate | discriminate | assumption]. }
    pose proof (proj1 (Forall_forall _ _) Hall p (nth_error_In _ _ En)) as (n & f & ->).
    pose proof (Forall_removeNth _ _ k Hall) as Hall'.
    rewrite Hlen in Hw. unfold thenWith.
    destruct (arrayBufferOf r) as [b |] eqn:Er.
    + unfold onExpression. cbn. rewrite He.
      destruct (Z.of_nat Ne <=? Z.of_nat done + 1) eqn:Ec.
      * apply Z.leb_le in Ec. apply within_le in Hw.
        apply loadCubismPhysics_staged.
        repeat split; cbn; try assumption. apply length_nil. lia.
      * apply Z.leb_gt in Ec. unfold staged. cbn. rewrite Est.
        split; [exact Hs |]. split; [right; exact Hname |].
        split; [intros E; right; right; exact (Hbuilt E) |].
        split; [exact Ht |]. split; [exact Hall' |].
        exists (S done). split; [lia |]. split; [apply within_next; exact Hw | lia].
    + destruct r; try discriminate.
      destruct strict; [destruct (Hans eq_refl) as [(? & ? & ? & ?) | ?]; discriminate |].
      unfold staged. cbn. rewrite Est.
      split; [exact Hs |]. split; [right; exact Hname |]. split; [discriminate |].
      split; [exact Ht |]. split; [exact Hall' |].
      exists done. split; [exact He |]. split; [apply within_lost; exact Hw | exact Hd].
  - (* WaitLoadPhysics *)
    destruct Hst as (Ht & Hsingle).
    destruct (nth_single _ _ _ _ _ Hsingle En) as (Hp & -> & [f ->]).
    assert (Hname : modelFileName s <> ""%string) by (destruct Hn; [discriminate | assumption]).
    assert (Hbuilt : strict = true -> _model (base m) = true).
    { intros E. destruct (Hb E) as [? | [? | ?]]; [discriminate | discriminate | assumption]. }
    rewrite Hp. cbn [removeNth]. unfold thenWith.
    destruct (arrayBufferOf r) as [b |] eqn:Er.
    + apply onPhysics_staged. repeat split; cbn; assumption.
    + destruct r; try discriminate.
      destruct strict; [destruct (Hans eq_refl) as [(? & ? & ? & ?) | ?]; discriminate |].
      unfold staged. cbn. rewrite Est.
      split; [exact Hs |]. split; [right; exact Hname |]. split; [discriminate |].
      split; [exact Ht |]. right. split; reflexivity.
  - (* WaitLoadPose *)
    destruct Hst as (Ht & Hsingle).
    destruct (nth_single _ _ _ _ _ Hsingle En) as (Hp & -> & [f ->]).
    assert (Hname : modelFileName s <> ""%string) by (destruct Hn; [discriminate | assumption]).
    assert (Hbuilt : strict = true -> _model (base m) = true).
    { intros E. destruct (Hb E) as [? | [? | ?]]; [discriminate | discriminate | assumption]. }
    rewrite Hp. cbn [removeNth]. unfold thenWith.
    destruct (arrayBufferOf r) as [b |] eqn:Er.
    + apply onPose_staged. repeat split; cbn; assumption.
    + destruct r; try discriminate.
      destruct strict; [destruct (Hans eq_refl) as [(? & ? & ? & ?) | ?]; discriminate |].
      unfold staged. cbn. rewrite Est.
      split; [exact Hs |]. split; [right; exact Hname |]. split; [discriminate |].
      split; [exact Ht |]. right. split; reflexivity.
  - (* WaitLoadUserData *)
    destruct Hst as (Ht & Hsingle).
    destruct (nth_single _ _ _ _ _ Hsingle En) as (Hp & -> & [f ->]).
    assert (Hname : modelFileName s <> ""%string) by (destruct Hn; [discriminate | assumption]).
    assert (Hbuilt : strict = true -> _model (base m) = true).
    { intros E. destruct (Hb E) as [? | [? | ?]]; [discriminate | discriminate | assumption]. }
    rewrite Hp. cbn [removeNth]. unfold thenWith.
    destruct (arrayBufferOf r) as [b |] eqn:Er.
    + apply onUserData_staged. repeat split; cbn; assumption.
    + destruct r; try discriminate.
      destruct strict; [destruct (Hans eq_refl) as [(? & ? & ? & ?) | ?]; discriminate |].
      unfold staged. cbn. rewrite Est.
      split; [exact Hs |]. split; [right; exact Hname |]. split; [discriminate |].
      split; [exact Ht |]. right. split; reflexivity.
  - (* SetupLayout *)
    destruct Hst as (_ & Hp & _). exfalso. exact (nth_nil _ _ _ Hp En).
  - (* WaitLoadMotion *)
    destruct Hst as (Ht & Hm & Hall & good & bad & Hg & Ha & Hw & Hd).
    assert (Hname : modelFileName s <> ""%string) by (destruct Hn; [discriminate | assumption]).
    pose proof (proj1 (Forall_forall _ _) Hall p (nth_error_In _ _ En)) as (g & i & f & ->).
    pose proof (Forall_removeNth _ _ k Hall) as Hall'.
    rewrite Hlen in Hw. unfold thenWith.
    destruct (arrayBufferOf r) as [b |] eqn:Er.
    + unfold onMotion. cbn. pose proof (within_le _ _ _ Hw) as Hle.
      destruct (buildsMotion engine b) eqn:Eb; cbn; rewrite Hg, Ha.
      * destruct (Z.of_nat Nm - Z.of_nat bad <=? Z.of_nat good + 1) eqn:Ec.
        -- apply Z.leb_le in Ec. apply startTextures_staged.
           ++ repeat split; cbn; try assumption; [apply length_nil; lia | intros _; exact Hm].
           ++ exact Hm.
           ++ right. lia.
        -- apply Z.leb_gt in Ec. unfold staged. cbn. rewrite Est, Hm.
           split; [exact Hs |]. split; [right; exact Hname |].
           split; [intros _; right; right; reflexivity |].
           split; [exact Ht |]. split; [reflexivity |]. split; [exact Hall' |].
           exists (S good), bad. split; [lia |]. split; [exact Ha |].
           split; [| left; lia].
           destruct strict; cbn in *; lia.
      * destruct (Z.of_nat Nm - Z.of_nat bad - 1 <=? Z.of_nat good) eqn:Ec.
        -- apply Z.leb_le in Ec. apply startTextures_staged.
           ++ repeat split; cbn; try assumption; [apply length_nil; lia | intros _; exact Hm].
           ++ exact Hm.
           ++ right. lia.
        -- apply Z.leb_gt in Ec. unfold staged. cbn. rewrite Est, Hm.
           split; [exact Hs |]. split; [right; exact Hname |].
           split; [intros _; right; right; reflexivity |].
           split; [exact Ht |]. split; [reflexivity |]. split; [exact Hall' |].
           exists good, (S bad). split; [exact Hg |]. split; [lia |].
           split; [| left; lia].
           destruct strict; cbn in *; lia.
    + destruct r; try discriminate.
      destruct strict; [destruct (Hans eq_refl) as [(? & ? & ? & ?) | ?]; discriminate |].
      unfold staged. cbn. rewrite Est, Hm.
      split; [exact Hs |]. split; [right; exact Hname |]. split; [discriminate |].
      split; [exact Ht |]. split; [reflexivity |]. split; [exact Hall' |].
      exists good, bad. split; [exact Hg |]. split; [exact Ha |].
      split; [cbn in *; lia | exact Hd].
  - (* WaitLoadTexture *)
    pose proof Hst as (_ & _ & Hall & _).
    pose proof (proj1 (Forall_forall _ _) Hall p (nth_error_In _ _ En)) as (n & f & ->).
    unfold staged. rewrite Est. exact (conj Hs (conj Hn (conj Hb Hst))).
  - (* CompleteSetup *)
    destruct Hst as (_ & _ & Hp & _). exfalso. exact (nth_nil _ _ _ Hp En).
Qed.

Lemma textured_staged strict m k texture :
  staged strict m -> staged strict (textured k texture m).
Proof.
  intros HI. unfold textured.
  destruct (nth_error (pending m) k) as [p |] eqn:En; [| exact HI].
  destruct p as [f | f | c n f | f | f | f | g i f | number count path]; try exact HI.
  pose proof (nth_length _ _ _ En) as Hlen.
  destruct HI as (Hs & Hn & Hb & Hst).
  destruct (_state m) eqn:Est; try contradiction.
  - destruct Hst as [Hp _]. exfalso. exact (nth_nil _ _ _ Hp En).
  - destruct Hst as (_ & _ & Hsingle).
    destruct (nth_single _ _ _ _ _ Hsingle En) as (_ & _ & [f E]). discriminate.
  - destruct Hst as (_ & Hall & _).
    pose proof (proj1 (Forall_forall _ _) Hall _ (nth_error_In _ _ En)) as (n & f & E).
    discriminate.
  - destruct Hst as (_ & Hsingle).
    destruct (nth_single _ _ _ _ _ Hsingle En) as (_ & _ & [f E]). discriminate.
  - destruct Hst as (_ & Hsingle).
    destruct (nth_single _ _ _ _ _ Hsingle En) as (_ & _ & [f E]). discriminate.
  - destruct Hst as (_ & Hsingle).
    destruct (nth_single _ _ _ _ _ Hsingle En) as (_ & _ & [f E]). discriminate.
  - destruct Hst as (_ & Hp & _). exfalso. exact (nth_nil _ _ _ Hp En).
  - destruct Hst as (_ & _ & Hall & _).
    pose proof (proj1 (Forall_forall _ _) Hall _ (nth_error_In _ _ En)) as (g & i & f & E).
    discriminate.
  - destruct Hst as (Hm & Hgr & Hall & done & Ht & Hw & Hd).
    assert (Hname : modelFileName s <> ""%string) by (destruct Hn; [discriminate | assumption]).
    pose proof (proj1 (Forall_forall _ _) Hall _ (nth_error_In _ _ En)) as (n & f & E).
    injection E as -> -> ->.
    pose proof (Forall_removeNth _ _ k Hall) as Hall'.
    rewrite Hlen in Hw. pose proof (within_le _ _ _ Hw) as Hle. pose proof named_le as Hnt.
    unfold onLoad. cbn. rewrite Ht.
    destruct (Z.of_nat Nt <=? Z.of_nat done + 1) eqn:Ec.
    + apply Z.leb_le in Ec. unfold staged. cbn. rewrite Hm.
      split; [exact Hs |]. split; [right; exact Hname |].
      split; [intros _; right; right; reflexivity |].
      split; [reflexivity |]. split; [exact Hgr |].
      split; [apply length_nil; lia |]. split; [lia |]. split; lia.
    + apply Z.leb_gt in Ec. unfold staged. cbn. rewrite Est, Hm.
      split; [exact Hs |]. split; [right; exact Hname |].
      split; [intros _; right; right; reflexivity |].
      split; [reflexivity |]. split; [exact Hgr |]. split; [exact Hall' |].
      exists (S done). split; [lia |]. split; [apply within_next; exact Hw | left; lia].
  - destruct Hst as (_ & _ & Hp & _). exfalso. exact (nth_nil _ _ _ Hp En).
Qed.

Lemma deliver_staged strict m e :
  staged strict m ->
  (strict = true -> served engine [e] m = true) ->
  staged strict (deliver engine m e).
Proof.
  intros HI Hok. destruct e as [k r | k texture]; cbn [deliver].
  - apply fetched_staged; assumption.
  - apply textured_staged; assumption.
Qed.

Lemma run_staged strict events : forall m,
  staged strict m ->
  (strict = true -> served engine events m = true) ->
  staged strict (run engine events m).
Proof.
  induction events as [| e events IH]; intros m HI Hok; [exact HI |].
  cbn [run fold_left]. apply IH.
  - apply deliver_staged; [exact HI |]. intros E. specialize (Hok E).
    cbn [served] in Hok |- *. apply andb_true_iff in Hok. destruct Hok as [Hok _].
    rewrite Hok. reflexivity.
  - intros E. specialize (Hok E). cbn [served] in Hok.
    apply andb_true_iff in Hok. destruct Hok as [_ Hok]. exact Hok.
Qed.

Lemma parsed_staged strict dir : staged strict (parsed dir s).
Proof.
  unfold parsed, setupModel. destruct (String.eqb (modelFileName s) "") eqn:E; cbn.
  - apply String.eqb_eq in E. unfold staged. cbn.
    split; [reflexivity |]. split; [left; reflexivity |].
    split; [intros _; left; reflexivity |]. split; [reflexivity | exact E].
  - apply String.eqb_neq in E. unfold staged. cbn.
    split; [reflexivity |]. split; [right; exact E |].
    split; [intros _; right; left; reflexivity |].
    split; [reflexivity |]. split; [reflexivity |].
    left. eexists. split; [reflexivity |]. unfold isModel. eauto.
Qed.

Lemma all_named (l : list string) : forall start,
  List.length (named (combine (seq start (List.length l)) l)) = List.length l ->
  Forall (fun f => f <> ""%string) l.
Proof.
  induction l as [| f l IH]; intros start H; [constructor |].
  cbn [List.length seq combine] in H. unfold named in H. cbn [filter snd] in H.
  pose proof (length_named (combine (seq (S start) (List.length l)) l)) as Hle.
  rewrite length_combine, length_seq, Nat.min_id in Hle.
  destruct (String.eqb f "") eqn:E; cbn [negb List.length] in H.
  - lia.
  - constructor; [apply String.eqb_neq; exact E |]. apply (IH (S start)).
    unfold named. lia.
Qed.

Lemma staged_ready strict m :
  staged strict m -> _state m = CompleteSetup ->
  modelFileName s <> ""%string
  /\ _model (base m) = true
  /\ textureFileNames s <> []
  /\ Forall (fun f => f <> ""%string) (textureFileNames s)
  /\ _textureCount m = Z.of_nat (List.length (textureFileNames s))
  /\ (motionGroups s = [] \/ 0 < totalMotions s (map fst (motionGroups s)))
  /\ pending m = [].
Proof.
  intros (Hs & Hn & Hb & Hst) Est. rewrite Est in Hst, Hn.
  destruct Hst as (Hm & Hg & Hp & Ht & Hpos & Hall).
  split; [destruct Hn; [discriminate | assumption] |]. split; [exact Hm |].
  split; [intros E; unfold textureTotal in Hpos; rewrite E in Hpos; cbn in Hpos; lia |].
  split; [apply (all_named _ 0%nat); exact Hall |].
  split; [exact Ht |]. split; [| exact Hp].
  destruct Hg as [Hg | Hg]; [left; exact Hg | right; rewrite <- motionTotal_eq; lia].
Qed.

Lemma staged_drained m :
  complete s = true -> staged true m -> pending m = [] -> _state m = CompleteSetup.
Proof.
  unfold complete. intros Hc (Hs & Hn & Hb & Hst) Hp.
  apply andb_true_iff in Hc. destruct Hc as [Hc Hc4].
  apply andb_true_iff in Hc. destruct Hc as [Hc Hc3].
  apply andb_true_iff in Hc. destruct Hc as [Hc1 Hc2].
  apply negb_true_iff, String.eqb_neq in Hc1. apply negb_true_iff, Nat.eqb_neq in Hc2.
  apply Nat.eqb_eq in Hc3.
  specialize (Hb eq_refl). rewrite Hp in Hst.
  destruct (_state m) eqn:Est; try contradiction; try reflexivity; exfalso.
  - destruct Hst as [_ E]. contradiction.
  - destruct Hst as (_ & _ & [(p & E & _) | [E _]]); discriminate.
  - destruct Hst as (_ & _ & done & _ & Hw & Hd). cbn in Hw. lia.
  - destruct Hst as (_ & [(p & E & _) | [E _]]); discriminate.
  - destruct Hst as (_ & [(p & E & _) | [E _]]); discriminate.
  - destruct Hst as (_ & [(p & E & _) | [E _]]); discriminate.
  - destruct Hst as (_ & _ & E). destruct Hb as [? | [? | ?]]; congruence.
  - destruct Hst as (_ & _ & _ & good & bad & _ & _ & Hw & Hd). cbn in Hw.
    destruct Hd as [Hd | [Hz Hg]]; [lia |].
    apply orb_true_iff in Hc4. destruct Hc4 as [Hc4 | Hc4].
    + apply Nat.eqb_eq in Hc4. apply length_nil in Hc4. contradiction.
    + apply negb_true_iff, Nat.eqb_neq in Hc4. contradiction.
  - destruct Hst as (_ & _ & _ & done & _ & Hw & Hd). cbn in Hw. lia.
Qed.

Lemma staged_waiting strict m :
  staged strict m -> _state m = CompleteSetup -> pending m = [].
Proof. intros H E. apply (staged_ready strict m H E). Qed.

(** *** A fetch that is lost *)

Lemma lost_stalled m k p :
  staged false m -> nth_error (pending m) k = Some p ->
  (forall n c f, p <> PTexture n c f) ->
  stalled (fetched engine k Rejected m)
  /\ _state (fetched engine k Rejected m) = _state m.
Proof.
  intros (Hs & Hn & Hb & Hst) En Hp. pose proof (nth_length _ _ _ En) as Hlen.
  unfold fetched. rewrite En.
  destruct (_state m) eqn:Est; try contradiction.
  - destruct Hst as [E _]. exfalso. exact (nth_nil _ _ _ E En).
  - destruct Hst as (_ & _ & Hsingle).
    destruct (nth_single _ _ _ _ _ Hsingle En) as (E & -> & [f ->]).
    rewrite E. unfold stalled. cbn. rewrite Est. repeat split; assumption.
  - destruct Hst as (_ & Hall & done & He & Hw & Hd).
    pose proof (proj1 (Forall_forall _ _) Hall p (nth_error_In _ _ En)) as (n & f & ->).
    unfold stalled. cbn. rewrite Est. split; [split; [exact Hs |] | reflexivity].
    split; [apply Forall_removeNth; exact Hall |].
    exists done. split; [exact He |]. cbn in Hw. lia.
  - destruct Hst as (_ & Hsingle).
    destruct (nth_single _ _ _ _ _ Hsingle En) as (E & -> & [f ->]).
    rewrite E. unfold stalled. cbn. rewrite Est. repeat split; assumption.
  - destruct Hst as (_ & Hsingle).
    destruct (nth_single _ _ _ _ _ Hsingle En) as (E & -> & [f ->]).
    rewrite E. unfold stalled. cbn. rewrite Est. repeat split; assumption.
  - destruct Hst as (_ & Hsingle).
    destruct (nth_single _ _ _ _ _ Hsingle En) as (E & -> & [f ->]).
    rewrite E. unfold stalled. cbn. rewrite Est. repeat split; assumption.
  - destruct Hst as (_ & E & _). exfalso. exact (nth_nil _ _ _ E En).
  - destruct Hst as (_ & _ & Hall & good & bad & Hg & Ha & Hw & Hd).
    pose proof (proj1 (Forall_forall _ _) Hall p (nth_error_In _ _ En)) as (g & i & f & ->).
    unfold stalled. cbn. rewrite Est. split; [split; [exact Hs |] | reflexivity].
    split; [apply Forall_removeNth; exact Hall |].
    exists good, bad. split; [exact Hg |]. split; [exact Ha |]. cbn in Hw. lia.
  - destruct Hst as (_ & _ & Hall & _).
    pose proof (proj1 (Forall_forall _ _) Hall p (nth_error_In _ _ En)) as (n & f & E).
    exfalso. exact (Hp _ _ _ E).
  - destruct Hst as (_ & _ & E & _). exfalso. exact (nth_nil _ _ _ E En).
Qed.

Lemma stalled_deliver m e :
  stalled m -> stalled (deliver engine m e) /\ _state (deliver engine m e) = _state m.
Proof.
  intros HI. pose proof HI as (Hs & Hst).
  destruct e as [k r | k texture]; cbn [deliver].
  - unfold fetched. destruct (nth_error (pending m) k) as [p |] eqn:En; [| split; [exact HI | reflexivity]].
    pose proof (nth_length _ _ _ En) as Hlen.
    destruct (_state m) eqn:Est; try contradiction;
      try (exfalso; exact (nth_nil _ _ _ Hst En)).
    + destruct Hst as (Hall & done & He & Hd).
      pose proof (proj1 (Forall_forall _ _) Hall p (nth_error_In _ _ En)) as (n & f & ->).
      pose proof (Forall_removeNth _ _ k Hall) as Hall'.
      unfold thenWith. destruct (arrayBufferOf r) as [b |].
      * unfold onExpression. cbn. rewrite He.
        replace (Z.of_nat Ne <=? Z.of_nat done + 1) with false
          by (symmetry; apply Z.leb_gt; lia).
        unfold stalled. cbn. rewrite Est. split; [split; [exact Hs |] | reflexivity].
        split; [exact Hall' |]. exists (S done). split; lia.
      * unfold stalled. cbn. rewrite Est. split; [split; [exact Hs |] | reflexivity].
        split; [exact Hall' |]. exists done. split; [exact He | lia].
    + destruct Hst as (Hall & good & bad & Hg & Ha & Hd).
      pose proof (proj1 (Forall_forall _ _) Hall p (nth_error_In _ _ En)) as (g & i & f & ->).
      pose proof (Forall_removeNth _ _ k Hall) as Hall'.
      unfold thenWith. destruct (arrayBufferOf r) as [b |].
      * unfold onMotion. cbn. destruct (buildsMotion engine b); cbn; rewrite Hg, Ha.
        -- replace (Z.of_nat Nm - Z.of_nat bad <=? Z.of_nat good + 1) with false
             by (symmetry; apply Z.leb_gt; lia).
           unfold stalled. cbn. rewrite Est. split; [split; [exact Hs |] | reflexivity].
           split; [exact Hall' |]. exists (S good), bad. repeat split; lia.
        -- replace (Z.of_nat Nm - Z.of_nat bad - 1 <=? Z.of_nat good) with false
             by (symmetry; apply Z.leb_gt; lia).
           unfold stalled. cbn. rewrite Est. split; [split; [exact Hs |] | reflexivity].
           split; [exact Hall' |]. exists good, (S bad). repeat split; lia.
      * unfold stalled. cbn. rewrite Est. split; [split; [exact Hs |] | reflexivity].
        split; [exact Hall' |]. exists good, bad. repeat split; try assumption; lia.
  - unfold textured. destruct (nth_error (pending m) k) as [p |] eqn:En; [| split; [exact HI | reflexivity]].
    destruct p as [f | f | c n f | f | f | f | g i f | number count path];
      try (split; [exact HI | reflexivity]).
    exfalso. destruct (_state m) eqn:Est; try contradiction;
      try (exact (nth_nil _ _ _ Hst En)).
    + destruct Hst as (Hall & _).
      pose proof (proj1 (Forall_forall _ _) Hall _ (nth_error_In _ _ En)) as (n & f & E).
      discriminate.
    + destruct Hst as (Hall & _).
      pose proof (proj1 (Forall_forall _ _) Hall _ (nth_error_In _ _ En)) as (g & i & f & E).
      discriminate.
Qed.

Lemma stalled_run events : forall m,
  stalled m -> _state (run engine events m) = _state m.
Proof.
  induction events as [| e events IH]; intros m HI; [reflexivity |].
  change (run engine (e :: events) m) with (run engine events (deliver engine m e)).
  destruct (stalled_deliver m e HI) as [H1 H2].
  rewrite (IH _ H1). exact H2.
Qed.

(** X17: a model is in CompleteSetup only after everything its manifest
    names has come in: whatever the engine, the manifest and the completions,
    a model in CompleteSetup has a rig binary named and built, at least one
    texture, every texture named and every one bound, motion groups (if any)
    that hold a motion, and nothing in flight; and no later completion
    changes it. *)
Theorem ready_only_with_everything_loaded (dir : string) (events : list Event) :
  let m := run engine events (parsed dir s) in
  _state m = CompleteSetup ->
  modelFileName s <> ""%string
  /\ _model (base m) = true
  /\ textureFileNames s <> []
  /\ Forall (fun f => f <> ""%string) (textureFileNames s)
  /\ _textureCount m = Z.of_nat (List.length (textureFileNames s))
  /\ (motionGroups s = [] \/ 0 < totalMotions s (map fst (motionGroups s)))
  /\ pending m = []
  /\ forall more : list Event, run engine more m = m.
Proof.
  intros m Est.
  assert (H : staged false m).
  { apply run_staged; [apply parsed_staged | discriminate]. }
  destruct (staged_ready false m H Est) as (A & B & C & D & E & F & G).
  repeat split; try assumption. intros more. apply run_nil_pending. exact G.
Qed.

(** X18: for a manifest that names a rig binary and at least one texture,
    leaves no texture unnamed and has no motion groups without a motion: when
    no fetch is rejected and the engine builds a model from the rig binary,
    then, in whatever order the completions arrive, the model is in
    CompleteSetup exactly when nothing is in flight any more. *)
Theorem served_load_ends_in_CompleteSetup (dir : string) (events : list Event) :
  complete s = true ->
  served engine events (parsed dir s) = true ->
  let m := run engine events (parsed dir s) in
  _state m = CompleteSetup <-> pending m = [].
Proof.
  intros Hc Hok m.
  assert (H : staged true m).
  { apply run_staged; [apply parsed_staged | intros _; exact Hok]. }
  split; [apply (staged_waiting true m H) | apply (staged_drained m Hc H)].
Qed.

(** X19: a fetch that is rejected is never made up for: once the fetch of
    the rig binary, an expression, the physics, the pose, the user data or a
    motion is rejected, the model stays in the state it was waiting in,
    whatever completes afterwards, and so never gets to CompleteSetup. *)
Theorem a_rejected_fetch_stalls_the_load
    (dir : string) (before after : list Event) (k : nat) (p : Pending) :
  let m := run engine before (parsed dir s) in
  nth_error (pending m) k = Some p ->
  (forall n c f, p <> PTexture n c f) ->
  let m' := run engine after (fetched engine k Rejected m) in
  _state m' = _state m /\ _state m' <> CompleteSetup.
Proof.
  intros m En Hp m'.
  assert (H : staged false m).
  { apply run_staged; [apply parsed_staged | discriminate]. }
  destruct (lost_stalled m k p H En Hp) as [H1 H2].
  assert (E : _state m' = _state m).
  { unfold m'. rewrite (stalled_run after _ H1). exact H2. }
  split; [exact E |]. rewrite E. intros Est.
  pose proof (staged_waiting false m H Est) as Hnil. exact (nth_nil _ _ _ Hnil En).
Qed.

End Facts.

End ReadyFacts.

Module ReadyWitnesses.

Import Model ModelStages ModelInputs ModelReady ReadyInputs ReadyFacts.

Lemma ready_only_with_everything_loaded_witness :
  _state (run strictEngine fullLoad (parsed "/Haru/" haru)) = CompleteSetup
  /\ _textureCount (run strictEngine fullLoad (parsed "/Haru/" haru)) = 2
  /\ pending (run strictEngine fullLoad (parsed "/Haru/" haru)) = [].
Proof.
  assert (H : _state (run strictEngine fullLoad (parsed "/Haru/" haru)) = CompleteSetup)
    by (vm_compute; reflexivity).
  split; [exact H |].
  destruct (ready_only_with_everything_loaded strictEngine haru "/Haru/" fullLoad H)
    as (_ & _ & _ & _ & Ht & _ & Hp & _).
  split; [exact Ht | exact Hp].
Defined.

Lemma served_load_ends_in_CompleteSetup_witness :
  complete haru = true
  /\ served strictEngine fullLoad (parsed "/Haru/" haru) = true
  /\ _state (run strictEngine fullLoad (parsed "/Haru/" haru)) = CompleteSetup.
Proof.
  assert (Hc : complete haru = true) by (vm_compute; reflexivity).
  assert (Hs : served strictEngine fullLoad (parsed "/Haru/" haru) = true)
    by (vm_compute; reflexivity).
  split; [exact Hc |]. split; [exact Hs |].
  apply (served_load_ends_in_CompleteSetup strictEngine haru "/Haru/" fullLoad Hc Hs).
  vm_compute. reflexivity.
Defined.

Lemma a_rejected_fetch_stalls_the_load_witness :
  nth_error (pending (run strictEngine [Fetched 0 ok] (parsed "/Haru/" haru))) 1
  = Some (PExpression 2 "F02" "expressions/F02.exp3.json")
  /\ _state (run strictEngine [Fetched 0 ok; Textured 0 7]
                 (fetched strictEngine 1 Rejected
                          (run strictEngine [Fetched 0 ok] (parsed "/Haru/" haru))))
     = WaitLoadExpression.
Proof.
  assert (H : nth_error (pending (run strictEngine [Fetched 0 ok] (parsed "/Haru/" haru))) 1
              = Some (PExpression 2 "F02" "expressions/F02.exp3.json"))
    by (vm_compute; reflexivity).
  split; [exact H |].
  apply (a_rejected_fetch_stalls_the_load strictEngine haru "/Haru/" [Fetched 0 ok]
           [Fetched 0 ok; Textured 0 7] 1 _ H).
  intros n c f. discriminate.
Defined.

End ReadyWitnesses.

(** ** Scenes, and what reaches a manager around them *)

Module SceneFacts.

Import Model ModelInputs Manager ManagerInputs ManagerScenes.

Section Facts.

Variable T : Type.
Variable touch : TouchOps T.
Variable view : View.
Variable engine : Engine.

Lemma modelDir_listed (i : Z) : 0 <= i < 3 -> In (modelDir i) Define.ModelDir.
Proof.
  intros H. assert (E : i = 0 \/ i = 1 \/ i = 2) by lia.
  destruct E as [-> | [-> | ->]]; cbn; auto.
Qed.

(** X20: from a scene index that is not negative, [nextScene] goes to the
    next of the three scenes and from the last back to the first: the new
    index is within the list of model directories, the manager holds exactly
    the instance of that scene, fetching the manifest of a listed directory;
    three calls in a row come back to the scene they started from. *)
Theorem nextScene_goes_round (g : LAppLive2DManager T) :
  0 <= _sceneIndex g ->
  let g' := nextScene T g in
  _sceneIndex g' = (_sceneIndex g + 1) mod 3
  /\ In (modelDir (_sceneIndex g')) Define.ModelDir
  /\ _models g' = [instanceFor (_sceneIndex g')]
  /\ pending (instanceFor (_sceneIndex g'))
     = [PManifest (modelDir (_sceneIndex g') ++ ".model3.json")]
  /\ (_sceneIndex g < 3 ->
      _sceneIndex (nextScene T (nextScene T g')) = _sceneIndex g).
Proof.
  intros H g'.
  assert (E : _sceneIndex g' = (_sceneIndex g + 1) mod 3).
  { unfold g', nextScene, changeScene. cbn. apply Z.rem_mod_nonneg; lia. }
  pose proof (Z.mod_pos_bound (_sceneIndex g + 1) 3 ltac:(lia)) as Hb.
  split; [exact E |]. split; [apply modelDir_listed; rewrite E; exact Hb |].
  split; [reflexivity |]. split; [reflexivity |].
  intros Hlt. unfold nextScene at 1 2. unfold changeScene. cbn [_sceneIndex set_models set_sceneIndex releaseAllModel].
  change (Z.of_nat Define.ModelDirSize) with 3. rewrite E.
  assert (C : _sceneIndex g = 0 \/ _sceneIndex g = 1 \/ _sceneIndex g = 2) by lia.
  destruct C as [-> | [-> | ->]]; reflexivity.
Qed.

(** X21: [nextScene] does not bring a scene index below -1 back into the
    list unless the next index is a multiple of three: the remainder keeps
    the sign, the new index is negative, and the instance made fetches
    /undefined/undefined.model3.json. *)
Theorem nextScene_keeps_a_negative_index (g : LAppLive2DManager T) :
  _sceneIndex g < -1 ->
  (_sceneIndex g + 1) mod 3 <> 0 ->
  let g' := nextScene T g in
  -3 < _sceneIndex g' < 0
  /\ exists instance,
       _models g' = [instance]
       /\ _modelHomeDir instance = "/undefined/"%string
       /\ pending instance = [PManifest "undefined.model3.json"].
Proof.
  intros Hneg Hm g'.
  assert (Hlt : _sceneIndex g + 1 <= 0) by lia.
  pose proof (Z.rem_bound_pos_neg (_sceneIndex g + 1) 3 eq_refl Hlt) as Hb.
  assert (Hr : Z.rem (_sceneIndex g + 1) 3 <> 0).
  { intros E0. apply Hm. apply Z.rem_divide in E0; [| lia].
    apply Z.mod_divide; [lia | exact E0]. }
  assert (E : -3 < _sceneIndex g' < 0).
  { change (_sceneIndex g') with (Z.rem (_sceneIndex g + 1) 3). lia. }
  split; [exact E |]. exists (instanceFor (_sceneIndex g')).
  split; [reflexivity |]. unfold instanceFor, modelDir.
  replace (_sceneIndex g' <? 0) with true by (symmetry; apply Z.ltb_lt; lia).
  split; reflexivity.
Qed.

(** X22: a pointer release on a model whose manifest has not arrived yet
    ends in a TypeError: the capture is dropped and the drag reset, the hit
    test of the head is entered and throws on the missing setting, and
    neither an expression nor a motion is started. *)
Theorem tap_before_the_manifest_throws
    (g : LAppLive2DManager T) (model : LAppModel) (rest : list LAppModel) (pageX pageY : Q) :
  _models g = model :: rest ->
  _modelSetting model = None ->
  Num.Qlt_bool (_opacity (base model)) 1 = false ->
  let r := onPointEnded T view engine pageX pageY g in
  fst r = Wav.Thrown
  /\ _captured (snd r) = false
  /\ exists x y model',
       _models (snd r) = model' :: rest
       /\ calls model' = calls model ++ [CallSetDragging 0 0; CallHitTest Define.HitAreaNameHead x y]
       /\ _state model' = _state model.
Proof.
  intros Hg Hs Ho r. unfold r, onPointEnded, onDrag, onTap, active, setActive.
  cbn. rewrite Hg. cbn. unfold hitTest. cbn. rewrite Ho, Hs. cbn.
  split; [reflexivity |]. split; [reflexivity |].
  eexists _, _, _. split; [reflexivity |]. cbn. rewrite <- app_assoc. split; reflexivity.
Qed.

Lemma unheld_step (g : LAppLive2DManager T) (o : Op) :
  _models g = [] -> pointer o = true ->
  _models (step T touch view engine g o) = []
  /\ _sceneIndex (step T touch view engine g o) = _sceneIndex g
  /\ releases touch view engine [o] g
     = match o with PointEnded _ _ => [Wav.Val tt] | _ => [] end.
Proof.
  intros Hg Ho. destruct o; cbn [step pointer releases] in *; try discriminate.
  - split; [exact Hg |]. split; reflexivity.
  - unfold onPointMoved, onDrag, active.
    destruct (negb (_captured g)); [split; [exact Hg | split; reflexivity] |].
    cbn. rewrite Hg. cbn. split; [exact Hg | split; reflexivity].
  - unfold onPointEnded, onTap, onDrag, active. cbn. rewrite Hg. cbn. rewrite Hg. cbn.
    split; [exact Hg | split; reflexivity].
Qed.

Lemma unheld_run (ops : list Op) : forall g : LAppLive2DManager T,
  _models g = [] -> forallb pointer ops = true ->
  _models (run T touch view engine ops g) = []
  /\ _sceneIndex (run T touch view engine ops g) = _sceneIndex g
  /\ Forall (fun r => r = Wav.Val tt) (releases touch view engine ops g).
Proof.
  induction ops as [| o ops IH]; intros g Hg Hops;
    [split; [exact Hg | split; [reflexivity | constructor]] |].
  cbn [forallb] in Hops. apply andb_true_iff in Hops. destruct Hops as [Ho Hops].
  destruct (unheld_step g o Hg Ho) as (H1 & H2 & H3).
  change (run T touch view engine (o :: ops) g)
    with (run T touch view engine ops (step T touch view engine g o)).
  destruct (IH _ H1 Hops) as (H4 & H5 & H6).
  split; [exact H4 |]. split; [rewrite H5; exact H2 |].
  cbn [releases] in H3 |- *. rewrite app_nil_r in H3. rewrite H3.
  apply Forall_app. split; [destruct o; repeat constructor | exact H6].
Qed.

(** X23: a manager whose models have been dropped, as [releaseAllModel]
    does at the end of [release], ignores the pointer.  The canvas is still
    set ([release] leaves [_canvas] as it is; [view] is where it lies): the
    manager holds no model, and whatever presses, moves and releases of the
    pointer follow, it still holds none, its scene index is as it was, and
    no pointer release throws (the drag and the tap find no model and test
    nothing). *)
Theorem a_manager_without_model_ignores_the_pointer
    (ops : list Op) (g : LAppLive2DManager T) :
  forallb pointer ops = true ->
  let dropped := releaseAllModel T g in
  _models dropped = []
  /\ _models (run T touch view engine ops dropped) = []
  /\ _sceneIndex (run T touch view engine ops dropped) = _sceneIndex g
  /\ Forall (fun r => r = Wav.Val tt) (releases touch view engine ops dropped).
Proof.
  intros H dropped. split; [reflexivity |].
  apply (unheld_run ops dropped); [reflexivity | exact H].
Qed.

End Facts.

End SceneFacts.

Module SceneWitnesses.

Import Model ModelInputs Manager ManagerInputs ManagerScenes SceneInputs SceneFacts.

Lemma nextScene_goes_round_witness :
  0 <= _sceneIndex pressed
  /\ _sceneIndex (nextScene (Q * Q) pressed) = 1
  /\ _sceneIndex (nextScene (Q * Q) (nextScene (Q * Q) (nextScene (Q * Q) pressed))) = 0.
Proof.
  assert (H : 0 <= _sceneIndex pressed) by (vm_compute; discriminate).
  split; [exact H |].
  destruct (nextScene_goes_round (Q * Q) pressed H) as (A & _ & _ & _ & B).
  split; [exact A | apply B; reflexivity].
Defined.

Lemma nextScene_keeps_a_negative_index_witness :
  _sceneIndex below < -1
  /\ -3 < _sceneIndex (nextScene (Q * Q) below) < 0.
Proof.
  assert (H : _sceneIndex below < -1) by reflexivity.
  split; [exact H |].
  apply (nextScene_keeps_a_negative_index (Q * Q) below H). discriminate.
Defined.

Lemma tap_before_the_manifest_throws_witness :
  fst (onPointEnded (Q * Q) deskView strictEngine 10 20 pressed) = Wav.Thrown
  /\ _captured (snd (onPointEnded (Q * Q) deskView strictEngine 10 20 pressed)) = false.
Proof.
  destruct (tap_before_the_manifest_throws (Q * Q) deskView strictEngine pressed
              (instanceFor 0) [] 10 20 eq_refl eq_refl eq_refl) as (A & B & _).
  split; [exact A | exact B].
Defined.

Lemma a_manager_without_model_ignores_the_pointer_witness :
  forallb pointer afterwards = true
  /\ _models (run (Q * Q) anchorTouch deskView strictEngine afterwards
                  (releaseAllModel (Q * Q) pressed)) = []
  /\ releases anchorTouch deskView strictEngine afterwards
              (releaseAllModel (Q * Q) pressed)
     = [Wav.Val tt; Wav.Val tt].
Proof.
  assert (H : forallb pointer afterwards = true) by reflexivity.
  split; [exact H |].
  destruct (a_manager_without_model_ignores_the_pointer (Q * Q) anchorTouch deskView
              strictEngine afterwards pressed H) as (_ & B & _ & _).
  split; [exact B | reflexivity].
Defined.

End SceneWitnesses.

(** ** What a model has been given by the time it is ready *)

Module ProfileFacts.

Import Model ModelStages ModelInputs ModelFacts ModelReady ReadyFacts ModelProfile.

Lemma bound_app a b : bound (a ++ b) = bound a ++ bound b.
Proof.
  induction a as [| c a IH]; [reflexivity |].
  destruct c; cbn; rewrite ?IH; reflexivity.
Qed.

Lemma awaited_app a b : awaited (a ++ b) = awaited a ++ awaited b.
Proof.
  induction a as [| p a IH]; [reflexivity |].
  destruct p; cbn; rewrite ?IH; reflexivity.
Qed.

Lemma bound_premultiplied {A} (l : list A) :
  bound (map (fun _ => CallSetIsPremultipliedAlpha true) l) = [].
Proof. induction l; [reflexivity | exact IHl]. Qed.

Lemma awaited_textureTags dir count l :
  awaited (textureTags dir count l) = map fst (named l).
Proof.
  unfold textureTags. induction (named l) as [| e n IH]; [reflexivity |].
  cbn. rewrite IH. reflexivity.
Qed.

Lemma awaited_expressionTags count l : awaited (expressionTags count l) = [].
Proof. unfold expressionTags. induction l as [| e l IH]; [reflexivity | exact IH]. Qed.

Lemma awaited_motionTags g l : awaited (motionTags g l) = [].
Proof. unfold motionTags. induction l as [| e l IH]; [reflexivity | exact IH]. Qed.

Lemma awaited_groupTags setting groups : awaited (groupTags setting groups) = [].
Proof.
  unfold groupTags. induction groups as [| g groups IH]; [reflexivity |].
  cbn [flat_map]. rewrite awaited_app, awaited_motionTags, IH. reflexivity.
Qed.

Lemma awaited_removed ps : forall k n c f,
  nth_error ps k = Some (PTexture n c f) ->
  Permutation (n :: awaited (removeNth k ps)) (awaited ps).
Proof.
  induction ps as [| p ps IH]; intros [| k] n c f; cbn; try discriminate.
  - intros [= ->]. reflexivity.
  - intros H. specialize (IH k n c f H).
    destruct p; cbn; try exact IH.
    apply (Permutation_trans (perm_swap _ _ _)). constructor. exact IH.
Qed.

Lemma awaited_kept ps : forall k p,
  nth_error ps k = Some p -> (forall n c f, p <> PTexture n c f) ->
  awaited (removeNth k ps) = awaited ps.
Proof.
  induction ps as [| q ps IH]; intros [| k] p; cbn; try discriminate.
  - intros [= ->] H. destruct p; try reflexivity. exfalso. exact (H _ _ _ eq_refl).
  - intros H Hp. rewrite (IH k p H Hp). reflexivity.
Qed.

Section Facts.

Variable engine : Engine.
Variable s : ModelSetting.

Local Abbreviation profile := (profile s).

Ltac given H := destruct H as (P1 & P2 & P3 & P4 & P5 & P6 & P7 & P8).
Ltac kept :=
  unfold ModelProfile.profile; cbn;
  rewrite ?bound_app, ?awaited_app, ?awaited_expressionTags, ?awaited_groupTags;
  cbn; rewrite ?app_nil_r;
  repeat split; assumption.

Lemma startTextures_profile m :
  _modelSetting m = Some s ->
  profile 17 m -> profile 21 (startTextures m).
Proof.
  intros Hs H. given H. unfold startTextures, setupTextures. cbn. rewrite Hs.
  rewrite fold_textures. unfold ModelProfile.profile. cbn.
  rewrite !bound_app, bound_premultiplied, awaited_app, awaited_textureTags. cbn.
  rewrite !app_nil_r. cbn in P7, P8. rewrite P7, P8. cbn.
  repeat split; try assumption. reflexivity.
Qed.

Lemma loadCubismMotion_profile m :
  _modelSetting m = Some s -> _model (base m) = true ->
  profile 16 m ->
  profile (rank (_state (loadCubismMotion m))) (loadCubismMotion m).
Proof.
  intros Hs Hm H. unfold loadCubismMotion. cbn. rewrite Hm. cbn. rewrite Hs.
  rewrite fold_counts, fold_groups.
  destruct (getMotionGroupCount s =? 0).
  - rewrite (startTextures_state s) by exact Hs.
    apply startTextures_profile; [exact Hs | given H; kept].
  - given H. kept.
Qed.

Lemma setupLayout_profile m :
  _modelSetting m = Some s -> _state m = SetupLayout ->
  profile 15 m ->
  profile (rank (_state (setupLayout m))) (setupLayout m).
Proof.
  intros Hs Hst H. unfold setupLayout. rewrite Hs.
  destruct (_model (base m)) eqn:Hm.
  - apply loadCubismMotion_profile; try assumption; given H; kept.
  - cbn. rewrite Hst. given H. kept.
Qed.

Lemma setupLipSyncIds_profile m :
  _modelSetting m = Some s ->
  profile 14 m ->
  profile (rank (_state (setupLipSyncIds m))) (setupLipSyncIds m).
Proof.
  intros Hs H. unfold setupLipSyncIds. rewrite Hs.
  apply setupLayout_profile; try assumption; try reflexivity.
  given H. unfold ModelProfile.profile. cbn. cbn in P4. rewrite P4.
  repeat split; assumption.
Qed.

Lemma setupEyeBlinkIds_profile m :
  _modelSetting m = Some s ->
  profile 13 m ->
  profile (rank (_state (setupEyeBlinkIds m))) (setupEyeBlinkIds m).
Proof.
  intros Hs H. unfold setupEyeBlinkIds. rewrite Hs.
  apply setupLipSyncIds_profile; try assumption.
  given H. unfold ModelProfile.profile. cbn. cbn in P3. rewrite P3.
  repeat split; assumption.
Qed.

Lemma onUserData_profile b m :
  _modelSetting m = Some s ->
  profile 12 m ->
  profile (rank (_state (onUserData b m))) (onUserData b m).
Proof.
  intros Hs H. unfold onUserData.
  apply setupEyeBlinkIds_profile; try assumption; given H; kept.
Qed.

Lemma loadUserDataFile_profile m :
  _modelSetting m = Some s ->
  profile 11 m ->
  profile (rank (_state (loadUserDataFile m))) (loadUserDataFile m).
Proof.
  intros Hs H. unfold loadUserDataFile. rewrite Hs.
  destruct (negb (String.eqb (userDataFile s) "")).
  - given H. kept.
  - apply setupEyeBlinkIds_profile; try assumption; given H; kept.
Qed.

Lemma setupBreath_profile m :
  _modelSetting m = Some s ->
  profile 10 m ->
  profile (rank (_state (setupBreath m))) (setupBreath m).
Proof.
  intros Hs H. unfold setupBreath.
  apply loadUserDataFile_profile; try assumption.
  given H. kept.
Qed.

Lemma setupEyeBlink_profile m :
  _modelSetting m = Some s ->
  profile 9 m ->
  profile (rank (_state (setupEyeBlink m))) (setupEyeBlink m).
Proof.
  intros Hs H. unfold setupEyeBlink. rewrite Hs.
  apply setupBreath_profile; given H.
  - destruct (0 <? getEyeBlinkParameterCount s); exact Hs.
  - unfold ModelProfile.profile. destruct (0 <? getEyeBlinkParameterCount s) eqn:E;
      cbn; rewrite ?bound_app; cbn; rewrite ?app_nil_r; repeat split; assumption.
Qed.

Lemma onPose_profile b m :
  _modelSetting m = Some s ->
  profile 8 m ->
  profile (rank (_state (onPose engine b m))) (onPose engine b m).
Proof.
  intros Hs H. unfold onPose.
  apply setupEyeBlink_profile; try assumption; given H; kept.
Qed.

Lemma loadCubismPose_profile m :
  _modelSetting m = Some s ->
  profile 7 m ->
  profile (rank (_state (loadCubismPose m))) (loadCubismPose m).
Proof.
  intros Hs H. unfold loadCubismPose. rewrite Hs.
  destruct (negb (String.eqb (poseFileName s) "")).
  - given H. kept.
  - apply setupEyeBlink_profile; try assumption; given H; kept.
Qed.

Lemma onPhysics_profile b m :
  _modelSetting m = Some s ->
  profile 6 m ->
  profile (rank (_state (onPhysics engine b m))) (onPhysics engine b m).
Proof.
  intros Hs H. unfold onPhysics.
  apply loadCubismPose_profile; try assumption; given H; kept.
Qed.

Lemma loadCubismPhysics_profile m :
  _modelSetting m = Some s ->
  profile 5 m ->
  profile (rank (_state (loadCubismPhysics m))) (loadCubismPhysics m).
Proof.
  intros Hs H. unfold loadCubismPhysics. rewrite Hs.
  destruct (negb (String.eqb (physicsFileName s) "")).
  - given H. kept.
  - apply loadCubismPose_profile; try assumption; given H; kept.
Qed.

Lemma loadCubismExpression_profile m :
  _modelSetting m = Some s ->
  profile 3 m ->
  profile (rank (_state (loadCubismExpression m))) (loadCubismExpression m).
Proof.
  intros Hs H. unfold loadCubismExpression. rewrite Hs.
  destruct (0 <? getExpressionCount s).
  - rewrite fold_expressions. given H. kept.
  - apply loadCubismPhysics_profile; try assumption; given H; kept.
Qed.

(** *** The completion handlers *)

Lemma fetched_profile m k r :
  staged s false m -> profile (rank (_state m)) m ->
  profile (rank (_state (fetched engine k r m))) (fetched engine k r m).
Proof.
  intros HI H. unfold fetched.
  destruct (nth_error (pending m) k) as [p |] eqn:En; [| exact H].
  destruct HI as (Hs & _ & _ & Hst).
  destruct (_state m) eqn:Est; try contradiction.
  - destruct Hst as [Hp _]. exfalso. exact (nth_nil _ _ _ Hp En).
  - (* WaitLoadModel *)
    destruct Hst as (_ & _ & Hsingle).
    destruct (nth_single _ _ _ _ _ Hsingle En) as (Hp & -> & [f ->]).
    rewrite Hp in *. cbn [removeNth]. unfold onModel.
    destruct r as [body | body |]; cbn [arrayBufferOf].
    + apply loadCubismExpression_profile; [exact Hs | given H; kept].
    + apply loadCubismExpression_profile; [exact Hs | given H; kept].
    + cbn. rewrite Est. given H. kept.
  - (* WaitLoadExpression *)
    destruct Hst as (_ & Hall & _).
    pose proof (proj1 (Forall_forall _ _) Hall p (nth_error_In _ _ En)) as (n & f & ->).
    assert (Ha : awaited (removeNth k (pending m)) = awaited (pending m))
      by (apply (awaited_kept _ _ _ En); discriminate).
    unfold thenWith. destruct (arrayBufferOf r) as [b |].
    + unfold onExpression. cbn.
      destruct (Z.of_nat (expressionTotal s) <=? _expressionCount m + 1).
      * apply loadCubismPhysics_profile; [exact Hs |].
        given H. unfold ModelProfile.profile. cbn. rewrite bound_app, Ha. cbn.
        rewrite app_nil_r. repeat split; assumption.
      * cbn. rewrite Est. given H. unfold ModelProfile.profile. cbn.
        rewrite bound_app, Ha. cbn. rewrite app_nil_r. repeat split; assumption.
    + cbn. rewrite Est. given H. unfold ModelProfile.profile. cbn. rewrite Ha.
      repeat split; assumption.
  - (* WaitLoadPhysics *)
    destruct Hst as (_ & Hsingle).
    destruct (nth_single _ _ _ _ _ Hsingle En) as (Hp & -> & [f ->]).
    rewrite Hp in *. cbn [removeNth]. unfold thenWith.
    destruct (arrayBufferOf r) as [b |].
    + apply onPhysics_profile; [exact Hs | given H; kept].
    + cbn. rewrite Est. given H. kept.
  - (* WaitLoadPose *)
    destruct Hst as (_ & Hsingle).
    destruct (nth_single _ _ _ _ _ Hsingle En) as (Hp & -> & [f ->]).
    rewrite Hp in *. cbn [removeNth]. unfold thenWith.
    destruct (arrayBufferOf r) as [b |].
    + apply onPose_profile; [exact Hs | given H; kept].
    + cbn. rewrite Est. given H. kept.
  - (* WaitLoadUserData *)
    destruct Hst as (_ & Hsingle).
    destruct (nth_single _ _ _ _ _ Hsingle En) as (Hp & -> & [f ->]).
    rewrite Hp in *. cbn [removeNth]. unfold thenWith.
    destruct (arrayBufferOf r) as [b |].
    + apply onUserData_profile; [exact Hs | given H; kept].
    + cbn. rewrite Est. given H. kept.
  - destruct Hst as (_ & Hp & _). exfalso. exact (nth_nil _ _ _ Hp En).
  - (* WaitLoadMotion *)
    destruct Hst as (_ & _ & Hall & _).
    pose proof (proj1 (Forall_forall _ _) Hall p (nth_error_In _ _ En)) as (g & i & f & ->).
    assert (Ha : awaited (removeNth k (pending m)) = awaited (pending m))
      by (apply (awaited_kept _ _ _ En); discriminate).
    unfold thenWith. destruct (arrayBufferOf r) as [b |].
    + unfold onMotion. cbn.
      destruct (buildsMotion engine b); cbn;
        match goal with |- context [if ?c then _ else _] => destruct c end.
      all: try (rewrite (startTextures_state s) by exact Hs;
                apply startTextures_profile; [exact Hs |]).
      all: try (cbn; rewrite Est).
      all: given H; unfold ModelProfile.profile; cbn; rewrite ?bound_app, Ha; cbn;
        rewrite ?app_nil_r; repeat split; assumption.
    + cbn. rewrite Est. given H. unfold ModelProfile.profile. cbn. rewrite Ha.
      repeat split; assumption.
  - (* WaitLoadTexture *)
    destruct Hst as (_ & _ & Hall & _).
    pose proof (proj1 (Forall_forall _ _) Hall p (nth_error_In _ _ En)) as (n & f & ->).
    rewrite Est. exact H.
  - destruct Hst as (_ & _ & Hp & _). exfalso. exact (nth_nil _ _ _ Hp En).
Qed.

Lemma textured_profile m k texture :
  staged s false m -> profile (rank (_state m)) m ->
  profile (rank (_state (textured k texture m))) (textured k texture m).
Proof.
  intros HI H. unfold textured.
  destruct (nth_error (pending m) k) as [p |] eqn:En; [| exact H].
  destruct p as [f | f | c n f | f | f | f | g i f | number count path]; try exact H.
  pose proof (awaited_removed _ _ _ _ _ En) as Hperm.
  assert (Hin : In number (awaited (pending m))).
  { apply (Permutation_in _ Hperm). left. reflexivity. }
  destruct HI as (Hs & _ & _ & Hst).
  destruct (_state m) eqn:Est; try contradiction;
    try (destruct H as (_ & _ & _ & _ & _ & _ & _ & H8); cbn in H8; rewrite H8 in Hin;
         contradiction).
  - destruct H as (P1 & P2 & P3 & P4 & P5 & P6 & P7). cbn in P7.
    unfold onLoad. cbn.
    assert (Hnew : Permutation
                     ((bound (calls m) ++ [number]) ++ awaited (removeNth k (pending m)))
                     (slots s)).
    { rewrite <- app_assoc. cbn [app].
      apply (Permutation_trans (l' := bound (calls m) ++ awaited (pending m)));
        [apply Permutation_app_head; exact Hperm | exact P7]. }
    destruct (count <=? _textureCount m + 1); cbn; rewrite ?Est;
      unfold ModelProfile.profile; cbn; rewrite bound_app; cbn;
      repeat split; assumption.
  - destruct Hst as (_ & _ & Hp & _). exfalso. exact (nth_nil _ _ _ Hp En).
Qed.

Lemma run_profile events : forall m,
  staged s false m -> profile (rank (_state m)) m ->
  profile (rank (_state (run engine events m))) (run engine events m).
Proof.
  induction events as [| e events IH]; intros m HI H; [exact H |].
  change (run engine (e :: events) m) with (run engine events (deliver engine m e)).
  apply IH.
  - apply deliver_staged; [exact HI | discriminate].
  - destruct e as [k r | k texture]; cbn [deliver];
      [apply fetched_profile | apply textured_profile]; assumption.
Qed.

Lemma parsed_profile dir :
  profile (rank (_state (parsed dir s))) (parsed dir s).
Proof.
  unfold parsed, setupModel. destruct (String.eqb (modelFileName s) "");
    cbn; unfold ModelProfile.profile; cbn; repeat split.
Qed.

Lemma slots_all (l : list string) : forall start,
  List.length (named (combine (seq start (List.length l)) l)) = List.length l ->
  map fst (named (combine (seq start (List.length l)) l)) = seq start (List.length l).
Proof.
  induction l as [| f l IH]; intros start H; [reflexivity |].
  cbn [List.length seq combine] in *. unfold named in *. cbn [filter snd] in *.
  pose proof (length_named (combine (seq (S start) (List.length l)) l)) as Hle.
  rewrite length_combine, length_seq, Nat.min_id in Hle.
  destruct (String.eqb f ""); cbn [negb List.length map fst] in *; [lia |].
  f_equal. apply IH. lia.
Qed.

Lemma slots_NoDup : NoDup (slots s).
Proof.
  unfold slots, named, indexed.
  generalize 0%nat. induction (textureFileNames s) as [| f l IH]; intros start; [constructor |].
  cbn [List.length seq combine filter snd].
  assert (Hfrom : forall n, In n (map fst (filter (fun e => negb (String.eqb (snd e) ""))
                                            (combine (seq (S start) (List.length l)) l))) ->
                            (start < n)%nat).
  { intros n Hin. apply in_map_iff in Hin. destruct Hin as ([i g] & <- & Hin).
    apply filter_In in Hin. destruct Hin as [Hin _]. apply in_combine_l in Hin.
    apply in_seq in Hin. cbn. lia. }
  destruct (negb (String.eqb f "")); cbn [map fst]; [| apply IH].
  constructor; [| apply IH]. intros Hin. apply Hfrom in Hin. lia.
Qed.

Lemma run_both dir events :
  staged s false (run engine events (parsed dir s))
  /\ profile (rank (_state (run engine events (parsed dir s))))
             (run engine events (parsed dir s)).
Proof.
  split.
  - apply run_staged; [apply parsed_staged | discriminate].
  - apply run_profile; [apply parsed_staged | apply parsed_profile].
Qed.

(** X24: a model in CompleteSetup has been set up from its manifest once:
    its lip-sync and eye-blink parameter ids are the manifest's, each list
    once and in order; it has a breath, and an eye blink exactly when the
    manifest lists eye-blink parameters; it is initialised and no longer
    updating. *)
Theorem a_ready_model_is_set_up_from_its_manifest (dir : string) (events : list Event) :
  let m := run engine events (parsed dir s) in
  _state m = CompleteSetup ->
  _lipSyncIds m = lipSyncParameterIds s
  /\ _eyeBlinkIds m = eyeBlinkParameterIds s
  /\ _eyeBlink (base m) = (0 <? getEyeBlinkParameterCount s)
  /\ _breath (base m) = true
  /\ _initialized (base m) = true
  /\ _updating (base m) = false.
Proof.
  intros m Est. destruct (run_both dir events) as [_ H]. fold m in H. rewrite Est in H.
  destruct H as (P1 & P2 & P3 & P4 & P5 & P6 & _). repeat split; assumption.
Qed.

(** X25: no texture is bound twice, whatever completes; and once the model
    is in CompleteSetup every texture of the manifest has been bound exactly
    once: the texture numbers bound are the numbers 0 to count - 1, in the
    order their images arrived. *)
Theorem every_texture_is_bound_once (dir : string) (events : list Event) :
  let m := run engine events (parsed dir s) in
  NoDup (bound (calls m))
  /\ (_state m = CompleteSetup ->
      Permutation (bound (calls m)) (seq 0 (List.length (textureFileNames s)))).
Proof.
  intros m. destruct (run_both dir events) as [HI H]. fold m in HI, H. split.
  - destruct H as (_ & _ & _ & _ & _ & _ & H).
    destruct (21 <=? rank (_state m))%nat.
    + apply (NoDup_app_remove_r (bound (calls m)) (awaited (pending m))).
      apply (Permutation_NoDup (Permutation_sym H)). apply slots_NoDup.
    + destruct H as [-> _]. constructor.
  - intros Est. rewrite Est in H. destruct H as (_ & _ & _ & _ & _ & _ & H). cbn in H.
    destruct HI as (_ & _ & _ & Hst). rewrite Est in Hst.
    destruct Hst as (_ & _ & Hp & _ & _ & Hall).
    rewrite Hp in H. cbn in H. rewrite app_nil_r in H.
    unfold slots, indexed in H. unfold namedTotal, textureTotal, indexed in Hall.
    rewrite (slots_all _ 0%nat Hall) in H. exact H.
Qed.

Lemma fold_envelope value weight ids : forall m,
  fold_left (fun m parameter => addParameterValueById parameter (Envelope value) weight m) ids m
  = set_calls (calls m ++ map (fun parameter => CallAddParameterValue parameter (Envelope value) weight) ids) m.
Proof.
  induction ids as [| p ids IH]; intros m; cbn [fold_left map].
  - rewrite app_nil_r. destruct m; reflexivity.
  - rewrite IH. unfold addParameterValueById, call, set_calls. cbn.
    rewrite <- app_assoc. reflexivity.
Qed.

Lemma fed_app a b : fed (a ++ b) = fed a ++ fed b.
Proof.
  induction a as [| c a IH]; [reflexivity |].
  destruct c; cbn; rewrite ?IH; try reflexivity.
  destruct value; cbn; rewrite ?IH; reflexivity.
Qed.

Lemma fed_envelope value weight ids :
  fed (map (fun parameter => CallAddParameterValue parameter (Envelope value) weight) ids)
  = map (fun parameter => (parameter, value, weight)) ids.
Proof. induction ids as [| p ids IH]; [reflexivity |]. cbn. rewrite IH. reflexivity. Qed.

Lemma update_feeds f m value :
  _state m = CompleteSetup -> _lipsync (base m) = true -> rms f = Some value ->
  fst (update f m) = Wav.Val tt
  /\ fed (calls (snd (update f m)))
     = fed (calls m) ++ map (fun parameter => (parameter, value, 8 # 10)) (_lipSyncIds m)
  /\ last (calls (snd (update f m))) CallModelUpdate = CallModelUpdate
  /\ _state (snd (update f m)) = CompleteSetup.
Proof.
  intros Est Hl Hr.
  destruct m as [[bm be bb bp bpo bl bo bx by_ bu bi]
                 sett dir ut ebi lsi mo ex st ec tc mc amc pend lg cs].
  destruct f as [dt dx dy mf mu rm].
  cbn in Est, Hl, Hr. subst st bl rm.
  destruct mf, mu, be, bb, bp, bpo;
    cbv -[Qmult Qplus Qopp inject_Z app fold_left fed last map];
    match goal with
    | |- context [fold_left ?F ?ids ?m0] =>
        change (fold_left F ids m0)
          with (fold_left (fun m parameter =>
                             addParameterValueById parameter (Envelope value) (8 # 10) m)
                          ids m0)
    end;
    rewrite fold_envelope;
    cbv -[Qmult Qplus Qopp inject_Z app fed last map];
    rewrite ?fed_app, ?fed_envelope; cbn [fed app]; rewrite ?app_nil_r;
    (split; [reflexivity |]); (split; [reflexivity |]);
    (split; [rewrite ?last_last; reflexivity | reflexivity]).
Qed.

(** X26: in a frame of a ready model with lip sync on, when the WAV handler
    reports an envelope, the envelope is added exactly once to each lip-sync
    parameter of the manifest, in the manifest's order and with weight 0.8;
    the frame returns, ends with the update of the model, and leaves the
    model in CompleteSetup. *)
Theorem a_frame_feeds_the_envelope_to_the_lip_sync_ids
    (dir : string) (events : list Event) (f : Frame) (value : Num.root) :
  let m := run engine events (parsed dir s) in
  _state m = CompleteSetup -> _lipsync (base m) = true -> rms f = Some value ->
  fst (update f m) = Wav.Val tt
  /\ fed (calls (snd (update f m)))
     = fed (calls m) ++ map (fun parameter => (parameter, value, 8 # 10)) (lipSyncParameterIds s)
  /\ last (calls (snd (update f m))) CallModelUpdate = CallModelUpdate
  /\ _state (snd (update f m)) = CompleteSetup.
Proof.
  intros m Est Hl Hr. destruct (run_both dir events) as [_ H]. fold m in H. rewrite Est in H.
  destruct H as (_ & _ & _ & P4 & _). cbn in P4. rewrite <- P4.
  apply update_feeds; assumption.
Qed.

End Facts.

Section Frames.

Variable T : Type.

(** X27: when the WAV handler throws in a frame of a ready model with lip
    sync on, the frame ends there: the exception leaves [update] and
    [onUpdate], no envelope is added, neither the pose nor the model is
    updated, and the manager draws nothing. *)
Theorem a_frame_that_throws_is_not_drawn
    (g : Manager.LAppLive2DManager T) (model : LAppModel) (rest : list LAppModel)
    (widen : bool) (f : Frame) :
  Manager._models g = model :: rest ->
  _state model = CompleteSetup -> _lipsync (base model) = true -> rms f = None ->
  let r := Manager.onUpdate T widen f g in
  fst r = Wav.Thrown
  /\ exists model' more,
       Manager._models (snd r) = model' :: rest
       /\ calls model' = calls model ++ more
       /\ forallb (fun c => negb (finishing c)) more = true.
Proof.
  intros Hg Est Hl Hr r.
  destruct g as [models index touchManager captured]. cbn in Hg. subst models.
  destruct model as [[bm be bb bp bpo bl bo bx by_ bu bi]
                     sett dir ut ebi lsi mo ex st ec tc mc amc pend lg cs].
  destruct f as [dt dx dy mf mu rm].
  cbn in Est, Hl, Hr. subst st bl rm.
  destruct bm, widen, mf, mu, be, bb, bp;
    cbv -[Qmult Qplus Qopp inject_Z app];
    (split; [reflexivity |]);
    eexists _, _; (split; [reflexivity |]); rewrite <- ?app_assoc; cbn [app];
    (split; [reflexivity |]); reflexivity.
Qed.

End Frames.

End ProfileFacts.

Module ProfileWitnesses.

Import Model ModelStages ModelInputs ModelReady ReadyInputs ModelProfile ProfileInputs ProfileFacts.

Lemma ready_state : _state (run strictEngine fullLoad (parsed "/Haru/" haru)) = CompleteSetup.
Proof. vm_compute. reflexivity. Defined.

Lemma a_ready_model_is_set_up_from_its_manifest_witness :
  _state ready = CompleteSetup
  /\ _lipSyncIds ready = ["ParamMouthOpenY"]%string
  /\ _eyeBlinkIds ready = ["ParamEyeLOpen"; "ParamEyeROpen"]%string.
Proof.
  unfold ready. split; [exact ready_state |].
  destruct (a_ready_model_is_set_up_from_its_manifest strictEngine haru "/Haru/" fullLoad
              ready_state) as (A & B & _).
  split; [exact A | exact B].
Defined.

Lemma every_texture_is_bound_once_witness :
  _state ready = CompleteSetup /\ Permutation (bound (calls ready)) [0; 1]%nat.
Proof.
  unfold ready. split; [exact ready_state |].
  apply (every_texture_is_bound_once strictEngine haru "/Haru/" fullLoad). exact ready_state.
Defined.

Lemma a_frame_feeds_the_envelope_to_the_lip_sync_ids_witness :
  _state ready = CompleteSetup
  /\ fed (calls (snd (update stillFrame ready)))
     = fed (calls ready) ++ [("ParamMouthOpenY"%string, Num.Sqrt 0, 8 # 10)].
Proof.
  unfold ready. split; [exact ready_state |].
  assert (L : _lipsync (base (run strictEngine fullLoad (parsed "/Haru/" haru))) = true)
    by (vm_compute; reflexivity).
  destruct (a_frame_feeds_the_envelope_to_the_lip_sync_ids strictEngine haru "/Haru/"
              fullLoad stillFrame (Num.Sqrt 0) ready_state L eq_refl) as (_ & A & _).
  exact A.
Defined.

Lemma a_frame_that_throws_is_not_drawn_witness :
  fst (Manager.onUpdate (Q * Q) false brokenFrame showing) = Wav.Thrown.
Proof.
  assert (L : _lipsync (base ready) = true) by (vm_compute; reflexivity).
  apply (a_frame_that_throws_is_not_drawn (Q * Q) showing ready [] false brokenFrame
           eq_refl ready_state L eq_refl).
Defined.

End ProfileWitnesses.
